(* ===== verification/_CoqProject ===== *)
-Q . S2P
Prelude.v
Bytes.v
TaskModel.v
Lease.v
Scheduler.v
SchedulerSpec.v
SchedulerThms.v
TaskRpc.v
Broker.v
BrokerThms.v
TaskRpcServer.v
TaskWorker.v
Cron.v
TaskIngress.v
TaskIngressThms.v
DurableTypes.v
DurableDb.v
DurableStore.v
DurableWakeups.v
DurableExec.v
DurableLogic.v
DurableSpec.v
DurableInv.v
DurableRefine.v
DurableThms.v
DurableFencing.v
DurableSignals.v
DurableSession.v
DurableRuntime.v
DurableReplay.v
Tap.v
TapThms.v
SourceMap.v
SourceMapThms.v
Manifest.v
ManifestThms.v
TaskRunner.v
Sandbox.v
Ipc.v
Isolate.v
IsolateThms.v
IsolateWorker.v
DurableDispatch.v
DurableDispatchThms.v
DurablePoll.v
DurablePollThms.v
Capability.v
CapabilityThms.v
FsCap.v
FsCapThms.v
HostStreams.v
HostStreamsThms.v
Fetch.v
FetchThms.v
Distribution.v
DistributionThms.v
Files.v
FilesThms.v
PathsThms.v
Evidence.v
EvidenceThms.v
Signing.v
SigningThms.v
Platform.v
Upgrade.v
UpgradeThms.v
UpgradeRunThms.v
UpgradeVersionThms.v
UpgradeInstallThms.v
UpgradeSafetyThms.v
UpgradeAuthThms.v
UpgradeSample.v
UpgradeLock.v
UpgradeLockThms.v
