(* ===== verification/Prelude.v ===== *)
(** * Tysel: a verification of the runtime

    Tysel runs TypeScript services and durable tasks. A manifest describes an
    application; a package (TAP) carries it. Tasks reach a bounded in-memory
    scheduler through the ingress (HTTP, cron, agents), and worker processes claim
    them over TaskRPC. Durable tasks record the result of every boundary in a store,
    so that a script killed at any moment is replayed; the dispatcher and the poller
    claim, run and finish them. Untrusted code runs in a supervised worker that
    confines itself with Landlock, seccomp and resource limits. Trusted code reaches
    files and the network through capabilities. Releases are described by signed
    metadata under a trust policy, and a managed installation upgrades itself to them.

    ** Files

    Shared.
    - [Prelude]: results, the state-and-error monad, machine integers, strings, the
      hint database [tysel] and the tactics. [Bytes]: integer encodings and UTF-8.
    - [Lease]: the interface of generation-fenced leases, which [Scheduler] and the
      durable executions both implement.

    Tasks.
    - [TaskModel]: [crates/tysel-task]. [Scheduler], [SchedulerSpec],
      [SchedulerThms]: [crates/tysel-scheduler], as functions on its state, the
      invariant of that state, and reachable states as a step relation.
    - [TaskRpc]: [crates/tysel-task-rpc], messages and frames. [Broker],
      [BrokerThms], [TaskRpcServer], [TaskWorker]: [runtime/task_rpc.rs].
    - [Cron], [TaskIngress], [TaskIngressThms]: [runtime/task_ingress.rs].
    - [Manifest], [ManifestThms]: [crates/tysel-manifest]. [TaskRunner]:
      [cli/task.rs], which runs the task table of a manifest.

    Durable execution.
    - [DurableTypes], [DurableDb], [DurableStore], [DurableWakeups], [DurableExec]:
      [crates/tysel-durable], every table a map and every operation a transaction.
      [DurableLogic] is a logic for transactions, [DurableSpec] the abstract
      transitions and the invariant, [DurableInv] its preservation, [DurableRefine]
      the refinement of the operations to the transitions; [DurableThms],
      [DurableFencing] and [DurableSignals] draw the consequences.
    - [DurableSession]: [engine-qjs/durable.rs]. [DurableRuntime]: the boundaries of
      [runtime-js/durable]. [DurableReplay]: what replay guarantees.
    - [DurableDispatch], [DurableDispatchThms]: [runtime/durable.rs].
      [DurablePoll], [DurablePollThms]: [runtime/durable_poll.rs], a batch as a step
      relation over its concurrent dispatches.

    Packages.
    - [Tap], [TapThms]: [package/tap.rs]. [SourceMap], [SourceMapThms]:
      [package/sourcemap.rs].

    Isolation and capabilities.
    - [Sandbox]: [isolate/seccomp.rs], [landlock.rs], [rlimit.rs], the seccomp program
      instruction by instruction. [Ipc]: [crates/tysel-engine], [crates/tysel-ipc].
      [Isolate], [IsolateThms]: [isolate/supervisor.rs], [broker.rs].
      [IsolateWorker]: [isolate/worker.rs].
    - [Capability], [CapabilityThms]: [crates/tysel-capability],
      [crates/tysel-policy]. [FsCap], [FsCapThms]: [crates/tysel-cap-fs].
    - [HostStreams], [HostStreamsThms]: operations and response bodies of
      [engine-qjs/queue.rs]. [Fetch], [FetchThms]: [engine-qjs/secrets.rs],
      [fetch_policy.rs] and the redirect loop of [queue.rs].

    Releases.
    - [Distribution], [DistributionThms]: [crates/tysel-distribution], targets, build
      identities, release manifests, channel pointers and managed installations.
    - [Files], [FilesThms], [PathsThms]: the file system that releases and upgrades
      use, a tree in which any operation may fail or be torn, and what operations
      leave alone.
    - [Evidence], [EvidenceThms]: [build/supply_chain.rs], [build/evidence.rs].
      [Signing], [SigningThms]: [build/signing.rs], [crates/tysel-release-signing].
    - [Platform]: [cli/platform.rs], [cli/integrity.rs] and the verification of an
      installed release in [cli/release.rs]. [Upgrade]: [cli/upgrade.rs], one
      definition per function and per part of [upgrade]; the network, the clock, tar,
      child processes and the terminal are the fields of its [World]. [UpgradeThms]
      is about the switch to a release, [UpgradeRunThms] about what comes before it,
      [UpgradeInstallThms] about the release that is then installed,
      [UpgradeVersionThms] about the version directory that a failed switch puts back,
      [UpgradeSafetyThms] and [UpgradeAuthThms] about whole runs; [UpgradeSample] is
      a machine on which they run. [UpgradeLock], [UpgradeLockThms]: the lock of
      [cli/upgrade.rs], as steps of interleaved processes.

    ** Conventions

    A fixed-width integer is a [Z] with its checks, saturation and wrap-around
    written out; a [str] is its bytes; a [HashMap] is a [gmap]. Fallible code
    returns [result]; code on a shared state returns it beside the result, so what
    was written before an error stays written. Concurrency is a step relation or a
    sequence of operations in any order. Code that is not in the repository is a
    type class: JSON, TOML and SHA-256, semantic versions and URIs, the JavaScript
    engine, the kernel, the network and the clocks. What is assumed of it is stated
    as laws of its own ([EnvelopeSerdeLaws], [Sha256Laws], [SemverLaws],
    [KernelLaws] and the like); the main theorems that use laws are applied to a
    concrete instance. That a JSON value survives its text is no law, since
    [serde_json] refuses deep nesting and may lose the last digit of a float: the
    theorems that need it ask it of the values at hand ([readable],
    [stable_text], [survives]).

    ** Results

    - Confinement: isolated code only ever runs sandboxed
      ([isolated_code_is_confined]) under a filter whose decisions are computed
      exactly ([seccomp_filter_exact]); secret values influence nothing a worker sees
      ([secrets_never_leave]); files stay beneath configured roots ([fs_confined]);
      fetches stay on permitted hosts and secrets on their origin
      ([outbound_fetch_confined]); capabilities resolve exactly ([resolve_exact]).
    - At most once: claims, commits, outcomes and leases of the scheduler, the broker
      and the durable store are exclusive, fenced and final
      ([claim_commits_once], [broker_commits_once], [stale_execution_fenced]), and a
      worker learns what the broker decided ([worker_commit_end_to_end]).
    - Histories: gap-free, append-only, one path of the script across crashes
      ([history_gap_free], [durable_append_only], [durable_single_path]); signals
      arrive once each and in order ([signals_fifo_exactly_once]).
    - Dispatch: slots are balanced and no finished result is lost when the store
      fails ([slots_balanced], [results_never_lost]); every batch ends and every
      registered program is reached ([poll_batch_ends], [every_program_dispatched]).
    - Formats: packages, source maps, frames and imports survive encoding and
      decoding; a parsed manifest is well formed and its task table acyclic; a
      release manifest is accepted exactly when it is well formed
      ([release_manifest_exact]).
    - Releases: evidence is published whole or not at all and verifies
      ([evidence_published_whole], [evidence_roundtrip]); a signature binds one
      statement ([signature_binds]) and what is signed verifies
      ([sign_verify_roundtrip]); revocation is permanent ([revocation_permanent]).
    - Upgrades, with operations that fail at any point: the switch is all or nothing
      ([switch_all_or_nothing]) and puts a replaced version directory back
      ([replaced_version_restored]), the files of an installation are always whole
      ([managed_files_whole]), only authenticated releases are activated, and
      installed as they were signed ([upgrade_authenticated]), a revoked key never counts again
      ([revoked_key_never_returns]), a check changes nothing
      ([check_changes_nothing]); the lock excludes ([lock_exclusive]) and a stale one
      is taken over ([stale_lock_taken_over]).
    - Five theorems show defects: [transition_running_strands_queue],
      [remove_program_strands_execution], [rollback_left_switched], [lock_race] and
      [retired_key_returns].

    ** Fuel and bounds

    A loop that is not structural takes fuel from its input, and a lemma shows that
    it is enough: the queue length ([peek_loop_fuel]), the number of tasks of a
    manifest ([visit_searched]) and of a task run ([execute_progressed]), the length
    of the text for source maps ([encode_digits_some], [parse_line_some]). The
    trimming and UTF-8 walks consume a byte per unit of the length they start with.
    Decimal printing has the 39 digits of a 128-bit integer. [serve] of [Isolate] bounds
    the messages one request reads; its theorems hold for every bound. The steps of a
    batch are bounded in the number of programs ([poll_batch_ends]). The walk over an
    extracted release takes the length of the longest path ([tree_size_total]); a
    path is resolved through at most the 40 links Linux follows.

    ** Not modelled

    The Postgres store, whose transactions and locks are SQL; the HTTP server and the
    handlers around the durable plane and the task service; the isolates, pool and
    bindings of the JavaScript engine, its web API and the WebAssembly engine; the
    clients of databases, Redis, language models and MCP; cgroups, the watchdog's
    thread and the empty sandbox of systems other than Linux;
    bundling and the command line beside the task runner and the upgrade,
    telemetry, benchmarks and generated bindings. They are input and output, glue
    around tokio, hyper and engines, or tools outside a running application. Of the
    parts that are modelled, durable scripts do not catch failed boundaries or use
    [retry], lock poisoning is left out, a dispatch of the poller is
    one atomic step, and the sockets of the TaskRPC server and the timers of the
    reactor are not described. The file system has no permissions, hard links or
    links within a path, and only the last component of a path is followed; a lost
    directory entry after a power failure is not described. *)

From Stdlib Require Import ZArith Lia Ascii String.
From stdpp Require Import base tactics list list_numbers gmap strings sorting numbers.

Open Scope Z_scope.

Declare Scope rust_scope.
Delimit Scope rust_scope with rust.

(** ** Rust results and the two error monads *)

Inductive result (E A : Type) : Type :=
| Ok (a : A)
| Err (e : E).

Arguments Ok {E A} a.
Arguments Err {E A} e.

#[global] Instance result_eq_dec {E A} `{!EqDecision E, !EqDecision A} : EqDecision (result E A).
Proof. solve_decision. Defined.

#[global] Instance result_ret E : MRet (result E) := fun A a => Ok a.
#[global] Instance result_bind E : MBind (result E) := fun A B f m =>
  match m with Ok a => f a | Err e => Err e end.
#[global] Instance result_fmap E : FMap (result E) := fun A B f m =>
  match m with Ok a => Ok (f a) | Err e => Err e end.

Definition is_ok {E A} (r : result E A) : bool :=
  match r with Ok _ => true | Err _ => false end.

Definition map_err {E F A} (f : E -> F) (r : result E A) : result F A :=
  match r with Ok a => Ok a | Err e => Err (f e) end.

Definition ok_or {E A} (o : option A) (e : E) : result E A :=
  match o with Some a => Ok a | None => Err e end.

Lemma result_bind_ok {E A B} (m : result E A) (f : A -> result E B) b :
  mbind f m = Ok b <-> exists a, m = Ok a /\ f a = Ok b.
Proof. unfold mbind, result_bind. destruct m; naive_solver. Qed.

Lemma then_ok {E B} (m : result E ()) (k : result E B) b :
  mbind (fun _ => k) m = Ok b <-> m = Ok () /\ k = Ok b.
Proof. rewrite result_bind_ok. split; [intros ([] & ? & ?); auto | intros []; exists (); auto]. Qed.

Lemma ok_or_ok {E A} (o : option A) (e : E) a : ok_or o e = Ok a <-> o = Some a.
Proof. destruct o; cbn; naive_solver. Qed.

(** A fallible method on [&mut self]: the state survives an early return, so
    whatever was written before the error stays written. *)
Definition M (S E A : Type) : Type := S -> result E A * S.

#[global] Instance M_ret S E : MRet (M S E) := fun A a s => (Ok a, s).
#[global] Instance M_bind S E : MBind (M S E) := fun A B f m s =>
  match m s with
  | (Ok a, s') => f a s'
  | (Err e, s') => (Err e, s')
  end.

Definition throw {S E A} (e : E) : M S E A := fun s => (Err e, s).
Definition get_state {S E} : M S E S := fun s => (Ok s, s).
Definition modify {S E} (f : S -> S) : M S E () := fun s => (Ok (), f s).
Definition lift {S E A} (r : result E A) : M S E A := fun s => (r, s).

(** ** Machine integers

    Every fixed-width integer is a [Z]; the ranges are written out and the
    checked, saturating and converting operations follow [core::num]. *)

Definition u8_max : Z := 255.
Definition u16_max : Z := 65535.
Definition u32_max : Z := 4294967295.
Definition u64_max : Z := 18446744073709551615.
Definition u128_max : Z := 340282366920938463463374607431768211455.
Definition i64_max : Z := 9223372036854775807.
Definition i64_min : Z := -9223372036854775808.

Definition in_range (lo hi z : Z) : bool := (lo <=? z) && (z <=? hi).
Definition is_u8 (z : Z) : bool := in_range 0 u8_max z.
Definition is_u32 (z : Z) : bool := in_range 0 u32_max z.
Definition is_u64 (z : Z) : bool := in_range 0 u64_max z.
Definition is_u128 (z : Z) : bool := in_range 0 u128_max z.
Definition is_i64 (z : Z) : bool := in_range i64_min i64_max z.

Definition checked_add (hi a b : Z) : option Z :=
  if a + b <=? hi then Some (a + b) else None.
Definition checked_add_i64 (a b : Z) : option Z :=
  if is_i64 (a + b) then Some (a + b) else None.
Definition checked_mul (hi a b : Z) : option Z :=
  if a * b <=? hi then Some (a * b) else None.
Definition saturating_add (hi a b : Z) : Z := Z.min hi (a + b).
Definition saturating_sub (a b : Z) : Z := Z.max 0 (a - b).

(** [u64::try_from(i64)] and [i64::try_from(u64)]. *)
Definition i64_try_from (v : Z) : option Z := if v <=? i64_max then Some v else None.
Definition u64_try_from (v : Z) : option Z := if 0 <=? v then Some v else None.

Lemma in_range_spec lo hi z : in_range lo hi z = true <-> lo <= z <= hi.
Proof. unfold in_range. lia. Qed.

Lemma checked_add_Some hi a b c :
  checked_add hi a b = Some c <-> c = a + b /\ a + b <= hi.
Proof. unfold checked_add. destruct (Z.leb_spec (a + b) hi); split; intros; destruct_and?; simplify_eq; try split; (done || lia). Qed.

Lemma checked_add_None hi a b : checked_add hi a b = None <-> hi < a + b.
Proof. unfold checked_add. destruct (Z.leb_spec (a + b) hi); naive_solver lia. Qed.

(** ** Byte strings

    A Rust [str] is a sequence of UTF-8 bytes; [string] is the same sequence
    with one [ascii] per byte, so [String.length] is [str::len]. *)

Definition len (s : string) : Z := Z.of_nat (String.length s).
Definition vec_len {A} (l : list A) : Z := Z.of_nat (length l).

Definition str_is_empty (s : string) : bool :=
  match s with EmptyString => true | _ => false end.

Definition byte_code (c : ascii) : Z := Z.of_N (N_of_ascii c).
Definition byte_of (z : Z) : ascii := ascii_of_N (Z.to_N z).

Definition is_ascii_digit (c : ascii) : bool := in_range 48 57 (byte_code c).
Definition is_ascii_lowercase (c : ascii) : bool := in_range 97 122 (byte_code c).
Definition is_ascii_uppercase (c : ascii) : bool := in_range 65 90 (byte_code c).
Definition is_ascii_alphabetic (c : ascii) : bool :=
  is_ascii_lowercase c || is_ascii_uppercase c.
Definition is_ascii_alphanumeric (c : ascii) : bool :=
  is_ascii_alphabetic c || is_ascii_digit c.

Fixpoint str_all (p : ascii -> bool) (s : string) : bool :=
  match s with
  | EmptyString => true
  | String c s' => p c && str_all p s'
  end.

Fixpoint str_any (p : ascii -> bool) (s : string) : bool :=
  match s with
  | EmptyString => false
  | String c s' => p c || str_any p s'
  end.

Fixpoint str_map (f : ascii -> ascii) (s : string) : string :=
  match s with
  | EmptyString => EmptyString
  | String c s' => String (f c) (str_map f s')
  end.

Definition ascii_lower (c : ascii) : ascii :=
  if is_ascii_uppercase c then byte_of (byte_code c + 32) else c.
Definition ascii_upper (c : ascii) : ascii :=
  if is_ascii_lowercase c then byte_of (byte_code c - 32) else c.
Definition to_ascii_lowercase (s : string) : string := str_map ascii_lower s.
Definition to_ascii_uppercase (s : string) : string := str_map ascii_upper s.
Definition eq_ignore_ascii_case (a b : string) : bool :=
  String.eqb (to_ascii_lowercase a) (to_ascii_lowercase b).

(** [str::strip_prefix], [str::starts_with]. *)
Fixpoint strip_prefix (p s : string) : option string :=
  match p, s with
  | EmptyString, _ => Some s
  | String a p', String b s' => if Ascii.eqb a b then strip_prefix p' s' else None
  | String _ _, EmptyString => None
  end.
Definition starts_with (p s : string) : bool :=
  match strip_prefix p s with Some _ => true | None => false end.

(** [str::contains] for a string needle. *)
Fixpoint str_contains (needle s : string) : bool :=
  starts_with needle s ||
  match s with EmptyString => false | String _ s' => str_contains needle s' end.
Definition str_contains_char (c : ascii) (s : string) : bool := str_any (Ascii.eqb c) s.

(** [str::split_once] and [str::rsplit_once] on an ASCII separator. *)
Fixpoint split_once (c : ascii) (s : string) : option (string * string) :=
  match s with
  | EmptyString => None
  | String a s' =>
      if Ascii.eqb a c then Some (EmptyString, s')
      else match split_once c s' with
           | Some (l, r) => Some (String a l, r)
           | None => None
           end
  end.
Fixpoint rsplit_once (c : ascii) (s : string) : option (string * string) :=
  match s with
  | EmptyString => None
  | String a s' =>
      match rsplit_once c s' with
      | Some (l, r) => Some (String a l, r)
      | None => if Ascii.eqb a c then Some (EmptyString, s') else None
      end
  end.

(** [str::split(c)]: the pieces between separators, one more than the separators. *)
Fixpoint str_split (c : ascii) (s : string) : list string :=
  match s with
  | EmptyString => [EmptyString]
  | String a s' =>
      if Ascii.eqb a c then EmptyString :: str_split c s'
      else match str_split c s' with
           | [] => [String a EmptyString]
           | p :: ps => String a p :: ps
           end
  end.

Fixpoint str_rev_app (s acc : string) : string :=
  match s with
  | EmptyString => acc
  | String c s' => str_rev_app s' (String c acc)
  end.
Definition str_rev (s : string) : string := str_rev_app s EmptyString.

Fixpoint str_take (n : nat) (s : string) : string :=
  match n, s with
  | S n', String c s' => String c (str_take n' s')
  | _, _ => EmptyString
  end.
Fixpoint str_drop (n : nat) (s : string) : string :=
  match n, s with
  | S n', String _ s' => str_drop n' s'
  | _, _ => s
  end.

(** [str::trim]. The Unicode [White_Space] characters, as UTF-8: the ASCII
    ones, U+0085, U+00A0, U+1680, U+2000..U+200A, U+2028, U+2029, U+202F,
    U+205F and U+3000. [ws_prefix] is the length in bytes of the white space
    character a string starts with, 0 when it starts with none. *)
Definition ascii_ws (z : Z) : bool := in_range 9 13 z || (z =? 32).
Definition ws3 (a b c : Z) : bool :=
  ((a =? 225) && (b =? 154) && (c =? 128))
  || ((a =? 226) && (b =? 128)
      && (in_range 128 138 c || (c =? 168) || (c =? 169) || (c =? 175)))
  || ((a =? 226) && (b =? 129) && (c =? 159))
  || ((a =? 227) && (b =? 128) && (c =? 128)).
Definition ws2 (a b : Z) : bool := (a =? 194) && ((b =? 133) || (b =? 160)).

Definition ws_prefix (s : string) : nat :=
  match s with
  | EmptyString => 0
  | String a s1 =>
      if ascii_ws (byte_code a) then 1
      else match s1 with
           | EmptyString => 0
           | String b s2 =>
               if ws2 (byte_code a) (byte_code b) then 2
               else match s2 with
                    | EmptyString => 0
                    | String c _ =>
                        if ws3 (byte_code a) (byte_code b) (byte_code c) then 3 else 0
                    end
           end
  end.
(** The same on the reversed string, where the last byte of the character comes first. *)
Definition ws_suffix (s : string) : nat :=
  match s with
  | EmptyString => 0
  | String a s1 =>
      if ascii_ws (byte_code a) then 1
      else match s1 with
           | EmptyString => 0
           | String b s2 =>
               if ws2 (byte_code b) (byte_code a) then 2
               else match s2 with
                    | EmptyString => 0
                    | String c _ =>
                        if ws3 (byte_code c) (byte_code b) (byte_code a) then 3 else 0
                    end
           end
  end.

Fixpoint strip_ws (w : string -> nat) (fuel : nat) (s : string) : string :=
  match fuel with
  | O => s
  | S fuel' => match w s with O => s | n => strip_ws w fuel' (str_drop n s) end
  end.
Definition trim_start (s : string) : string := strip_ws ws_prefix (String.length s) s.
Definition trim_end (s : string) : string :=
  str_rev (strip_ws ws_suffix (String.length s) (str_rev s)).
Definition trim (s : string) : string := trim_end (trim_start s).

Example trim_ex : trim (String (byte_of 194) (String (byte_of 160) "  a b ")) = "a b"%string.
Proof. reflexivity. Qed.

(** ** Number syntax *)

(** Value of a digit in base 16; [char::to_digit(16)]. *)
Definition hex_value (c : ascii) : option Z :=
  let z := byte_code c in
  if in_range 48 57 z then Some (z - 48)
  else if in_range 97 102 z then Some (z - 87)
  else if in_range 65 70 z then Some (z - 55)
  else None.

Definition digit_value (radix : Z) (c : ascii) : option Z :=
  match hex_value c with
  | Some d => if d <? radix then Some d else None
  | None => None
  end.

Fixpoint parse_digits (radix hi acc : Z) (s : string) : option Z :=
  match s with
  | EmptyString => Some acc
  | String c s' =>
      match digit_value radix c with
      | Some d =>
          let acc' := acc * radix + d in
          if acc' <=? hi then parse_digits radix hi acc' s' else None
      | None => None
      end
  end.

(** [uN::from_str_radix]: one optional plus sign, at least one digit, and an
    error as soon as the accumulator leaves the type. *)
Definition from_str_radix (radix hi : Z) (s : string) : option Z :=
  match s with
  | EmptyString => None
  | String c s' =>
      if Ascii.eqb c "+"%char
      then (if str_is_empty s' then None else parse_digits radix hi 0 s')
      else parse_digits radix hi 0 s
  end.

(** [format!] of an unsigned integer in a base up to 16, lower case, padded
    with zeros to [width] characters. *)
Definition hex_char (d : Z) : ascii :=
  if d <? 10 then byte_of (48 + d) else byte_of (87 + d).

Fixpoint format_fixed (radix : Z) (width : nat) (z : Z) : string :=
  match width with
  | O => EmptyString
  | S w => append (format_fixed radix w (z / radix)) (String (hex_char (z mod radix)) EmptyString)
  end.

Fixpoint digits_needed (radix : Z) (fuel : nat) (z : Z) : nat :=
  match fuel with
  | O => O
  | S f => if z <? radix then 1%nat else S (digits_needed radix f (z / radix))
  end.

(** [ToString] of an unsigned integer of at most 128 bits: at most 39 decimal digits. *)
Definition dec_string (z : Z) : string := format_fixed 10 (digits_needed 10 39 z) z.

Example dec_string_ex : dec_string 1000 = "1000"%string /\ dec_string 0 = "0"%string.
Proof. split; reflexivity. Qed.

Lemma append_assoc (a b c : string) : append (append a b) c = append a (append b c).
Proof. induction a as [|x a IH]; [done | exact (f_equal (String x) IH)]. Qed.

Lemma append_nil_r (a : string) : append a EmptyString = a.
Proof. induction a as [|x a IH]; [done | exact (f_equal (String x) IH)]. Qed.

Lemma append_length (a b : string) :
  String.length (append a b) = (String.length a + String.length b)%nat.
Proof. induction a as [|x a IH]; [done | exact (f_equal S IH)]. Qed.

Lemma str_all_append p a b : str_all p (append a b) = str_all p a && str_all p b.
Proof.
  induction a as [|c a IH]; [done|].
  change (append (String c a) b) with (String c (append a b)). simpl. by rewrite IH, andb_assoc.
Qed.

Lemma len_append (a b : string) : len (append a b) = len a + len b.
Proof. unfold len. rewrite append_length. lia. Qed.

Lemma len_nonneg (s : string) : 0 <= len s.
Proof. unfold len. lia. Qed.

Lemma byte_code_of z : 0 <= z < 256 -> byte_code (byte_of z) = z.
Proof. intros ?. unfold byte_code, byte_of. rewrite N_ascii_embedding; lia. Qed.

Lemma byte_of_code c : byte_of (byte_code c) = c.
Proof. unfold byte_code, byte_of. by rewrite N2Z.id, ascii_N_embedding. Qed.

Lemma byte_code_range c : 0 <= byte_code c < 256.
Proof.
  unfold byte_code. pose proof (N_ascii_bounded c). lia.
Qed.

Lemma hex_value_char d : 0 <= d < 16 -> hex_value (hex_char d) = Some d.
Proof.
  intros ?. unfold hex_value, hex_char, in_range.
  destruct (Z.ltb_spec d 10); rewrite byte_code_of by lia.
  - by rewrite (proj2 (Z.leb_le 48 (48 + d))), (proj2 (Z.leb_le (48 + d) 57)) by lia;
      cbn; f_equal; lia.
  - rewrite (proj2 (Z.leb_gt (87 + d) 57)), andb_false_r by lia.
    by rewrite (proj2 (Z.leb_le 97 (87 + d))), (proj2 (Z.leb_le (87 + d) 102)) by lia;
      cbn; f_equal; lia.
Qed.

Lemma format_fixed_length radix w z : String.length (format_fixed radix w z) = w.
Proof.
  revert z. induction w as [|w IH]; intros z; cbn [format_fixed]; [done|].
  rewrite append_length, IH. cbn. lia.
Qed.

(** Reading back a zero-padded number gives the number. *)
Lemma parse_format_fixed radix hi w acc z rest :
  2 <= radix <= 16 -> 0 <= acc -> 0 <= z < radix ^ Z.of_nat w ->
  acc * radix ^ Z.of_nat w + z <= hi ->
  parse_digits radix hi acc (append (format_fixed radix w z) rest) =
  parse_digits radix hi (acc * radix ^ Z.of_nat w + z) rest.
Proof.
  intros Hr. revert acc z rest. induction w as [|w IH]; intros acc z rest Hacc Hz Hhi.
  - cbn in *. f_equal. lia.
  - rewrite Nat2Z.inj_succ, Z.pow_succ_r in * by lia. cbn [format_fixed].
    assert (0 < radix ^ Z.of_nat w) by (apply Z.pow_pos_nonneg; lia).
    pose proof (Z.div_mod z radix ltac:(lia)). pose proof (Z.mod_pos_bound z radix ltac:(lia)).
    assert (0 <= z / radix < radix ^ Z.of_nat w).
    { split; [apply Z.div_pos; lia | apply Z.div_lt_upper_bound; lia]. }
    assert (acc * radix ^ Z.of_nat w + z / radix <= hi) by nia.
    rewrite append_assoc, IH by lia.
    change (append (String ?c EmptyString) rest) with (String c rest).
    cbn [parse_digits]. unfold digit_value. rewrite hex_value_char by lia.
    rewrite (proj2 (Z.ltb_lt (z mod radix) radix)) by lia.
    replace ((acc * radix ^ Z.of_nat w + z / radix) * radix + z mod radix)
      with (acc * (radix * radix ^ Z.of_nat w) + z) by nia.
    by rewrite (proj2 (Z.leb_le _ _)) by lia.
Qed.

(** ** Automation

    [inv_ok] takes apart a chain of [?] steps that ended in [Ok]; [split_if]
    turns boolean guards into arithmetic facts. *)

Create HintDb tysel.

Ltac split_bool :=
  repeat match goal with
  | H : _ && _ = true |- _ => apply andb_true_iff in H as [? ?]
  | H : _ || _ = false |- _ => apply orb_false_iff in H as [? ?]
  | H : negb _ = true |- _ => apply negb_true_iff in H
  | H : negb _ = false |- _ => apply negb_false_iff in H
  | H : in_range _ _ _ = true |- _ => apply in_range_spec in H
  | H : (_ <=? _) = true |- _ => apply Z.leb_le in H
  | H : (_ <=? _) = false |- _ => apply Z.leb_gt in H
  | H : (_ <? _) = true |- _ => apply Z.ltb_lt in H
  | H : (_ <? _) = false |- _ => apply Z.ltb_ge in H
  | H : (_ =? _) = true |- _ => apply Z.eqb_eq in H
  | H : (_ =? _) = false |- _ => apply Z.eqb_neq in H
  | H : String.eqb _ _ = true |- _ => apply String.eqb_eq in H
  | H : String.eqb _ _ = false |- _ => apply String.eqb_neq in H
  | H : bool_decide _ = true |- _ => apply bool_decide_eq_true in H
  | H : bool_decide _ = false |- _ => apply bool_decide_eq_false in H
  end.

Ltac unfold_monad :=
  unfold mbind, mret, M_bind, M_ret, result_bind, result_ret, throw, get_state, modify, lift in *.

Ltac inv_ok :=
  repeat (progress (unfold_monad; simplify_eq/=) || case_match; simplify_eq/=; split_bool).

(** ** Lists *)

(** [iter().take(n)] for a [usize] bound. *)
Fixpoint takeZ {A} (n : Z) (l : list A) : list A :=
  match l with
  | [] => []
  | x :: l' => if n <=? 0 then [] else x :: takeZ (n - 1) l'
  end.

Lemma takeZ_take {A} n (l : list A) : takeZ n l = take (Z.to_nat n) l.
Proof.
  revert n. induction l as [|x l IH]; intros n; cbn [takeZ]; [by rewrite take_nil|].
  destruct (Z.leb_spec n 0).
  - by replace (Z.to_nat n) with 0%nat by lia.
  - rewrite IH. by replace (Z.to_nat n) with (S (Z.to_nat (n - 1))) by lia.
Qed.

Fixpoint take_while {A} (p : A -> bool) (l : list A) : list A :=
  match l with [] => [] | x :: l' => if p x then x :: take_while p l' else [] end.
Fixpoint drop_while {A} (p : A -> bool) (l : list A) : list A :=
  match l with [] => [] | x :: l' => if p x then drop_while p l' else l end.

Lemma take_drop_while {A} p (l : list A) : take_while p l ++ drop_while p l = l.
Proof. induction l as [|x l IH]; simpl; [done|]. destruct (p x); simpl; congruence. Qed.

Lemma drop_while_ext {A} (p q : A -> bool) l :
  (forall x, x ∈ l -> p x = q x) -> drop_while p l = drop_while q l.
Proof.
  induction l as [|x l IH]; intros H; simpl; [done|].
  rewrite (H x) by left. rewrite IH; [done|]. intros; apply H; by right.
Qed.

Lemma take_while_ext {A} (p q : A -> bool) l :
  (forall x, x ∈ l -> p x = q x) -> take_while p l = take_while q l.
Proof.
  induction l as [|x l IH]; intros H; simpl; [done|].
  rewrite (H x) by left. rewrite IH; [done|]. intros; apply H; by right.
Qed.

Lemma drop_while_head {A} p (l : list A) x l' : drop_while p l = x :: l' -> p x = false.
Proof. induction l as [|y l IH]; simpl; [done|]. destruct (p y) eqn:?; naive_solver. Qed.

Lemma drop_while_subset {A} p (l : list A) x : x ∈ drop_while p l -> x ∈ l.
Proof. intros. rewrite <- (take_drop_while p l), elem_of_app. by right. Qed.

Lemma filter_notin `{EqDecision A} (x : A) (l : list A) :
  x ∉ l -> filter (fun y => y <> x) l = l.
Proof.
  induction l as [|y l IH]; intros H; [done|].
  rewrite filter_cons_True by set_solver. rewrite IH; set_solver.
Qed.

Lemma filter_all {A} (P : A -> Prop) `{!forall x, Decision (P x)} (l : list A) :
  Forall P l -> filter P l = l.
Proof. induction 1; [done|]. rewrite filter_cons_True by done. by f_equal. Qed.

Lemma filter_none {A} (P : A -> Prop) `{!forall x, Decision (P x)} (l : list A) :
  Forall (fun x => ~ P x) l -> filter P l = [].
Proof. induction 1; [done|]. by rewrite filter_cons_False by done. Qed.

Lemma filter_keeps {A} (P : A -> Prop) `{!forall x, Decision (P x)} (l : list A) :
  (forall x, x ∈ l -> P x) -> filter P l = l.
Proof. intros HP. apply filter_all. by apply list.Forall_forall. Qed.
