(* ===== verification/Bytes.v ===== *)
(** * Byte encodings shared by the wire and file formats

    [uN::to_le_bytes], [to_be_bytes] and their inverses, [[u8]::split_at] and
    [Read::read_exact] on an in-memory reader. *)

From Stdlib Require Import ZArith Lia Ascii String.
From stdpp Require Import base tactics list gmap strings.
From S2P Require Import Prelude.
Open Scope Z_scope.

Fixpoint to_le_bytes (n : nat) (z : Z) : string :=
  match n with
  | O => EmptyString
  | S n' => String (byte_of (z mod 256)) (to_le_bytes n' (z / 256))
  end.

Fixpoint from_le_bytes (s : string) : Z :=
  match s with
  | EmptyString => 0
  | String c s' => byte_code c + 256 * from_le_bytes s'
  end.

Definition to_be_bytes (n : nat) (z : Z) : string := str_rev (to_le_bytes n z).
Definition from_be_bytes (s : string) : Z := from_le_bytes (str_rev s).

Lemma to_le_bytes_length n z : String.length (to_le_bytes n z) = n.
Proof. revert z. induction n as [|n IH]; intros z; simpl; [done|]. by rewrite IH. Qed.

Lemma from_to_le_bytes n z : 0 <= z < 256 ^ Z.of_nat n -> from_le_bytes (to_le_bytes n z) = z.
Proof.
  revert z. induction n as [|n IH]; intros z Hz; simpl to_le_bytes; cbn [from_le_bytes].
  - cbn in *. lia.
  - rewrite Nat2Z.inj_succ, Z.pow_succ_r in Hz by lia.
    pose proof (Z.mod_pos_bound z 256 ltac:(lia)). pose proof (Z.div_mod z 256 ltac:(lia)).
    assert (0 <= z / 256 < 256 ^ Z.of_nat n)
      by (split; [apply Z.div_pos|apply Z.div_lt_upper_bound]; lia).
    rewrite byte_code_of, IH by lia. lia.
Qed.

Lemma from_le_bytes_range s : 0 <= from_le_bytes s < 256 ^ Z.of_nat (String.length s).
Proof.
  induction s as [|c s IH]; cbn [from_le_bytes String.length]; [cbn; lia|].
  rewrite Nat2Z.inj_succ, Z.pow_succ_r by lia. pose proof (byte_code_range c). lia.
Qed.

Lemma to_from_le_bytes s : to_le_bytes (String.length s) (from_le_bytes s) = s.
Proof.
  induction s as [|c s IH]; cbn [from_le_bytes String.length to_le_bytes]; [done|].
  pose proof (byte_code_range c).
  replace ((byte_code c + 256 * from_le_bytes s) mod 256) with (byte_code c)
    by (rewrite (Z.mul_comm 256), Z.mod_add by lia; by rewrite Z.mod_small).
  replace ((byte_code c + 256 * from_le_bytes s) / 256) with (from_le_bytes s)
    by (rewrite (Z.mul_comm 256), Z.div_add by lia; by rewrite Z.div_small).
  by rewrite byte_of_code, IH.
Qed.

Lemma str_rev_app_append s acc : str_rev_app s acc = append (str_rev s) acc.
Proof.
  unfold str_rev. revert acc. induction s as [|c s IH]; intros acc; simpl; [done|].
  by rewrite IH, (IH (String c EmptyString)), append_assoc.
Qed.

Lemma str_rev_cons c s : str_rev (String c s) = append (str_rev s) (String c EmptyString).
Proof. unfold str_rev at 1. simpl. apply str_rev_app_append. Qed.

Lemma str_rev_append a b : str_rev (append a b) = append (str_rev b) (str_rev a).
Proof.
  induction a as [|c a IH]; [by rewrite append_nil_r|].
  change (append (String c a) b) with (String c (append a b)).
  by rewrite !str_rev_cons, IH, append_assoc.
Qed.

Lemma str_rev_involutive s : str_rev (str_rev s) = s.
Proof. induction s as [|c s IH]; [done|]. by rewrite str_rev_cons, str_rev_append, IH. Qed.

Lemma str_rev_length s : String.length (str_rev s) = String.length s.
Proof.
  induction s as [|c s IH]; [done|]. rewrite str_rev_cons, append_length, IH. simpl. lia.
Qed.

Lemma to_be_bytes_length n z : String.length (to_be_bytes n z) = n.
Proof. unfold to_be_bytes. by rewrite str_rev_length, to_le_bytes_length. Qed.

Lemma from_to_be_bytes n z : 0 <= z < 256 ^ Z.of_nat n -> from_be_bytes (to_be_bytes n z) = z.
Proof. intros. unfold from_be_bytes, to_be_bytes. by rewrite str_rev_involutive, from_to_le_bytes. Qed.

Lemma to_from_be_bytes s : to_be_bytes (String.length s) (from_be_bytes s) = s.
Proof.
  unfold from_be_bytes, to_be_bytes. rewrite <- str_rev_length, to_from_le_bytes.
  apply str_rev_involutive.
Qed.

Lemma str_take_append a b : str_take (String.length a) (append a b) = a.
Proof. induction a as [|c a IH]; [by destruct b|]. exact (f_equal (String c) IH). Qed.

Lemma str_drop_append a b : str_drop (String.length a) (append a b) = b.
Proof. induction a as [|c a IH]; [by destruct b|]. exact IH. Qed.

Lemma str_take_drop n s : append (str_take n s) (str_drop n s) = s.
Proof.
  revert s. induction n as [|n IH]; intros [|c s]; simpl; try done. exact (f_equal (String c) (IH s)).
Qed.

Lemma str_take_length n s : String.length (str_take n s) = Nat.min n (String.length s).
Proof. revert s. induction n as [|n IH]; intros [|c s]; simpl; try done. by rewrite IH. Qed.

Lemma str_drop_length n s : String.length (str_drop n s) = (String.length s - n)%nat.
Proof. revert s; induction n; intros [|c s]; simpl; auto. Qed.

Lemma str_drop_append_le n a b :
  (n <= String.length a)%nat -> str_drop n (append a b) = append (str_drop n a) b.
Proof. revert a; induction n; intros [|c a]; simpl; intros; auto with lia; lia. Qed.

Lemma str_take_append_exact n a b : String.length a = n -> str_take n (append a b) = a.
Proof. intros <-. apply str_take_append. Qed.

Lemma str_take_all n s : (String.length s <= n)%nat -> str_take n s = s.
Proof.
  revert s. induction n as [|n IH]; intros [|c s]; simpl; try done; [lia|].
  intros. rewrite IH by lia. done.
Qed.

Lemma append_inj_l a b c d :
  String.length a = String.length c -> append a b = append c d -> a = c /\ b = d.
Proof.
  intros Hl He. split.
  - by rewrite <- (str_take_append a b), Hl, He, str_take_append.
  - by rewrite <- (str_drop_append a b), Hl, He, str_drop_append.
Qed.

(** [Read::read_exact] on a reader over bytes: what is left is the state, and a
    short read consumes the rest. *)
Inductive IoError := UnexpectedEof.

Definition read_exact (n : Z) : M string IoError string := fun r =>
  if len r <? n then (Err UnexpectedEof, EmptyString)
  else (Ok (str_take (Z.to_nat n) r), str_drop (Z.to_nat n) r).

Lemma read_exact_append a b n : n = len a -> read_exact n (append a b) = (Ok a, b).
Proof.
  intros ->. unfold read_exact. rewrite len_append.
  pose proof (len_nonneg b). rewrite (proj2 (Z.ltb_ge _ _)) by lia.
  unfold len. by rewrite Nat2Z.id, str_take_append, str_drop_append.
Qed.

(** ** Big-endian order *)

Lemma from_le_bytes_append a b :
  from_le_bytes (append a b) = from_le_bytes a + 256 ^ Z.of_nat (String.length a) * from_le_bytes b.
Proof.
  induction a as [|c a IH].
  { change (append EmptyString b) with b. change (256 ^ Z.of_nat (String.length EmptyString)) with 1.
    cbn [from_le_bytes]. lia. }
  change (append (String c a) b) with (String c (append a b)). cbn [from_le_bytes String.length].
  rewrite IH, Nat2Z.inj_succ, Z.pow_succ_r by lia. lia.
Qed.

Lemma from_be_bytes_cons c s :
  from_be_bytes (String c s) = byte_code c * 256 ^ Z.of_nat (String.length s) + from_be_bytes s.
Proof.
  unfold from_be_bytes. rewrite str_rev_cons, from_le_bytes_append, str_rev_length.
  cbn [from_le_bytes]. lia.
Qed.

Lemma from_be_bytes_range s : 0 <= from_be_bytes s < 256 ^ Z.of_nat (String.length s).
Proof. unfold from_be_bytes. rewrite <- str_rev_length. apply from_le_bytes_range. Qed.

(** On strings of one length the byte order is the order of the numbers. *)
Lemma from_be_bytes_compare a b :
  String.length a = String.length b -> String.compare a b = (from_be_bytes a ?= from_be_bytes b).
Proof.
  revert b. induction a as [|x a IH]; intros [|y b] Hl; try done. injection Hl as Hl.
  cbn [String.compare]. rewrite !from_be_bytes_cons.
  unfold Ascii.compare. rewrite <- N2Z.inj_compare. fold (byte_code x) (byte_code y).
  pose proof (from_be_bytes_range a) as Ha. pose proof (from_be_bytes_range b) as Hb.
  rewrite <- Hl in *. set (p := 256 ^ Z.of_nat (String.length a)) in *.
  destruct (Z.compare_spec (byte_code x) (byte_code y)) as [->|Hlt|Hgt].
  - rewrite IH by done. by rewrite Z.add_compare_mono_l.
  - symmetry. apply Z.compare_lt_iff. nia.
  - symmetry. apply Z.compare_gt_iff. nia.
Qed.

(** ** Character boundaries *)

(** [str::is_char_boundary]: the ends, and every byte that is not a UTF-8
    continuation byte. *)
Definition is_char_boundary (s : string) (i : nat) : bool :=
  match str_drop i s with
  | EmptyString => Nat.eqb i (String.length s)
  | String c _ => Nat.eqb i 0 || negb (in_range 128 191 (byte_code c))
  end.

(** [while !s.is_char_boundary(end) { end -= 1; }] *)
Fixpoint boundary_at_most (s : string) (i : nat) : nat :=
  if is_char_boundary s i then i
  else match i with O => O | S i' => boundary_at_most s i' end.

Lemma boundary_at_most_spec s i :
  let j := boundary_at_most s i in
  (j <= i)%nat /\ is_char_boundary s j = true /\
  (forall k, (k <= i)%nat -> is_char_boundary s k = true -> (k <= j)%nat).
Proof.
  intros j. subst j. induction i as [|i IH]; simpl.
  - assert (is_char_boundary s 0 = true) as ->; [by destruct s|].
    split_and!; [lia|by destruct s|lia].
  - destruct (is_char_boundary s (S i)) eqn:Hb; [by split_and!; [lia|..]|].
    destruct IH as (H1 & H2 & H3). split_and!; [lia|done|].
    intros k Hk Hkb. destruct (decide (k = S i)) as [->|]; [congruence|]. apply H3; [lia|done].
Qed.

(** ** [String::from_utf8_lossy]

    [utf8_more a n] is the range of the second byte and the number of bytes that
    follow a first byte [a]; [None] when no character starts with it. *)
Definition utf8_more (a : Z) : option (Z * Z * nat) :=
  if a <? 128 then Some (0, 0, 0%nat)
  else if in_range 194 223 a then Some (128, 191, 1%nat)
  else if a =? 224 then Some (160, 191, 2%nat)
  else if a =? 237 then Some (128, 159, 2%nat)
  else if in_range 225 239 a then Some (128, 191, 2%nat)
  else if a =? 240 then Some (144, 191, 3%nat)
  else if in_range 241 243 a then Some (128, 191, 3%nat)
  else if a =? 244 then Some (128, 143, 3%nat)
  else None.

(** How many of the [n] continuation bytes are there. *)
Fixpoint utf8_tail (lo hi : Z) (n : nat) (s : string) : nat :=
  match n, s with
  | S n', String c s' => if in_range lo hi (byte_code c) then S (utf8_tail 128 191 n' s') else O
  | _, _ => O
  end.

(** U+FFFD *)
Definition replacement_char : string :=
  String (byte_of 239) (String (byte_of 191) (String (byte_of 189) EmptyString)).

(** Each maximal ill-formed sequence becomes one replacement character. *)
Fixpoint utf8_lossy (fuel : nat) (s : string) : string :=
  match fuel, s with
  | S fuel', String c s' =>
      match utf8_more (byte_code c) with
      | None => append replacement_char (utf8_lossy fuel' s')
      | Some (lo, hi, n) =>
          let m := utf8_tail lo hi n s' in
          if (m =? n)%nat then append (String c (str_take m s')) (utf8_lossy fuel' (str_drop m s'))
          else append replacement_char (utf8_lossy fuel' (str_drop m s'))
      end
  | _, _ => EmptyString
  end.
Definition from_utf8_lossy (s : string) : string := utf8_lossy (String.length s) s.

Example lossy_ex : from_utf8_lossy (String "a" (String (byte_of 226) (String (byte_of 130) "b")))
                   = String "a" (append replacement_char "b").
Proof. reflexivity. Qed.
