(* ===== verification/TaskModel.v ===== *)
(** * Task model ([crates/tysel-task/src/lib.rs])

    The lifecycle of a task: its states, the transition table, and the
    operations on one [Task] value. *)

From Stdlib Require Import ZArith Lia Ascii String.
From stdpp Require Import base tactics list gmap strings.
From S2P Require Import Prelude.
Open Scope Z_scope.

(** The JSON library the sources call ([serde_json]): its value type and the
    operations used. *)
Class SerdeJson := {
  Value : Type;
  Value_eq_dec :: EqDecision Value;
  Value_Null : Value;
  json_to_string : Value -> option string;
  json_from_str : string -> option Value;
}.

(** A value whose text can be parsed again. Not every [Value] is: the parser
    refuses text nested more than 127 levels deep, which the printer writes.
    (Without the [float_roundtrip] feature what is parsed may differ from the
    value in the last digit of a float, so no equality is asked.) *)
Definition readable `{SJ : SerdeJson} (v : Value) : Prop :=
  forall s, json_to_string v = Some s -> is_Some (json_from_str s).

(** [TaskId(pub u128)] *)
Abbreviation TaskId := Z (only parsing).

(** [impl fmt::Display for TaskId]: [{:032x}]. *)
Definition TaskId_to_string (id : TaskId) : string := format_fixed 16 32 id.

Inductive TaskTrigger :=
| TriggerHttp (method path : string)
| TriggerCron (name expression : string)
| TriggerQueue (name handler : string) (message_id : option string)
| TriggerMcp (tool : string)
| TriggerAgent (name : string).

Inductive TaskState :=
| Created | Queued | Running | WaitingIo | Suspended | Retrying
| Completed | Failed | Canceled | TimedOut.

#[global] Instance TaskState_eq_dec : EqDecision TaskState.
Proof. solve_decision. Defined.
#[global] Instance TaskTrigger_eq_dec : EqDecision TaskTrigger.
Proof. solve_decision. Defined.

Definition is_terminal (s : TaskState) : bool :=
  match s with
  | Completed | Failed | Canceled | TimedOut => true
  | _ => false
  end.

Definition can_transition_to (from to : TaskState) : bool :=
  match from, to with
  | Created, (Queued | Canceled) => true
  | Queued, (Running | Canceled | TimedOut) => true
  | Running, (WaitingIo | Suspended | Retrying | Completed | Failed | Canceled | TimedOut) => true
  | WaitingIo, (Running | Suspended | Retrying | Failed | Canceled | TimedOut) => true
  | (Suspended | Retrying), (Queued | Canceled | TimedOut) => true
  | _, _ => false
  end.

Record TaskMeta := {
  meta_id : TaskId;
  application_id : string;
  tenant_id : option string;
  idempotency_key : option string;
  trace_id : option string;
}.

#[global] Instance TaskMeta_eq_dec : EqDecision TaskMeta.
Proof. solve_decision. Defined.

Record TaskTransitionError := { tte_id : TaskId; tte_from : TaskState; tte_to : TaskState }.

#[global] Instance TaskTransitionError_eq_dec : EqDecision TaskTransitionError.
Proof. solve_decision. Defined.

Section Task.
Context {SJ : SerdeJson}.

Record Task := {
  meta : TaskMeta;
  trigger : TaskTrigger;
  input : Value;
  state : TaskState;
  attempt : Z;
  deadline_ms : option Z;
}.

Definition task_id (t : Task) : TaskId := meta_id (meta t).

Definition Task_new (m : TaskMeta) (tr : TaskTrigger) (deadline : option Z) : Task :=
  {| meta := m; trigger := tr; input := Value_Null; state := Created; attempt := 0;
     deadline_ms := deadline |}.

Definition with_input (t : Task) (v : Value) : Task :=
  {| meta := meta t; trigger := trigger t; input := v; state := state t;
     attempt := attempt t; deadline_ms := deadline_ms t |}.

Definition set_task_state (s : TaskState) (t : Task) : Task :=
  {| meta := meta t; trigger := trigger t; input := input t; state := s;
     attempt := attempt t; deadline_ms := deadline_ms t |}.

Definition set_attempt (n : Z) (t : Task) : Task :=
  {| meta := meta t; trigger := trigger t; input := input t; state := state t;
     attempt := n; deadline_ms := deadline_ms t |}.

(** [Task::transition]; on an error the task is left as it was. *)
Definition task_transition (t : Task) (next : TaskState) : result TaskTransitionError Task :=
  if can_transition_to (state t) next then Ok (set_task_state next t)
  else Err {| tte_id := task_id t; tte_from := state t; tte_to := next |}.

(** [Task::begin_attempt] *)
Definition begin_attempt (t : Task) : result TaskTransitionError Task :=
  t' ← task_transition t Running;
  Ok (set_attempt (saturating_add u32_max (attempt t') 1) t').

(** [Task::deadline_reached] *)
Definition deadline_reached (t : Task) (now_ms : Z) : bool :=
  match deadline_ms t with
  | Some d => d <=? now_ms
  | None => false
  end.

End Task.

(** ** Lifecycle facts *)

Lemma terminal_no_exit s n : is_terminal s = true -> can_transition_to s n = false.
Proof. by destruct s, n. Qed.

Lemma nonterminal_can_cancel s : is_terminal s = false -> can_transition_to s Canceled = true.
Proof. by destruct s. Qed.

Lemma no_self_transition s : can_transition_to s s = false.
Proof. by destruct s. Qed.

Section TaskFacts.
Context {SJ : SerdeJson}.

Lemma task_transition_Ok (t t' : Task) next :
  task_transition t next = Ok t' <->
  can_transition_to (state t) next = true /\ t' = set_task_state next t.
Proof. unfold task_transition. destruct (can_transition_to _ _); split; intros; destruct_and?; simplify_eq; auto. Qed.

Lemma begin_attempt_Ok (t t' : Task) :
  begin_attempt t = Ok t' <->
  can_transition_to (state t) Running = true /\
  t' = set_attempt (saturating_add u32_max (attempt t) 1) (set_task_state Running t).
Proof.
  unfold begin_attempt, mbind, result_bind, task_transition.
  destruct (can_transition_to (state t) Running); split; intros; destruct_and?; simplify_eq; auto.
Qed.

End TaskFacts.

(** [TaskId]'s text is 32 digits and names the id. *)
Lemma TaskId_to_string_length id : String.length (TaskId_to_string id) = 32%nat.
Proof. apply format_fixed_length. Qed.

Lemma TaskId_text_roundtrip id :
  is_u128 id = true -> parse_digits 16 u128_max 0 (TaskId_to_string id) = Some id.
Proof.
  intros Hid. apply in_range_spec in Hid. unfold u128_max in Hid.
  rewrite <- (append_nil_r (TaskId_to_string id)).
  unfold TaskId_to_string. by rewrite parse_format_fixed by (unfold u128_max; lia).
Qed.

(** A concrete JSON library, for the examples that evaluate definitions which
    take one as a parameter: every value is a string, printed with a mark. *)
Definition sample_json : SerdeJson := {|
  Value := string;
  Value_eq_dec := _;
  Value_Null := "null"%string;
  json_to_string v := Some ("j" ++ v)%string;
  json_from_str s := strip_prefix "j" s;
|}.

Lemma sample_readable (v : @Value sample_json) : readable v.
Proof. intros s [= <-]. by eexists. Qed.

Definition sample_meta (id : TaskId) : TaskMeta :=
  {| meta_id := id; application_id := "app"; tenant_id := None; idempotency_key := None;
     trace_id := None |}.

Definition sample_task (id : TaskId) (deadline : option Z) : @Task sample_json :=
  @Task_new sample_json (sample_meta id) (TriggerAgent "a") deadline.
