(* ===== verification/Lease.v ===== *)
(** * Generation-fenced leases

    What the in-memory scheduler and the durable execution table both promise:
    each key has a generation that only grows, and at most one live lease, which
    carries the current generation. A component states its two observations as
    an instance of [FencedLeases] and proves that its operations satisfy
    [fence]; what its clients rely on (a lost lease stays lost, one owner per
    generation) is proved here once. *)

From Stdlib Require Import ZArith Lia Ascii String.
From stdpp Require Import base tactics list gmap strings.
From S2P Require Import Prelude.
Open Scope Z_scope.

Class FencedLeases (S : Type) := {
  lease_generation : S -> Z -> Z;
  lease_live : S -> Z -> option (Z * string);
}.

Section Fence.
Context {S : Type} {FL : FencedLeases S}.
Implicit Types (s : S) (k g : Z) (o : string).

(** A live lease holds the key's current generation. *)
Definition lease_wf s : Prop :=
  forall k g o, lease_live s k = Some (g, o) -> g = lease_generation s k.

(** Generations never decrease, and a lease that was not live before carries a
    generation that was not used before. *)
Definition fence s s' : Prop :=
  forall k, lease_generation s k <= lease_generation s' k /\
    forall g o, lease_live s' k = Some (g, o) ->
      lease_live s k = Some (g, o) \/ lease_generation s k < g.

(** A generation that was handed out and is no longer live. *)
Definition lease_dead s k g : Prop :=
  g <= lease_generation s k /\ forall o, lease_live s k <> Some (g, o).

#[export] Instance fence_preorder : PreOrder fence.
Proof.
  split.
  - intros s k. split; [lia|]. by left.
  - intros s1 s2 s3 H12 H23 k. destruct (H12 k) as [? F12], (H23 k) as [? F23].
    split; [lia|]. intros g o [Hl|Hl]%F23; [by apply F12|right; lia].
Qed.

Lemma fence_dead s s' k g : fence s s' -> lease_dead s k g -> lease_dead s' k g.
Proof.
  intros F [Hg Hl]. destruct (F k) as [? Ff]. split; [lia|].
  intros o [Ho|Ho]%Ff; [by eapply Hl|lia].
Qed.

Lemma fence_same_owner s s' k g o o' :
  lease_wf s -> fence s s' -> lease_live s k = Some (g, o) -> lease_live s' k = Some (g, o') ->
  o = o'.
Proof.
  intros W F Hl Hl'. destruct (F k) as [_ Ff].
  destruct (Ff _ _ Hl') as [?|Hlt]; [congruence|]. apply W in Hl. lia.
Qed.

End Fence.

#[export] Hint Resolve fence_dead : tysel.
