(* ===== verification/Scheduler.v ===== *)
(** * Scheduler ([crates/tysel-scheduler/src/lib.rs])

    A bounded FIFO queue of task ids with owner- and generation-fenced leases.
    [HashMap]s are [gmap]s, the [VecDeque] is a list whose head is the front.
    Every method takes the state and returns it, also next to an error: what a
    method wrote before an early return stays written. *)

From Stdlib Require Import ZArith Lia Ascii String.
From stdpp Require Import base tactics list gmap strings sorting numbers.
From S2P Require Import Prelude TaskModel.
Open Scope Z_scope.

Definition MAX_LEASE_OWNER_BYTES : Z := 128.
Definition MAX_LEASE_MS : Z := 24 * 60 * 60 * 1000.

Inductive SchedulerError :=
| InvalidCapacity
| Full (capacity : Z)
| Duplicate (id : TaskId)
| Unknown (id : TaskId)
| InvalidLeaseOwner
| InvalidLeaseDuration
| TimeRange
| GenerationExhausted
| LeaseLost
| InvalidClaimOutcome (s : TaskState)
| InvalidTransition (e : TaskTransitionError).

#[global] Instance SchedulerError_eq_dec : EqDecision SchedulerError.
Proof. solve_decision. Defined.

(** The bytes a lease owner may hold. *)
Definition lease_owner_byte (b : ascii) : bool :=
  is_ascii_alphanumeric b || Ascii.eqb b "."%char || Ascii.eqb b "_"%char
  || Ascii.eqb b ":"%char || Ascii.eqb b "@"%char || Ascii.eqb b "-"%char.

Definition validate_lease_owner (lease_owner : string) : result SchedulerError () :=
  if str_is_empty lease_owner || (MAX_LEASE_OWNER_BYTES <? len lease_owner)
     || negb (str_all lease_owner_byte lease_owner)
  then Err InvalidLeaseOwner else Ok ().

Definition validate_lease (lease_owner : string) (lease_ms : Z) : result SchedulerError () :=
  validate_lease_owner lease_owner;;
  if (lease_ms =? 0) || (MAX_LEASE_MS <? lease_ms) then Err InvalidLeaseDuration else Ok ().

Record ActiveClaim := { ac_generation : Z; ac_lease_owner : string; ac_lease_until_ms : Z }.

Section Scheduler.
Context {SJ : SerdeJson}.

Record TaskClaim := {
  tc_task : Task;
  tc_generation : Z;
  tc_lease_owner : string;
  tc_lease_until_ms : Z;
}.

Record Scheduler := {
  capacity : Z;
  queue : list TaskId;
  tasks : gmap TaskId Task;
  claims : gmap TaskId ActiveClaim;
  generations : gmap TaskId Z;
}.

Definition set_queue (q : list TaskId) (s : Scheduler) : Scheduler :=
  {| capacity := capacity s; queue := q; tasks := tasks s; claims := claims s;
     generations := generations s |}.
Definition set_tasks (m : gmap TaskId Task) (s : Scheduler) : Scheduler :=
  {| capacity := capacity s; queue := queue s; tasks := m; claims := claims s;
     generations := generations s |}.
Definition set_claims (m : gmap TaskId ActiveClaim) (s : Scheduler) : Scheduler :=
  {| capacity := capacity s; queue := queue s; tasks := tasks s; claims := m;
     generations := generations s |}.
Definition set_generations (m : gmap TaskId Z) (s : Scheduler) : Scheduler :=
  {| capacity := capacity s; queue := queue s; tasks := tasks s; claims := claims s;
     generations := m |}.

Abbreviation SM A := (M Scheduler SchedulerError A).

(** [Scheduler::new] *)
Definition Scheduler_new (cap : Z) : result SchedulerError Scheduler :=
  if cap =? 0 then Err InvalidCapacity
  else Ok {| capacity := cap; queue := []; tasks := ∅; claims := ∅; generations := ∅ |}.

(** [self.tasks.get(&id).ok_or(SchedulerError::Unknown(id))?] *)
Definition get_task (id : TaskId) : SM Task := fun s =>
  match tasks s !! id with
  | Some t => (Ok t, s)
  | None => (Err (Unknown id), s)
  end.

Definition update_task (id : TaskId) (t : Task) : SM () :=
  modify (fun s => set_tasks (<[id := t]> (tasks s)) s).

Definition queue_is_full (s : Scheduler) : bool := capacity s <=? vec_len (queue s).

(** [Scheduler::transition] *)
Definition transition (id : TaskId) (next : TaskState) : SM Task :=
  s ← get_state;
  match tasks s !! id with
  | None => throw (Unknown id)
  | Some task =>
      if bool_decide (next = Queued) && queue_is_full s
      then throw (Full (capacity s))
      else
        task' ← lift (map_err InvalidTransition (task_transition task next));
        update_task id task';;
        (if decide (next = Queued)
         then modify (fun s => set_queue (queue s ++ [id]) s)
         else if is_terminal next
         then modify (fun s => set_queue (filter (fun q => q <> id) (queue s)) s)
         else mret ());;
        (if bool_decide (next = Queued) || bool_decide (next = Suspended)
            || bool_decide (next = Retrying) || is_terminal next
         then modify (fun s => set_claims (delete id (claims s)) s)
         else mret ());;
        mret task'
  end.

(** [Scheduler::enqueue] *)
Definition enqueue (task : Task) : SM () :=
  let id := task_id task in
  s ← get_state;
  match tasks s !! id with
  | Some _ => throw (Duplicate id)
  | None =>
      if queue_is_full s then throw (Full (capacity s))
      else
        task' ← lift (map_err InvalidTransition (task_transition task Queued));
        modify (fun s => set_queue (queue s ++ [id]) s);;
        update_task id task'
  end.

(** The [loop] of [Scheduler::peek_runnable]. Each turn either returns or pops
    the front of the queue, so one turn more than the queue is long is enough
    ([peek_loop_fuel]). *)
Fixpoint peek_loop (fuel : nat) (now_ms : Z) : SM (option Task) :=
  match fuel with
  | O => mret None
  | S fuel' =>
      s ← get_state;
      match queue s with
      | [] => mret None
      | id :: _ =>
          task ← get_task id;
          if negb (deadline_reached task now_ms) then mret (Some task)
          else
            modify (fun s => set_queue (tail (queue s)) s);;
            transition id TimedOut;;
            peek_loop fuel' now_ms
      end
  end.

(** [Scheduler::peek_runnable] *)
Definition peek_runnable (now_ms : Z) : SM (option Task) :=
  s ← get_state; peek_loop (S (length (queue s))) now_ms.

(** [Scheduler::claim] *)
Definition claim (now_ms : Z) : SM (option Task) :=
  next ← peek_runnable now_ms;
  match next with
  | None => mret None
  | Some next =>
      let id := task_id next in
      s ← get_state;
      match queue s with
      | [] => throw (Unknown id)
      | _ :: q =>
          modify (set_queue q);;
          task ← get_task id;
          task' ← lift (map_err InvalidTransition (begin_attempt task));
          update_task id task';;
          mret (Some task')
      end
  end.

(** [Scheduler::claim_with_lease] *)
Definition claim_with_lease (now_ms : Z) (lease_owner : string) (lease_ms : Z)
    : SM (option TaskClaim) :=
  lift (validate_lease lease_owner lease_ms);;
  lease_until_ms ← lift (ok_or (checked_add u64_max now_ms lease_ms) TimeRange);
  claimed ← claim now_ms;
  match claimed with
  | None => mret None
  | Some task =>
      s ← get_state;
      match checked_add u64_max (default 0 (generations s !! task_id task)) 1 with
      | None =>
          transition (task_id task) Retrying;;
          transition (task_id task) Queued;;
          throw GenerationExhausted
      | Some generation =>
          modify (fun s => set_generations (<[task_id task := generation]> (generations s)) s);;
          modify (fun s => set_claims (<[task_id task :=
             {| ac_generation := generation; ac_lease_owner := lease_owner;
                ac_lease_until_ms := lease_until_ms |}]> (claims s)) s);;
          mret (Some {| tc_task := task; tc_generation := generation;
                        tc_lease_owner := lease_owner; tc_lease_until_ms := lease_until_ms |})
      end
  end.

(** [Scheduler::require_live_claim] *)
Definition require_live_claim (c : TaskClaim) (now_ms : Z) : SM ActiveClaim := fun s =>
  match claims s !! task_id (tc_task c) with
  | None => (Err LeaseLost, s)
  | Some active =>
      if negb (ac_generation active =? tc_generation c)
         || negb (String.eqb (ac_lease_owner active) (tc_lease_owner c))
         || (ac_lease_until_ms active <=? now_ms)
      then (Err LeaseLost, s)
      else (Ok active, s)
  end.

(** [Scheduler::renew_claim] *)
Definition renew_claim (c : TaskClaim) (now_ms lease_ms : Z) : SM TaskClaim :=
  lift (validate_lease (tc_lease_owner c) lease_ms);;
  lease_until_ms ← lift (ok_or (checked_add u64_max now_ms lease_ms) TimeRange);
  active ← require_live_claim c now_ms;
  let id := task_id (tc_task c) in
  modify (fun s => set_claims (<[id :=
    {| ac_generation := ac_generation active; ac_lease_owner := ac_lease_owner active;
       ac_lease_until_ms := lease_until_ms |}]> (claims s)) s);;
  task ← get_task id;
  mret {| tc_task := task; tc_generation := ac_generation active;
          tc_lease_owner := ac_lease_owner active; tc_lease_until_ms := lease_until_ms |}.

Definition claim_outcome_allowed (next : TaskState) : bool :=
  match next with
  | Suspended | Completed | Failed | Canceled | TimedOut => true
  | _ => false
  end.

(** [Scheduler::finish_claim] *)
Definition finish_claim (c : TaskClaim) (now_ms : Z) (next : TaskState) : SM Task :=
  if negb (claim_outcome_allowed next) then throw (InvalidClaimOutcome next)
  else
    require_live_claim c now_ms;;
    transition (task_id (tc_task c)) next.

(** [Scheduler::release_claim] *)
Definition release_claim (c : TaskClaim) (now_ms : Z) : SM Task :=
  require_live_claim c now_ms;;
  let id := task_id (tc_task c) in
  task ← get_task id;
  if deadline_reached task now_ms then transition id TimedOut
  else
    s ← get_state;
    if queue_is_full s then throw (Full (capacity s))
    else
      transition id Retrying;;
      transition id Queued.

(** The [for] loop of [Scheduler::requeue_claims], over the ids it takes. *)
Fixpoint requeue_loop (ids : list TaskId) (now_ms : Z) (processed : list TaskId)
    : SM (list TaskId) :=
  match ids with
  | [] => mret processed
  | id :: ids' =>
      task ← get_task id;
      if deadline_reached task now_ms then
        transition id TimedOut;;
        requeue_loop ids' now_ms (processed ++ [id])
      else
        s ← get_state;
        if negb (queue_is_full s) then
          transition id Retrying;;
          transition id Queued;;
          requeue_loop ids' now_ms (processed ++ [id])
        else requeue_loop ids' now_ms processed
  end.

Definition requeue_claims (ids : list TaskId) (now_ms limit : Z) : SM (list TaskId) :=
  requeue_loop (takeZ limit ids) now_ms [].

(** The claimed ids a predicate selects, in increasing order
    ([claims.iter().filter_map(..).collect()] followed by [sort_unstable]). *)
Definition claimed_ids (p : ActiveClaim -> bool) (s : Scheduler) : list TaskId :=
  merge_sort Z.le (map fst (filter (fun kv => p kv.2 = true) (map_to_list (claims s)))).

(** [Scheduler::requeue_expired] *)
Definition requeue_expired (now_ms limit : Z) : SM (list TaskId) :=
  s ← get_state;
  requeue_claims (claimed_ids (fun c => ac_lease_until_ms c <=? now_ms) s) now_ms limit.

(** [Scheduler::requeue_owner_claims] *)
Definition requeue_owner_claims (lease_owner : string) (now_ms limit : Z)
    : SM (list TaskId) :=
  lift (validate_lease_owner lease_owner);;
  s ← get_state;
  requeue_claims (claimed_ids (fun c => String.eqb (ac_lease_owner c) lease_owner) s) now_ms limit.

(** [Scheduler::cancel] *)
Definition cancel (id : TaskId) : SM Task :=
  task ← get_task id;
  if is_terminal (state task) then mret task else transition id Canceled.

(** [Scheduler::get], [pending_len], [remaining_capacity] *)
Definition scheduler_get (s : Scheduler) (id : TaskId) : option Task := tasks s !! id.
Definition pending_len (s : Scheduler) : Z := vec_len (queue s).
Definition remaining_capacity (s : Scheduler) : Z :=
  saturating_sub (capacity s) (vec_len (queue s)).

End Scheduler.
