(* ===== verification/SchedulerSpec.v ===== *)
(** * Scheduler: invariant and functional behaviour *)

From Stdlib Require Import ZArith Lia Ascii String.
From stdpp Require Import base tactics list gmap strings sorting numbers.
From S2P Require Import Prelude TaskModel Lease Scheduler.
Open Scope Z_scope.

Section Spec.
Context {SJ : SerdeJson}.
Implicit Types (s : Scheduler) (t : Task) (id : TaskId).

(** ** What a transition does, as one equation *)

Definition drops_claim (next : TaskState) : bool :=
  bool_decide (next = Queued) || bool_decide (next = Suspended)
  || bool_decide (next = Retrying) || is_terminal next.

Definition queue_after (id : TaskId) (next : TaskState) (q : list TaskId) : list TaskId :=
  if decide (next = Queued) then q ++ [id]
  else if is_terminal next then filter (fun x => x <> id) q
  else q.

Definition after_transition (id : TaskId) (next : TaskState) (t : Task) (s : Scheduler)
    : Scheduler :=
  {| capacity := capacity s;
     queue := queue_after id next (queue s);
     tasks := <[id := set_task_state next t]> (tasks s);
     claims := if drops_claim next then delete id (claims s) else claims s;
     generations := generations s |}.

Lemma transition_eq id next s :
  transition id next s =
  match tasks s !! id with
  | None => (Err (Unknown id), s)
  | Some t =>
      if bool_decide (next = Queued) && queue_is_full s then (Err (Full (capacity s)), s)
      else if can_transition_to (state t) next
      then (Ok (set_task_state next t), after_transition id next t s)
      else (Err (InvalidTransition
              {| tte_id := task_id t; tte_from := state t; tte_to := next |}), s)
  end.
Proof.
  unfold transition; unfold_monad; simpl.
  destruct (tasks s !! id) as [t|]; [|done].
  destruct (bool_decide (next = Queued) && queue_is_full s); [done|].
  unfold task_transition. destruct (can_transition_to (state t) next); simpl; [|done].
  unfold after_transition, queue_after, drops_claim, update_task; unfold_monad.
  destruct s as [c q ts cl g]; unfold set_tasks, set_queue, set_claims; simpl.
  by destruct next.
Qed.

(** ** The invariant *)

Record Inv (s : Scheduler) : Prop := {
  inv_capacity : 0 < capacity s;
  inv_length : vec_len (queue s) <= capacity s;
  inv_nodup : NoDup (queue s);
  inv_queue : forall id, id ∈ queue s <-> exists t, tasks s !! id = Some t /\ state t = Queued;
  inv_id : forall id t, tasks s !! id = Some t -> task_id t = id;
  inv_created : forall id t, tasks s !! id = Some t -> state t <> Created;
  inv_claim : forall id c, claims s !! id = Some c ->
    exists t, tasks s !! id = Some t /\ (state t = Running \/ state t = WaitingIo);
  inv_generation : forall id c, claims s !! id = Some c ->
    generations s !! id = Some (ac_generation c);
  inv_generation_range : forall id g, generations s !! id = Some g -> 1 <= g <= u64_max;
}.

Lemma Inv_new cap s : 0 <= cap -> Scheduler_new cap = Ok s -> Inv s.
Proof.
  unfold Scheduler_new. intros. case_match; simplify_eq. split_bool.
  split; simpl; [lia | unfold vec_len; simpl; lia | constructor | ..];
    intros *; try (rewrite lookup_empty; done).
  split; [by intros ?%elem_of_nil | intros (t & Ht & _)]. by rewrite lookup_empty in Ht.
Qed.

Lemma Inv_in_queue s id t : Inv s -> tasks s !! id = Some t -> id ∈ queue s <-> state t = Queued.
Proof.
  intros I Ht. rewrite (inv_queue _ I). split; [intros (t' & ? & ?); by simplify_eq | eauto].
Qed.

Lemma queue_after_length id next s :
  vec_len (queue s) <= capacity s -> (next = Queued -> queue_is_full s = false) ->
  vec_len (queue_after id next (queue s)) <= capacity s.
Proof.
  unfold queue_after, queue_is_full, vec_len. intros Hlen Hfull.
  destruct (decide (next = Queued)) as [->|].
  - specialize (Hfull eq_refl). split_bool. rewrite length_app. simpl. lia.
  - destruct (is_terminal next); [|done].
    pose proof (length_filter (fun x => x <> id) (queue s)). lia.
Qed.

Lemma queue_after_NoDup id next q :
  NoDup q -> (next = Queued -> id ∉ q) -> NoDup (queue_after id next q).
Proof.
  unfold queue_after. intros Hnd Hid. destruct (decide (next = Queued)) as [->|].
  - apply list.NoDup_app. split; [done|]. split; [|apply NoDup_singleton].
    intros x Hx ->%list_elem_of_singleton. by apply Hid.
  - destruct (is_terminal next); [by apply list.NoDup_filter|done].
Qed.

Lemma queue_after_elem id next q i :
  i ∈ queue_after id next q <->
  (i <> id /\ i ∈ q) \/ (i = id /\ (next = Queued \/ (is_terminal next = false /\ id ∈ q))).
Proof.
  unfold queue_after. destruct (decide (next = Queued)) as [->|].
  - rewrite elem_of_app, list_elem_of_singleton. destruct (decide (i = id)); naive_solver.
  - destruct (decide (i = id)); destruct (is_terminal next);
      rewrite ?list_elem_of_filter; naive_solver.
Qed.

Lemma after_transition_claims id next t s i c :
  claims (after_transition id next t s) !! i = Some c ->
  claims s !! i = Some c /\ (i = id -> drops_claim next = false).
Proof.
  simpl. destruct (drops_claim next); [|done].
  intros [? ?]%lookup_delete_Some. naive_solver.
Qed.

Lemma Inv_transition id next s t :
  Inv s -> tasks s !! id = Some t -> can_transition_to (state t) next = true ->
  (next = Queued -> queue_is_full s = false) ->
  (next = Running -> state t <> Queued) ->
  Inv (after_transition id next t s).
Proof.
  intros I Ht Hcan Hfull Hrun. pose proof (inv_created _ I _ _ Ht) as Hcr.
  pose proof (Inv_in_queue _ _ _ I Ht) as Hin.
  split.
  - apply (inv_capacity _ I).
  - simpl. apply queue_after_length; [apply I | done].
  - simpl. apply queue_after_NoDup; [apply I|]. intros ->. rewrite Hin. by destruct (state t).
  - intros i. simpl. rewrite queue_after_elem. destruct (decide (i = id)) as [->|Hne].
    + rewrite lookup_insert_eq, Hin. split.
      * intros [[??]|[_ [->|[Hterm Hs]]]]; [done|by eauto|].
        rewrite Hs in Hcan. destruct next; simplify_eq. by destruct Hrun.
      * intros (t' & ? & ?). naive_solver.
    + rewrite lookup_insert_ne, <- (inv_queue _ I) by done. naive_solver.
  - intros i t' Hl. simpl in Hl. destruct (decide (i = id)) as [->|Hne].
    + rewrite lookup_insert_eq in Hl. simplify_eq. by apply (inv_id _ I _ t).
    + rewrite lookup_insert_ne in Hl by done. by apply I.
  - intros i t' Hl. simpl in Hl. destruct (decide (i = id)) as [->|Hne].
    + rewrite lookup_insert_eq in Hl. simplify_eq/=. by destruct (state t), next.
    + rewrite lookup_insert_ne in Hl by done. by eapply I.
  - intros i c [Hc Hd]%after_transition_claims.
    destruct (inv_claim _ I _ _ Hc) as (t' & Ht' & Hst). simpl.
    destruct (decide (i = id)) as [->|Hne].
    + rewrite lookup_insert_eq. eexists; split; [done|]. simplify_eq. specialize (Hd eq_refl).
      simpl. destruct next; simplify_eq; auto. by destruct Hst as [Hst|Hst]; rewrite Hst in Hcan.
    + rewrite lookup_insert_ne by done. eauto.
  - intros i c [Hc Hd]%after_transition_claims. by apply (inv_generation _ I).
  - apply (inv_generation_range _ I).
Qed.

(** ** [peek_runnable] and [claim] *)

Definition overdue (s : Scheduler) (now_ms : Z) (id : TaskId) : bool :=
  match tasks s !! id with Some t => deadline_reached t now_ms | None => false end.

(** The scheduler after the overdue tasks at the front of the queue timed out. *)
Definition expire (now_ms : Z) (s : Scheduler) : Scheduler :=
  {| capacity := capacity s;
     queue := drop_while (overdue s now_ms) (queue s);
     tasks := foldl (fun m id => alter (set_task_state TimedOut) id m) (tasks s)
                (take_while (overdue s now_ms) (queue s));
     claims := claims s;
     generations := generations s |}.

Definition queued_task (s : Scheduler) (id : TaskId) (t : Task) : Prop :=
  tasks s !! id = Some t /\ state t = Queued.

Lemma Inv_front s id q :
  Inv s -> queue s = id :: q ->
  exists t, queued_task s id t /\ claims s !! id = None /\ (id ∉ q) /\ NoDup q.
Proof.
  intros I Hq. pose proof (inv_nodup _ I) as Hnd. rewrite Hq in Hnd.
  apply list.NoDup_cons in Hnd as [? ?].
  destruct (proj1 (inv_queue _ I id)) as (t & Ht & Hs); [rewrite Hq; by left|].
  exists t. split; [done|]. split; [|done].
  destruct (claims s !! id) as [c|] eqn:Hc; [|done].
  destruct (inv_claim _ I _ _ Hc) as (t' & ? & Hst). simplify_eq.
  by rewrite Hs in Hst; destruct Hst.
Qed.

Lemma filter_front (id : TaskId) q : id ∉ q -> filter (fun x => x <> id) (id :: q) = q.
Proof.
  intros Hid. rewrite filter_cons_False by naive_solver.
  by apply filter_notin.
Qed.

(** Popping an overdue front entry and timing it out is one transition. *)
Lemma pop_timeout s id q t :
  Inv s -> queue s = id :: q -> queued_task s id t ->
  transition id TimedOut (set_queue (tail (queue s)) s) =
    (Ok (set_task_state TimedOut t), after_transition id TimedOut t s) /\
  queue (after_transition id TimedOut t s) = q /\
  claims (after_transition id TimedOut t s) = claims s /\
  Inv (after_transition id TimedOut t s).
Proof.
  intros I Hq [Ht Hs]. destruct (Inv_front _ _ _ I Hq) as (t' & [Ht' _] & Hc & Hid & _).
  simplify_eq. rewrite transition_eq. simpl. rewrite Ht, Hs. simpl.
  assert (Hf : filter (fun x => x <> id) q = q) by (by apply filter_notin).
  assert (Hf2 : queue_after id TimedOut (queue s) = q)
    by (rewrite Hq; by apply filter_front).
  split_and!.
  - f_equal. unfold after_transition. rewrite Hf2, Hq. simpl.
    unfold queue_after. simpl. by rewrite Hf.
  - done.
  - simpl. by rewrite delete_id.
  - apply Inv_transition; try done. by rewrite Hs.
Qed.

Lemma expire_pop s id q t now :
  Inv s -> queue s = id :: q -> queued_task s id t -> deadline_reached t now = true ->
  expire now (after_transition id TimedOut t s) = expire now s.
Proof.
  intros I Hq Ht Hd. destruct (pop_timeout _ _ _ _ I Hq Ht) as (_ & Hq' & Hc' & _).
  destruct (Inv_front _ _ _ I Hq) as (_ & _ & _ & Hid & _). destruct Ht as [Ht Hs].
  assert (Hov : forall x, x ∈ q -> overdue (after_transition id TimedOut t s) now x = overdue s now x).
  { intros x Hx. unfold overdue. simpl. rewrite lookup_insert_ne; [done|]. by intros ->. }
  unfold expire. rewrite Hq', Hc', Hq. simpl.
  assert (Hid' : overdue s now id = true) by (unfold overdue; by rewrite Ht).
  rewrite Hid'. simpl.
  rewrite (drop_while_ext _ _ _ Hov), (take_while_ext _ _ _ Hov).
  f_equal. f_equal. apply map_eq. intros j.
  destruct (decide (j = id)) as [->|].
  - by rewrite lookup_insert_eq, lookup_alter_eq, Ht.
  - by rewrite lookup_insert_ne, lookup_alter_ne by done.
Qed.

Lemma peek_loop_spec fuel now s :
  Inv s -> (length (queue s) < fuel)%nat ->
  peek_loop fuel now s =
    (Ok (head (queue (expire now s)) ≫= (fun id => tasks s !! id)), expire now s) /\
  Inv (expire now s).
Proof.
  revert s. induction fuel as [|fuel IH]; intros s I Hf; [lia|].
  cbn [peek_loop]; unfold_monad; unfold get_task.
  destruct (queue s) as [|id q] eqn:Hq.
  - unfold expire. rewrite Hq. simpl. rewrite <- Hq. by destruct s.
  - destruct (Inv_front _ _ _ I Hq) as (t & Ht & Hc & Hid & _).
    rewrite (proj1 Ht). destruct (deadline_reached t now) eqn:Hd; simpl.
    + destruct (pop_timeout _ _ _ _ I Hq Ht) as (Htr & Hq' & Hc' & I').
      rewrite Htr. change (drop_while (overdue s now) (queue s)) with (queue (expire now s)).
      rewrite <- (expire_pop s id q t now) by done.
      destruct (IH (after_transition id TimedOut t s) I') as [-> ?].
      { rewrite Hq'. simpl in Hf. lia. }
      split; [|done]. f_equal. f_equal.
      destruct (head (queue (expire now (after_transition id TimedOut t s)))) as [j|] eqn:Hj; [|done].
      simpl. rewrite lookup_insert_ne; [done|]. intros <-. apply Hid. rewrite <- Hq'.
      apply head_Some_elem_of in Hj. by apply drop_while_subset in Hj.
    + assert (Hov : overdue s now id = false) by (unfold overdue; by rewrite (proj1 Ht)).
      assert (He : expire now s = s).
      { unfold expire. rewrite Hq. simpl. rewrite Hov. simpl. rewrite <- Hq. by destruct s. }
      change (drop_while (overdue s now) (queue s)) with (queue (expire now s)).
      rewrite He, Hq. simpl. by rewrite (proj1 Ht).
Qed.

(** The front task started: popped, running, one attempt more. *)
Definition start_attempt (t : Task) : Task :=
  set_attempt (saturating_add u32_max (attempt t) 1) (set_task_state Running t).

Definition start_front (id : TaskId) (t : Task) (s : Scheduler) : Scheduler :=
  set_tasks (<[id := start_attempt t]> (tasks s)) (set_queue (tail (queue s)) s).

Lemma Inv_start_front s id q t :
  Inv s -> queue s = id :: q -> tasks s !! id = Some t -> Inv (start_front id t s).
Proof.
  intros I Hq Ht. destruct (Inv_front _ _ _ I Hq) as (t' & [? Hs] & Hc & Hid & Hnd). simplify_eq.
  pose proof (inv_length _ I) as Hlen.
  split; simpl.
  - apply I.
  - rewrite Hq in *. unfold vec_len in *. simpl in *. lia.
  - by rewrite Hq.
  - intros i. rewrite Hq. simpl. destruct (decide (i = id)) as [->|].
    + rewrite lookup_insert_eq. naive_solver.
    + rewrite lookup_insert_ne, <- (inv_queue _ I), Hq by done. set_solver.
  - intros i t' Hl. destruct (decide (i = id)) as [->|].
    + rewrite lookup_insert_eq in Hl. simplify_eq. by apply (inv_id _ I _ t).
    + rewrite lookup_insert_ne in Hl by done. by apply I.
  - intros i t' Hl. destruct (decide (i = id)) as [->|].
    + rewrite lookup_insert_eq in Hl. by simplify_eq/=.
    + rewrite lookup_insert_ne in Hl by done. by eapply I.
  - intros i c Hl. rewrite lookup_insert_ne by congruence. by eapply I.
  - apply I.
  - apply I.
Qed.

Lemma foldl_alter_notin (f : Task -> Task) l (m : gmap TaskId Task) id :
  id ∉ l -> foldl (fun m i => alter f i m) m l !! id = m !! id.
Proof.
  revert m. induction l as [|i l IH]; intros m Hout; simpl; [done|].
  rewrite IH by set_solver. apply lookup_alter_ne. set_solver.
Qed.

Lemma foldl_alter_in (f : Task -> Task) l (m : gmap TaskId Task) id :
  NoDup l -> id ∈ l -> foldl (fun m i => alter f i m) m l !! id = f <$> m !! id.
Proof.
  revert m. induction l as [|i l IH]; intros m Hnd Hin; simpl; [set_solver|].
  apply list.NoDup_cons in Hnd as [Hi Hnd].
  apply elem_of_cons in Hin as [->|Hin].
  - rewrite foldl_alter_notin by done. apply lookup_alter_eq.
  - rewrite IH by done. rewrite lookup_alter_ne; [done|]. set_solver.
Qed.

Lemma expire_kept now s id :
  id ∉ take_while (overdue s now) (queue s) -> tasks (expire now s) !! id = tasks s !! id.
Proof. apply foldl_alter_notin. Qed.

Lemma expire_late now s id :
  Inv s -> id ∈ take_while (overdue s now) (queue s) ->
  exists t, queued_task s id t /\ tasks (expire now s) !! id = Some (set_task_state TimedOut t).
Proof.
  intros I Hin. pose proof (inv_nodup _ I) as Hnd.
  assert (Hq : id ∈ queue s).
  { rewrite <- (take_drop_while (overdue s now)), elem_of_app. by left. }
  rewrite <- (take_drop_while (overdue s now) (queue s)) in Hnd.
  apply list.NoDup_app in Hnd as (Hnd & _ & _).
  apply (inv_queue _ I) in Hq as (t & Ht & Hs). exists t. split; [done|].
  simpl. rewrite foldl_alter_in by done. by rewrite Ht.
Qed.

Lemma expire_tasks_kept now s id :
  Inv s -> id ∈ queue (expire now s) -> tasks (expire now s) !! id = tasks s !! id.
Proof.
  intros I Hin. pose proof (inv_nodup _ I) as Hnd.
  rewrite <- (take_drop_while (overdue s now) (queue s)) in Hnd.
  apply list.NoDup_app in Hnd as (_ & Hdis & _). apply expire_kept. intros ?. by eapply Hdis.
Qed.

Lemma claim_spec now s :
  Inv s ->
  (queue (expire now s) = [] /\ claim now s = (Ok None, expire now s)) \/
  exists id q t, queue (expire now s) = id :: q /\ queued_task s id t /\
    tasks (expire now s) !! id = Some t /\ deadline_reached t now = false /\
    claim now s = (Ok (Some (start_attempt t)), start_front id t (expire now s)).
Proof.
  intros I. destruct (peek_loop_spec (S (length (queue s))) now s I) as [Hp I']; [lia|].
  unfold claim, peek_runnable. unfold_monad. rewrite Hp.
  destruct (queue (expire now s)) as [|id q] eqn:Hq; [by left|right].
  destruct (Inv_front _ _ _ I' Hq) as (t & [Ht Hs] & _ & _ & _).
  pose proof Ht as Ht0. rewrite expire_tasks_kept in Ht0 by (try done; rewrite Hq; by left).
  exists id, q, t. split; [done|]. split; [done|]. split; [done|].
  pose proof Hq as Hov. simpl in Hov. apply drop_while_head in Hov.
  unfold overdue in Hov. rewrite Ht0 in Hov. split; [done|].
  cbn [list.head mbind option_bind]. rewrite Ht0. rewrite (inv_id _ I _ _ Ht0), Hq.
  unfold get_task. cbn [tasks set_queue]. rewrite Ht.
  unfold begin_attempt, task_transition. rewrite Hs. simpl.
  unfold update_task, start_front. unfold_monad. simpl in *. by rewrite Hq.
Qed.

Lemma claim_Inv now s : Inv s -> Inv (claim now s).2.
Proof.
  intros I. destruct (peek_loop_spec (S (length (queue s))) now s I) as [_ I']; [lia|].
  destruct (claim_spec now s I) as [[_ ->]|(id & q & t & Hq & Ht & Ht' & _ & ->)]; [done|].
  simpl. by eapply Inv_start_front.
Qed.

(** ** Every operation keeps the invariant, the lease fence and terminal tasks *)

#[export] Instance scheduler_leases : FencedLeases Scheduler := {
  lease_generation s id := default 0 (generations s !! id);
  lease_live s id :=
    (fun c => (ac_generation c, ac_lease_owner c)) <$> claims s !! id;
}.

Lemma Inv_lease_wf s : Inv s -> lease_wf s.
Proof.
  intros I id g o. simpl. destruct (claims s !! id) as [c|] eqn:Hc; simpl; [|done].
  intros [= <- <-]. by rewrite (inv_generation _ I _ _ Hc).
Qed.

(** A terminal task is never touched again. *)
Definition terminal_kept (s s' : Scheduler) : Prop :=
  forall id t, tasks s !! id = Some t -> is_terminal (state t) = true -> tasks s' !! id = Some t.

Definition advance (s s' : Scheduler) : Prop := fence s s' /\ terminal_kept s s'.

#[export] Instance advance_preorder : PreOrder advance.
Proof.
  split.
  - intros s. split; [reflexivity|by intros ? ?].
  - intros s1 s2 s3 [F1 K1] [F2 K2]. split; [by transitivity s2|].
    intros id t Ht Hd. apply K2; [by apply K1|done].
Qed.

Definition Good (s s' : Scheduler) : Prop := Inv s -> Inv s' /\ advance s s'.

#[local] Instance Good_preorder : PreOrder Good.
Proof.
  split.
  - intros s I. by split.
  - intros s1 s2 s3 H1 H2 I1. destruct (H1 I1) as [I2 F1], (H2 I2) as [I3 F2].
    split; [done|]. by transitivity s2.
Qed.

(** Fewer claims under unchanged generations satisfy the fence. *)
Lemma advance_fewer s s' :
  generations s' = generations s ->
  (forall id c, claims s' !! id = Some c -> claims s !! id = Some c) ->
  terminal_kept s s' -> advance s s'.
Proof.
  intros Hg Hc Hk. split; [|done]. intros id. simpl. rewrite Hg. split; [lia|]. intros g o Hl. left.
  destruct (claims s' !! id) eqn:E; simplify_eq/=. by rewrite (Hc _ _ E).
Qed.

Lemma Good_transition id next s :
  (forall t, tasks s !! id = Some t -> next = Running -> state t <> Queued) ->
  Good s (transition id next s).2.
Proof.
  intros Hrun I. rewrite transition_eq.
  destruct (tasks s !! id) as [t|] eqn:Ht; [|done].
  destruct (bool_decide (next = Queued) && queue_is_full s) eqn:Hfull; [done|].
  destruct (can_transition_to (state t) next) eqn:Hcan; [|done]. simpl. split.
  - apply Inv_transition; try done; [|by eauto]. intros ->. by split_bool.
  - apply advance_fewer; [done|by intros i c [? _]%after_transition_claims|].
    intros i ti Hi Hterm. simpl. rewrite lookup_insert_ne; [done|].
    intros <-. simplify_eq. by rewrite terminal_no_exit in Hcan.
Qed.

Lemma Good_enqueue task s : Good s (enqueue task s).2.
Proof.
  intros I. unfold enqueue; unfold_monad.
  destruct (tasks s !! task_id task) eqn:Ht; [done|].
  destruct (queue_is_full s) eqn:Hfull; [done|].
  destruct (task_transition task Queued) as [t'|] eqn:Htr; simpl; [|done].
  apply task_transition_Ok in Htr as [Hcan ->].
  split; [|apply advance_fewer; [done|done|]; intros i ti ? ?; simpl;
           rewrite lookup_insert_ne by congruence; done].
  assert (Hnew : task_id task ∉ queue s).
  { rewrite (inv_queue _ I). intros (t & ? & _). congruence. }
  unfold queue_is_full, vec_len in Hfull. split_bool.
  split; simpl.
  - apply I.
  - unfold vec_len. rewrite length_app. simpl. lia.
  - apply list.NoDup_app. split; [apply I|]. split; [set_solver|apply NoDup_singleton].
  - intros i. rewrite elem_of_app, list_elem_of_singleton, (inv_queue _ I).
    destruct (decide (i = task_id task)) as [->|].
    + rewrite lookup_insert_eq. naive_solver.
    + rewrite lookup_insert_ne by done. naive_solver.
  - intros i t [[<- <-]|[? ?]]%lookup_insert_Some; [done|by apply I].
  - intros i t [[<- <-]|[? ?]]%lookup_insert_Some; [done|by eapply I].
  - intros i c Hc. destruct (inv_claim _ I _ _ Hc) as (t & ? & ?).
    exists t. by rewrite lookup_insert_ne by congruence.
  - apply I.
  - apply I.
Qed.

Lemma advance_expire now s : Inv s -> advance s (expire now s).
Proof.
  intros I. apply advance_fewer; [done|done|]. intros id t Ht Hterm.
  rewrite expire_kept; [done|]. intros Hin.
  destruct (expire_late now s id I Hin) as (t' & [? Hs] & _). simplify_eq. by rewrite Hs in Hterm.
Qed.

Lemma Good_peek now s : Good s (peek_runnable now s).2.
Proof.
  intros I. destruct (peek_loop_spec (S (length (queue s))) now s I) as [Hp I']; [lia|].
  unfold peek_runnable; unfold_monad. rewrite Hp. split; [done|].
  by apply advance_expire.
Qed.

Lemma Good_claim now s : Good s (claim now s).2.
Proof.
  intros I. split; [by apply claim_Inv|].
  destruct (claim_spec now s I) as [[_ ->]|(id & q & t & _ & [Ht Hs] & Ht' & _ & ->)];
    [by apply advance_expire|].
  transitivity (expire now s); [by apply advance_expire|].
  apply advance_fewer; [done|done|]. intros i ti Hi Hterm. simpl.
  rewrite lookup_insert_ne; [done|]. intros <-. simplify_eq. by rewrite Hs in Hterm.
Qed.

(** Recording a lease on a running task under the next generation. *)
Lemma Good_grant s id t g owner until :
  tasks s !! id = Some t -> state t = Running ->
  checked_add u64_max (default 0 (generations s !! id)) 1 = Some g ->
  Good s (set_claims (<[id := {| ac_generation := g; ac_lease_owner := owner;
                                 ac_lease_until_ms := until |}]> (claims s))
            (set_generations (<[id := g]> (generations s)) s)).
Proof.
  intros Ht Hs Hg I. apply checked_add_Some in Hg as [-> Hg]. split.
  - split; simpl; try apply I.
    + intros i c [[<- <-]|[? Hc]]%lookup_insert_Some; [by eauto|by eapply I].
    + intros i c [[<- <-]|[? Hc]]%lookup_insert_Some; [by rewrite lookup_insert_eq|].
      rewrite lookup_insert_ne by done. by apply I.
    + intros i g [[<- <-]|[? Hi]]%lookup_insert_Some; [|by eapply I].
      destruct (generations s !! id) eqn:E; simpl in *; [|lia].
      pose proof (inv_generation_range _ I _ _ E). lia.
  - split; [|by intros ? ?]. intros i. simpl. destruct (decide (i = id)) as [->|].
    + rewrite !lookup_insert_eq. simpl. split; [lia|]. intros g o [= <- <-]. right. lia.
    + rewrite !lookup_insert_ne by done. split; [lia|by left].
Qed.

(** ** Giving a task back to the queue *)

Definition requeued (id : TaskId) (t : Task) (s : Scheduler) : Scheduler :=
  {| capacity := capacity s;
     queue := queue s ++ [id];
     tasks := <[id := set_task_state Queued t]> (tasks s);
     claims := delete id (claims s);
     generations := generations s |}.

Definition active (t : Task) : Prop := state t = Running \/ state t = WaitingIo.

Lemma retry_running id t s :
  tasks s !! id = Some t -> active t ->
  transition id Retrying s = (Ok (set_task_state Retrying t), after_transition id Retrying t s).
Proof. intros Ht [Hs|Hs]; by rewrite transition_eq, Ht, Hs. Qed.

Lemma requeue_running id t s :
  tasks s !! id = Some t -> active t -> queue_is_full s = false ->
  (transition id Retrying;; transition id Queued) s =
    (Ok (set_task_state Queued t), requeued id t s).
Proof.
  intros Ht Ha Hf. unfold_monad. rewrite (retry_running id t s Ht Ha), transition_eq. simpl. rewrite lookup_insert_eq.
  change (queue_is_full (after_transition id Retrying t s)) with (queue_is_full s).
  rewrite Hf. simpl.
  unfold requeued, after_transition. simpl. f_equal. f_equal.
  - apply insert_insert_eq.
  - apply delete_delete_eq.
Qed.

Lemma Good_requeued id t s :
  tasks s !! id = Some t -> active t -> queue_is_full s = false -> Good s (requeued id t s).
Proof.
  intros Ht Ha Hf.
  replace (requeued id t s) with (transition id Queued (transition id Retrying s).2).2.
  - etransitivity; apply Good_transition; naive_solver.
  - pose proof (requeue_running id t s Ht Ha Hf) as E. unfold_monad.
    rewrite (retry_running id t s Ht Ha) in *. simpl. by rewrite E.
Qed.

Lemma start_front_not_full s id q t :
  Inv s -> queue s = id :: q -> queue_is_full (start_front id t s) = false.
Proof.
  intros I Hq. pose proof (inv_length _ I). unfold queue_is_full, vec_len in *. simpl.
  rewrite Hq in *. simpl in *. apply Z.leb_gt. lia.
Qed.

Definition granted (id : TaskId) (g : Z) (owner : string) (until : Z) (s : Scheduler) : Scheduler :=
  set_claims (<[id := {| ac_generation := g; ac_lease_owner := owner;
                         ac_lease_until_ms := until |}]> (claims s))
    (set_generations (<[id := g]> (generations s)) s).

Definition next_generation (s : Scheduler) (id : TaskId) : option Z :=
  checked_add u64_max (default 0 (generations s !! id)) 1.

(** The whole of [claim_with_lease], branch by branch. *)
Lemma claim_with_lease_spec now owner ms s :
  Inv s ->
  claim_with_lease now owner ms s =
  match validate_lease owner ms, checked_add u64_max now ms with
  | Err e, _ => (Err e, s)
  | Ok _, None => (Err TimeRange, s)
  | Ok _, Some until =>
      match queue (expire now s) with
      | [] => (Ok None, expire now s)
      | id :: _ =>
          match tasks s !! id with
          | None => (Ok None, expire now s)
          | Some t =>
              match next_generation s id with
              | None => (Err GenerationExhausted,
                         requeued id (start_attempt t) (start_front id t (expire now s)))
              | Some g =>
                  (Ok (Some {| tc_task := start_attempt t; tc_generation := g;
                               tc_lease_owner := owner; tc_lease_until_ms := until |}),
                   granted id g owner until (start_front id t (expire now s)))
              end
          end
      end
  end.
Proof.
  intros I. unfold claim_with_lease; unfold_monad.
  destruct (validate_lease owner ms) as [[]|e]; [|done].
  destruct (checked_add u64_max now ms) as [until|]; [|done]. simpl.
  destruct (peek_loop_spec (S (length (queue s))) now s I) as [_ I']; [lia|].
  destruct (claim_spec now s I) as [[Hq ->]|(id & q & t & Hq & [Ht Hs] & Ht' & _ & ->)];
    simpl in Hq; rewrite Hq; [done|].
  assert (Hid : task_id (start_attempt t) = id) by exact (inv_id _ I _ _ Ht).
  rewrite Hid, Ht. unfold next_generation. simpl.
  destruct (checked_add u64_max (default 0 (generations s !! id)) 1) as [g|] eqn:Hg; [done|].
  assert (Hl : tasks (start_front id t (expire now s)) !! id = Some (start_attempt t))
    by apply lookup_insert_eq.
  assert (Ha : active (start_attempt t)) by (by left).
  pose proof (requeue_running id _ _ Hl Ha) as Hr.
  unfold_monad. rewrite (retry_running id _ _ Hl Ha) in *.
  rewrite Hr; [done|]. by eapply start_front_not_full.
Qed.

Lemma Good_claim_with_lease now owner ms s : Good s (claim_with_lease now owner ms s).2.
Proof.
  intros I. rewrite claim_with_lease_spec by done.
  destruct (validate_lease owner ms) as [[]|e]; [|done].
  destruct (checked_add u64_max now ms) as [until|]; [|done].
  pose proof (Good_claim now s I) as G.
  destruct (peek_loop_spec (S (length (queue s))) now s I) as [_ I']; [lia|].
  destruct (claim_spec now s I) as [[Hq E]|(id & q & t & Hq & [Ht Hs] & Ht' & _ & E)];
    rewrite Hq; rewrite E in G; [done|]. rewrite Ht.
  destruct G as [I2 F].
  destruct (next_generation s id) as [g|] eqn:Hg; simpl;
    [destruct (Good_grant (start_front id t (expire now s)) id (start_attempt t) g owner until) as [? ?]
    |destruct (Good_requeued id (start_attempt t) (start_front id t (expire now s))) as [? ?]];
    try done; try (by apply lookup_insert_eq); try (by left);
    try (by eapply start_front_not_full);
    (split; [done|]; by etransitivity).
Qed.

(** ** Operations on a held claim *)

Lemma require_live_claim_Ok c now s a s' :
  require_live_claim c now s = (Ok a, s') <->
  s' = s /\ claims s !! task_id (tc_task c) = Some a /\
  ac_generation a = tc_generation c /\ ac_lease_owner a = tc_lease_owner c /\
  now < ac_lease_until_ms a.
Proof.
  unfold require_live_claim. destruct (claims s !! _) as [b|]; [|naive_solver].
  destruct (Z.eqb_spec (ac_generation b) (tc_generation c)),
    (String.eqb_spec (ac_lease_owner b) (tc_lease_owner c)),
    (Z.leb_spec (ac_lease_until_ms b) now); simpl; naive_solver lia.
Qed.

Lemma require_live_claim_cases c now s :
  (exists a, require_live_claim c now s = (Ok a, s)) \/
  require_live_claim c now s = (Err LeaseLost, s).
Proof.
  unfold require_live_claim. destruct (claims s !! _) as [b|]; [|by right].
  destruct (_ || _); eauto.
Qed.

Lemma Good_renew c now ms s : Good s (renew_claim c now ms s).2.
Proof.
  intros I. unfold renew_claim; unfold_monad.
  destruct (validate_lease _ ms) as [[]|e]; [|done].
  destruct (checked_add u64_max now ms) as [until|]; [|done]. simpl.
  destruct (require_live_claim_cases c now s) as [[a Ha]| ->]; [|done].
  rewrite Ha. apply require_live_claim_Ok in Ha as (_ & Hc & _).
  set (id := task_id (tc_task c)) in *.
  destruct (inv_claim _ I _ _ Hc) as (t & Ht & Hs).
  unfold get_task. simpl. rewrite Ht. simpl. split.
  - split; simpl; try apply I;
      intros i c' [[<- <-]|[? Hl]]%lookup_insert_Some;
      [by eauto|by eapply I|exact (inv_generation _ I _ _ Hc)|by eapply I].
  - split; [|by intros ? ?]. intros i. simpl. split; [lia|]. intros g o Hl. left.
    destruct (decide (i = id)) as [->|].
    + rewrite lookup_insert_eq in Hl. by rewrite Hc.
    + by rewrite lookup_insert_ne in Hl by done.
Qed.

Lemma Good_finish c now next s : Good s (finish_claim c now next s).2.
Proof.
  unfold finish_claim; unfold_monad.
  destruct (claim_outcome_allowed next) eqn:Hn; simpl; [|done].
  destruct (require_live_claim_cases c now s) as [[a ->]| ->]; [|done].
  apply Good_transition. by intros t _ ->.
Qed.

Lemma Good_release c now s : Good s (release_claim c now s).2.
Proof.
  unfold release_claim; unfold_monad.
  destruct (require_live_claim_cases c now s) as [[a Ha]| ->]; [|done]. rewrite Ha.
  apply require_live_claim_Ok in Ha as (_ & Hc & _).
  unfold get_task. destruct (tasks s !! task_id (tc_task c)) as [t|] eqn:Ht; [|done].
  destruct (deadline_reached t now); [by apply Good_transition|].
  destruct (queue_is_full s) eqn:Hf; [done|]. intros I.
  destruct (inv_claim _ I _ _ Hc) as (t' & ? & Ha). simplify_eq.
  pose proof (requeue_running _ _ _ Ht Ha Hf) as E. unfold_monad. rewrite E.
  by apply Good_requeued.
Qed.

Lemma Good_cancel id s : Good s (cancel id s).2.
Proof.
  unfold cancel, get_task; unfold_monad. destruct (tasks s !! id) as [t|]; [|done].
  destruct (is_terminal (state t)); [done|]. by apply Good_transition.
Qed.

(** ** Requeueing claims *)

(** One turn of [requeue_loop] on a claimed id: times out, requeues or skips. *)
Definition requeue_step (now : Z) (id : TaskId) (t : Task) (s : Scheduler) : bool * Scheduler :=
  if deadline_reached t now then (true, after_transition id TimedOut t s)
  else if queue_is_full s then (false, s)
  else (true, requeued id t s).

Lemma requeue_loop_cons id ids now acc s t :
  tasks s !! id = Some t -> active t ->
  requeue_loop (id :: ids) now acc s =
  let '(b, s') := requeue_step now id t s in
  requeue_loop ids now (if b then acc ++ [id] else acc) s'.
Proof.
  intros Ht Ha. cbn [requeue_loop]. unfold get_task, requeue_step. unfold_monad. rewrite Ht.
  destruct (deadline_reached t now).
  - rewrite transition_eq, Ht. simpl. by destruct Ha as [->| ->].
  - destruct (queue_is_full s) eqn:Hf; simpl; [done|].
    pose proof (requeue_running id t s Ht Ha Hf) as E. unfold_monad.
    destruct (transition id Retrying s) as [[|]]; [by rewrite E|done].
Qed.

Lemma requeue_step_Good now id t s :
  tasks s !! id = Some t -> active t -> Good s (requeue_step now id t s).2.
Proof.
  intros Ht Ha. unfold requeue_step. destruct (deadline_reached t now).
  - replace (after_transition id TimedOut t s) with (transition id TimedOut s).2;
      [by apply Good_transition|].
    rewrite transition_eq, Ht. simpl. by destruct Ha as [->| ->].
  - destruct (queue_is_full s) eqn:Hf; [done|]. by apply Good_requeued.
Qed.

Lemma requeue_step_claims now id t s j :
  claims (requeue_step now id t s).2 !! j =
  if (requeue_step now id t s).1 && bool_decide (j = id) then None else claims s !! j.
Proof.
  unfold requeue_step. destruct (deadline_reached t now); [|destruct (queue_is_full s)]; simpl;
    [|done|]; (destruct (decide (j = id)) as [->|];
      [rewrite bool_decide_true, lookup_delete_eq by done
      |rewrite bool_decide_false, lookup_delete_ne by done]; done).
Qed.

Lemma requeue_step_tasks now id t s j :
  ((requeue_step now id t s).1 = true -> j <> id) ->
  tasks (requeue_step now id t s).2 !! j = tasks s !! j.
Proof.
  unfold requeue_step. destruct (deadline_reached t now); [|destruct (queue_is_full s)]; simpl;
    [|done|]; intros Hj; rewrite lookup_insert_ne by naive_solver; done.
Qed.

Lemma requeue_step_queue now id t s :
  Inv s -> tasks s !! id = Some t -> active t ->
  capacity (requeue_step now id t s).2 = capacity s /\
  vec_len (queue s) <= vec_len (queue (requeue_step now id t s).2) /\
  ((requeue_step now id t s).1 = false -> queue_is_full s = true).
Proof.
  intros I Ht Ha. unfold requeue_step, vec_len. destruct (deadline_reached t now).
  - simpl. split_and!; [done| |done]. unfold queue_after. simpl. rewrite filter_notin; [lia|].
    rewrite (Inv_in_queue _ _ _ I Ht). destruct Ha; congruence.
  - destruct (queue_is_full s) eqn:Hf; simpl; split_and!; try done; try lia.
    rewrite length_app. lia.
Qed.

Lemma requeue_loop_spec ids now acc s :
  Inv s -> NoDup ids -> (forall id, id ∈ ids -> is_Some (claims s !! id)) ->
  exists processed s',
    requeue_loop ids now acc s = (Ok (acc ++ processed), s') /\ Inv s' /\ advance s s' /\
    capacity s' = capacity s /\ vec_len (queue s) <= vec_len (queue s') /\
    processed `sublist_of` ids /\
    (forall id, claims s' !! id = if decide (id ∈ processed) then None else claims s !! id) /\
    (forall id, id ∉ processed -> tasks s' !! id = tasks s !! id) /\
    (forall id, id ∈ ids -> id ∉ processed -> queue_is_full s' = true).
Proof.
  revert acc s. induction ids as [|id ids IH]; intros acc s I Hnd Hcl.
  { exists [], s. rewrite app_nil_r. split_and!; try done; set_solver. }
  apply list.NoDup_cons in Hnd as [Hid Hnd].
  destruct (Hcl id) as [c Hc]; [by left|]. destruct (inv_claim _ I _ _ Hc) as (t & Ht & Ha).
  rewrite (requeue_loop_cons _ _ _ _ _ t) by done.
  destruct (requeue_step_Good now id t s Ht Ha I) as [I1 F1].
  destruct (requeue_step_queue now id t s I Ht Ha) as (Hcap & Hlen & Hskip).
  pose proof (requeue_step_claims now id t s) as Hc1.
  pose proof (requeue_step_tasks now id t s) as Ht1.
  destruct (requeue_step now id t s) as [b s1]. simpl in *.
  destruct (IH (if b then acc ++ [id] else acc) s1) as
    (pr & s' & -> & I' & F' & Hcap' & Hlen' & Hsub & Hc' & Ht' & Hfull); [done|done| |].
  { intros j Hj. rewrite Hc1. rewrite (bool_decide_false (j = id)) by congruence.
    rewrite andb_false_r. apply Hcl. by right. }
  exists (if b then id :: pr else pr), s'. split_and!; try done; try lia.
  - destruct b; [by rewrite <- app_assoc|done].
  - by transitivity s1.
  - destruct b; [by apply sublist_skip|by apply sublist_cons].
  - intros j. rewrite Hc', Hc1. destruct b; simpl; [|done].
    destruct (decide (j = id)) as [->|].
    + rewrite bool_decide_true by done. rewrite (decide_True (P := id ∈ id :: pr)) by left.
      by destruct (decide _).
    + rewrite bool_decide_false by done. apply decide_ext. set_solver.
  - intros j Hj. rewrite Ht', Ht1; [done| |]; destruct b; set_solver.
  - intros j Hj Hnj. apply elem_of_cons in Hj as [->|Hj].
    + destruct b; [set_solver|]. specialize (Hskip eq_refl).
      unfold queue_is_full in *. split_bool. apply Z.leb_le. lia.
    + apply (Hfull j Hj). destruct b; set_solver.
Qed.

(** [claimed_ids] lists the selected claims once each, in increasing order. *)
Lemma claimed_ids_elem p s id :
  id ∈ claimed_ids p s <-> exists c, claims s !! id = Some c /\ p c = true.
Proof.
  unfold claimed_ids. rewrite merge_sort_Permutation, list_elem_of_fmap. split.
  - intros ([i c] & -> & [Hp Hin]%list_elem_of_filter). apply elem_of_map_to_list in Hin.
    by exists c.
  - intros (c & Hc & Hp). exists (id, c). split; [done|].
    apply list_elem_of_filter. split; [done|]. by apply elem_of_map_to_list.
Qed.

Lemma claimed_ids_NoDup p s : NoDup (claimed_ids p s).
Proof.
  unfold claimed_ids. rewrite merge_sort_Permutation.
  eapply sublist_NoDup; [exact (NoDup_fst_map_to_list (claims s))|].
  apply fmap_sublist, sublist_filter.
Qed.

Lemma claimed_ids_sorted p s : StronglySorted Z.le (claimed_ids p s).
Proof. apply StronglySorted_merge_sort; apply _. Qed.

Lemma requeue_claimed_spec p now limit s :
  Inv s ->
  exists processed s',
    requeue_claims (claimed_ids p s) now limit s = (Ok processed, s') /\ Inv s' /\ advance s s' /\
    processed `sublist_of` takeZ limit (claimed_ids p s) /\
    (forall id, claims s' !! id = if decide (id ∈ processed) then None else claims s !! id) /\
    (forall id, id ∉ processed -> tasks s' !! id = tasks s !! id) /\
    (forall id, id ∈ takeZ limit (claimed_ids p s) -> id ∉ processed -> queue_is_full s' = true).
Proof.
  intros I. unfold requeue_claims.
  destruct (requeue_loop_spec (takeZ limit (claimed_ids p s)) now [] s I) as
    (ids & s' & H); [| |naive_solver].
  - rewrite takeZ_take. eapply sublist_NoDup; [apply claimed_ids_NoDup|apply sublist_take].
  - intros id. rewrite takeZ_take. intros Hin%subseteq_take.
    apply claimed_ids_elem in Hin as (c & ? & _). by eexists.
Qed.

Lemma Good_requeue_expired now limit s : Good s (requeue_expired now limit s).2.
Proof.
  intros I. unfold requeue_expired; unfold_monad.
  by destruct (requeue_claimed_spec (fun c => ac_lease_until_ms c <=? now) now limit s I)
    as (? & ? & -> & ? & ? & _).
Qed.

Lemma Good_requeue_owner owner now limit s : Good s (requeue_owner_claims owner now limit s).2.
Proof.
  intros I. unfold requeue_owner_claims; unfold_monad.
  destruct (validate_lease_owner owner) as [[]|]; [|done].
  by destruct (requeue_claimed_spec (fun c => String.eqb (ac_lease_owner c) owner) now limit s I)
    as (? & ? & -> & ? & ? & _).
Qed.

(** ** What an accepted claim operation did *)

Lemma finish_claim_Ok c now next s t' s' :
  finish_claim c now next s = (Ok t', s') ->
  let id := task_id (tc_task c) in
  exists t a, claims s !! id = Some a /\ ac_generation a = tc_generation c /\
    ac_lease_owner a = tc_lease_owner c /\ now < ac_lease_until_ms a /\
    tasks s !! id = Some t /\ claim_outcome_allowed next = true /\
    t' = set_task_state next t /\ s' = after_transition id next t s.
Proof.
  unfold finish_claim; unfold_monad. destruct (claim_outcome_allowed next) eqn:Hn; [|done]. simpl.
  destruct (require_live_claim_cases c now s) as [[a Ha]| ->]; [|done]. rewrite Ha.
  apply require_live_claim_Ok in Ha as (_ & Hc & Hg & Ho & Hu).
  rewrite transition_eq. destruct (tasks s !! _) as [t|] eqn:Ht; [|done].
  destruct (_ && _); [done|]. destruct (can_transition_to _ _); [|done]. intros [= <- <-].
  by exists t, a.
Qed.

Lemma release_claim_Ok c now s t' s' :
  Inv s -> release_claim c now s = (Ok t', s') ->
  let id := task_id (tc_task c) in
  exists t a, claims s !! id = Some a /\ ac_generation a = tc_generation c /\
    ac_lease_owner a = tc_lease_owner c /\ now < ac_lease_until_ms a /\
    tasks s !! id = Some t /\
    (deadline_reached t now = true /\ t' = set_task_state TimedOut t /\
       s' = after_transition id TimedOut t s \/
     deadline_reached t now = false /\ t' = set_task_state Queued t /\ s' = requeued id t s).
Proof.
  intros I. unfold release_claim; unfold_monad.
  destruct (require_live_claim_cases c now s) as [[a Ha]| ->]; [|done]. rewrite Ha.
  apply require_live_claim_Ok in Ha as (_ & Hc & Hg & Ho & Hu).
  destruct (inv_claim _ I _ _ Hc) as (t & Ht & Hact). unfold get_task. rewrite Ht.
  intros H. exists t, a. split_and!; try done.
  destruct (deadline_reached t now).
  - left. rewrite transition_eq, Ht in H. simpl in H.
    by destruct Hact as [Hs|Hs]; rewrite Hs in H; simplify_eq/=.
  - right. destruct (queue_is_full s) eqn:Hf; [done|].
    pose proof (requeue_running _ _ _ Ht Hact Hf) as E. unfold_monad. rewrite E in H. by simplify_eq.
Qed.

(** Removing a claim makes its generation dead. *)
Lemma dropped_claim_dead s s' id a :
  Inv s -> claims s !! id = Some a -> generations s' = generations s -> claims s' !! id = None ->
  lease_dead s' id (ac_generation a).
Proof.
  intros I Hc Hg Hn. split; simpl.
  - rewrite Hg, (inv_generation _ I _ _ Hc). simpl. lia.
  - by rewrite Hn.
Qed.

(** ** What a granted lease looks like, and what claiming leaves alone *)

Lemma claim_with_lease_Some now owner ms s c s' :
  Inv s -> claim_with_lease now owner ms s = (Ok (Some c), s') ->
  exists t g, queued_task s (task_id t) t /\ claims s !! task_id t = None /\
    validate_lease owner ms = Ok () /\ now + ms <= u64_max /\
    g = default 0 (generations s !! task_id t) + 1 /\ g <= u64_max /\
    c = {| tc_task := start_attempt t; tc_generation := g; tc_lease_owner := owner;
           tc_lease_until_ms := now + ms |} /\
    s' = granted (task_id t) g owner (now + ms) (start_front (task_id t) t (expire now s)).
Proof.
  intros I. rewrite claim_with_lease_spec by done.
  destruct (validate_lease owner ms) as [[]|]; [|done].
  destruct (checked_add u64_max now ms) as [until|] eqn:Hu; [|done].
  apply checked_add_Some in Hu as [-> Hu].
  destruct (claim_spec now s I) as [[Hq E]|(id & q & t & Hq & [Ht Hs] & Ht' & _ & _)];
    rewrite Hq; [done|]. rewrite Ht.
  destruct (next_generation s id) as [g|] eqn:Hg; [|done].
  apply checked_add_Some in Hg as [Hg ?]. intros [= <- <-].
  pose proof (inv_id _ I _ _ Ht). subst id.
  exists t, g. split_and!; try done; try lia.
  destruct (claims s !! task_id t) as [a|] eqn:Hc; [|done].
  destruct (inv_claim _ I _ _ Hc) as (t0 & ? & [?|?]); simplify_eq; congruence.
Qed.

(** Every claimed task keeps its claim and its record. *)
Definition held_kept (s s' : Scheduler) : Prop :=
  forall id a, claims s !! id = Some a ->
    claims s' !! id = Some a /\ tasks s' !! id = tasks s !! id.

Lemma claimed_not_queued s id a t :
  Inv s -> claims s !! id = Some a -> tasks s !! id = Some t -> state t <> Queued.
Proof.
  intros I Hc Ht Hs. destruct (inv_claim _ I _ _ Hc) as (t0 & ? & [?|?]); simplify_eq; congruence.
Qed.

Lemma expire_held_kept now s : Inv s -> held_kept s (expire now s).
Proof.
  intros I id a Hc. split; [done|]. apply expire_kept. intros Hin.
  destruct (expire_late now s id I Hin) as (t & [Ht Hs] & _). by eapply claimed_not_queued.
Qed.

Lemma peek_held_kept now s : Inv s -> held_kept s (peek_runnable now s).2.
Proof.
  intros I. destruct (peek_loop_spec (S (length (queue s))) now s I) as [Hp _]; [lia|].
  unfold peek_runnable; unfold_monad. rewrite Hp. by apply expire_held_kept.
Qed.

Lemma claim_with_lease_held_kept now owner ms s :
  Inv s -> held_kept s (claim_with_lease now owner ms s).2.
Proof.
  intros I id a Hc. rewrite claim_with_lease_spec by done.
  destruct (validate_lease owner ms) as [[]|]; [|done].
  destruct (checked_add u64_max now ms) as [until|]; [|done].
  destruct (expire_held_kept now s I id a Hc) as [Hc' Ht0].
  destruct (claim_spec now s I) as [[Hq E]|(j & q & t & Hq & [Ht Hs] & Ht' & _ & _)];
    rewrite Hq; [done|]. rewrite Ht.
  assert (id <> j) by (intros ->; by eapply claimed_not_queued).
  destruct (next_generation s j); simpl in *; rewrite ?lookup_insert_ne, ?lookup_delete_ne by done; done.
Qed.

End Spec.

#[export] Hint Resolve Good_enqueue Good_peek Good_claim Good_claim_with_lease Good_renew
  Good_finish Good_release Good_requeue_expired Good_requeue_owner Good_cancel : tysel.
