(* ===== verification/SchedulerThms.v ===== *)
(** * Scheduler: what its callers rely on

    Reachable states, and the theorems about whole operations: the invariant,
    first-in first-out claims, fenced leases, requeueing and cancellation. *)

From Stdlib Require Import ZArith Lia Ascii String.
From stdpp Require Import base tactics list gmap strings sorting numbers relations.
From S2P Require Import Prelude TaskModel Lease Scheduler SchedulerSpec.
Open Scope Z_scope.

Section Reachable.
Context {SJ : SerdeJson}.
Implicit Types (s : Scheduler) (t : Task) (id : TaskId).

(** The public methods that take [&mut self]. *)
Inductive SchedulerOp :=
| OpEnqueue (task : Task)
| OpPeek (now_ms : Z)
| OpClaim (now_ms : Z)
| OpClaimWithLease (now_ms : Z) (lease_owner : string) (lease_ms : Z)
| OpRenew (c : TaskClaim) (now_ms lease_ms : Z)
| OpFinish (c : TaskClaim) (now_ms : Z) (next : TaskState)
| OpRelease (c : TaskClaim) (now_ms : Z)
| OpRequeueExpired (now_ms limit : Z)
| OpRequeueOwner (lease_owner : string) (now_ms limit : Z)
| OpTransition (id : TaskId) (next : TaskState)
| OpCancel (id : TaskId).

Definition run_op (op : SchedulerOp) (s : Scheduler) : Scheduler :=
  match op with
  | OpEnqueue task => (enqueue task s).2
  | OpPeek now => (peek_runnable now s).2
  | OpClaim now => (claim now s).2
  | OpClaimWithLease now owner ms => (claim_with_lease now owner ms s).2
  | OpRenew c now ms => (renew_claim c now ms s).2
  | OpFinish c now next => (finish_claim c now next s).2
  | OpRelease c now => (release_claim c now s).2
  | OpRequeueExpired now limit => (requeue_expired now limit s).2
  | OpRequeueOwner owner now limit => (requeue_owner_claims owner now limit s).2
  | OpTransition id next => (transition id next s).2
  | OpCancel id => (cancel id s).2
  end.

(** One public call is left out: [transition(id, Running)] while the id is queued, which
    leaves the id in the queue ([transition_running_strands_queue]). *)
Definition op_allowed (op : SchedulerOp) (s : Scheduler) : Prop :=
  match op with
  | OpTransition id Running => id ∉ queue s
  | _ => True
  end.

(** The methods in any order, without that call *)
Inductive sched_step (s : Scheduler) : Scheduler -> Prop :=
| sched_step_op op : op_allowed op s -> sched_step s (run_op op s).

Lemma run_op_Good op s : op_allowed op s -> Good s (run_op op s).
Proof.
  intros Ha. destruct op; simpl in *; auto with tysel.
  intros I. apply Good_transition; [|done]. intros t Ht -> Hs. apply Ha.
  by apply (Inv_in_queue _ _ _ I Ht).
Qed.

Lemma steps_Good s s' : rtc sched_step s s' -> Inv s -> Inv s' /\ advance s s'.
Proof.
  induction 1 as [s|s s1 s' [op Ha] _ IH]; intros I; [by split|].
  destruct (run_op_Good op s Ha I) as [I1 F1]. destruct (IH I1) as [I' F'].
  split; [done|]. by transitivity (run_op op s).
Qed.

Lemma transition_running_queued id t s :
  Inv s -> tasks s !! id = Some t -> id ∈ queue s ->
  transition id Running s = (Ok (set_task_state Running t), after_transition id Running t s).
Proof.
  intros I Ht Hq. rewrite transition_eq, Ht. apply (Inv_in_queue _ _ _ I Ht) in Hq. by rewrite Hq.
Qed.

Lemma Inv_run_op op s : Inv s -> Inv (run_op op s) <-> op_allowed op s.
Proof.
  intros I. split; [|intros Ha; by apply run_op_Good].
  destruct op as [| | | | | | | | |id next|]; try done. destruct next; try done. cbn. intros I' Hq.
  destruct (proj1 (inv_queue _ I id) Hq) as (t & Ht & _).
  rewrite (transition_running_queued id t s I Ht Hq) in I'. cbn in I'.
  assert (id ∈ queue (after_transition id Running t s)) as (t' & Ht' & Hs)%(inv_queue _ I') by done.
  cbn in Ht'. rewrite lookup_insert_eq in Ht'. by injection Ht' as <-.
Qed.

(** C14. In every state the scheduler reaches from [Scheduler::new] by its public
    methods, without a [transition(id, Running)] of a queued id, the queue holds each
    queued task once and nothing else, never more than the capacity; every task is
    stored under its own id; and a claim exists only on a running or waiting task,
    under that task's latest generation, which fits a u64. That one call is the only
    one to be left out: in such a state every other call keeps the invariant,
    whatever its arguments, and that one breaks it. *)
Theorem scheduler_invariant cap s0 s :
  0 <= cap -> Scheduler_new cap = Ok s0 -> rtc sched_step s0 s ->
  Inv s /\ forall op, Inv (run_op op s) <-> op_allowed op s.
Proof.
  intros Hc Hn Hr. assert (Inv s) as I by by eapply steps_Good; [done|eapply Inv_new].
  split; [done|]. intros op. by apply Inv_run_op.
Qed.

(** A claim token whose generation is dead is rejected by every method that
    takes a claim, and the scheduler is left as it was. *)
Definition token_rejected (c : TaskClaim) (now_ms : Z) (s : Scheduler) : Prop :=
  (forall next, claim_outcome_allowed next = true ->
     finish_claim c now_ms next s = (Err LeaseLost, s)) /\
  release_claim c now_ms s = (Err LeaseLost, s) /\
  (forall lease_ms, is_ok (renew_claim c now_ms lease_ms s).1 = false /\
     (renew_claim c now_ms lease_ms s).2 = s).

Lemma dead_token_rejected c now s :
  lease_dead s (task_id (tc_task c)) (tc_generation c) -> token_rejected c now s.
Proof.
  intros [_ Hdead].
  assert (Hl : require_live_claim c now s = (Err LeaseLost, s)).
  { destruct (require_live_claim_cases c now s) as [[a Ha]|]; [|done].
    apply require_live_claim_Ok in Ha as (_ & Hc & Hg & _).
    exfalso. apply (Hdead (ac_lease_owner a)). simpl. by rewrite Hc, <- Hg. }
  split; [|split].
  - intros next Hn. unfold finish_claim. rewrite Hn. unfold_monad. simpl. by rewrite Hl.
  - unfold release_claim; unfold_monad. by rewrite Hl.
  - intros ms. unfold renew_claim; unfold_monad.
    destruct (validate_lease _ ms) as [[]|]; [|done].
    destruct (checked_add u64_max now ms); simpl; [by rewrite Hl|done].
Qed.

Lemma finish_claim_dead c now next s t s' :
  Inv s -> finish_claim c now next s = (Ok t, s') ->
  Inv s' /\ lease_dead s' (task_id (tc_task c)) (tc_generation c).
Proof.
  intros I Hf. destruct (Good_finish c now next s I) as [I' _]. rewrite Hf in I'. split; [done|].
  apply finish_claim_Ok in Hf as (t0 & a & Hc & <- & _ & _ & _ & Hn & _ & ->).
  apply (dropped_claim_dead s _ _ a I Hc); [done|].
  simpl. assert (drops_claim next = true) as -> by (by destruct next). apply lookup_delete_eq.
Qed.

(** C24. A claim commits at most once: after [finish_claim] accepted a claim, the
    same claim is refused by [finish_claim], [release_claim] and [renew_claim]
    at every time and in every state the scheduler reaches afterwards, and the
    refusal changes nothing. *)
Theorem claim_commits_once s c now next t s1 s2 now' :
  Inv s -> finish_claim c now next s = (Ok t, s1) -> rtc sched_step s1 s2 ->
  token_rejected c now' s2.
Proof.
  intros I Hf Hr. destruct (finish_claim_dead _ _ _ _ _ _ I Hf) as [I1 D].
  apply dead_token_rejected. destruct (steps_Good _ _ Hr I1) as [_ F].
  by eapply fence_dead; [apply F|].
Qed.

(** [claim] is first-in first-out and total: it never fails; the tasks at
    the front of the queue whose deadline passed become timed out and leave the
    queue; the first task after them is returned, running, with one attempt more
    (saturating), and leaves the queue; nothing else changes. *)
Theorem claim_fifo now s :
  Inv s ->
  let late := take_while (overdue s now) (queue s) in
  let rest := drop_while (overdue s now) (queue s) in
  exists r s', claim now s = (Ok r, s') /\
    queue s' = tail rest /\ claims s' = claims s /\ generations s' = generations s /\
    (r = None <-> rest = []) /\
    (forall t', r = Some t' ->
       exists t, head rest = Some (task_id t') /\ queued_task s (task_id t') t /\
         t' = start_attempt t /\ tasks s' !! task_id t' = Some t') /\
    (forall id, id ∈ late -> exists t, queued_task s id t /\
       tasks s' !! id = Some (set_task_state TimedOut t)) /\
    (forall id, id ∉ late -> head rest <> Some id -> tasks s' !! id = tasks s !! id).
Proof.
  intros I late rest.
  assert (Hlate : forall id, id ∈ late -> exists t, queued_task s id t /\
    tasks (expire now s) !! id = Some (set_task_state TimedOut t)) by (intros; by apply expire_late).
  assert (Hkept : forall id, id ∉ late -> tasks (expire now s) !! id = tasks s !! id)
    by (intros; by apply expire_kept).
  destruct (claim_spec now s I) as [[Hq ->]|(id & q & t & Hq & Ht & Ht' & _ & ->)];
    change (queue (expire now s)) with rest in Hq.
  - exists None, (expire now s). rewrite Hq. split_and!; naive_solver.
  - exists (Some (start_attempt t)), (start_front id t (expire now s)).
    assert (Hid : task_id (start_attempt t) = id) by exact (inv_id _ I _ _ (proj1 Ht)).
    change (queue (start_front id t (expire now s))) with (tail rest). rewrite Hq.
    split_and!; try done.
    + intros ? [= <-]. exists t. rewrite Hid. split_and!; try done. apply lookup_insert_eq.
    + intros i Hi. destruct (Hlate i Hi) as (ti & Hti & ?). exists ti. split; [done|].
      simpl. rewrite lookup_insert_ne; [done|]. intros <-.
      pose proof (inv_nodup _ I) as Hnd. rewrite <- (take_drop_while (overdue s now) (queue s)) in Hnd.
      apply list.NoDup_app in Hnd as (_ & Hdis & _). apply (Hdis id Hi).
      change (drop_while _ _) with rest. rewrite Hq. by left.
    + intros i Hi Hne. simpl. rewrite lookup_insert_ne by naive_solver. by apply Hkept.
Qed.

(** A lease is exclusive: when [claim_with_lease] hands out a claim, the
    task was queued and held by nobody; the claim's generation is larger than
    every generation handed out for the task before; the claim is live from then
    on until it expires; and every claim of the task handed out earlier is dead. *)
Theorem lease_is_exclusive now owner ms s c s' :
  Inv s -> claim_with_lease now owner ms s = (Ok (Some c), s') ->
  let id := task_id (tc_task c) in
  (exists t, queued_task s id t) /\ claims s !! id = None /\
  tc_lease_owner c = owner /\ tc_lease_until_ms c = now + ms /\
  tc_generation c = lease_generation s id + 1 /\
  (forall now', is_ok (require_live_claim c now' s').1 = (now' <? now + ms)) /\
  (forall g, 0 <= g <= lease_generation s id -> lease_dead s' id g).
Proof.
  intros I (t & g & Ht & Hn & _ & _ & Hg & _ & -> & ->)%claim_with_lease_Some; [|done].
  simpl. change (task_id (start_attempt t)) with (task_id t). split_and!; try done.
  - by exists t.
  - intros now'. unfold require_live_claim. simpl.
    change (task_id (start_attempt t)) with (task_id t).
    rewrite lookup_insert_eq. simpl. rewrite Z.eqb_refl, String.eqb_refl. simpl.
    by destruct (Z.leb_spec (now + ms) now'), (Z.ltb_spec now' (now + ms)); try lia.
  - intros g' Hg'. split; simpl; rewrite !lookup_insert_eq; simpl; [lia|].
    intros o [= ? ?]. lia.
Qed.

(** [requeue_expired] never fails. The ids it returns are claims whose lease
    ran out, smallest first and at most [limit] of them; exactly their claims
    are removed; one of the first [limit] expired claims is left in place only
    when the queue is full. *)
Theorem requeue_expired_spec now limit s :
  Inv s ->
  let expired := claimed_ids (fun c => ac_lease_until_ms c <=? now) s in
  exists ids s', requeue_expired now limit s = (Ok ids, s') /\
    ids `sublist_of` takeZ limit expired /\ StronglySorted Z.le expired /\
    (forall id, id ∈ expired <-> exists c, claims s !! id = Some c /\ ac_lease_until_ms c <= now) /\
    (forall id, claims s' !! id = if decide (id ∈ ids) then None else claims s !! id) /\
    (forall id, id ∈ takeZ limit expired -> id ∉ ids -> queue_is_full s' = true).
Proof.
  intros I expired. unfold requeue_expired; unfold_monad.
  destruct (requeue_claimed_spec (fun c => ac_lease_until_ms c <=? now) now limit s I)
    as (ids & s' & -> & _ & _ & Hsub & Hc & _ & Hfull).
  exists ids, s'. split_and!; try done.
  - apply claimed_ids_sorted.
  - intros id. unfold expired. rewrite claimed_ids_elem.
    split; intros (c & ? & ?); exists c; (split; [done|]); by apply Z.leb_le.
Qed.

(** Cancelling a known task always succeeds, from every state: the task that
    comes back is terminal, was left alone if it already was, is no longer
    queued or claimed, and cancelling it again returns the same task and changes
    nothing. *)
Theorem cancel_total id s t :
  Inv s -> tasks s !! id = Some t ->
  exists t' s', cancel id s = (Ok t', s') /\ is_terminal (state t') = true /\
    (is_terminal (state t) = true -> t' = t /\ s' = s) /\
    (is_terminal (state t) = false -> t' = set_task_state Canceled t) /\
    (id ∉ queue s') /\ claims s' !! id = None /\ cancel id s' = (Ok t', s').
Proof.
  intros I Ht. unfold cancel, get_task; unfold_monad. rewrite Ht.
  destruct (is_terminal (state t)) eqn:Hterm.
  - exists t, s. rewrite Ht, Hterm. split_and!; try done.
    + rewrite (Inv_in_queue _ _ _ I Ht). intros Hs. by rewrite Hs in Hterm.
    + destruct (claims s !! id) as [c|] eqn:Hc; [|done].
      destruct (inv_claim _ I _ _ Hc) as (t' & ? & [Hs|Hs]); simplify_eq; by rewrite Hs in Hterm.
  - rewrite transition_eq, Ht. rewrite (nonterminal_can_cancel _ Hterm). simpl.
    eexists _, _. split; [done|]. simpl. rewrite lookup_insert_eq. split_and!; try done.
    + rewrite queue_after_elem. naive_solver.
    + apply lookup_delete_eq.
Qed.

(** The loop of [peek_runnable] needs one turn more than the queue is long. *)
Lemma peek_loop_fuel fuel now s :
  Inv s -> (length (queue s) < fuel)%nat -> peek_loop fuel now s = peek_runnable now s.
Proof.
  intros I Hf. unfold peek_runnable; unfold_monad.
  destruct (peek_loop_spec fuel now s I Hf) as [-> _].
  destruct (peek_loop_spec (S (length (queue s))) now s I) as [-> _]; [lia|done].
Qed.

(** C25. [transition(id, Running)] of the task at the front of the queue succeeds and
    leaves the id there: the next [claim] before the deadline of the task fails on it
    with an invalid transition, whatever waits behind it. *)
Theorem transition_running_strands_queue s id q t now :
  Inv s -> queue s = id :: q -> tasks s !! id = Some t -> deadline_reached t now = false ->
  let s1 := (transition id Running s).2 in
  transition id Running s = (Ok (set_task_state Running t), s1) /\ queue s1 = id :: q /\
  claim now s1 = (Err (InvalidTransition {| tte_id := id; tte_from := Running; tte_to := Running |}), set_queue q s1).
Proof.
  intros I Hq Ht Hd s1. unfold s1. rewrite (transition_running_queued id t s I Ht) by (rewrite Hq; by left).
  split; [done|]. split; [done|]. set (s2 := after_transition id Running t s).
  assert (queue s2 = id :: q) as Hq2 by done. assert (tasks s2 !! id = Some (set_task_state Running t)) as Ht2 by apply lookup_insert_eq.
  assert (peek_runnable now s2 = (Ok (Some (set_task_state Running t)), s2)) as Hp.
  { unfold peek_runnable, get_task; unfold_monad. cbn [peek_loop]; unfold_monad. rewrite Hq2. unfold get_task; unfold_monad. rewrite Ht2.
    by replace (deadline_reached (set_task_state Running t) now) with false by done. }
  assert (task_id (set_task_state Running t) = id) as Hid by exact (inv_id _ I _ _ Ht).
  unfold claim; unfold_monad. cbn [snd]. rewrite Hp, Hid, Hq2. unfold get_task. cbn [tasks set_queue]. rewrite Ht2.
  unfold begin_attempt, task_transition. by rewrite Hid.
Qed.

End Reachable.

(** ** Examples *)

Definition sample_ops : list (@SchedulerOp sample_json) :=
  [OpEnqueue (sample_task 7 (Some 5)); OpEnqueue (sample_task 8 None);
   OpEnqueue (sample_task 9 (Some 100))].

Definition run_ops (ops : list (@SchedulerOp sample_json)) (s : Scheduler) : Scheduler :=
  foldl (fun s op => run_op op s) s ops.

Definition sample_scheduler : @Scheduler sample_json :=
  match Scheduler_new 3 with
  | Ok s => run_ops sample_ops s
  | Err _ => {| capacity := 0; queue := []; tasks := ∅; claims := ∅; generations := ∅ |}
  end.

Lemma run_ops_steps ops s :
  (forall op s', op ∈ ops -> op_allowed op s') -> rtc sched_step s (run_ops ops s).
Proof.
  revert s. induction ops as [|op ops IH]; intros s Ha; [done|].
  eapply rtc_l; [constructor; apply Ha; by left|].
  apply IH. intros; apply Ha; by right.
Qed.

Lemma sample_reachable s0 : Scheduler_new 3 = Ok s0 -> rtc sched_step s0 sample_scheduler.
Proof.
  intros [= <-]. apply (run_ops_steps sample_ops). intros op s' Hop.
  repeat (apply elem_of_cons in Hop as [->|Hop]; [done|]). by apply elem_of_nil in Hop.
Qed.

Lemma sample_Inv : Inv sample_scheduler.
Proof.
  eapply steps_Good; [by apply sample_reachable|]. by apply (Inv_new 3).
Qed.

Lemma scheduler_invariant_witness :
  Inv sample_scheduler /\ Inv (run_op (OpTransition 9 Canceled) sample_scheduler) /\ ~ Inv (run_op (OpTransition 9 Running) sample_scheduler).
Proof.
  destruct (scheduler_invariant 3 _ sample_scheduler ltac:(lia) eq_refl (sample_reachable _ eq_refl)) as [I Hop].
  split; [done|]. split; [by apply Hop|]. intros H%Hop. apply H. change (queue sample_scheduler) with [7; 8; 9]. set_solver.
Defined.

Lemma transition_running_strands_queue_witness :
  (claim 0 (transition 7 Running sample_scheduler).2).1 = Err (InvalidTransition {| tte_id := 7; tte_from := Running; tte_to := Running |}).
Proof.
  destruct (transition_running_strands_queue sample_scheduler 7 [8; 9] (set_task_state Queued (sample_task 7 (Some 5))) 0 sample_Inv)
    as (_ & _ & ->); [vm_compute; reflexivity..|done].
Defined.

(** The claim a worker gets at time 10: task 7 is overdue, task 8 is next. *)
Definition sample_claim : @TaskClaim sample_json :=
  match (claim_with_lease 10 "w1" 50 sample_scheduler).1 with
  | Ok (Some c) => c
  | _ => {| tc_task := sample_task 0 None; tc_generation := 0; tc_lease_owner := "";
            tc_lease_until_ms := 0 |}
  end.

Definition claimed_scheduler : @Scheduler sample_json :=
  (claim_with_lease 10 "w1" 50 sample_scheduler).2.

Lemma claimed_Inv : Inv claimed_scheduler.
Proof. apply Good_claim_with_lease, sample_Inv. Qed.

Lemma claim_commits_once_witness :
  token_rejected sample_claim 30 (finish_claim sample_claim 20 Completed claimed_scheduler).2.
Proof.
  eapply (claim_commits_once claimed_scheduler sample_claim 20 Completed);
    [apply claimed_Inv|vm_compute; reflexivity|apply rtc_refl].
Defined.

Lemma claim_fifo_witness :
  exists r s', claim 10 sample_scheduler = (Ok r, s') /\ queue s' = [9].
Proof.
  destruct (claim_fifo 10 sample_scheduler sample_Inv) as (r & s' & ? & Hq & _).
  exists r, s'. split; [done|]. rewrite Hq. vm_compute. reflexivity.
Defined.

Lemma lease_is_exclusive_witness : tc_generation sample_claim = 1.
Proof.
  destruct (lease_is_exclusive 10 "w1" 50 sample_scheduler sample_claim claimed_scheduler sample_Inv)
    as (_ & _ & _ & _ & Hg & _); [vm_compute; reflexivity|].
  rewrite Hg. vm_compute. reflexivity.
Defined.

Lemma requeue_expired_spec_witness :
  exists ids s', requeue_expired 60 5 claimed_scheduler = (Ok ids, s').
Proof.
  destruct (requeue_expired_spec 60 5 claimed_scheduler claimed_Inv) as (ids & s' & ? & _).
  by exists ids, s'.
Defined.

Lemma cancel_total_witness :
  exists t' s', cancel 8 claimed_scheduler = (Ok t', s') /\ claims s' !! 8 = None.
Proof.
  destruct (cancel_total 8 claimed_scheduler (tc_task sample_claim) claimed_Inv)
    as (t' & s' & ? & _ & _ & _ & _ & ? & _); [vm_compute; reflexivity|].
  by exists t', s'.
Defined.
