(* ===== verification/TaskRpc.v ===== *)
(** * TaskRPC messages ([crates/tysel-task-rpc/src/lib.rs])

    The versioned wire format between schedulers and task workers: the
    messages, their semantic validation and the length-prefixed frames. The JSON
    text of an envelope is produced by serde's derived code and is a parameter
    ([EnvelopeSerde]); everything checked around it is modelled. *)

From Stdlib Require Import ZArith Lia Ascii String.
From stdpp Require Import base tactics list gmap strings.
From S2P Require Import Prelude Bytes TaskModel.
Open Scope Z_scope.

Definition TASK_RPC_VERSION : Z := 1.
Definition MAX_TASK_RPC_FRAME : Z := 64 * 1024.
Definition MAX_CLAIM_BATCH : Z := 64.
Definition MAX_WORKER_ID_BYTES : Z := 128.
Definition MAX_TASK_TRIGGER_BYTES : Z := 256.
Definition MAX_TASK_INPUT_BYTES : Z := 32 * 1024.
Definition MAX_ERROR_BYTES : Z := 4 * 1024.
Definition MAX_RESULT_BYTES : Z := 32 * 1024.
Definition MAX_RPC_LEASE_MS : Z := 24 * 60 * 60 * 1000.

Inductive TaskRpcError :=
| RpcIo (e : IoError)
| FrameTooLarge (n : Z)
| RpcJson
| UnsupportedVersion (found supported : Z)
| InvalidWorkerId
| InvalidClaimLimit (n : Z)
| TooManyLeases (n : Z)
| RpcInvalidLeaseDuration
| InvalidLeaseDeadline
| InvalidLeaseGeneration
| InvalidTaskAttempt
| InvalidTaskTrigger
| TaskTriggerTooLarge
| TaskInputTooLarge (n : Z)
| InvalidTaskId (s : string)
| ErrorTooLarge
| ResultTooLarge (n : Z).

Inductive ErrorCode := InvalidRequest | VersionMismatch | CodeLeaseLost | TaskNotFound | Internal.

(** [WireTaskId(String)] *)
Abbreviation WireTaskId := string (only parsing).

Record LeaseToken := {
  lt_task_id : WireTaskId;
  lt_generation : Z;
  lt_lease_owner : string;
}.

Inductive WireTaskTrigger :=
| WireHttp (method path : string)
| WireCron (name expression : string)
| WireQueue (name handler : string) (message_id : option string)
| WireMcp (tool : string)
| WireAgent (name : string).

(** ** Validation of the parts *)

Definition validate_worker_id (worker_id : string) : result TaskRpcError () :=
  if str_is_empty worker_id || (MAX_WORKER_ID_BYTES <? len worker_id)
     || negb (str_all (fun b => is_ascii_alphanumeric b || Ascii.eqb b "."%char
          || Ascii.eqb b "_"%char || Ascii.eqb b ":"%char || Ascii.eqb b "@"%char
          || Ascii.eqb b "-"%char) worker_id)
  then Err InvalidWorkerId else Ok ().

Definition validate_lease_ms (lease_ms : Z) : result TaskRpcError () :=
  if (lease_ms =? 0) || (MAX_RPC_LEASE_MS <? lease_ms) then Err RpcInvalidLeaseDuration else Ok ().

Definition validate_error (error : string) : result TaskRpcError () :=
  if MAX_ERROR_BYTES <? len error then Err ErrorTooLarge else Ok ().

Definition WireTaskId_new (id : TaskId) : WireTaskId := TaskId_to_string id.

Definition WireTaskId_validate (w : WireTaskId) : result TaskRpcError () :=
  if negb (len w =? 32)
     || negb (str_all (fun b => is_ascii_digit b || in_range 97 102 (byte_code b)) w)
  then Err (InvalidTaskId w) else Ok ().

Definition WireTaskId_parse (w : WireTaskId) : result TaskRpcError TaskId :=
  WireTaskId_validate w;;
  ok_or (from_str_radix 16 u128_max w) (InvalidTaskId w).

Definition LeaseToken_validate (t : LeaseToken) : result TaskRpcError () :=
  WireTaskId_validate (lt_task_id t);;
  if lt_generation t =? 0 then Err InvalidLeaseGeneration
  else validate_worker_id (lt_lease_owner t).

Definition from_task_trigger (t : TaskTrigger) : WireTaskTrigger :=
  match t with
  | TriggerHttp method path => WireHttp method path
  | TriggerCron name expression => WireCron name expression
  | TriggerQueue name handler message_id => WireQueue name handler message_id
  | TriggerMcp tool => WireMcp tool
  | TriggerAgent name => WireAgent name
  end.

Definition trigger_fields (t : WireTaskTrigger) : list string :=
  match t with
  | WireHttp method path => [method; path]
  | WireCron name expression => [name; expression]
  | WireQueue name handler (Some message_id) => [name; handler; message_id]
  | WireQueue name handler None => [name; handler]
  | WireMcp tool => [tool]
  | WireAgent name => [name]
  end.

(** The loop that adds up the field lengths ([usize] arithmetic). *)
Fixpoint trigger_total (fields : list string) (total : Z) : result TaskRpcError Z :=
  match fields with
  | [] => Ok total
  | f :: fields' =>
      if str_is_empty f then Err InvalidTaskTrigger
      else total' ← ok_or (checked_add u64_max total (len f)) TaskTriggerTooLarge;
           trigger_total fields' total'
  end.

Definition WireTaskTrigger_validate (t : WireTaskTrigger) : result TaskRpcError () :=
  total ← trigger_total (trigger_fields t) 0;
  if MAX_TASK_TRIGGER_BYTES <? total then Err TaskTriggerTooLarge else Ok ().

Definition handler_name (t : WireTaskTrigger) : option string :=
  match t with
  | WireHttp _ _ => None
  | WireCron name _ => Some name
  | WireQueue _ handler _ => Some handler
  | WireMcp tool => Some tool
  | WireAgent name => Some name
  end.

Section TaskRpc.
Context {SJ : SerdeJson}.

Record TaskDescriptor := {
  td_trigger : WireTaskTrigger;
  td_input : Value;
  td_attempt : Z;
  td_deadline_ms : option Z;
}.

Record TaskLease := {
  tl_token : LeaseToken;
  tl_task : TaskDescriptor;
  tl_lease_until_ms : Z;
}.

Inductive TaskOutcome :=
| OutcomeCompleted (r : Value)
| OutcomeSuspended
| OutcomeFailed (error : string) (retryable : bool)
| OutcomeCanceled
| OutcomeTimedOut.

Inductive Message :=
| Hello (worker_id : string)
| Ready
| Claim (request_id : Z) (worker_id : string) (lease_ms limit : Z)
| Claimed (request_id : Z) (leases : list TaskLease)
| Renew (request_id : Z) (lease : LeaseToken) (lease_ms : Z)
| Renewed (request_id : Z) (lease : option TaskLease)
| Release (request_id : Z) (lease : LeaseToken)
| Released (request_id : Z) (released : bool)
| Cancel (request_id : Z) (task_id : WireTaskId)
| MsgCanceled (request_id : Z) (canceled : bool)
| Commit (request_id : Z) (lease : LeaseToken) (outcome : TaskOutcome)
| Committed (request_id : Z) (accepted : bool)
| MsgError (request_id : option Z) (code : ErrorCode) (message : string).

Record Envelope := { version : Z; message : Message }.

#[export] Instance LeaseToken_eq_dec : EqDecision LeaseToken.
Proof. solve_decision. Defined.
#[export] Instance WireTaskTrigger_eq_dec : EqDecision WireTaskTrigger.
Proof. solve_decision. Defined.
#[export] Instance ErrorCode_eq_dec : EqDecision ErrorCode.
Proof. solve_decision. Defined.
#[export] Instance TaskDescriptor_eq_dec : EqDecision TaskDescriptor.
Proof. solve_decision. Defined.
#[export] Instance TaskLease_eq_dec : EqDecision TaskLease.
Proof. solve_decision. Defined.
#[export] Instance TaskOutcome_eq_dec : EqDecision TaskOutcome.
Proof. solve_decision. Defined.
#[export] Instance Message_eq_dec : EqDecision Message.
Proof. solve_decision. Defined.
#[export] Instance Envelope_eq_dec : EqDecision Envelope.
Proof. solve_decision. Defined.

Definition Envelope_new (m : Message) : Envelope :=
  {| version := TASK_RPC_VERSION; message := m |}.

(** [serde_json::to_vec] of a [Value], as its length. *)
Definition json_len (v : Value) : result TaskRpcError Z :=
  match json_to_string v with Some s => Ok (len s) | None => Err RpcJson end.

Definition TaskDescriptor_validate (d : TaskDescriptor) : result TaskRpcError () :=
  WireTaskTrigger_validate (td_trigger d);;
  n ← json_len (td_input d);
  if MAX_TASK_INPUT_BYTES <? n then Err (TaskInputTooLarge n)
  else if td_attempt d =? 0 then Err InvalidTaskAttempt else Ok ().

Definition from_task (task : Task) : result TaskRpcError TaskDescriptor :=
  let descriptor :=
    {| td_trigger := from_task_trigger (trigger task); td_input := input task;
       td_attempt := attempt task; td_deadline_ms := deadline_ms task |} in
  TaskDescriptor_validate descriptor;;
  Ok descriptor.

Definition TaskLease_validate (l : TaskLease) : result TaskRpcError () :=
  LeaseToken_validate (tl_token l);;
  TaskDescriptor_validate (tl_task l);;
  if tl_lease_until_ms l =? 0 then Err InvalidLeaseDeadline else Ok ().

(** [leases.iter().try_for_each(TaskLease::validate)] *)
Fixpoint validate_leases (ls : list TaskLease) : result TaskRpcError () :=
  match ls with
  | [] => Ok ()
  | l :: ls' => TaskLease_validate l;; validate_leases ls'
  end.

Definition TaskOutcome_validate (o : TaskOutcome) : result TaskRpcError () :=
  match o with
  | OutcomeCompleted r =>
      n ← json_len r;
      if MAX_RESULT_BYTES <? n then Err (ResultTooLarge n) else Ok ()
  | OutcomeFailed error _ => validate_error error
  | OutcomeSuspended | OutcomeCanceled | OutcomeTimedOut => Ok ()
  end.

Definition Message_validate (m : Message) : result TaskRpcError () :=
  match m with
  | Hello worker_id => validate_worker_id worker_id
  | Ready | Released _ _ | MsgCanceled _ _ | Committed _ _ => Ok ()
  | Claim _ worker_id lease_ms limit =>
      validate_worker_id worker_id;;
      validate_lease_ms lease_ms;;
      if (limit =? 0) || (MAX_CLAIM_BATCH <? limit) then Err (InvalidClaimLimit limit) else Ok ()
  | Claimed _ leases =>
      if MAX_CLAIM_BATCH <? vec_len leases then Err (TooManyLeases (vec_len leases))
      else validate_leases leases
  | Renew _ lease lease_ms => LeaseToken_validate lease;; validate_lease_ms lease_ms
  | Renewed _ lease =>
      match lease with Some l => TaskLease_validate l | None => Ok () end
  | Release _ lease | Commit _ lease _ => LeaseToken_validate lease
  | Cancel _ task_id => WireTaskId_validate task_id
  | MsgError _ _ message => validate_error message
  end;;
  match m with
  | Commit _ _ outcome => TaskOutcome_validate outcome
  | _ => Ok ()
  end.

Definition Envelope_validate (e : Envelope) : result TaskRpcError () :=
  if negb (version e =? TASK_RPC_VERSION)
  then Err (UnsupportedVersion (version e) TASK_RPC_VERSION)
  else Message_validate (message e).

(** ** Frames *)

(** serde's derived [Serialize]/[Deserialize] of [Envelope] through [serde_json]. *)
Class EnvelopeSerde := {
  envelope_to_vec : Envelope -> option string;
  envelope_from_slice : string -> option Envelope;
}.

(** A message without a JSON value in it. *)
Definition value_free (m : Message) : bool :=
  match m with
  | Claimed _ _ | Renewed _ (Some _) | Commit _ _ (OutcomeCompleted _) => false
  | _ => true
  end.

(** What is written of the envelope is read back as the same one. *)
Definition rereads `{ES : EnvelopeSerde} (e : Envelope) : Prop :=
  forall bytes, envelope_to_vec e = Some bytes -> envelope_from_slice bytes = Some e.

(** The outcome that arrives: a result is what its JSON text parses to, which may
    differ from the value that was sent; the other outcomes arrive as they are. *)
Definition outcome_read (o o' : TaskOutcome) : Prop :=
  match o with
  | OutcomeCompleted r =>
      exists text r', json_to_string r = Some text /\ json_from_str text = Some r' /\ o' = OutcomeCompleted r'
  | _ => o' = o
  end.

(** Documented behaviour of the derived implementations: messages made of integers,
    booleans and strings are read back as the same ones; of a commit with a result,
    what can be read (deep nesting cannot) is the commit with the result its JSON
    text parses to. *)
Class EnvelopeSerdeLaws (ES : EnvelopeSerde) : Prop := {
  envelope_rereads : forall e, value_free (message e) = true -> rereads e;
  envelope_commit : forall v req lease outcome bytes e',
    envelope_to_vec {| version := v; message := Commit req lease outcome |} = Some bytes ->
    envelope_from_slice bytes = Some e' ->
    exists outcome', outcome_read outcome outcome'
      /\ e' = {| version := v; message := Commit req lease outcome' |};
}.

Context {ES : EnvelopeSerde}.

Definition encode_message (e : Envelope) : result TaskRpcError string :=
  Envelope_validate e;;
  bytes ← ok_or (envelope_to_vec e) RpcJson;
  if MAX_TASK_RPC_FRAME <? len bytes then Err (FrameTooLarge (len bytes)) else Ok bytes.

Definition decode_message (bytes : string) : result TaskRpcError Envelope :=
  if MAX_TASK_RPC_FRAME <? len bytes then Err (FrameTooLarge (len bytes))
  else
    e ← ok_or (envelope_from_slice bytes) RpcJson;
    Envelope_validate e;;
    Ok e.

(** [write_message] into a byte buffer: the bytes it appends. *)
Definition write_message (e : Envelope) : result TaskRpcError string :=
  bytes ← encode_message e;
  Ok (append (to_le_bytes 4 (len bytes mod 2 ^ 32)) bytes).

Definition rpc_read_exact (n : Z) : M string TaskRpcError string := fun r =>
  let '(x, r') := read_exact n r in (map_err RpcIo x, r').

Definition read_message_opt : M string TaskRpcError (option Envelope) :=
  r ← get_state;
  match r with
  | EmptyString => mret None
  | String b r' =>
      modify (fun _ => r');;
      rest ← rpc_read_exact 3;
      let length := from_le_bytes (String b rest) in
      if MAX_TASK_RPC_FRAME <? length then throw (FrameTooLarge length)
      else
        bytes ← rpc_read_exact length;
        e ← lift (decode_message bytes);
        mret (Some e)
  end.

Definition read_message : M string TaskRpcError Envelope :=
  m ← read_message_opt;
  match m with Some e => mret e | None => throw (RpcIo UnexpectedEof) end.

(** A peer that writes several messages, and one that reads to the end of the stream. *)
Fixpoint write_messages (es : list Envelope) : result TaskRpcError string :=
  match es with
  | [] => Ok EmptyString
  | e :: es' => bytes ← write_message e; rest ← write_messages es'; Ok (append bytes rest)
  end.

Fixpoint read_messages (fuel : nat) : M string TaskRpcError (list Envelope) :=
  match fuel with
  | O => mret []
  | S fuel' =>
      m ← read_message_opt;
      match m with
      | None => mret []
      | Some e => es ← read_messages fuel'; mret (e :: es)
      end
  end.

End TaskRpc.

(** ** Wire ids *)

Definition lower_hex (c : ascii) : bool := is_ascii_digit c || in_range 97 102 (byte_code c).

Lemma hex_char_lower d : 0 <= d < 16 -> lower_hex (hex_char d) = true.
Proof.
  intros. unfold lower_hex, is_ascii_digit, hex_char, in_range.
  destruct (Z.ltb_spec d 10); rewrite !byte_code_of by lia; lia.
Qed.

Lemma format_hex_lower w z : str_all lower_hex (format_fixed 16 w z) = true.
Proof.
  revert z. induction w as [|w IH]; intros z; cbn [format_fixed]; [done|].
  rewrite str_all_append, IH. simpl.
  by rewrite hex_char_lower by (apply Z.mod_pos_bound; lia).
Qed.

Lemma lower_hex_value c : lower_hex c = true -> exists d, hex_value c = Some d /\ 0 <= d < 16 /\ hex_char d = c.
Proof.
  unfold lower_hex, is_ascii_digit, hex_value, hex_char, in_range. intros H.
  destruct (Z.leb_spec 48 (byte_code c)), (Z.leb_spec (byte_code c) 57); simpl in *;
    try (exists (byte_code c - 48); split; [done|]; split; [lia|];
         rewrite (proj2 (Z.ltb_lt _ _)) by lia;
         replace (48 + (byte_code c - 48)) with (byte_code c) by lia; apply byte_of_code);
    rewrite H; (exists (byte_code c - 87); split_bool; split; [done|]; split; [lia|];
         rewrite (proj2 (Z.ltb_ge _ _)) by lia;
         replace (87 + (byte_code c - 87)) with (byte_code c) by lia; apply byte_of_code).
Qed.

Section WireIds.

Lemma parse_digits_snoc radix hi acc s c z :
  parse_digits radix hi acc (append s (String c EmptyString)) = Some z <->
  exists v d, parse_digits radix hi acc s = Some v /\ digit_value radix c = Some d /\
    z = v * radix + d /\ z <= hi.
Proof.
  revert acc. induction s as [|x s IH]; intros acc.
  - simpl. destruct (digit_value radix c) as [d|]; [|naive_solver].
    destruct (Z.leb_spec (acc * radix + d) hi); naive_solver lia.
  - change (append (String x s) (String c EmptyString)) with (String x (append s (String c EmptyString))).
    simpl. destruct (digit_value radix x) as [d|]; [|naive_solver].
    destruct (acc * radix + d <=? hi); [apply IH|naive_solver].
Qed.

Lemma format_fixed_parse hi n s z :
  String.length s = n -> str_all lower_hex s = true -> parse_digits 16 hi 0 s = Some z ->
  0 <= z /\ format_fixed 16 n z = s.
Proof.
  revert s z. induction n as [|n IH]; intros s z Hn Hs Hp.
  - destruct s; simplify_eq/=. done.
  - rewrite <- (str_rev_involutive s) in *. pose proof (str_rev_length s) as Hrl.
    rewrite str_rev_involutive in Hn. rewrite Hn in Hrl.
    destruct (str_rev s) as [|c s']; [done|]. rewrite str_rev_cons in *.
    rewrite str_all_append in Hs. simpl in Hs. split_bool.
    apply parse_digits_snoc in Hp as (v & d & Hv & Hd & -> & _).
    destruct (lower_hex_value c) as (d' & Hd' & ? & <-); [done|].
    unfold digit_value in Hd. rewrite Hd' in Hd.
    destruct (d' <? 16); simplify_eq.
    destruct (IH (str_rev s') v) as [? Hf]; [rewrite str_rev_length; simpl in Hrl; lia|done..|].
    split; [lia|]. cbn [format_fixed].
    replace ((v * 16 + d) / 16) with v by (rewrite Z.add_comm, Z.div_add, Z.div_small; lia).
    replace ((v * 16 + d) mod 16) with d by (rewrite Z.add_comm, Z.mod_add, Z.mod_small; lia).
    by rewrite Hf.
Qed.

Lemma WireTaskId_validate_Ok w :
  WireTaskId_validate w = Ok () <-> String.length w = 32%nat /\ str_all lower_hex w = true.
Proof.
  unfold WireTaskId_validate, len. fold lower_hex.
  change (fun b => is_ascii_digit b || in_range 97 102 (byte_code b)) with lower_hex.
  destruct (Z.eqb_spec (Z.of_nat (String.length w)) 32), (str_all lower_hex w);
    simpl; split; intros; destruct_and?; try done; try lia; split; lia || done.
Qed.

Lemma plus_not_lower s : str_all lower_hex (String "+"%char s) = false.
Proof. done. Qed.

Lemma from_str_radix_lower hi w :
  (0 < String.length w)%nat -> str_all lower_hex w = true ->
  from_str_radix 16 hi w = parse_digits 16 hi 0 w.
Proof.
  intros Hl Hs. destruct w as [|c w]; [simpl in Hl; lia|]. unfold from_str_radix.
  destruct (Ascii.eqb_spec c "+"%char) as [->|]; [by rewrite plus_not_lower in Hs|done].
Qed.

End WireIds.

(** A wire task id and a task id are the same thing: the text of every
    128-bit id parses back to it, and a text that parses is the text of the id it
    gives, so no two texts name one task. *)
Theorem wire_task_id_bijective :
  (forall id, is_u128 id = true -> WireTaskId_parse (WireTaskId_new id) = Ok id) /\
  (forall w id, WireTaskId_parse w = Ok id -> WireTaskId_new id = w).
Proof.
  split.
  - intros id Hid. unfold WireTaskId_parse, WireTaskId_new.
    assert (Hl : String.length (TaskId_to_string id) = 32%nat) by apply format_fixed_length.
    assert (Ha : str_all lower_hex (TaskId_to_string id) = true) by apply format_hex_lower.
    rewrite (proj2 (WireTaskId_validate_Ok _)) by done. unfold mbind, result_bind.
    rewrite from_str_radix_lower by (try rewrite Hl; done || lia).
    by rewrite TaskId_text_roundtrip.
  - intros w id. unfold WireTaskId_parse. destruct (WireTaskId_validate w) as [[]|] eqn:Hv; [|done].
    apply WireTaskId_validate_Ok in Hv as [Hl Ha]. simpl.
    rewrite from_str_radix_lower by (try rewrite Hl; done || lia).
    destruct (parse_digits 16 u128_max 0 w) as [z|] eqn:Hp; simpl; [|done]. intros [= <-].
    by destruct (format_fixed_parse _ 32 _ _ Hl Ha Hp).
Qed.

Section Frames.
Context {SJ : SerdeJson} {ES : EnvelopeSerde}.

Lemma encode_decode e bytes : rereads e -> encode_message e = Ok bytes -> decode_message bytes = Ok e.
Proof.
  intros HR. unfold encode_message, decode_message. unfold_monad.
  destruct (Envelope_validate e) as [[]|] eqn:Hv; [|done].
  destruct (envelope_to_vec e) as [bs|] eqn:He; simpl; [|done].
  destruct (MAX_TASK_RPC_FRAME <? len bs) eqn:Hl; [done|]. intros [= <-].
  rewrite Hl, (HR _ He). simpl. by rewrite Hv.
Qed.

Lemma encode_len e bytes : encode_message e = Ok bytes -> 0 <= len bytes <= MAX_TASK_RPC_FRAME.
Proof.
  unfold encode_message. intros H. pose proof (len_nonneg bytes). inv_ok. lia.
Qed.

(** Reading a frame decodes its body and stops at its end. *)
Lemma frame_read e bytes :
  write_message e = Ok bytes ->
  exists body, encode_message e = Ok body
    /\ forall rest, read_message_opt (append bytes rest) = (e ← decode_message body; Ok (Some e), rest).
Proof.
  unfold write_message. unfold_monad. destruct (encode_message e) as [body|] eqn:He; [|done].
  intros Hb. assert (bytes = append (to_le_bytes 4 (len body mod 2 ^ 32)) body) as -> by congruence.
  exists body. split; [done|]. intros rest. pose proof (encode_len _ _ He) as Hlen. unfold MAX_TASK_RPC_FRAME in Hlen.
  change (2 ^ 32) with 4294967296. rewrite Z.mod_small by lia. rewrite append_assoc.
  pose proof (from_to_le_bytes 4 (len body)) as Hle.
  destruct (to_le_bytes 4 (len body)) as [|c h] eqn:Hh; [done|].
  change (append (String c h) (append body rest)) with (String c (append h (append body rest))).
  unfold read_message_opt, rpc_read_exact. unfold_monad.
  assert (Hl3 : len h = 3).
  { pose proof (to_le_bytes_length 4 (len body)) as Hl. rewrite Hh in Hl. simpl in Hl.
    unfold len. lia. }
  rewrite read_exact_append by done. cbn [map_err]. rewrite Hle by (simpl; lia).
  rewrite (proj2 (Z.ltb_ge _ _)) by (unfold MAX_TASK_RPC_FRAME; lia).
  rewrite read_exact_append by done. cbn [map_err lift]. by destruct (decode_message body).
Qed.

(** Reading what was written gives it back and stops at the end of the frame. *)
Lemma frame_read_back e bytes rest :
  rereads e -> write_message e = Ok bytes -> read_message_opt (append bytes rest) = (Ok (Some e), rest).
Proof.
  intros HR Hw. destruct (frame_read _ _ Hw) as (body & He & ->). by rewrite (encode_decode _ _ HR He).
Qed.

(** A stream of frames is read back exactly: after any sequence of messages that
    survive their JSON text was written, reading message by message gives the same messages in order,
    and then the clean end of the stream. *)
Theorem frame_stream_roundtrip es stream :
  Forall rereads es -> write_messages es = Ok stream -> read_messages (S (length es)) stream = (Ok es, EmptyString).
Proof.
  intros HF. revert stream. induction HF as [|e es HR HF IH]; intros stream; simpl; [by intros [= <-]|].
  unfold_monad. destruct (write_message e) as [bytes|] eqn:Hw; [|done].
  destruct (write_messages es) as [more|] eqn:Hm; [|done]. intros Hs.
  assert (stream = append bytes more) as -> by congruence.
  rewrite (frame_read_back _ _ _ HR Hw). specialize (IH more eq_refl). simpl in IH.
  unfold_monad. by rewrite IH.
Qed.

End Frames.

(** A derived implementation for the examples: [hello] and [ready] only. *)
Definition hello_serde : @EnvelopeSerde sample_json := {|
  envelope_to_vec e :=
    match message e with
    | Hello w => if version e =? 1 then Some ("H" ++ w)%string else None
    | _ => None
    end;
  envelope_from_slice s :=
    match strip_prefix "H" s with
    | Some w => Some {| version := 1; message := Hello w |}
    | None => None
    end;
|}.

Lemma hello_rereads e : @rereads sample_json hello_serde e.
Proof.
  destruct e as [v m]. intros bytes. simpl. destruct m; try done.
  destruct (Z.eqb_spec v 1) as [->|]; [|done]. intros [= <-]. done.
Qed.

Lemma frame_stream_roundtrip_witness :
  exists stream,
    @write_messages sample_json hello_serde [Envelope_new (Hello "w"); Envelope_new (Hello "v")] = Ok stream /\
    @read_messages sample_json hello_serde 3 stream =
      (Ok [Envelope_new (Hello "w"); Envelope_new (Hello "v")], EmptyString).
Proof.
  eexists. split; [vm_compute; reflexivity|].
  apply (@frame_stream_roundtrip sample_json hello_serde
           [Envelope_new (Hello "w"); Envelope_new (Hello "v")]).
  - repeat constructor; apply hello_rereads.
  - vm_compute. reflexivity.
Defined.
