(* ===== verification/Broker.v ===== *)
(** * TaskRPC broker and sessions ([crates/tysel-runtime/src/task_rpc.rs])

    The coordinator that turns validated TaskRPC requests into scheduler calls,
    the outcomes it records, and the per-connection identity state. The socket
    loops around it are asynchronous I/O and are not modelled, except for the
    order in which one connection performs its calls ([connection_step]). *)

From Stdlib Require Import ZArith Lia Ascii String.
From stdpp Require Import base tactics list gmap strings.
From S2P Require Import Prelude Bytes TaskModel Lease Scheduler TaskRpc.
Open Scope Z_scope.

(** The [Display] texts thiserror derives for the two error types. *)
Class ErrorText := {
  rpc_error_text : TaskRpcError -> string;
  scheduler_error_text : SchedulerError -> string;
}.

Section Broker.
Context {SJ : SerdeJson} {ES : EnvelopeSerde} {ET : ErrorText}.

Record TaskRpcBroker := {
  scheduler : Scheduler;
  outcomes : gmap TaskId TaskOutcome;
}.

Inductive TaskRpcBrokerError :=
| BrokerScheduler (e : SchedulerError)
| BrokerProtocol (e : TaskRpcError).

Definition set_scheduler (s : Scheduler) (b : TaskRpcBroker) : TaskRpcBroker :=
  {| scheduler := s; outcomes := outcomes b |}.
Definition record_outcome (id : TaskId) (o : TaskOutcome) (b : TaskRpcBroker) : TaskRpcBroker :=
  {| scheduler := scheduler b; outcomes := <[id := o]> (outcomes b) |}.

(** [self.scheduler.m(..)] *)
Definition on_scheduler {A} (m : M Scheduler SchedulerError A) (b : TaskRpcBroker)
    : result SchedulerError A * TaskRpcBroker :=
  let '(r, s) := m (scheduler b) in (r, set_scheduler s b).

(** ** Messages *)

Definition error_message (request_id : option Z) (code : ErrorCode) (message : string) : Message :=
  MsgError request_id code message.

Definition error_response (request_id : option Z) (code : ErrorCode) (message : string) : Envelope :=
  Envelope_new (error_message request_id code message).

Definition scheduler_error (request_id : option Z) (error : SchedulerError) : Message :=
  let code :=
    match error with
    | Unknown _ => TaskNotFound
    | LeaseLost => CodeLeaseLost
    | InvalidLeaseOwner | InvalidLeaseDuration | InvalidClaimOutcome _ => InvalidRequest
    | _ => Internal
    end in
  error_message request_id code (scheduler_error_text error).

Definition request_id (m : Message) : option Z :=
  match m with
  | Hello _ | Ready => None
  | Claim i _ _ _ | Claimed i _ | Renew i _ _ | Renewed i _ | Release i _ | Released i _
  | Cancel i _ | MsgCanceled i _ | Commit i _ _ | Committed i _ => Some i
  | MsgError i _ _ => i
  end.

Definition worker_request_matches (m : Message) (worker_id : string) : bool :=
  match m with
  | Claim _ requested _ _ => String.eqb requested worker_id
  | Renew _ lease _ | Release _ lease | Commit _ lease _ =>
      String.eqb (lt_lease_owner lease) worker_id
  | _ => false
  end.

Definition wire_lease (c : TaskClaim) : result TaskRpcError TaskLease :=
  d ← from_task (tc_task c);
  Ok {| tl_token := {| lt_task_id := WireTaskId_new (task_id (tc_task c));
                       lt_generation := tc_generation c;
                       lt_lease_owner := tc_lease_owner c |};
        tl_task := d;
        tl_lease_until_ms := tc_lease_until_ms c |}.

Definition preview_wire_lease (task : Task) (lease_owner : string) : result TaskRpcError TaskLease :=
  d ← from_task task;
  Ok {| tl_token := {| lt_task_id := WireTaskId_new (task_id task);
                       lt_generation := u64_max;
                       lt_lease_owner := lease_owner |};
        tl_task := d;
        tl_lease_until_ms := u64_max |}.

(** ** The broker *)

Definition Broker_new (capacity : Z) : result SchedulerError TaskRpcBroker :=
  s ← Scheduler_new capacity;
  Ok {| scheduler := s; outcomes := ∅ |}.

Fixpoint str_repeat (c : ascii) (n : nat) : string :=
  match n with O => EmptyString | S n' => String c (str_repeat c n') end.

(** The checks [TaskRpcBroker::enqueue] makes before it queues a task. *)
Definition deliverable (task : Task) : result TaskRpcBrokerError () :=
  queued ← map_err (fun e => BrokerScheduler (InvalidTransition e)) (task_transition task Queued);
  claimed_shape ← map_err (fun e => BrokerScheduler (InvalidTransition e)) (begin_attempt queued);
  map_err BrokerProtocol (from_task claimed_shape);;
  worst_lease ← map_err BrokerProtocol
    (preview_wire_lease claimed_shape (str_repeat "w"%char (Z.to_nat MAX_WORKER_ID_BYTES)));
  map_err BrokerProtocol (encode_message (Envelope_new (Claimed u64_max [worst_lease])));;
  Ok ().

Definition broker_enqueue (task : Task) : M TaskRpcBroker TaskRpcBrokerError () := fun b =>
  match deliverable task with
  | Err e => (Err e, b)
  | Ok _ => let '(r, b') := on_scheduler (enqueue task) b in (map_err BrokerScheduler r, b')
  end.

Definition broker_task (b : TaskRpcBroker) (id : TaskId) : option Task := scheduler_get (scheduler b) id.
Definition broker_outcome (b : TaskRpcBroker) (id : TaskId) : option TaskOutcome := outcomes b !! id.
Definition broker_remaining_capacity (b : TaskRpcBroker) : Z := remaining_capacity (scheduler b).

Definition broker_requeue_expired (now_ms limit : Z) : M TaskRpcBroker SchedulerError (list TaskId) :=
  on_scheduler (requeue_expired now_ms limit).

Definition disconnect_worker (worker_id : string) (now_ms : Z)
    : M TaskRpcBroker SchedulerError (list TaskId) :=
  on_scheduler (requeue_owner_claims worker_id now_ms u64_max).

(** The body of the [for _ in 0..limit] loop of [TaskRpcBroker::claim], up to
    the end of the loop: the response and the broker. *)
Fixpoint claim_loop (n : nat) (req : Z) (worker_id : string) (lease_ms now_ms : Z)
    (leases : list TaskLease) (b : TaskRpcBroker) : Message * TaskRpcBroker :=
  match n with
  | O => (Claimed req leases, b)
  | S n' =>
      match on_scheduler (peek_runnable now_ms) b with
      | (Err error, b1) => (scheduler_error (Some req) error, b1)
      | (Ok None, b1) => (Claimed req leases, b1)
      | (Ok (Some task), b1) =>
          match begin_attempt task with
          | Err _ => (error_message (Some req) Internal "queued task cannot begin an attempt", b1)
          | Ok task' =>
              match preview_wire_lease task' worker_id with
              | Err error => (error_message (Some req) Internal (rpc_error_text error), b1)
              | Ok preview =>
                  let lease_claimed (_ : unit) :=
                    match on_scheduler (claim_with_lease now_ms worker_id lease_ms) b1 with
                    | (Ok (Some c), b2) =>
                        match wire_lease c with
                        | Ok lease =>
                            claim_loop n' req worker_id lease_ms now_ms (leases ++ [lease]) b2
                        | Err error =>
                            let '(_, b3) := on_scheduler (release_claim c now_ms) b2 in
                            (error_message (Some req) Internal (rpc_error_text error), b3)
                        end
                    | (Ok None, b2) => (Claimed req leases, b2)
                    | (Err error, b2) =>
                        match leases with
                        | [] => (scheduler_error (Some req) error, b2)
                        | _ :: _ => (Claimed req leases, b2)
                        end
                    end in
                  match encode_message (Envelope_new (Claimed req (leases ++ [preview]))), leases with
                  | Ok _, _ => lease_claimed ()
                  | Err (FrameTooLarge _), _ :: _ => (Claimed req leases, b1)
                  | Err error, _ => (error_message (Some req) Internal (rpc_error_text error), b1)
                  end
              end
          end
      end
  end.

Definition broker_claim (req : Z) (worker_id : string) (lease_ms limit now_ms : Z)
    (b : TaskRpcBroker) : Message * TaskRpcBroker :=
  match on_scheduler (requeue_expired now_ms limit) b with
  | (Err error, b') => (scheduler_error (Some req) error, b')
  | (Ok _, b') => claim_loop (Z.to_nat limit) req worker_id lease_ms now_ms [] b'
  end.

Definition claim_from_token (b : TaskRpcBroker) (lease : LeaseToken) : result () TaskClaim :=
  id ← map_err (fun _ => ()) (WireTaskId_parse (lt_task_id lease));
  task ← ok_or (scheduler_get (scheduler b) id) ();
  Ok {| tc_task := task; tc_generation := lt_generation lease;
        tc_lease_owner := lt_lease_owner lease; tc_lease_until_ms := 0 |}.

Definition broker_renew (req : Z) (lease : LeaseToken) (lease_ms now_ms : Z) (b : TaskRpcBroker)
    : Message * TaskRpcBroker :=
  match claim_from_token b lease with
  | Err _ => (Renewed req None, b)
  | Ok c =>
      match on_scheduler (renew_claim c now_ms lease_ms) b with
      | (Ok c', b') =>
          match wire_lease c' with
          | Ok l => (Renewed req (Some l), b')
          | Err error => (error_message (Some req) Internal (rpc_error_text error), b')
          end
      | (Err (LeaseLost | Unknown _), b') => (Renewed req None, b')
      | (Err error, b') => (scheduler_error (Some req) error, b')
      end
  end.

Definition broker_release (req : Z) (lease : LeaseToken) (now_ms : Z) (b : TaskRpcBroker)
    : Message * TaskRpcBroker :=
  match claim_from_token b lease with
  | Err _ => (Released req false, b)
  | Ok c =>
      match on_scheduler (release_claim c now_ms) b with
      | (Ok _, b') => (Released req true, b')
      | (Err (LeaseLost | Unknown _ | Full _), b') => (Released req false, b')
      | (Err error, b') => (scheduler_error (Some req) error, b')
      end
  end.

Definition broker_cancel (req : Z) (wire_id : WireTaskId) (b : TaskRpcBroker)
    : Message * TaskRpcBroker :=
  match WireTaskId_parse wire_id with
  | Err _ => (MsgCanceled req false, b)
  | Ok id =>
      match on_scheduler (cancel id) b with
      | (Ok task, b') =>
          if decide (state task = Canceled)
          then (MsgCanceled req true, record_outcome id OutcomeCanceled b')
          else (MsgCanceled req false, b')
      | (Err (Unknown _), b') => (MsgCanceled req false, b')
      | (Err error, b') => (scheduler_error (Some req) error, b')
      end
  end.

(** The scheduler call [TaskRpcBroker::commit] makes for an outcome. *)
Definition commit_call (c : TaskClaim) (outcome : TaskOutcome) (now_ms : Z)
    : M Scheduler SchedulerError Task :=
  match outcome with
  | OutcomeCompleted _ => finish_claim c now_ms Completed
  | OutcomeSuspended => finish_claim c now_ms Suspended
  | OutcomeFailed _ true => release_claim c now_ms
  | OutcomeFailed _ false => finish_claim c now_ms Failed
  | OutcomeCanceled => finish_claim c now_ms Canceled
  | OutcomeTimedOut => finish_claim c now_ms TimedOut
  end.

Definition broker_commit (req : Z) (lease : LeaseToken) (outcome : TaskOutcome) (now_ms : Z)
    (b : TaskRpcBroker) : Message * TaskRpcBroker :=
  match claim_from_token b lease with
  | Err _ => (Committed req false, b)
  | Ok c =>
      let id := task_id (tc_task c) in
      match on_scheduler (commit_call c outcome now_ms) b with
      | (Ok task, b') =>
          (Committed req true,
           if is_terminal (state task)
           then record_outcome id
                  match state task with
                  | TimedOut => OutcomeTimedOut
                  | Canceled => OutcomeCanceled
                  | _ => outcome
                  end b'
           else b')
      | (Err (LeaseLost | Unknown _ | Full _), b') => (Committed req false, b')
      | (Err error, b') => (scheduler_error (Some req) error, b')
      end
  end.

(** [TaskRpcBroker::handle] *)
Definition broker_handle (now_ms : Z) (e : Envelope) (b : TaskRpcBroker) : Envelope * TaskRpcBroker :=
  let rid := request_id (message e) in
  match Envelope_validate e with
  | Err error =>
      let code := match error with UnsupportedVersion _ _ => VersionMismatch | _ => InvalidRequest end in
      (error_response rid code (rpc_error_text error), b)
  | Ok _ =>
      let '(response, b') :=
        match message e with
        | Hello _ => (Ready, b)
        | Claim req worker_id lease_ms limit => broker_claim req worker_id lease_ms limit now_ms b
        | Renew req lease lease_ms => broker_renew req lease lease_ms now_ms b
        | Release req lease => broker_release req lease now_ms b
        | Cancel req wire_id => broker_cancel req wire_id b
        | Commit req lease outcome => broker_commit req lease outcome now_ms b
        | Ready | Claimed _ _ | Renewed _ _ | Released _ _ | MsgCanceled _ _ | Committed _ _
        | MsgError _ _ _ =>
            (error_message rid InvalidRequest "TaskRPC response sent to scheduler", b)
        end in
      (Envelope_new response, b')
  end.

(** [TaskRpcBroker::handle_frame]: the reader's bytes in, the bytes written out. *)
Definition handle_frame (now_ms : Z) (r : string) (b : TaskRpcBroker)
    : result TaskRpcError string * string * TaskRpcBroker :=
  match read_message r with
  | (Err e, r') => (Err e, r', b)
  | (Ok request, r') =>
      let '(response, b') := broker_handle now_ms request b in
      (write_message response, r', b')
  end.

(** ** Sessions *)

(** [TaskRpcSession { worker_id: Option<String> }] *)
Abbreviation TaskRpcSession := (option string) (only parsing).

Definition session_handle (now_ms : Z) (e : Envelope) (worker : TaskRpcSession) (b : TaskRpcBroker)
    : Envelope * TaskRpcSession * TaskRpcBroker :=
  let rid := request_id (message e) in
  match worker with
  | Some owner =>
      if worker_request_matches (message e) owner
      then let '(r, b') := broker_handle now_ms e b in (r, worker, b')
      else (error_response rid InvalidRequest
              "TaskRPC message does not belong to this worker connection", worker, b)
  | None =>
      match message e with
      | Hello worker_id =>
          let worker' := if is_ok (Envelope_validate e) then Some worker_id else None in
          let '(r, b') := broker_handle now_ms e b in (r, worker', b')
      | _ => (error_response rid InvalidRequest "TaskRPC hello must be the first message", worker, b)
      end
  end.

Definition session_disconnect (now_ms : Z) (worker : TaskRpcSession) (b : TaskRpcBroker)
    : result SchedulerError (list TaskId) * TaskRpcSession * TaskRpcBroker :=
  match worker with
  | None => (Ok [], None, b)
  | Some worker_id => let '(r, b') := disconnect_worker worker_id now_ms b in (r, None, b')
  end.

End Broker.
