(* ===== verification/BrokerThms.v ===== *)
(** * TaskRPC broker: invariants and guarantees to workers *)

From Stdlib Require Import ZArith Lia Ascii String.
From stdpp Require Import base tactics list gmap strings relations.
From S2P Require Import Prelude Bytes TaskModel Lease Scheduler SchedulerSpec SchedulerThms TaskRpc Broker.
Open Scope Z_scope.

Section BrokerInv.
Context {SJ : SerdeJson} {ES : EnvelopeSerde} {ET : ErrorText}.
Implicit Types (b : TaskRpcBroker) (s : Scheduler).

(** The state a task is in when an outcome is on record for it. *)
Definition outcome_state (o : TaskOutcome) : TaskState :=
  match o with
  | OutcomeCompleted _ => Completed
  | OutcomeSuspended => Suspended
  | OutcomeFailed _ _ => Failed
  | OutcomeCanceled => Canceled
  | OutcomeTimedOut => TimedOut
  end.

Definition outcomes_agree b : Prop :=
  forall id o, outcomes b !! id = Some o ->
    exists t, tasks (scheduler b) !! id = Some t /\ state t = outcome_state o /\
      is_terminal (state t) = true.

Definition BInv b : Prop := Inv (scheduler b) /\ outcomes_agree b.

Definition outcomes_kept b b' : Prop :=
  forall id o, outcomes b !! id = Some o -> outcomes b' !! id = Some o.

Definition BGood b b' : Prop :=
  BInv b -> BInv b' /\ advance (scheduler b) (scheduler b') /\ outcomes_kept b b'.

#[local] Instance BGood_preorder : PreOrder BGood.
Proof.
  split.
  - intros b B. split; [done|]. split; [reflexivity|by intros ? ?].
  - intros b1 b2 b3 H1 H2 B1. destruct (H1 B1) as (B2 & A1 & K1), (H2 B2) as (B3 & A2 & K2).
    split; [done|]. split; [by transitivity (scheduler b2)|]. intros id o Ho. by apply K2, K1.
Qed.

Lemma on_scheduler_eq {A} (m : M Scheduler SchedulerError A) b :
  on_scheduler m b = ((m (scheduler b)).1, set_scheduler (m (scheduler b)).2 b).
Proof. unfold on_scheduler. by destruct (m (scheduler b)). Qed.

(** A scheduler operation under the broker leaves the outcomes alone. *)
Lemma BGood_scheduler s b : Good (scheduler b) s -> BGood b (set_scheduler s b).
Proof.
  intros G [I O]. destruct (G I) as [I' [F K]]. split; [|split; [by split|by intros ? ?]].
  split; [done|]. intros id o Ho. destruct (O id o Ho) as (t & Ht & Hs & Hd).
  exists t. split; [by apply K|done].
Qed.

Lemma BGood_on {A} (m : M Scheduler SchedulerError A) b :
  Good (scheduler b) (m (scheduler b)).2 -> BGood b (on_scheduler m b).2.
Proof. intros G. rewrite on_scheduler_eq. by apply BGood_scheduler. Qed.

Lemma BInv_record id o t b :
  BInv b -> tasks (scheduler b) !! id = Some t -> state t = outcome_state o ->
  is_terminal (state t) = true -> BInv (record_outcome id o b).
Proof.
  intros [I O] Ht Hs Hd. split; [done|].
  intros i o' Hi. simpl in Hi. apply lookup_insert_Some in Hi as [[<- <-]|[? ?]]; [by eauto|by apply O].
Qed.

Lemma BGood_claim_loop n req w ms now leases b :
  BGood b (claim_loop n req w ms now leases b).2.
Proof.
  revert leases b. induction n as [|n IH]; intros leases b; cbn [claim_loop]; [done|].
  pose proof (BGood_on (peek_runnable now) b (Good_peek now _)) as G1.
  destruct (on_scheduler (peek_runnable now) b) as [[[t|]|e] b1]; simpl in G1; try done.
  destruct (begin_attempt t) as [t'|]; [|done].
  destruct (preview_wire_lease t' w) as [p|]; [|done].
  pose proof (BGood_on _ b1 (Good_claim_with_lease now w ms _)) as G2.
  destruct (encode_message _) as [bytes|e].
  - destruct (on_scheduler (claim_with_lease now w ms) b1) as [[[c|]|e] b2]; simpl in G2.
    + destruct (wire_lease c) as [l|].
      * transitivity b1; [done|]. transitivity b2; [done|]. apply IH.
      * pose proof (BGood_on _ b2 (Good_release c now _)) as G3.
        destruct (on_scheduler (release_claim c now) b2) as [? b3]. simpl in *.
        transitivity b1; [done|]. by transitivity b2.
    + by transitivity b1.
    + destruct leases; by transitivity b1.
  - destruct e, leases; done.
Qed.

Lemma BGood_broker_claim req w ms limit now b : BGood b (broker_claim req w ms limit now b).2.
Proof.
  unfold broker_claim.
  pose proof (BGood_on _ b (Good_requeue_expired now limit _)) as G.
  destruct (on_scheduler (requeue_expired now limit) b) as [[ids|e] b1]; [|done].
  transitivity b1; [done|]. apply BGood_claim_loop.
Qed.

Lemma BGood_renew req l ms now b : BGood b (broker_renew req l ms now b).2.
Proof.
  unfold broker_renew. destruct (claim_from_token b l) as [c|]; [|done].
  pose proof (BGood_on _ b (Good_renew c now ms _)) as G.
  destruct (on_scheduler _ b) as [[c'|e] b1]; simpl in G; [by destruct (wire_lease c')|by destruct e].
Qed.

Lemma BGood_release req l now b : BGood b (broker_release req l now b).2.
Proof.
  unfold broker_release. destruct (claim_from_token b l) as [c|]; [|done].
  pose proof (BGood_on _ b (Good_release c now _)) as G.
  destruct (on_scheduler _ b) as [[c'|e] b1]; simpl in G; [done|by destruct e].
Qed.

Lemma record_outcome_kept id o b :
  (forall o', outcomes b !! id = Some o' -> o' = o) -> outcomes_kept b (record_outcome id o b).
Proof.
  intros H i o' Ho. simpl. destruct (decide (i = id)) as [->|].
  - rewrite lookup_insert_eq. by rewrite (H _ Ho).
  - by rewrite lookup_insert_ne.
Qed.

Lemma cancel_Ok id s t s' :
  cancel id s = (Ok t, s') -> tasks s' !! id = Some t /\ is_terminal (state t) = true.
Proof.
  unfold cancel, get_task; unfold_monad. destruct (tasks s !! id) as [t0|] eqn:Ht; [|done].
  destruct (is_terminal (state t0)) eqn:Hd; [by intros [= <- <-]|].
  rewrite transition_eq, Ht. simpl. rewrite (nonterminal_can_cancel _ Hd). intros [= <- <-].
  simpl. by rewrite lookup_insert_eq.
Qed.

Lemma BGood_cancel req wire b : BGood b (broker_cancel req wire b).2.
Proof.
  unfold broker_cancel. destruct (WireTaskId_parse wire) as [id|]; [|done].
  pose proof (BGood_on _ b (Good_cancel id _)) as G. rewrite on_scheduler_eq in *.
  destruct (cancel id (scheduler b)) as [[t|e] s] eqn:Hc; simpl in *; [|by destruct e].
  destruct (decide (state t = Canceled)) as [Hs|]; [|done].
  apply cancel_Ok in Hc as [Ht Hd]. intros B. destruct (G B) as (B1 & A1 & K1).
  split; [eapply BInv_record; try done|split; [done|]].
  intros i o Ho. apply (record_outcome_kept id OutcomeCanceled (set_scheduler s b)); [|by apply K1].
  intros o' Ho'. destruct (proj2 B1 id o' Ho') as (t' & Ht' & Hst & _).
  simpl in Ht'. simplify_eq. rewrite Hs in Hst. by destruct o'.
Qed.

(** What [commit] did when the scheduler accepted it: the claim was live and is
    gone, and the task is in the state the outcome stands for, unless a deadline
    or a retry decided otherwise. *)
Lemma commit_call_Ok c o now s t' s' :
  Inv s -> commit_call c o now s = (Ok t', s') ->
  let id := task_id (tc_task c) in
  exists t a, claims s !! id = Some a /\ ac_generation a = tc_generation c /\
    tasks s !! id = Some t /\ claims s' !! id = None /\ generations s' = generations s /\
    tasks s' !! id = Some t' /\
    (is_terminal (state t') = true -> state t' = outcome_state o \/ state t' = TimedOut).
Proof.
  intros I H id. destruct o as [r| |er retry| |]; [| |destruct retry|..]; simpl in H;
    try (apply finish_claim_Ok in H as (t & a & Hc & Hg & _ & _ & Ht & Hn & -> & ->);
         exists t, a; simpl; rewrite lookup_delete_eq, lookup_insert_eq; naive_solver).
  apply release_claim_Ok in H as (t & a & Hc & Hg & _ & _ & Ht & [(_ & -> & ->)|(_ & -> & ->)]); [| |done];
    exists t, a; simpl; rewrite lookup_delete_eq, lookup_insert_eq; naive_solver.
Qed.

Lemma Good_commit_call c o now s : Good s (commit_call c o now s).2.
Proof. destruct o as [| |? []| |]; simpl; auto with tysel. Qed.

Lemma claim_has_no_outcome b id a :
  BInv b -> claims (scheduler b) !! id = Some a -> outcomes b !! id = None.
Proof.
  intros [I O] Hc. destruct (outcomes b !! id) as [o|] eqn:Ho; [|done].
  destruct (O id o Ho) as (t & Ht & _ & Hd). destruct (inv_claim _ I _ _ Hc) as (t' & ? & [Hs|Hs]);
    simplify_eq; by rewrite Hs in Hd.
Qed.

Lemma BGood_commit req l o now b : BGood b (broker_commit req l o now b).2.
Proof.
  unfold broker_commit. destruct (claim_from_token b l) as [c|]; [|done].
  pose proof (BGood_on _ b (Good_commit_call c o now _)) as G. rewrite on_scheduler_eq in *.
  destruct (commit_call c o now (scheduler b)) as [[t|e] s] eqn:Hc; simpl in *; [|by destruct e].
  destruct (is_terminal (state t)) eqn:Hd; [|done].
  intros B. destruct (G B) as (B1 & A1 & K1).
  apply commit_call_Ok in Hc as (t0 & a & Hcl & _ & _ & _ & _ & Ht & Hst); [|apply B].
  specialize (Hst Hd).
  split; [|split; [done|]].
  - eapply BInv_record; [done|exact Ht| |done].
    destruct Hst as [Hst|Hst]; rewrite Hst; [|done].
    destruct o; try done.
  - intros i o' Ho. eapply record_outcome_kept; [|by apply K1].
    intros o'' Ho''. simpl in Ho''. by rewrite (claim_has_no_outcome b _ a) in Ho''.
Qed.

Lemma BGood_enqueue task b : BGood b (broker_enqueue task b).2.
Proof.
  unfold broker_enqueue. destruct (deliverable task); [|done].
  pose proof (BGood_on _ b (Good_enqueue task _)) as G. by destruct (on_scheduler _ b).
Qed.

Lemma BGood_handle now e b : BGood b (broker_handle now e b).2.
Proof.
  unfold broker_handle. destruct (Envelope_validate e); [|done].
  destruct (message e) as [w| |r w ms l| |r l ms| |r l| |r w| |r l o| |]; try done.
  - pose proof (BGood_broker_claim r w ms l now b). by destruct (broker_claim _ _ _ _ _ _).
  - pose proof (BGood_renew r l ms now b). by destruct (broker_renew _ _ _ _ _).
  - pose proof (BGood_release r l now b). by destruct (broker_release _ _ _ _).
  - pose proof (BGood_cancel r w b). by destruct (broker_cancel _ _ _).
  - pose proof (BGood_commit r l o now b). by destruct (broker_commit _ _ _ _ _).
Qed.

(** ** Reachable brokers *)

Inductive BrokerOp :=
| BEnqueue (task : Task)
| BHandle (now_ms : Z) (e : Envelope)
| BRequeueExpired (now_ms limit : Z)
| BDisconnect (worker_id : string) (now_ms : Z).

Definition run_broker_op (op : BrokerOp) (b : TaskRpcBroker) : TaskRpcBroker :=
  match op with
  | BEnqueue task => (broker_enqueue task b).2
  | BHandle now e => (broker_handle now e b).2
  | BRequeueExpired now limit => (broker_requeue_expired now limit b).2
  | BDisconnect w now => (disconnect_worker w now b).2
  end.

Inductive broker_step b : TaskRpcBroker -> Prop :=
| broker_step_op op : broker_step b (run_broker_op op b).

Lemma run_broker_op_BGood op b : BGood b (run_broker_op op b).
Proof.
  destruct op; simpl.
  - apply BGood_enqueue.
  - apply BGood_handle.
  - apply BGood_on, Good_requeue_expired.
  - apply BGood_on, Good_requeue_owner.
Qed.

Lemma broker_steps_BGood b b' : rtc broker_step b b' -> BGood b b'.
Proof.
  induction 1 as [|b b1 b' [op] _ IH]; [done|].
  transitivity (run_broker_op op b); [apply run_broker_op_BGood|done].
Qed.

Lemma Broker_new_BInv cap b : 0 <= cap -> Broker_new cap = Ok b -> BInv b.
Proof.
  intros Hc. unfold Broker_new; unfold_monad.
  destruct (Scheduler_new cap) as [s|] eqn:Hs; [|done]. intros [= <-].
  split; [by eapply Inv_new|]. intros id o Ho. simpl in Ho. by apply lookup_empty_Some in Ho.
Qed.

(** What the broker has on record about a task is true and final. In every
    state reached from a new broker through its methods, a recorded outcome
    belongs to a known task that is in the terminal state the outcome stands
    for; and in every state reached later the record and the task are the same. *)
Theorem broker_outcomes_final cap b0 b1 b2 id o :
  0 <= cap -> Broker_new cap = Ok b0 -> rtc broker_step b0 b1 -> rtc broker_step b1 b2 ->
  broker_outcome b1 id = Some o ->
  exists t, broker_task b1 id = Some t /\ state t = outcome_state o /\
    is_terminal (state t) = true /\ broker_outcome b2 id = Some o /\ broker_task b2 id = Some t.
Proof.
  intros Hc Hn H01 H12 Ho.
  destruct (broker_steps_BGood _ _ H01 (Broker_new_BInv _ _ Hc Hn)) as (B1 & _ & _).
  destruct (broker_steps_BGood _ _ H12 B1) as (_ & [_ K] & KO).
  destruct (proj2 B1 id o Ho) as (t & Ht & Hs & Hd). exists t. split_and!; try done.
  - by apply KO.
  - by apply K.
Qed.

(** The generation a lease token names is dead in the broker's scheduler. *)
Definition token_dead (l : LeaseToken) b : Prop :=
  forall id, WireTaskId_parse (lt_task_id l) = Ok id -> lease_dead (scheduler b) id (lt_generation l).

Lemma claim_from_token_Ok b l c :
  Inv (scheduler b) -> claim_from_token b l = Ok c ->
  WireTaskId_parse (lt_task_id l) = Ok (task_id (tc_task c)) /\
  tc_generation c = lt_generation l /\ tc_lease_owner c = lt_lease_owner l.
Proof.
  intros I. unfold claim_from_token; unfold_monad.
  destruct (WireTaskId_parse (lt_task_id l)) as [id|]; [|done]. simpl. unfold scheduler_get.
  destruct (tasks (scheduler b) !! id) as [t|] eqn:Ht; [|done]. intros [= <-].
  simpl. by rewrite (inv_id _ I _ _ Ht).
Qed.

Lemma dead_token_commit req l o now b :
  Inv (scheduler b) -> token_dead l b -> broker_commit req l o now b = (Committed req false, b).
Proof.
  intros I Hd. unfold broker_commit. destruct (claim_from_token b l) as [c|] eqn:Hc; [|done].
  apply (claim_from_token_Ok _ _ _ I) in Hc as (Hp & Hg & _). specialize (Hd _ Hp).
  rewrite <- Hg in Hd. apply (dead_token_rejected _ now) in Hd as (Hf & Hr & _).
  rewrite on_scheduler_eq. destruct b as [s os]. simpl in *.
  destruct o as [| |? []| |]; simpl; rewrite ?Hf, ?Hr by done; done.
Qed.

(** C15. The broker accepts at most one outcome per lease: once a commit is
    acknowledged as accepted, every later commit under the same lease token,
    with whatever outcome, at whatever time and after whatever other requests,
    is acknowledged as not accepted and changes nothing. *)
Theorem broker_commits_once req l o now b b1 b2 req' o' now' :
  BInv b -> broker_commit req l o now b = (Committed req true, b1) -> rtc broker_step b1 b2 ->
  broker_commit req' l o' now' b2 = (Committed req' false, b2).
Proof.
  intros B Hc Hr. pose proof (BGood_commit req l o now b B) as (B1 & _ & _). rewrite Hc in B1.
  destruct (broker_steps_BGood _ _ Hr B1) as (B2 & [F _] & _).
  apply dead_token_commit; [apply B2|]. intros id Hid. eapply fence_dead; [exact F|].
  unfold broker_commit in Hc. destruct (claim_from_token b l) as [c|] eqn:Hcl; [|done].
  apply (claim_from_token_Ok _ _ _ (proj1 B)) in Hcl as (Hp & Hg & _). simplify_eq.
  rewrite on_scheduler_eq in Hc.
  destruct (commit_call c o now (scheduler b)) as [[t|e] s] eqn:Hcc; simpl in Hc;
    [|by destruct e].
  apply commit_call_Ok in Hcc as (t0 & a & Hca & Hga & _ & Hn & Hgn & _); [|apply B].
  assert (scheduler b1 = s) as -> by (destruct (is_terminal (state t)); by simplify_eq).
  rewrite <- Hg, <- Hga. assert (id = task_id (tc_task c)) as -> by congruence.
  exact (dropped_claim_dead (scheduler b) _ _ a (proj1 B) Hca Hgn Hn).
Qed.

(** ** Isolation between workers *)

(** The claims other workers than [w] hold at time [now], and their tasks, are untouched. *)
Definition foreign_kept (w : string) (now : Z) (s s' : Scheduler) : Prop :=
  forall id a, claims s !! id = Some a -> ac_lease_owner a <> w -> now < ac_lease_until_ms a ->
    claims s' !! id = Some a /\ tasks s' !! id = tasks s !! id.

#[local] Instance foreign_kept_preorder w now : PreOrder (foreign_kept w now).
Proof.
  split.
  - by intros s id a.
  - intros s1 s2 s3 H1 H2 id a Hc Hw Hu. destruct (H1 id a Hc Hw Hu) as [Hc2 Ht2].
    destruct (H2 id a Hc2 Hw Hu) as [Hc3 Ht3]. by rewrite Ht3.
Qed.

Lemma held_foreign w now s s' : held_kept s s' -> foreign_kept w now s s'.
Proof. intros H id a Hc _ _. by apply H. Qed.

Lemma requeue_expired_foreign w now limit s :
  Inv s -> foreign_kept w now s (requeue_expired now limit s).2.
Proof.
  intros I id a Hc _ Hu. unfold requeue_expired; unfold_monad.
  destruct (requeue_claimed_spec (fun c => ac_lease_until_ms c <=? now) now limit s I)
    as (ids & s' & -> & _ & _ & Hsub & Hcl & Ht & _). simpl.
  assert (Hout : id ∉ ids).
  { intros Hin. apply (sublist_subseteq _ _ Hsub) in Hin. rewrite takeZ_take in Hin.
    apply subseteq_take, claimed_ids_elem in Hin as (c & Hc' & Hexp). simplify_eq. split_bool. lia. }
  rewrite Hcl, decide_False by done. auto.
Qed.

(** A claim operation touches at most the claim it names, which the token's owner holds. *)
Lemma own_claim_foreign c now s s' :
  (s' = s \/ exists a, claims s !! task_id (tc_task c) = Some a /\
     ac_lease_owner a = tc_lease_owner c /\
     forall id, id <> task_id (tc_task c) ->
       claims s' !! id = claims s !! id /\ tasks s' !! id = tasks s !! id) ->
  foreign_kept (tc_lease_owner c) now s s'.
Proof.
  intros [->|(a & Hc & Ho & Hk)]; [reflexivity|]. intros id a' Hc' Hw _.
  destruct (Hk id) as [-> ->]; [|done]. congruence.
Qed.

Lemma finish_foreign c now next s :
  foreign_kept (tc_lease_owner c) now s (finish_claim c now next s).2.
Proof.
  apply own_claim_foreign. destruct (finish_claim c now next s) as [[t|e] s'] eqn:H.
  - right. apply finish_claim_Ok in H as (t0 & a & Hc & _ & Ho & _ & _ & Hn & _ & ->).
    exists a. split; [done|]. split; [done|]. intros id Hid. simpl.
    rewrite lookup_insert_ne by done. split; [|done].
    destruct (drops_claim next); [by rewrite lookup_delete_ne|done].
  - left. unfold finish_claim in H; unfold_monad. destruct (claim_outcome_allowed next); simplify_eq/=; [|done].
    destruct (require_live_claim_cases c now s) as [[a Ha]|Ha]; rewrite Ha in H; [|by simplify_eq].
    rewrite transition_eq in H. repeat case_match; by simplify_eq.
Qed.

Lemma release_foreign c now s :
  Inv s -> foreign_kept (tc_lease_owner c) now s (release_claim c now s).2.
Proof.
  intros I. apply own_claim_foreign. destruct (release_claim c now s) as [[t|e] s'] eqn:H.
  - right. apply release_claim_Ok in H as (t0 & a & Hc & _ & Ho & _ & _ & [(_ & _ & ->)|(_ & _ & ->)]); [| |done];
      exists a; (split; [done|]); (split; [done|]); intros id Hid; simpl;
      rewrite lookup_insert_ne, lookup_delete_ne by done; done.
  - left. unfold release_claim, get_task in H; unfold_monad.
    destruct (require_live_claim_cases c now s) as [[a Ha]|Ha]; rewrite Ha in H; [|by simplify_eq].
    apply require_live_claim_Ok in Ha as (_ & Hc & _).
    destruct (inv_claim _ I _ _ Hc) as (t & Ht & Hact). rewrite Ht in H.
    destruct (deadline_reached t now).
    + rewrite transition_eq, Ht in H. repeat case_match; by simplify_eq.
    + destruct (queue_is_full s) eqn:Hf; [by simplify_eq|].
      pose proof (requeue_running _ _ _ Ht Hact Hf) as E. unfold_monad. by rewrite E in H.
Qed.

Lemma renew_foreign c now ms s :
  Inv s -> foreign_kept (tc_lease_owner c) now s (renew_claim c now ms s).2.
Proof.
  intros I. apply own_claim_foreign. unfold renew_claim; unfold_monad.
  destruct (validate_lease _ ms) as [[]|]; [|by left].
  destruct (checked_add u64_max now ms); [|by left]. simpl.
  destruct (require_live_claim_cases c now s) as [[a Ha]| ->]; [|by left]. rewrite Ha.
  apply require_live_claim_Ok in Ha as (_ & Hc & _ & Ho & _). right. exists a. split; [done|].
  split; [done|]. intros id Hid.
  destruct (inv_claim _ I _ _ Hc) as (t & Ht & _). unfold get_task. simpl. rewrite Ht. simpl.
  by rewrite lookup_insert_ne.
Qed.

Lemma claim_loop_foreign n req w ms now leases b :
  BInv b -> foreign_kept w now (scheduler b) (scheduler (claim_loop n req w ms now leases b).2).
Proof.
  revert leases b. induction n as [|n IH]; intros leases b B; cbn [claim_loop]; [reflexivity|].
  pose proof (held_foreign w now _ _ (peek_held_kept now _ (proj1 B))) as F1.
  pose proof (BGood_on (peek_runnable now) b (Good_peek now _) B) as (B1 & _).
  rewrite on_scheduler_eq in *. destruct (peek_runnable now (scheduler b)) as [[[t|]|e] s1];
    simpl in *; try done.
  destruct (begin_attempt t) as [t'|]; [|done].
  destruct (preview_wire_lease t' w) as [p|]; [|done].
  pose proof (held_foreign w now _ _ (claim_with_lease_held_kept now w ms _ (proj1 B1))) as F2.
  pose proof (BGood_on _ _ (Good_claim_with_lease now w ms _) B1) as (B2 & _).
  destruct (encode_message _) as [bytes|e]; [|by destruct e, leases].
  rewrite on_scheduler_eq in *. cbn [scheduler set_scheduler] in *.
  destruct (claim_with_lease now w ms s1) as [[[c|]|e] s2] eqn:Hc; simpl in *.
  - transitivity s1; [done|]. transitivity s2; [done|].
    destruct (wire_lease c) as [l|]; [by apply (IH _ (set_scheduler s2 (set_scheduler s1 b)))|].
    apply claim_with_lease_Some in Hc as (? & ? & _ & _ & _ & _ & _ & _ & -> & _); [|apply B1].
    rewrite on_scheduler_eq. simpl. by apply (release_foreign {| tc_lease_owner := w |}), B2.
  - by transitivity s1.
  - destruct leases; by transitivity s1.
Qed.

Lemma commit_call_foreign c o now s :
  Inv s -> foreign_kept (tc_lease_owner c) now s (commit_call c o now s).2.
Proof. intros I. destruct o as [| |? []| |]; simpl; auto using finish_foreign, release_foreign. Qed.

(** A request that names [w] as its worker leaves everybody else's claims alone. *)
Lemma handle_foreign w now e b :
  BInv b -> worker_request_matches (message e) w = true ->
  foreign_kept w now (scheduler b) (scheduler (broker_handle now e b).2).
Proof.
  intros B Hm. unfold broker_handle. destruct (Envelope_validate e); [|reflexivity].
  destruct (message e) as [?| |r w' ms limit| |r l ms| |r l| |r ?| |r l o| |]; simpl in Hm; try done;
    apply String.eqb_eq in Hm as <-.
  - unfold broker_claim.
    pose proof (requeue_expired_foreign w' now limit _ (proj1 B)) as F1.
    pose proof (BGood_on _ b (Good_requeue_expired now limit _) B) as (B1 & _).
    rewrite on_scheduler_eq in *.
    destruct (requeue_expired now limit (scheduler b)) as [[ids|er] s1]; simpl in *; [|done].
    pose proof (claim_loop_foreign (Z.to_nat limit) r w' ms now [] _ B1) as F2.
    destruct (claim_loop _ _ _ _ _ _ _) as [m b2]. simpl in *. by transitivity s1.
  - unfold broker_renew. destruct (claim_from_token b l) as [c|] eqn:Hc; [|reflexivity].
    apply (claim_from_token_Ok _ _ _ (proj1 B)) in Hc as (_ & _ & <-).
    pose proof (renew_foreign c now ms _ (proj1 B)) as F. rewrite on_scheduler_eq.
    destruct (renew_claim c now ms (scheduler b)) as [[c'|er] s1]; simpl in *;
      [by destruct (wire_lease c')|by destruct er].
  - unfold broker_release. destruct (claim_from_token b l) as [c|] eqn:Hc; [|reflexivity].
    apply (claim_from_token_Ok _ _ _ (proj1 B)) in Hc as (_ & _ & <-).
    pose proof (release_foreign c now _ (proj1 B)) as F. rewrite on_scheduler_eq.
    by destruct (release_claim c now (scheduler b)) as [[c'|er] s1]; simpl in *; [|destruct er].
  - unfold broker_commit. destruct (claim_from_token b l) as [c|] eqn:Hc; [|reflexivity].
    apply (claim_from_token_Ok _ _ _ (proj1 B)) in Hc as (_ & _ & <-).
    pose proof (commit_call_foreign c o now _ (proj1 B)) as F. rewrite on_scheduler_eq.
    destruct (commit_call c o now (scheduler b)) as [[t|er] s1]; simpl in *;
      [by destruct (is_terminal (state t))|by destruct er].
Qed.

(** A connection acts only for its own worker. A session that has not said
    hello changes nothing in the broker; one that registered as [w] keeps that
    identity, and whatever it sends, the live claims of every other worker, the
    tasks they are on and the absence of an outcome for them are unchanged. *)
Theorem session_isolated now e worker b :
  BInv b ->
  let '(r, worker', b') := session_handle now e worker b in
  match worker with
  | None => b' = b
  | Some w =>
      worker' = Some w /\
      forall id a, claims (scheduler b) !! id = Some a -> ac_lease_owner a <> w ->
        now < ac_lease_until_ms a ->
        claims (scheduler b') !! id = Some a /\
        tasks (scheduler b') !! id = tasks (scheduler b) !! id /\ outcomes b' !! id = None
  end.
Proof.
  intros B. unfold session_handle. destruct worker as [w|].
  - destruct (worker_request_matches (message e) w) eqn:Hm.
    + pose proof (handle_foreign w now e b B Hm) as F.
      pose proof (BGood_handle now e b B) as (B' & _).
      destruct (broker_handle now e b) as [r b']. simpl in *. split; [done|].
      intros id a Hc Hw Hu. destruct (F id a Hc Hw Hu) as [Hc' Ht]. split; [done|]. split; [done|].
      by eapply claim_has_no_outcome.
    + split; [done|]. intros id a Hc _ _. split; [done|]. split; [done|].
      by eapply claim_has_no_outcome.
  - destruct (message e) eqn:He; try done. unfold broker_handle. rewrite He.
    by destruct (Envelope_validate e).
Qed.

(** ** The leases a claim response carries *)

(** A wire lease that names a live claim of worker [w] on task [id]. *)
Definition lease_backed (w : string) (s : Scheduler) (id : TaskId) (l : TaskLease) : Prop :=
  TaskLease_validate l = Ok () /\ lt_lease_owner (tl_token l) = w /\
  lt_task_id (tl_token l) = WireTaskId_new id /\
  exists a, claims s !! id = Some a /\
    ac_generation a = lt_generation (tl_token l) /\ ac_lease_owner a = w /\
    ac_lease_until_ms a = tl_lease_until_ms l.

Lemma lease_backed_kept w s s' id l : held_kept s s' -> lease_backed w s id l -> lease_backed w s' id l.
Proof.
  intros K (? & ? & ? & a & Hc & ?). split_and!; try done.
  exists a. split; [by apply K|done].
Qed.

Lemma owner_is_worker_id w ms : validate_lease w ms = Ok () -> validate_worker_id w = Ok ().
Proof.
  unfold validate_lease, validate_lease_owner, validate_worker_id. unfold_monad.
  change (MAX_LEASE_OWNER_BYTES) with MAX_WORKER_ID_BYTES.
  change lease_owner_byte with (fun x => is_ascii_alphanumeric x || Ascii.eqb x "."%char
          || Ascii.eqb x "_"%char || Ascii.eqb x ":"%char || Ascii.eqb x "@"%char
          || Ascii.eqb x "-"%char).
  by destruct (_ || _).
Qed.

Lemma from_task_Ok t d : from_task t = Ok d -> TaskDescriptor_validate d = Ok ().
Proof.
  unfold from_task; unfold_monad. destruct (TaskDescriptor_validate _) as [[]|] eqn:E; [|done].
  by intros [= <-].
Qed.

Lemma granted_lease_backed now w ms s c s' l :
  Inv s -> 0 <= now -> 0 <= ms -> claim_with_lease now w ms s = (Ok (Some c), s') ->
  wire_lease c = Ok l ->
  claims s !! task_id (tc_task c) = None /\ lease_backed w s' (task_id (tc_task c)) l.
Proof.
  intros I Hnow Hms Hc Hw.
  apply claim_with_lease_Some in Hc as (t & g & _ & Hun & Hv & _ & Hg & _ & -> & ->); [|done].
  split; [done|]. unfold wire_lease in Hw; unfold_monad. simpl in Hw.
  destruct (from_task (start_attempt t)) as [d|] eqn:Hd; [|done]. simplify_eq.
  apply from_task_Ok in Hd. pose proof (owner_is_worker_id _ _ Hv) as Hwid.
  assert (0 < ms).
  { unfold validate_lease in Hv; unfold_monad. destruct (validate_lease_owner w) as [[]|]; [|done].
    destruct (_ || _) eqn:E; [done|]. split_bool. lia. }
  assert (0 <= default 0 (generations s !! task_id t)).
  { destruct (generations s !! task_id t) eqn:E; simpl; [|lia].
    pose proof (inv_generation_range _ I _ _ E). lia. }
  split; [|split; [done|split; [done|]]].
  - unfold TaskLease_validate, LeaseToken_validate; unfold_monad. simpl tl_token. simpl tl_task.
    cbn [lt_task_id lt_generation lt_lease_owner tl_lease_until_ms].
    rewrite (proj2 (WireTaskId_validate_Ok _)).
    2:{ split; [apply format_fixed_length|apply format_hex_lower]. }
    rewrite (proj2 (Z.eqb_neq _ _)) by lia. rewrite Hwid, Hd.
    by rewrite (proj2 (Z.eqb_neq _ _)) by lia.
  - eexists. simpl. change (task_id (start_attempt t)) with (task_id t).
    rewrite lookup_insert_eq. by split_and!.
Qed.

(** Leases backed by claims on distinct tasks. *)
Definition leases_backed (w : string) (s : Scheduler) (leases : list TaskLease) : Prop :=
  exists ids, NoDup ids /\ Forall2 (lease_backed w s) ids leases.

Lemma leases_backed_kept w s s' ls : held_kept s s' -> leases_backed w s ls -> leases_backed w s' ls.
Proof.
  intros K (ids & Hnd & HF). exists ids. split; [done|].
  eapply Forall2_impl; [done|]. intros; by eapply lease_backed_kept.
Qed.

Lemma leases_backed_snoc w s s' ls id l :
  held_kept s s' -> leases_backed w s ls -> claims s !! id = None -> lease_backed w s' id l ->
  leases_backed w s' (ls ++ [l]).
Proof.
  intros K (ids & Hnd & HF) Hn Hl. exists (ids ++ [id]). split.
  - apply list.NoDup_app. split; [done|]. split; [|apply NoDup_singleton].
    intros i Hi ->%list_elem_of_singleton. apply list_elem_of_lookup in Hi as [k Hk].
    destruct (Forall2_lookup_l _ _ _ _ _ HF Hk) as (l' & _ & _ & _ & _ & a & Hc & _). congruence.
  - apply Forall2_app; [|by constructor].
    eapply Forall2_impl; [done|]. intros; by eapply lease_backed_kept.
Qed.

Lemma claim_loop_backed n req w ms now ls b r leases b' :
  BInv b -> 0 <= now -> 0 <= ms -> leases_backed w (scheduler b) ls ->
  claim_loop n req w ms now ls b = (Claimed r leases, b') ->
  r = req /\ leases_backed w (scheduler b') leases /\ (length leases <= length ls + n)%nat.
Proof.
  intros B Hnow Hms. revert ls b B. induction n as [|n IH]; intros ls b B HL; cbn [claim_loop].
  { intros [= <- <- <-]. split_and!; [done|done|lia]. }
  pose proof (peek_held_kept now _ (proj1 B)) as K1.
  pose proof (BGood_on (peek_runnable now) b (Good_peek now _) B) as (B1 & _).
  rewrite on_scheduler_eq in *.
  destruct (peek_runnable now (scheduler b)) as [[[t|]|e] s1]; simpl in *; [|naive_solver (eauto using leases_backed_kept; lia)|done].
  apply (leases_backed_kept _ _ _ _ K1) in HL as HL1.
  destruct (begin_attempt t) as [t'|]; [|done].
  destruct (preview_wire_lease t' w) as [p|]; [|done].
  pose proof (claim_with_lease_held_kept now w ms _ (proj1 B1)) as K2.
  pose proof (BGood_on _ _ (Good_claim_with_lease now w ms _) B1) as (B2 & _).
  destruct (encode_message _) as [bytes|e]; [|by destruct e, ls; intros [= <- <- <-]; split_and!; [..|lia]].
  rewrite on_scheduler_eq in *. cbn [scheduler set_scheduler] in *.
  destruct (claim_with_lease now w ms s1) as [[[c|]|e] s2] eqn:Hc; simpl in *.
  - destruct (wire_lease c) as [l|] eqn:Hw; [|by destruct (on_scheduler _ _)].
    destruct (granted_lease_backed now w ms s1 c s2 l) as [Hn Hb]; try done; [apply B1|].
    intros H. apply IH in H as (? & ? & Hlen); [|done|by eapply leases_backed_snoc].
    split_and!; try done. rewrite length_app in Hlen. simpl in Hlen. lia.
  - intros [= <- <- <-]. split_and!; [done|by eapply leases_backed_kept|lia].
  - destruct ls; [done|]. intros [= <- <- <-]. split_and!; [done|by eapply leases_backed_kept|lia].
Qed.

Lemma validate_leases_Ok w s ids ls : Forall2 (lease_backed w s) ids ls -> validate_leases ls = Ok ().
Proof.
  induction 1 as [|id l ids ls (Hv & _) _ IH]; simpl; [done|].
  unfold_monad. by rewrite Hv.
Qed.

(** Every lease in a claim response is real: the response answers the
    request, carries at most [limit] leases, each of them on a different task and
    matched by a live claim of that worker with the same generation and expiry,
    and the response passes the protocol's own validation. *)
Theorem claim_response_backed req w ms limit now b r leases b' :
  BInv b -> 0 <= now -> 0 <= ms -> 0 <= limit <= MAX_CLAIM_BATCH ->
  broker_claim req w ms limit now b = (Claimed r leases, b') ->
  r = req /\ vec_len leases <= limit /\ leases_backed w (scheduler b') leases /\
  Message_validate (Claimed r leases) = Ok ().
Proof.
  intros B Hnow Hms Hlim. unfold broker_claim.
  pose proof (BGood_on _ b (Good_requeue_expired now limit _) B) as (B1 & _).
  destruct (on_scheduler (requeue_expired now limit) b) as [[ids|er] b1]; [|done]. simpl in B1.
  intros H. apply claim_loop_backed in H as (-> & Hb & Hlen); try done.
  2:{ exists []. by split; constructor. }
  simpl in Hlen. unfold vec_len. split_and!; try done; [lia|].
  unfold Message_validate, vec_len; unfold_monad.
  rewrite (proj2 (Z.ltb_ge _ _)) by lia.
  destruct Hb as (tids & _ & HF). by rewrite (validate_leases_Ok _ _ _ _ HF).
Qed.

End BrokerInv.

(** ** Examples *)

#[local] Instance sample_serde : @EnvelopeSerde sample_json :=
  {| envelope_to_vec := fun _ => Some "{}"%string; envelope_from_slice := fun _ => None |}.
#[local] Instance sample_text : ErrorText :=
  {| rpc_error_text := fun _ => "rpc"%string; scheduler_error_text := fun _ => "scheduler"%string |}.

Definition sample_token : LeaseToken :=
  {| lt_task_id := WireTaskId_new 7; lt_generation := 1; lt_lease_owner := "w1" |}.

Definition broker_after (ops : list (@BrokerOp sample_json)) : @TaskRpcBroker sample_json :=
  match Broker_new 2 with
  | Ok b => foldl (fun b op => run_broker_op op b) b ops
  | Err _ => {| scheduler := sample_scheduler; outcomes := ∅ |}
  end.

Lemma broker_after_steps ops b0 :
  Broker_new 2 = Ok b0 -> rtc broker_step b0 (broker_after ops).
Proof.
  intros [= <-]. unfold broker_after. simpl.
  generalize {| scheduler := {| capacity := 2; queue := []; tasks := ∅; claims := ∅;
    generations := ∅ |}; outcomes := (∅ : gmap Z (@TaskOutcome sample_json)) |}.
  induction ops as [|op ops IH]; intros b; [apply rtc_refl|].
  eapply rtc_l; [apply broker_step_op|apply IH].
Qed.

Definition sample_request (m : @Message sample_json) : BrokerOp := BHandle 10 (Envelope_new m).

(** One task queued and claimed by worker [w1]. *)
Definition claimed_ops : list BrokerOp :=
  [BEnqueue (sample_task 7 None); sample_request (Claim 1 "w1" 50 4)].
Definition claimed_broker : TaskRpcBroker := broker_after claimed_ops.

Lemma broker_after_BInv ops : BInv (broker_after ops).
Proof.
  destruct (@Broker_new sample_json 2) as [b0|] eqn:H0; [|done].
  by apply (broker_steps_BGood b0); [apply broker_after_steps|eapply (Broker_new_BInv 2)].
Qed.

Definition sample_result : @TaskOutcome sample_json := @OutcomeCompleted sample_json "r"%string.
Definition committed_ops : list BrokerOp :=
  claimed_ops ++ [sample_request (Commit 2 sample_token sample_result)].

Lemma broker_outcomes_final_witness :
  exists t, broker_task (broker_after committed_ops) 7 = Some t /\
    state t = Completed.
Proof.
  destruct (@Broker_new sample_json 2) as [b0|] eqn:H0; [|done].
  destruct (broker_outcomes_final 2 b0 (broker_after committed_ops) (broker_after committed_ops)
    7 sample_result) as (t & Ht & Hs & _);
    [lia|done|by apply broker_after_steps|apply rtc_refl|vm_compute; reflexivity|].
  by exists t.
Defined.

Lemma broker_commits_once_witness :
  let b1 := (broker_commit 2 sample_token OutcomeSuspended 20 claimed_broker).2 in
  broker_commit 3 sample_token OutcomeTimedOut 30 b1 = (Committed 3 false, b1).
Proof.
  intros b1. apply (broker_commits_once 2 sample_token OutcomeSuspended 20 claimed_broker b1);
    [apply broker_after_BInv|vm_compute; reflexivity|apply rtc_refl].
Defined.

Lemma session_isolated_witness :
  claims (scheduler (session_handle 20 (Envelope_new (Claim 5 "w2" 50 4)) (Some "w2"%string) claimed_broker).2) !! 7
    = Some {| ac_generation := 1; ac_lease_owner := "w1"; ac_lease_until_ms := 60 |}.
Proof.
  pose proof (session_isolated 20 (Envelope_new (Claim 5 "w2" 50 4)) (Some "w2"%string) claimed_broker
    (broker_after_BInv _)) as H.
  destruct (session_handle _ _ _ _) as [[r w'] b']. destruct H as [_ H].
  by apply (H 7 {| ac_generation := 1; ac_lease_owner := "w1"; ac_lease_until_ms := 60 |});
    [vm_compute; reflexivity| |].
Defined.

Lemma claim_response_backed_witness :
  exists leases b', broker_claim 1 "w1" 50 4 10 (broker_after [BEnqueue (sample_task 7 None)]) = (Claimed 1 leases, b')
    /\ leases_backed "w1" (scheduler b') leases /\ vec_len leases = 1.
Proof.
  destruct (broker_claim 1 "w1" 50 4 10 (broker_after [BEnqueue (sample_task 7 None)])) as [m b'] eqn:E.
  assert (exists leases, m = Claimed 1 leases /\ vec_len leases = 1) as (leases & -> & Hl).
  { apply (f_equal fst) in E. vm_compute in E. subst m. by eexists. }
  destruct (claim_response_backed 1 "w1" 50 4 10 (broker_after [BEnqueue (sample_task 7 None)]) 1 leases b')
    as (_ & _ & Hb & _); [apply broker_after_BInv|lia|lia|by vm_compute|exact E|].
  by exists leases, b'.
Defined.
