(* ===== verification/TaskRpcServer.v ===== *)
(** * TaskRPC server connections ([serve_task_rpc_connection], task_rpc.rs)

    Many connections share one broker and one set of connected worker ids, each
    behind its own lock. A step is what a connection does while it holds one
    lock, or between two locks, so the step relation has every interleaving of
    the connection tasks. *)

From Stdlib Require Import ZArith Lia Ascii String.
From stdpp Require Import base tactics list gmap sets strings relations.
From S2P Require Import Prelude Bytes TaskModel Lease Scheduler TaskRpc Broker.
Open Scope Z_scope.

Section Server.
Context {SJ : SerdeJson} {ES : EnvelopeSerde} {ET : ErrorText}.

(** Where a connection task is in its loop. *)
Inductive ConnPhase :=
| Reading
| HaveRequest (request : Envelope)
| CheckedDuplicate (request : Envelope) (duplicate_worker : bool)
| LoopLeft
| Disconnected (worker_id : option string)
| Closed.

Record Connection := { phase : ConnPhase; session : option string }.

Record Server := {
  broker : TaskRpcBroker;
  active_workers : gset string;
  connections : gmap nat Connection;
}.

Definition set_connection (c : nat) (p : ConnPhase) (w : option string) (s : Server) : Server :=
  {| broker := broker s; active_workers := active_workers s;
     connections := <[c := {| phase := p; session := w |}]> (connections s) |}.
Definition set_active (a : gset string) (s : Server) : Server :=
  {| broker := broker s; active_workers := a; connections := connections s |}.
Definition set_broker (b : TaskRpcBroker) (s : Server) : Server :=
  {| broker := b; active_workers := active_workers s; connections := connections s |}.

(** [registering]: the id a first [hello] asks for. *)
Definition registering (e : Envelope) (w : option string) : option string :=
  match message e, w with
  | Hello worker_id, None => Some worker_id
  | _, _ => None
  end.

(** Under the [active_workers] lock: insert the id, remember whether it was there. *)
Definition register (c : nat) (e : Envelope) (w : option string) (s : Server) : Server :=
  match registering e w with
  | Some worker_id =>
      set_connection c (CheckedDuplicate e (bool_decide (worker_id ∈ active_workers s))) w
        (set_active ({[worker_id]} ∪ active_workers s) s)
  | None => set_connection c (CheckedDuplicate e false) w s
  end.

(** Under the broker lock: answer the request, unless the id was taken. *)
Definition dispatch (now_ms : Z) (c : nat) (e : Envelope) (duplicate : bool) (w : option string)
    (s : Server) : Envelope * option string * Server :=
  if duplicate
  then (error_response None InvalidRequest "TaskRPC worker id is already connected", w, s)
  else
    let '(r, w', b') := session_handle now_ms e w (broker s) in (r, w', set_broker b' s).

Definition leave (now_ms : Z) (c : nat) (w : option string) (s : Server) : Server :=
  let '(_, w', b') := session_disconnect now_ms w (broker s) in
  set_connection c (Disconnected w) w' (set_broker b' s).

Definition remove_worker (c : nat) (id : option string) (w : option string) (s : Server) : Server :=
  let s' := match id with
            | Some worker_id => set_active (active_workers s ∖ {[worker_id]}) s
            | None => s
            end in
  set_connection c Closed w s'.

Inductive server_step (s : Server) : Server -> Prop :=
| StepAccept c :
    connections s !! c = None -> server_step s (set_connection c Reading None s)
| StepReceive c e w :
    (* the frame reader returns validated envelopes only *)
    connections s !! c = Some {| phase := Reading; session := w |} -> Envelope_validate e = Ok () ->
    server_step s (set_connection c (HaveRequest e) w s)
| StepRegister c e w :
    connections s !! c = Some {| phase := HaveRequest e; session := w |} ->
    server_step s (register c e w s)
| StepDispatch c now e dup w r w' s' p :
    connections s !! c = Some {| phase := CheckedDuplicate e dup; session := w |} ->
    dispatch now c e dup w s = (r, w', s') ->
    (* the response is written, or writing fails and the loop is left *)
    (p = Reading \/ p = LoopLeft) ->
    server_step s (set_connection c p w' s')
| StepLeaveLoop c w :
    (* end of stream, an invalid frame, or shutdown *)
    connections s !! c = Some {| phase := Reading; session := w |} ->
    server_step s (set_connection c LoopLeft w s)
| StepDisconnect c now w :
    connections s !! c = Some {| phase := LoopLeft; session := w |} ->
    server_step s (leave now c w s)
| StepRemove c id w :
    connections s !! c = Some {| phase := Disconnected id; session := w |} ->
    server_step s (remove_worker c id w s).

(** ** Who holds a worker id *)

Definition holds (c : Connection) : option string :=
  match phase c with
  | Disconnected id => id
  | Closed => None
  | CheckedDuplicate e dup =>
      match session c with
      | Some w => Some w
      | None => if dup then None else registering e None
      end
  | _ => session c
  end.

(** The connected ids are exactly the ids some connection holds, and no two
    connections hold the same one. *)
Record SInv (s : Server) : Prop := {
  sinv_active : forall w, w ∈ active_workers s <->
    exists c k, connections s !! c = Some k /\ holds k = Some w;
  sinv_unique : forall c1 c2 k1 k2 w,
    connections s !! c1 = Some k1 -> connections s !! c2 = Some k2 ->
    holds k1 = Some w -> holds k2 = Some w -> c1 = c2;
  sinv_valid : forall c k e, connections s !! c = Some k ->
    (phase k = HaveRequest e \/ exists d, phase k = CheckedDuplicate e d) ->
    Envelope_validate e = Ok ();
}.

(** Replacing a connection by one that holds the same id. *)
Lemma SInv_same_holder s s' c k k' :
  SInv s -> connections s !! c = k -> connections s' = <[c := k']> (connections s) ->
  (default None (holds <$> k)) = holds k' -> active_workers s' = active_workers s ->
  (forall e, (phase k' = HaveRequest e \/ exists d, phase k' = CheckedDuplicate e d) ->
     Envelope_validate e = Ok ()) ->
  SInv s'.
Proof.
  intros [HA HU HV] Hk Hc Hh Ha Hv.
  assert (Hold : forall i k0 w, connections s' !! i = Some k0 -> holds k0 = Some w ->
    exists k1, connections s !! i = Some k1 /\ holds k1 = Some w).
  { intros i k0 w. rewrite Hc. intros [[<- <-]|[? ?]]%lookup_insert_Some Hw; [|by eauto].
    rewrite <- Hh in Hw. destruct k as [k|]; [|done]. simpl in Hw. eauto. }
  split.
  - intros w. rewrite Ha, HA. split.
    + intros (i & k0 & Hi & Hw). destruct (decide (i = c)) as [->|].
      * exists c, k'. rewrite Hc, lookup_insert_eq. split; [done|].
        rewrite <- Hh. simplify_eq. by rewrite Hi.
      * exists i, k0. by rewrite Hc, lookup_insert_ne.
    + intros (i & k0 & Hi & Hw). destruct (Hold i k0 w Hi Hw) as (k1 & ? & ?). eauto.
  - intros c1 c2 k1 k2 w H1 H2 W1 W2.
    destruct (Hold _ _ _ H1 W1) as (? & ? & ?), (Hold _ _ _ H2 W2) as (? & ? & ?). eauto.
  - intros i k0 e. rewrite Hc. intros [[<- <-]|[? ?]]%lookup_insert_Some He; eauto.
Qed.

(** Taking a free id. *)
Lemma SInv_acquire s c k k' w :
  SInv s -> connections s !! c = Some k -> holds k = None -> holds k' = Some w ->
  w ∉ active_workers s ->
  (forall e, (phase k' = HaveRequest e \/ exists d, phase k' = CheckedDuplicate e d) ->
     Envelope_validate e = Ok ()) ->
  SInv {| broker := broker s; active_workers := {[w]} ∪ active_workers s;
          connections := <[c := k']> (connections s) |}.
Proof.
  intros [HA HU HV] Hk Hh Hw Hfree Hv.
  split; simpl.
  - intros x. rewrite elem_of_union, elem_of_singleton, HA. split.
    + intros [->|(i & k0 & Hi & Hx)].
      * exists c, k'. by rewrite lookup_insert_eq.
      * exists i, k0. rewrite lookup_insert_ne; [done|]. intros <-. congruence.
    + intros (i & k0 & [[<- <-]|[? ?]]%lookup_insert_Some & Hx); [left; congruence|right; eauto].
  - intros c1 c2 k1 k2 x [[<- <-]|[? H1]]%lookup_insert_Some [[<- <-]|[? H2]]%lookup_insert_Some W1 W2;
      try done; [..|by eauto]; exfalso; apply Hfree, HA; simplify_eq; eauto.
  - intros i k0 e [[<- <-]|[? ?]]%lookup_insert_Some He; eauto.
Qed.

(** Giving an id back. *)
Lemma SInv_release s c k k' w :
  SInv s -> connections s !! c = Some k -> holds k = Some w -> holds k' = None ->
  (forall e, (phase k' = HaveRequest e \/ exists d, phase k' = CheckedDuplicate e d) ->
     Envelope_validate e = Ok ()) ->
  SInv {| broker := broker s; active_workers := active_workers s ∖ {[w]};
          connections := <[c := k']> (connections s) |}.
Proof.
  intros [HA HU HV] Hk Hh Hn Hv. split; simpl.
  - intros x. rewrite elem_of_difference, elem_of_singleton, HA. split.
    + intros [(i & k0 & Hi & Hx) Hne]. exists i, k0. rewrite lookup_insert_ne; [done|].
      intros <-. congruence.
    + intros (i & k0 & [[<- <-]|[Hne Hi]]%lookup_insert_Some & Hx); [congruence|]. split; [eauto|].
      intros ->. apply Hne. by eapply HU.
  - intros c1 c2 k1 k2 x [[<- <-]|[? H1]]%lookup_insert_Some [[<- <-]|[? H2]]%lookup_insert_Some W1 W2;
      try congruence. by eauto.
  - intros i k0 e [[<- <-]|[? ?]]%lookup_insert_Some He; eauto.
Qed.

Lemma session_handle_worker now e w b r w' b' :
  Envelope_validate e = Ok () -> session_handle now e w b = (r, w', b') ->
  w' = match w with Some x => Some x | None => registering e None end.
Proof.
  intros Hv. unfold session_handle, registering. destruct w as [x|].
  - destruct (worker_request_matches (message e) x); [destruct (broker_handle now e b)|]; naive_solver.
  - destruct (message e); try naive_solver. rewrite Hv. simpl.
    destruct (broker_handle now e b). naive_solver.
Qed.

Ltac no_request :=
  intros ? Hph; simpl in Hph; destruct Hph as [Hph|[? Hph]]; try discriminate Hph.

Lemma SInv_register s c e w :
  SInv s -> connections s !! c = Some {| phase := HaveRequest e; session := w |} ->
  SInv (register c e w s).
Proof.
  intros I Hk. pose proof (sinv_valid _ I c _ e Hk (or_introl eq_refl)) as Hv.
  unfold register. destruct (registering e w) as [x|] eqn:Hr.
  - assert (w = None) as -> by (unfold registering in Hr; destruct (message e), w; done).
    case_bool_decide as Ha.
    + eapply (SInv_same_holder s _ c); [done|exact Hk|reflexivity|reflexivity| |].
      * simpl. apply leibniz_equiv. set_solver.
      * no_request; by simplify_eq.
    + eapply (SInv_acquire s c _ _ x); try done; no_request; by simplify_eq.
  - eapply (SInv_same_holder s _ c); [done|exact Hk|reflexivity| |reflexivity|].
    + simpl. unfold holds. simpl. by destruct w.
    + no_request; by simplify_eq.
Qed.

Lemma SInv_dispatch s c now e dup w r w' s' p :
  SInv s -> connections s !! c = Some {| phase := CheckedDuplicate e dup; session := w |} ->
  dispatch now c e dup w s = (r, w', s') -> p = Reading \/ p = LoopLeft ->
  SInv (set_connection c p w' s').
Proof.
  intros I Hk Hd Hp. assert (Hv : Envelope_validate e = Ok ()).
  { apply (sinv_valid _ I c _ e Hk). right. by exists dup. }
  assert (Hs : connections s' = connections s /\ active_workers s' = active_workers s).
  { unfold dispatch in Hd. destruct dup; [by simplify_eq|].
    destruct (session_handle now e w (broker s)) as [[? ?] ?]. by simplify_eq. }
  destruct Hs as [Hsc Hsa].
  eapply (SInv_same_holder s _ c); [done|exact Hk|by simpl; rewrite Hsc| |done|].
  - unfold dispatch in Hd. unfold holds. simpl.
    destruct dup.
    + simplify_eq. destruct Hp as [->| ->]; by destruct w'.
    + destruct (session_handle now e w (broker s)) as [[? ?] ?] eqn:Hh. simplify_eq.
      apply session_handle_worker in Hh as ->; [|done]. by destruct Hp as [->| ->].
  - no_request; destruct Hp; congruence.
Qed.

Lemma SInv_step s s' : SInv s -> server_step s s' -> SInv s'.
Proof.
  intros I [c Hk|c e w Hk Hv|c e w Hk|c now e dup w r w' s1 p Hk Hd Hp|c w Hk|c now w Hk|c id w Hk].
  - eapply (SInv_same_holder s _ c); [done|exact Hk|reflexivity|reflexivity|done|no_request].
  - eapply (SInv_same_holder s _ c); [done|exact Hk|reflexivity|reflexivity|done|no_request; by simplify_eq].
  - by apply SInv_register.
  - by eapply SInv_dispatch.
  - eapply (SInv_same_holder s _ c); [done|exact Hk|reflexivity|reflexivity|done|no_request].
  - unfold leave. destruct (session_disconnect now w (broker s)) as [[? w'] b'].
    eapply (SInv_same_holder s _ c); [done|exact Hk|reflexivity|reflexivity|done|no_request].
  - unfold remove_worker. destruct id as [x|].
    + eapply (SInv_release s c _ _ x); try done; no_request.
    + eapply (SInv_same_holder s _ c); [done|exact Hk|reflexivity|reflexivity|done|no_request].
Qed.

Definition Server_new (b : TaskRpcBroker) : Server :=
  {| broker := b; active_workers := ∅; connections := ∅ |}.

(** A worker id belongs to one connection at a time. However the connection
    tasks interleave, two connections never act for the same worker id; and an
    id is marked as connected exactly while some connection holds it, so a
    worker whose connection ended can register again. *)
Theorem worker_identity_unique b s :
  rtc server_step (Server_new b) s ->
  (forall c1 c2 k1 k2 w, connections s !! c1 = Some k1 -> connections s !! c2 = Some k2 ->
     holds k1 = Some w -> holds k2 = Some w -> c1 = c2) /\
  (forall w, w ∈ active_workers s <->
     exists c k, connections s !! c = Some k /\ holds k = Some w).
Proof.
  intros Hr.
  assert (I : forall a z, rtc server_step a z -> SInv a -> SInv z)
    by (induction 1; eauto using SInv_step).
  apply I in Hr as [HA HU _]; [by split|].
  split; simpl; intros *; rewrite ?lookup_empty; try done.
  split; [set_solver|]. intros (c & k & Hc & _). by rewrite lookup_empty in Hc.
Qed.

End Server.

(** Two connections, one of them registering a worker. *)
Lemma worker_identity_unique_witness :
  let serde := {| envelope_to_vec := fun _ : @Envelope sample_json => None;
                  envelope_from_slice := fun _ => None |} in
  let text := {| rpc_error_text := fun _ => EmptyString; scheduler_error_text := fun _ => EmptyString |} in
  let b := {| scheduler := {| capacity := 1; queue := []; tasks := ∅; claims := ∅; generations := ∅ |};
              outcomes := ∅ |} in
  exists s, rtc (@server_step sample_json serde text) (Server_new b) s /\ "w"%string ∈ active_workers s.
Proof.
  intros serde text b.
  set (e := Envelope_new (Hello "w") : @Envelope sample_json).
  set (s1 := set_connection 0 Reading None (Server_new b)).
  set (s2 := set_connection 1 Reading None s1).
  set (s3 := set_connection 1 (HaveRequest e) None s2).
  set (s4 := register 1 e None s3).
  assert (Hr : rtc (@server_step sample_json serde text) (Server_new b) s4).
  { eapply rtc_l; [by apply (StepAccept _ 0)|]. eapply rtc_l; [by apply (StepAccept s1 1)|].
    eapply rtc_l; [by apply (StepReceive s2 1 e None)|]. eapply rtc_l; [by apply (StepRegister s3 1 e None)|].
    apply rtc_refl. }
  exists s4. split; [exact Hr|].
  destruct (worker_identity_unique b s4 Hr) as [_ Ha]. apply Ha.
  exists 1%nat, {| phase := CheckedDuplicate e false; session := None |}.
  split; vm_compute; reflexivity.
Defined.
