(* ===== verification/TaskWorker.v ===== *)
(** * TaskRPC worker client ([TaskRpcWorker], [failed_outcome], task_rpc.rs)

    The worker side of the protocol: request ids, request/response matching and
    the bounded outcome of a failed handler. The socket is a parameter of the
    client methods ([Exchange]); [wire_exchange] is the socket of a connection
    served by [TaskRpcSession::handle], frame by frame. *)

From Stdlib Require Import ZArith Lia Ascii String.
From stdpp Require Import base tactics list gmap strings.
From S2P Require Import Prelude Bytes TaskModel Lease Scheduler TaskRpc Broker.
Open Scope Z_scope.

Section Worker.
Context {SJ : SerdeJson} {ES : EnvelopeSerde} {ET : ErrorText}.

Inductive TaskRpcWorkerError :=
| WorkerProtocol (e : TaskRpcError)
| Rejected (code : ErrorCode) (text : string)
| UnexpectedResponse (req : Z)
| RequestIdExhausted.

(** Send one envelope and read the next one: a stream over some peer state. *)
Definition Exchange (P : Type) : Type := Envelope -> M P TaskRpcError Envelope.

Section Client.
Context {P : Type} (exchange : Exchange P).

Record TaskRpcWorker := { worker_id : string; peer : P; next_request_id : Z }.

Abbreviation WM A := (M TaskRpcWorker TaskRpcWorkerError A).

(** [TaskRpcWorker::request_id] *)
Definition next_id : WM Z := fun w =>
  match checked_add u64_max (next_request_id w) 1 with
  | Some n => (Ok (next_request_id w),
               {| worker_id := worker_id w; peer := peer w; next_request_id := n |})
  | None => (Err RequestIdExhausted, w)
  end.

(** [TaskRpcWorker::request] *)
Definition request (m : Message) : WM Message := fun w =>
  let '(r, p') := exchange (Envelope_new m) (peer w) in
  let w' := {| worker_id := worker_id w; peer := p'; next_request_id := next_request_id w |} in
  match r with
  | Err e => (Err (WorkerProtocol e), w')
  | Ok response =>
      match message response with
      | MsgError _ code text => (Err (Rejected code text), w')
      | m' => (Ok m', w')
      end
  end.

Definition connect (id : string) (p : P) : result TaskRpcWorkerError TaskRpcWorker :=
  match request (Hello id) {| worker_id := id; peer := p; next_request_id := 1 |} with
  | (Ok Ready, w) => Ok w
  | (Ok _, _) => Err (UnexpectedResponse 0)
  | (Err e, _) => Err e
  end.

Definition worker_claim (lease_ms limit : Z) : WM (list TaskLease) :=
  req ← next_id;
  w ← get_state;
  m ← request (Claim req (worker_id w) lease_ms limit);
  match m with
  | Claimed response_id leases =>
      if response_id =? req then mret leases else throw (UnexpectedResponse req)
  | _ => throw (UnexpectedResponse req)
  end.

Definition worker_renew (lease : LeaseToken) (lease_ms : Z) : WM (option TaskLease) :=
  req ← next_id;
  m ← request (Renew req lease lease_ms);
  match m with
  | Renewed response_id l =>
      if response_id =? req then mret l else throw (UnexpectedResponse req)
  | _ => throw (UnexpectedResponse req)
  end.

Definition worker_release (lease : LeaseToken) : WM bool :=
  req ← next_id;
  m ← request (Release req lease);
  match m with
  | Released response_id released =>
      if response_id =? req then mret released else throw (UnexpectedResponse req)
  | _ => throw (UnexpectedResponse req)
  end.

Definition worker_commit (lease : LeaseToken) (outcome : TaskOutcome) : WM bool :=
  req ← next_id;
  m ← request (Commit req lease outcome);
  match m with
  | Committed response_id accepted =>
      if response_id =? req then mret accepted else throw (UnexpectedResponse req)
  | _ => throw (UnexpectedResponse req)
  end.

End Client.

(** A connection as [serve_task_rpc_connection] has it: the session and the broker
    it shares, while the connection is open. *)
Record Link := { link_open : bool; link_session : option string; link_broker : TaskRpcBroker }.

(** Leaving the loop: the session is disconnected and the stream closed. *)
Definition hang_up (close_ms : Z) (l : Link) : Link :=
  let '(_, session', b') := session_disconnect close_ms (link_session l) (link_broker l) in
  {| link_open := false; link_session := session'; link_broker := b' |}.

(** The stream to a served connection. The request is written as a frame, read
    and handled by the session, and the response written and read back. A
    request that cannot be read and a response that cannot be written end the
    connection; on a closed one every exchange fails. *)
Definition wire_exchange (now_ms close_ms : Z) : Exchange Link := fun e l =>
  match write_message e with
  | Err er => (Err er, l)
  | Ok bytes =>
      if negb (link_open l) then (Err (RpcIo UnexpectedEof), l)
      else
        match read_message_opt bytes with
        | (Ok (Some e'), _) =>
            let '(response, session', b') := session_handle now_ms e' (link_session l) (link_broker l) in
            let l' := {| link_open := true; link_session := session'; link_broker := b' |} in
            match write_message response with
            | Ok out => ((read_message out).1, l')
            | Err _ => (Err (RpcIo UnexpectedEof), hang_up close_ms l')
            end
        | _ => (Err (RpcIo UnexpectedEof), hang_up close_ms l)
        end
  end.

Definition failed_outcome (error : string) (retryable : bool) : TaskOutcome :=
  OutcomeFailed
    (if MAX_ERROR_BYTES <? len error
     then str_take (boundary_at_most error (Z.to_nat MAX_ERROR_BYTES)) error else error)
    retryable.

Definition validate_module_lease (request_timeout_ms lease_ms : Z) : bool :=
  match checked_add u64_max request_timeout_ms 1000 with
  | Some minimum => (minimum <=? lease_ms) && (lease_ms <=? MAX_RPC_LEASE_MS)
  | None => false
  end.

End Worker.

Section WorkerThms.
Context {SJ : SerdeJson} {ES : EnvelopeSerde} {EL : EnvelopeSerdeLaws ES} {ET : ErrorText}.

Lemma read_back e out : rereads e -> write_message e = Ok out -> read_message out = (Ok e, EmptyString).
Proof.
  intros HR H. unfold read_message; unfold_monad.
  pose proof (frame_read_back e out EmptyString HR H) as F. rewrite append_nil_r in F. by rewrite F.
Qed.

(** What a commit arrives as, when it can be read. *)
Lemma commit_decoded req lease outcome body e :
  encode_message (Envelope_new (Commit req lease outcome)) = Ok body -> decode_message body = Ok e ->
  exists outcome', outcome_read outcome outcome' /\ e = Envelope_new (Commit req lease outcome')
    /\ Envelope_validate e = Ok ().
Proof.
  unfold encode_message, decode_message. unfold_monad. intros He Hd.
  destruct (Envelope_validate (Envelope_new _)) as [[]|]; [|done].
  destruct (envelope_to_vec _) as [bytes|] eqn:Hv; [|done]. cbn in He. destruct (_ <? _); [done|]. injection He as ->.
  destruct (_ <? _); [done|]. destruct (envelope_from_slice body) as [e'|] eqn:Hf; [|done]. cbn in Hd.
  destruct (Envelope_validate e') as [[]|] eqn:He'; [|done]. injection Hd as ->.
  destruct (envelope_commit _ _ _ _ _ _ Hv Hf) as (outcome' & Ho & ->). by exists outcome'.
Qed.

(** The broker answers a commit with its decision or with an error. *)
Definition decision (req : Z) (m : Message) : result TaskRpcWorkerError bool :=
  match m with
  | Committed _ accepted => Ok accepted
  | MsgError _ code text => Err (Rejected code text)
  | _ => Err (UnexpectedResponse req)
  end.

Lemma broker_commit_answers req lease outcome now b :
  let m := (broker_commit req lease outcome now b).1 in
  (exists accepted, m = Committed req accepted) \/ exists code text, m = MsgError (Some req) code text.
Proof.
  cbv zeta. unfold broker_commit. destruct (claim_from_token b lease); [|by left; eexists].
  destruct (on_scheduler _ b) as [[task|[]] b']; cbn [fst]; try (by left; eexists);
    right; unfold scheduler_error, error_message; by eexists _, _.
Qed.

Lemma next_id_Ok {P} (w : @TaskRpcWorker P) :
  0 <= next_request_id w < u64_max ->
  next_id w = (Ok (next_request_id w),
    {| worker_id := worker_id w; peer := peer w; next_request_id := next_request_id w + 1 |}).
Proof.
  intros H. unfold next_id. by rewrite (proj2 (checked_add_Some _ _ _ (next_request_id w + 1))) by lia.
Qed.

(** C26. A worker learns what the broker decided. When the worker of an open,
    registered connection commits an outcome under a lease of its own, one of
    three things happens: the request does not fit a frame, and nothing was
    sent; the server cannot read it, and the broker only sees the worker
    disconnect; or the broker decides once, on the outcome its reader made of the
    JSON text, and [commit] returns exactly that decision or the broker's
    rejection - unless the answer cannot be written, which ends the connection. *)
Theorem worker_commit_end_to_end now close lease outcome w owner b :
  peer w = {| link_open := true; link_session := Some owner; link_broker := b |} ->
  lt_lease_owner lease = owner -> 0 <= next_request_id w < u64_max ->
  let req := next_request_id w in
  let sent := Envelope_new (Commit req lease outcome) in
  let '(r, w') := worker_commit (wire_exchange now close) lease outcome w in
  worker_id w' = worker_id w /\ next_request_id w' = req + 1
  /\ ((exists er, write_message sent = Err er /\ r = Err (WorkerProtocol er) /\ peer w' = peer w)
      \/ (exists body er, encode_message sent = Ok body /\ decode_message body = Err er
           /\ r = Err (WorkerProtocol (RpcIo UnexpectedEof)) /\ peer w' = hang_up close (peer w))
      \/ exists outcome' m b', outcome_read outcome outcome' /\ broker_commit req lease outcome' now b = (m, b')
           /\ let l := {| link_open := true; link_session := Some owner; link_broker := b' |} in
              match write_message (Envelope_new m) with
              | Ok _ => r = decision req m /\ peer w' = l
              | Err _ => r = Err (WorkerProtocol (RpcIo UnexpectedEof)) /\ peer w' = hang_up close l
              end).
Proof.
  intros Hp Hl Hn. cbv zeta. unfold worker_commit; unfold_monad. rewrite next_id_Ok by done.
  unfold request, wire_exchange. cbn [peer worker_id next_request_id]. rewrite Hp. cbn [link_open link_session link_broker negb].
  destruct (write_message (Envelope_new (Commit _ _ _))) as [bytes|er] eqn:Hw; [|by split_and!; [..|left; eauto]].
  destruct (frame_read _ _ Hw) as (body & He & Hread). specialize (Hread EmptyString). rewrite append_nil_r in Hread.
  rewrite Hread. destruct (decode_message body) as [e|er] eqn:Hd; cbn [mbind result_bind];
    [|split_and!; [done..|right; left; by exists body, er]].
  destruct (commit_decoded _ _ _ _ _ He Hd) as (outcome' & Ho & -> & Hv). unfold session_handle. cbn [message Envelope_new].
  unfold worker_request_matches. rewrite Hl, String.eqb_refl. unfold broker_handle. rewrite Hv. cbn [message Envelope_new].
  pose proof (broker_commit_answers (next_request_id w) lease outcome' now b) as Ha.
  destruct (broker_commit (next_request_id w) lease outcome' now b) as [m b'] eqn:Hb. cbn [fst] in Ha.
  assert (rereads (Envelope_new m)) as HR.
  { apply envelope_rereads. by destruct Ha as [[? ->]|(? & ? & ->)]. }
  destruct (write_message (Envelope_new m)) as [out|er] eqn:Hm.
  - rewrite (read_back _ _ HR Hm). cbn [fst].
    destruct Ha as [[accepted ->]|(code & text & ->)]; cbn [message Envelope_new decision]; rewrite ?Z.eqb_refl; (split_and!; [done..|]);
      right; right; exists outcome'; eexists _, b'; split_and!; try done; by rewrite Hm.
  - split_and!; [done..|]. right; right. exists outcome', m, b'. split_and!; try done. by rewrite Hm.
Qed.

End WorkerThms.

(** ** Bounded error text *)

(** A failed handler always yields an outcome the protocol accepts: the error
    text is cut to the longest prefix of at most 4096 bytes that ends on a
    character boundary, and is unchanged when it already fits. *)
Theorem failed_outcome_valid {SJ : SerdeJson} error retryable :
  TaskOutcome_validate (failed_outcome error retryable) = Ok () /\
  exists n, failed_outcome error retryable = OutcomeFailed (str_take n error) retryable /\
    is_char_boundary error n = true /\
    (forall k, Z.of_nat k <= MAX_ERROR_BYTES -> is_char_boundary error k = true ->
       (Nat.min k (String.length error) <= n)%nat).
Proof.
  unfold failed_outcome, TaskOutcome_validate, validate_error.
  assert (0 <= MAX_ERROR_BYTES) by done.
  destruct (Z.ltb_spec MAX_ERROR_BYTES (len error)) as [Hlt|Hge].
  - destruct (boundary_at_most_spec error (Z.to_nat MAX_ERROR_BYTES)) as (H1 & H2 & H3).
    split.
    + rewrite (proj2 (Z.ltb_ge _ _)); [done|]. unfold len. rewrite str_take_length. lia.
    + eexists. split; [done|]. split; [done|]. intros k Hk Hkb.
      pose proof (H3 k ltac:(lia) Hkb). lia.
  - split; [by rewrite (proj2 (Z.ltb_ge _ _))|].
    exists (String.length error). rewrite str_take_all by done. split; [done|]. split; [|lia].
    unfold is_char_boundary.
    assert (str_drop (String.length error) error = EmptyString) as ->.
    { rewrite <- (append_nil_r error) at 2. apply str_drop_append. }
    apply Nat.eqb_refl.
Qed.

(** ** Example: one commit over the wire *)

(** A text form of commits and their answers: the number stdpp's [encode] gives
    their fields, in binary digits; a result travels as its JSON text. *)
Fixpoint bits (p : positive) : string :=
  match p with
  | xH => EmptyString
  | xO p => String "0" (bits p)
  | xI p => String "1" (bits p)
  end.
Fixpoint unbits (s : string) : option positive :=
  match s with
  | EmptyString => Some xH
  | String c s => p ← unbits s; if Ascii.eqb c "0" then Some (xO p) else if Ascii.eqb c "1" then Some (xI p) else None
  end.
Lemma unbits_bits p : unbits (bits p) = Some p.
Proof. induction p as [p IH|p IH|]; cbn; [by rewrite IH..|done]. Qed.

Abbreviation wire_outcome := (string + (option (string * bool) + bool))%type (only parsing).
Definition outcome_to_wire (o : @TaskOutcome sample_json) : wire_outcome :=
  match o with
  | OutcomeCompleted r => inl (String "j" r)
  | OutcomeSuspended => inr (inl None)
  | OutcomeFailed error retryable => inr (inl (Some (error, retryable)))
  | OutcomeCanceled => inr (inr true)
  | OutcomeTimedOut => inr (inr false)
  end.
Definition outcome_of_wire (o : wire_outcome) : option (@TaskOutcome sample_json) :=
  match o with
  | inl text => OutcomeCompleted <$> @json_from_str sample_json text
  | inr (inl None) => Some OutcomeSuspended
  | inr (inl (Some (error, retryable))) => Some (OutcomeFailed error retryable)
  | inr (inr true) => Some OutcomeCanceled
  | inr (inr false) => Some OutcomeTimedOut
  end.

Abbreviation wire_message := (Z * (string * Z * string) * wire_outcome + Z * bool)%type (only parsing).
Definition commit_serde : @EnvelopeSerde sample_json := {|
  envelope_to_vec e :=
    if negb (version e =? 1) then None
    else
      match message e with
      | Commit req lease outcome =>
          Some (bits (encode (inl (req, (lt_task_id lease, lt_generation lease, lt_lease_owner lease),
                                   outcome_to_wire outcome) : wire_message)))
      | Committed req accepted => Some (bits (encode (inr (req, accepted) : wire_message)))
      | _ => None
      end;
  envelope_from_slice s :=
    p ← unbits s;
    m ← (decode p : option wire_message);
    match m with
    | inl (req, (id, generation, owner), o) =>
        outcome ← outcome_of_wire o;
        Some (Envelope_new (Commit req
          {| lt_task_id := id; lt_generation := generation; lt_lease_owner := owner |} outcome))
    | inr (req, accepted) => Some (Envelope_new (Committed req accepted))
    end;
|}.

Lemma commit_serde_laws : @EnvelopeSerdeLaws sample_json commit_serde.
Proof.
  assert (forall req lease outcome, @envelope_from_slice _ commit_serde
    (bits (encode (inl (req, (lt_task_id lease, lt_generation lease, lt_lease_owner lease),
      outcome_to_wire outcome) : wire_message))) = Some (Envelope_new (Commit req lease outcome))) as Hc.
  { intros req [id g o] outcome. cbn [envelope_from_slice commit_serde]. rewrite unbits_bits. cbn [mbind option_bind].
    rewrite decode_encode. by destruct outcome. }
  assert (forall req accepted, @envelope_from_slice _ commit_serde (bits (encode (inr (req, accepted) : wire_message)))
    = Some (Envelope_new (Committed req accepted))) as Ha.
  { intros req accepted. cbn [envelope_from_slice commit_serde]. rewrite unbits_bits. cbn [mbind option_bind].
    by rewrite decode_encode. }
  split.
  - intros [v m] Hv bytes. cbn [envelope_to_vec commit_serde version message].
    destruct (Z.eqb_spec v 1) as [->|]; [|done]. destruct m; try done; intros [= <-]; [by apply Hc|by apply Ha].
  - intros v req lease outcome bytes e'. cbn [envelope_to_vec commit_serde version message].
    destruct (Z.eqb_spec v 1) as [->|]; [|done]. intros Hb Hf. apply (inj Some) in Hb. rewrite <- Hb in Hf.
    pose proof (eq_trans (eq_sym Hf) (Hc req lease outcome)) as [= ->].
    exists outcome. split; [|done]. destruct outcome; try done. by eexists _, _.
Qed.

(** A broker whose task 7 worker [w1] has claimed at time 10 for 50 ms. *)
Definition wire_text : ErrorText := {| rpc_error_text := fun _ => EmptyString; scheduler_error_text := fun _ => EmptyString |}.
Definition claimed_at_10 : @TaskRpcBroker sample_json :=
  (on_scheduler (enqueue (sample_task 7 None);; claim_with_lease 10 "w1" 50)
    {| scheduler := {| capacity := 2; queue := []; tasks := ∅; claims := ∅; generations := ∅ |}; outcomes := ∅ |}).2.
Definition claim_token : LeaseToken :=
  {| lt_task_id := WireTaskId_new 7; lt_generation := 1; lt_lease_owner := "w1" |}.
Definition claim_holder : TaskRpcWorker := {|
  worker_id := "w1"; next_request_id := 4;
  peer := {| link_open := true; link_session := Some "w1"%string; link_broker := claimed_at_10 |} |}.
Definition claim_result : @TaskOutcome sample_json := @OutcomeCompleted sample_json "done"%string.
Definition wire_commit := @worker_commit sample_json Link
  (@wire_exchange sample_json commit_serde wire_text 20 30) claim_token claim_result claim_holder.

(** The commit is accepted, and its result recorded. *)
Lemma worker_commit_end_to_end_witness :
  wire_commit.1 = Ok true /\ broker_outcome (link_broker (peer wire_commit.2)) 7 = Some claim_result.
Proof.
  pose proof (@worker_commit_end_to_end sample_json commit_serde commit_serde_laws wire_text 20 30 claim_token
    claim_result claim_holder "w1" claimed_at_10 eq_refl eq_refl ltac:(by vm_compute)) as H. cbv zeta in H.
  change (worker_commit _ _ _ claim_holder) with wire_commit in H.
  destruct wire_commit as [r w'] eqn:E. cbn [fst snd]. destruct H as (_ & _ & [H|[H|H]]).
  - destruct H as (er & Hw & _). vm_compute in Hw. discriminate.
  - destruct H as (body & er & He & Hd & _). vm_compute in He. injection He as <-. vm_compute in Hd. discriminate.
  - destruct H as (o' & m & b' & (text & r' & Ht & Hr & ->) & Hb & H). cbn in Ht. injection Ht as <-. cbn in Hr. injection Hr as <-.
    change (broker_commit _ _ _ _ _) with (@broker_commit sample_json wire_text 4 claim_token claim_result 20 claimed_at_10) in Hb.
    pose proof (f_equal fst Hb) as Hm. vm_compute in Hm. subst m. pose proof (f_equal snd Hb) as Hs. cbn [snd] in Hs.
    destruct (write_message _) eqn:Hw; [|vm_compute in Hw; discriminate]. destruct H as [-> ->].
    split; [reflexivity|]. cbn [link_broker]. rewrite <- Hs. vm_compute. reflexivity.
Defined.
