(* ===== verification/Cron.v ===== *)
(** * Cron expressions and the UTC calendar ([crates/tysel-runtime/src/task_ingress.rs])

    Parsing and matching of five-field cron expressions, and the conversion of
    day numbers to calendar dates they rest on. *)

From Stdlib Require Import ZArith Lia Ascii String.
From stdpp Require Import base tactics list gmap strings.
From S2P Require Import Prelude Bytes.
Open Scope Z_scope.

Definition MINUTE_MS : Z := 60000.
Definition MAX_CRON_CATCH_UP_MINUTES : Z := 24 * 60.

(** [TaskIngressError::InvalidCron(String)], the only error of this file. *)
Inductive CronError := InvalidCron (text : string).

Record Field := { minimum : Z; allowed : list bool; wildcard : bool }.

Record CronExpression := {
  cron_source : string;
  minute : Field;
  hour : Field;
  day : Field;
  month : Field;
  weekday : Field;
}.

(** [str::parse::<u8>] with the range check of [parse_number]. *)
Definition parse_number (source : string) (min max : Z) : result CronError Z :=
  match from_str_radix 10 u8_max source with
  | None => Err (InvalidCron ("invalid cron value '" ++ source ++ "'"))
  | Some value =>
      if in_range min max value then Ok value
      else Err (InvalidCron ("cron value " ++ dec_string value ++ " is outside "
                             ++ dec_string min ++ "..=" ++ dec_string max))
  end.

(** [let (range, step) = match component.split_once('/')] *)
Definition parse_step (component : string) (min max : Z) : result CronError (string * Z) :=
  match split_once "/"%char component with
  | Some (range, step) =>
      step ← parse_number step min max;
      if step =? 0 then Err (InvalidCron "cron step must be positive") else Ok (range, step)
  | None => Ok (component, 1)
  end.

(** [let (start, end) = if range == STAR ..] *)
Definition parse_range (range : string) (min max : Z) : result CronError (Z * Z) :=
  if String.eqb range "*" then Ok (min, max)
  else match split_once "-"%char range with
       | Some (start, last) =>
           start ← parse_number start min max;
           last ← parse_number last min max;
           if last <? start then Err (InvalidCron "cron range is reversed") else Ok (start, last)
       | None => value ← parse_number range min max; Ok (value, value)
       end.

(** The start, end and step of one comma-separated component. *)
Definition parse_component (component : string) (min max : Z) : result CronError (Z * Z * Z) :=
  range_step ← parse_step component min max;
  bounds ← parse_range range_step.1 min max;
  Ok (bounds.1, bounds.2, range_step.2).

(** [for value in (start..=end).step_by(step) { allowed[value] = true; }] *)
Fixpoint mark (count : nat) (value last step : Z) (l : list bool) : list bool :=
  match count with
  | O => l
  | S count' =>
      if last <? value then l
      else mark count' (value + step) last step (<[Z.to_nat value := true]> l)
  end.

Fixpoint mark_components (components : list string) (min max : Z) (l : list bool)
    : result CronError (list bool) :=
  match components with
  | [] => Ok l
  | component :: rest =>
      b ← parse_component component min max;
      let '(start, last, step) := b in
      mark_components rest min max (mark (Z.to_nat (last - start + 1)) start last step l)
  end.

(** [Field::parse] *)
Definition Field_parse (source : string) (min max : Z) : result CronError Field :=
  if str_is_empty source then Err (InvalidCron "empty cron field")
  else
    l ← mark_components (str_split ","%char source) min max
          (replicate (Z.to_nat (max + 1)) false);
    if negb (existsb (fun b => b) l) then Err (InvalidCron "cron field selects no values")
    else Ok {| minimum := min; allowed := l; wildcard := starts_with "*" source |}.

(** [Field::contains] *)
Definition field_contains (f : Field) (value : Z) : bool :=
  (minimum f <=? value) && default false (allowed f !! Z.to_nat value).

(** [str::split_whitespace]: the non-empty pieces between white space. *)
Fixpoint split_ws (fuel : nat) (piece s : string) : list string :=
  let flush := if str_is_empty piece then [] else [piece] in
  match fuel, s with
  | S fuel', String c s' =>
      match ws_prefix s with
      | O => split_ws fuel' (append piece (String c EmptyString)) s'
      | n => flush ++ split_ws fuel' EmptyString (str_drop n s)
      end
  | _, _ => flush
  end.
Definition split_whitespace (s : string) : list string := split_ws (String.length s) EmptyString s.

(** [CronExpression::parse] *)
Definition Cron_parse (source : string) : result CronError CronExpression :=
  if 128 <? len source then Err (InvalidCron "cron expression is too long")
  else
    match split_whitespace source with
    | [f0; f1; f2; f3; f4] =>
        minute ← Field_parse f0 0 59;
        hour ← Field_parse f1 0 23;
        day ← Field_parse f2 1 31;
        month ← Field_parse f3 1 12;
        weekday ← Field_parse f4 0 7;
        Ok {| cron_source := source; minute := minute; hour := hour; day := day; month := month;
              weekday := weekday |}
    | _ => Err (InvalidCron "cron expression must contain five fields")
    end.

(** [as u8] and [as i32] of an [i64]. *)
Definition as_u8 (z : Z) : Z := z mod 256.
Definition as_i32 (z : Z) : Z := (z + 2 ^ 31) mod 2 ^ 32 - 2 ^ 31.

(** [civil_from_days]: Rust's [/] truncates toward zero. *)
Definition civil_from_days (days : Z) : Z * Z * Z :=
  let z := days + 719468 in
  let era := Z.quot (if 0 <=? z then z else z - 146096) 146097 in
  let day_of_era := z - era * 146097 in
  let year_of_era :=
    Z.quot (day_of_era - Z.quot day_of_era 1460 + Z.quot day_of_era 36524
            - Z.quot day_of_era 146096) 365 in
  let year := year_of_era + era * 400 in
  let day_of_year :=
    day_of_era - (365 * year_of_era + Z.quot year_of_era 4 - Z.quot year_of_era 100) in
  let month_prime := Z.quot (5 * day_of_year + 2) 153 in
  let day := day_of_year - Z.quot (153 * month_prime + 2) 5 + 1 in
  let month := month_prime + (if month_prime <? 10 then 3 else -9) in
  let year := year + (if month <=? 2 then 1 else 0) in
  (as_i32 year, as_u8 month, as_u8 day).

(** [CronExpression::matches_unix_ms] *)
Definition matches_unix_ms (c : CronExpression) (unix_ms : Z) : bool :=
  let minutes := unix_ms / MINUTE_MS in
  let days := minutes / (24 * 60) in
  let minute_of_day := minutes mod (24 * 60) in
  let h := as_u8 (minute_of_day / 60) in
  let m := as_u8 (minute_of_day mod 60) in
  let '(_, mon, d) := civil_from_days days in
  let wd := as_u8 ((days + 4) mod 7) in
  let day_match := field_contains (day c) d in
  let weekday_match :=
    field_contains (weekday c) wd || ((wd =? 0) && field_contains (weekday c) 7) in
  let calendar_day_match :=
    if wildcard (day c) || wildcard (weekday c) then day_match && weekday_match
    else day_match || weekday_match in
  field_contains (minute c) m && field_contains (hour c) h && field_contains (month c) mon
  && calendar_day_match.

Example cron_ex :
  match Cron_parse "*/15 9-17 * * 1-5" with
  | Ok c => matches_unix_ms c 1705309200000 (* 2024-01-15 09:00, a Monday *)
            && negb (matches_unix_ms c 1705222800000) (* the Sunday before *)
  | Err _ => false
  end = true.
Proof. vm_compute. reflexivity. Qed.

(** ** The calendar, from its definition *)

Definition leap_year (y : Z) : bool :=
  (y mod 4 =? 0) && (negb (y mod 100 =? 0) || (y mod 400 =? 0)).

Definition days_in_month (y m : Z) : Z :=
  if m =? 2 then (if leap_year y then 29 else 28)
  else if (m =? 4) || (m =? 6) || (m =? 9) || (m =? 11) then 30 else 31.

Definition next_date (d : Z * Z * Z) : Z * Z * Z :=
  let '(y, m, dd) := d in
  if dd <? days_in_month y m then (y, m, dd + 1)
  else if m <? 12 then (y, m + 1, 1) else (y + 1, 1, 1).

(** The conversion without the narrowing casts. *)
Definition civil (days : Z) : Z * Z * Z :=
  let z := days + 719468 in
  let era := z / 146097 in
  let doe := z mod 146097 in
  let yoe := (doe - doe / 1460 + doe / 36524 - doe / 146096) / 365 in
  let doy := doe - (365 * yoe + yoe / 4 - yoe / 100) in
  let mp := (5 * doy + 2) / 153 in
  let d := doy - (153 * mp + 2) / 5 + 1 in
  let m := mp + (if mp <? 10 then 3 else -9) in
  (yoe + era * 400 + (if m <=? 2 then 1 else 0), m, d).

(** Years that start in March: the day number of the first of March of year [y],
    the length of that year, and the date [doy] days after. *)
Definition ystart (y : Z) : Z := 365 * y + y / 4 - y / 100 + y / 400.
Definition ylen (y : Z) : Z := ystart (y + 1) - ystart y.
Definition date_of (y doy : Z) : Z * Z * Z :=
  let mp := (5 * doy + 2) / 153 in
  let m := mp + (if mp <? 10 then 3 else -9) in
  (y + (if m <=? 2 then 1 else 0), m, doy - (153 * mp + 2) / 5 + 1).

Ltac by_divisions := Z.to_euclidean_division_equations; lia.

Lemma ylen_leap y : ylen y = if leap_year (y + 1) then 366 else 365.
Proof.
  unfold ylen, ystart, leap_year.
  destruct (Z.eqb_spec ((y + 1) mod 4) 0), (Z.eqb_spec ((y + 1) mod 100) 0),
    (Z.eqb_spec ((y + 1) mod 400) 0); simpl; by_divisions.
Qed.

Lemma year_of_era_bounds doe :
  0 <= doe < 146097 ->
  let yoe := (doe - doe / 1460 + doe / 36524 - doe / 146096) / 365 in
  0 <= yoe < 400 /\ ystart yoe <= doe < ystart (yoe + 1).
Proof. intros H. cbv zeta. unfold ystart. split; [|split]; by_divisions. Qed.

(** [civil] is the date [doy] days into the March year the day falls in. *)
Lemma civil_date_of days :
  exists y doy, 0 <= doy < ylen y /\ days + 719468 = ystart y + doy /\ civil days = date_of y doy.
Proof.
  set (z := days + 719468). pose proof (Z.div_mod z 146097 ltac:(lia)) as Hz.
  pose proof (Z.mod_pos_bound z 146097 ltac:(lia)) as Hm.
  destruct (year_of_era_bounds (z mod 146097) Hm) as [Hy Hb].
  set (yoe := (z mod 146097 - z mod 146097 / 1460 + z mod 146097 / 36524
               - z mod 146097 / 146096) / 365) in *.
  exists (yoe + z / 146097 * 400), (z mod 146097 - (365 * yoe + yoe / 4 - yoe / 100)).
  assert (Hs : forall k, ystart (k + z / 146097 * 400) = ystart k + z / 146097 * 146097).
  { intros k. unfold ystart.
    replace ((k + z / 146097 * 400) / 4) with (k / 4 + z / 146097 * 100) by by_divisions.
    replace ((k + z / 146097 * 400) / 100) with (k / 100 + z / 146097 * 4) by by_divisions.
    rewrite Z.div_add by lia. lia. }
  assert (Hyl : ystart yoe = 365 * yoe + yoe / 4 - yoe / 100).
  { unfold ystart. rewrite (Z.div_small yoe 400) by lia. lia. }
  split_and!.
  - lia.
  - unfold ylen. replace (yoe + z / 146097 * 400 + 1) with (yoe + 1 + z / 146097 * 400) by lia.
    rewrite !Hs. lia.
  - rewrite Hs. lia.
  - unfold civil, date_of. fold z. fold yoe. f_equal; f_equal; lia.
Qed.

Lemma march_year_unique y doy y' doy' :
  0 <= doy < ylen y -> 0 <= doy' < ylen y' -> ystart y + doy = ystart y' + doy' ->
  y = y' /\ doy = doy'.
Proof.
  unfold ylen. intros H H' He.
  assert (forall a b, a < b -> ystart (a + 1) <= ystart b) as Hmono
    by (intros; unfold ystart; by_divisions).
  destruct (Z.lt_trichotomy y y') as [Hlt|[->|Hlt]]; [|lia|].
  - pose proof (Hmono _ _ Hlt). lia.
  - pose proof (Hmono _ _ Hlt). lia.
Qed.

(** The part of a date the March year leaves open is one of 366 cases: the
    calendar year relative to the March year, the month and the day. *)
Definition doy_part (doy : Z) : Z * Z * Z :=
  let '(o, m, d) := date_of 0 doy in (o, m, d).

Definition month_len (leap : bool) (m : Z) : Z :=
  if m =? 2 then (if leap then 29 else 28)
  else if (m =? 4) || (m =? 6) || (m =? 9) || (m =? 11) then 30 else 31.

Definition doy_ok (leap : bool) (doy : Z) : bool :=
  let '(o, m, d) := doy_part doy in
  let last := if leap then 365 else 364 in
  let '(o', m', d') := if doy <? last then doy_part (doy + 1) else (1, 3, 1) in
  in_range 1 12 m && (1 <=? d) && (d <=? month_len leap m) && (negb (m =? 2) || (o =? 1)) &&
  (if d <? month_len leap m then (o' =? o) && (m' =? m) && (d' =? d + 1)
   else if m <? 12 then (o' =? o) && (m' =? m + 1) && (d' =? 1)
   else (o' =? o + 1) && (m' =? 1) && (d' =? 1)).

Fixpoint check_doys (leap : bool) (n : nat) : bool :=
  match n with O => true | S n' => doy_ok leap (Z.of_nat n') && check_doys leap n' end.

Lemma check_doys_spec leap n k :
  check_doys leap n = true -> 0 <= k < Z.of_nat n -> doy_ok leap k = true.
Proof.
  induction n as [|n IH]; intros H Hk; [lia|]. cbn [check_doys] in H. split_bool.
  destruct (decide (k = Z.of_nat n)) as [->|]; [done|]. apply IH; [done|lia].
Qed.

Lemma doy_checked (leap : bool) doy : 0 <= doy < (if leap then 366 else 365) -> doy_ok leap doy = true.
Proof.
  destruct leap; intros H.
  - apply (check_doys_spec true 366); [vm_compute; reflexivity|lia].
  - apply (check_doys_spec false 365); [vm_compute; reflexivity|lia].
Qed.

Lemma date_of_part y doy : date_of y doy = let '(o, m, d) := doy_part doy in (y + o, m, d).
Proof. done. Qed.

Lemma days_in_month_len y o m leap :
  leap = leap_year (y + 1) -> (m = 2 -> o = 1) -> days_in_month (y + o) m = month_len leap m.
Proof.
  intros -> Ho. unfold days_in_month, month_len. destruct (Z.eqb_spec m 2); [|done].
  by rewrite Ho.
Qed.

Ltac february :=
  intros ->;
  match goal with H : negb (2 =? 2) || _ = true |- _ => simpl in H; by apply Z.eqb_eq in H end.

Lemma next_date_of y doy :
  0 <= doy < ylen y ->
  next_date (date_of y doy) = if doy + 1 <? ylen y then date_of y (doy + 1) else date_of (y + 1) 0.
Proof.
  rewrite ylen_leap. intros Hd. pose proof (doy_checked _ _ Hd) as Hok.
  unfold doy_ok in Hok. rewrite !date_of_part. destruct (doy_part doy) as [[o m] d].
  set (leap := leap_year (y + 1)) in *.
  assert (Hlast : (doy <? (if leap then 365 else 364)) = (doy + 1 <? (if leap then 366 else 365))).
  { destruct leap; [destruct (Z.ltb_spec doy 365), (Z.ltb_spec (doy + 1) 366)
                   |destruct (Z.ltb_spec doy 364), (Z.ltb_spec (doy + 1) 365)]; lia. }
  rewrite Hlast in Hok. destruct (doy + 1 <? _).
  - destruct (doy_part (doy + 1)) as [[o' m'] d']. split_bool.
    unfold next_date. rewrite (days_in_month_len y o m leap) by (done || february).
    destruct (d <? month_len leap m); [|destruct (m <? 12)]; split_bool;
      repeat match goal with |- (_, _) = (_, _) => f_equal end; lia.
  - split_bool. change (doy_part 0) with (0, 3, 1).
    unfold next_date. rewrite (days_in_month_len y o m leap) by (done || february).
    destruct (d <? month_len leap m); [|destruct (m <? 12)]; split_bool;
      repeat match goal with |- (_, _) = (_, _) => f_equal end; lia.
Qed.

Lemma civil_next days : civil (days + 1) = next_date (civil days).
Proof.
  destruct (civil_date_of days) as (y & doy & Hd & Hn & ->).
  destruct (civil_date_of (days + 1)) as (y' & doy' & Hd' & Hn' & ->).
  rewrite next_date_of by done. destruct (Z.ltb_spec (doy + 1) (ylen y)) as [Hlt|Hge].
  - destruct (march_year_unique y' doy' y (doy + 1)) as [-> ->]; [done|lia|lia|done].
  - destruct (march_year_unique y' doy' (y + 1) 0) as [-> ->]; [done| | |done].
    + rewrite ylen_leap. destruct (leap_year _); lia.
    + unfold ylen in *. lia.
Qed.

Lemma civil_bounds days : let '(_, m, d) := civil days in 1 <= m <= 12 /\ 1 <= d <= 31.
Proof.
  destruct (civil_date_of days) as (y & doy & Hd & _ & ->). rewrite ylen_leap in Hd.
  pose proof (doy_checked _ _ Hd) as Hok. unfold doy_ok in Hok. rewrite date_of_part.
  destruct (doy_part doy) as [[o m] d]. destruct (if doy <? _ then _ else _) as [[o' m'] d'].
  split_bool. assert (month_len (leap_year (y + 1)) m <= 31); [|lia].
  unfold month_len. repeat case_match; lia.
Qed.

(** The last day a u64 millisecond clock reaches. *)
Definition last_clock_day : Z := u64_max / (24 * 60 * MINUTE_MS).

Lemma civil_from_days_civil days :
  0 <= days <= last_clock_day + 1 -> civil_from_days days = civil days.
Proof.
  intros H. change last_clock_day with 213503982334 in H.
  unfold civil_from_days. rewrite (proj2 (Z.leb_le 0 (days + 719468))) by lia.
  pose proof (civil_bounds days) as Hb. unfold civil in *. set (z := days + 719468) in *.
  rewrite (Z.quot_div_nonneg z) by lia.
  replace (z - z / 146097 * 146097) with (z mod 146097) by by_divisions.
  pose proof (Z.mod_pos_bound z 146097 ltac:(lia)) as Hm.
  destruct (year_of_era_bounds (z mod 146097) Hm) as [Hy Hyb].
  set (doe := z mod 146097) in *.
  assert (0 <= doe - doe / 1460 + doe / 36524 - doe / 146096) by by_divisions.
  rewrite !(Z.quot_div_nonneg doe), (Z.quot_div_nonneg (doe - _ + _ - _)) by lia.
  set (yoe := (doe - doe / 1460 + doe / 36524 - doe / 146096) / 365) in *.
  rewrite !(Z.quot_div_nonneg yoe) by lia.
  assert (0 <= doe - (365 * yoe + yoe / 4 - yoe / 100)).
  { unfold ystart in Hyb. rewrite (Z.div_small yoe 400) in Hyb by lia. lia. }
  rewrite (Z.quot_div_nonneg (5 * _ + 2)) by lia.
  set (doy := doe - (365 * yoe + yoe / 4 - yoe / 100)) in *.
  assert (0 <= (5 * doy + 2) / 153) by (apply Z.div_pos; lia).
  rewrite Z.quot_div_nonneg by lia.
  set (mp := (5 * doy + 2) / 153) in *. destruct Hb as [Hb1 Hb2].
  assert (0 <= z / 146097 < 1500000) by by_divisions.
  unfold as_u8, as_i32. rewrite !(Z.mod_small _ 256) by lia.
  change (2 ^ 31) with 2147483648. change (2 ^ 32) with 4294967296.
  f_equal. f_equal. rewrite Z.mod_small; [lia|]. destruct (_ <=? 2); lia.
Qed.

(** Dates are calendar dates. Day 0 is the first of January 1970, and for
    every day a u64 millisecond clock can show, the date [civil_from_days] gives
    for the next day is the next day of the Gregorian calendar: the month lengths
    and the leap years every 4 but not every 100 but every 400 years. *)
Theorem civil_from_days_calendar days :
  0 <= days <= last_clock_day ->
  civil_from_days 0 = (1970, 1, 1) /\
  civil_from_days (days + 1) = next_date (civil_from_days days).
Proof.
  intros H. split; [reflexivity|]. rewrite !civil_from_days_civil by lia. apply civil_next.
Qed.

Lemma civil_from_days_calendar_witness :
  civil_from_days (11015 + 1) = next_date (2000, 2, 28).
Proof.
  destruct (civil_from_days_calendar 11015) as [_ H]; [by vm_compute|]. exact H.
Defined.

(** ** What a field selects *)

Lemma mark_lookup count value last step l i :
  0 <= value -> 1 <= step -> last - value + 1 <= Z.of_nat count -> last < Z.of_nat (length l) ->
  mark count value last step l !! i =
  if bool_decide (value <= Z.of_nat i <= last /\ (Z.of_nat i - value) mod step = 0)
  then Some true else l !! i.
Proof.
  revert value l. induction count as [|count IH]; intros value l Hv Hs Hc Hl; cbn [mark].
  { rewrite bool_decide_false by lia. done. }
  destruct (Z.ltb_spec last value); [by rewrite bool_decide_false by lia|].
  rewrite IH by (rewrite ?length_insert; lia).
  destruct (decide (Z.of_nat i = value)) as [Hi|Hi].
  - rewrite bool_decide_false by lia. rewrite bool_decide_true.
    + replace i with (Z.to_nat value) by lia. apply list_lookup_insert_eq. lia.
    + split; [lia|]. rewrite Hi, Z.sub_diag. by apply Z.mod_0_l; lia.
  - rewrite list_lookup_insert_ne by lia.
    replace (Z.of_nat i - (value + step)) with (Z.of_nat i - value + (-1) * step) by lia.
    rewrite Z.mod_add by lia.
    assert (Hiff : value + step <= Z.of_nat i <= last /\ (Z.of_nat i - value) mod step = 0 <->
      value <= Z.of_nat i <= last /\ (Z.of_nat i - value) mod step = 0).
    { split; intros [Hr Hm]; split; try lia; try done.
      destruct (decide (value + step <= Z.of_nat i)); [lia|].
      exfalso. rewrite Z.mod_small in Hm by lia. lia. }
    by rewrite (bool_decide_ext _ _ Hiff).
Qed.

Lemma mark_length count value last step l : length (mark count value last step l) = length l.
Proof.
  revert value l. induction count as [|count IH]; intros value l; cbn [mark]; [done|].
  destruct (last <? value); [done|]. by rewrite IH, length_insert.
Qed.

Lemma parse_number_bounds s min max v : parse_number s min max = Ok v -> min <= v <= max.
Proof. unfold parse_number. intros. inv_ok. done. Qed.

Lemma parse_step_bounds c min max range step :
  0 <= min -> parse_step c min max = Ok (range, step) -> 1 <= step.
Proof.
  unfold parse_step. unfold_monad. intros Hm.
  destruct (split_once "/"%char c) as [[r st]|]; [|by intros [= _ <-]].
  destruct (parse_number st min max) as [v|] eqn:Hv; [|done].
  apply parse_number_bounds in Hv. destruct (Z.eqb_spec v 0); [done|]. intros [= _ <-]. lia.
Qed.

Lemma parse_range_bounds r min max start last :
  min <= max -> parse_range r min max = Ok (start, last) -> min <= start <= last /\ last <= max.
Proof.
  unfold parse_range. unfold_monad. intros Hm.
  destruct (String.eqb r "*"); [intros [= <- <-]; lia|].
  destruct (split_once "-"%char r) as [[a b]|].
  - destruct (parse_number a min max) as [va|] eqn:Ha; [|done].
    destruct (parse_number b min max) as [vb|] eqn:Hb; [|done].
    apply parse_number_bounds in Ha, Hb. destruct (Z.ltb_spec vb va); [done|]. intros [= <- <-]. lia.
  - destruct (parse_number r min max) as [v|] eqn:Hv; [|done].
    apply parse_number_bounds in Hv. intros [= <- <-]. lia.
Qed.

Lemma parse_component_bounds c min max start last step :
  0 <= min <= max -> parse_component c min max = Ok (start, last, step) ->
  min <= start <= last /\ last <= max /\ 1 <= step.
Proof.
  unfold parse_component. unfold_monad. intros Hm.
  destruct (parse_step c min max) as [[r st]|] eqn:Hs; [|done]. apply parse_step_bounds in Hs; [|lia].
  cbn [fst snd]. destruct (parse_range r min max) as [[a b]|] eqn:Hr; [|done].
  apply parse_range_bounds in Hr; [|lia]. intros [= <- <- <-]. simpl in *. lia.
Qed.

(** The values a component denotes. *)
Definition component_selects (min max : Z) (component : string) (v : Z) : Prop :=
  exists start last step, parse_component component min max = Ok (start, last, step) /\
    start <= v <= last /\ (v - start) mod step = 0.

Lemma mark_components_spec cs min max l l' :
  0 <= min <= max -> Z.of_nat (length l) = max + 1 ->
  mark_components cs min max l = Ok l' ->
  length l' = length l /\
  forall i : nat, l' !! i = Some true <->
    l !! i = Some true \/ exists c, c ∈ cs /\ component_selects min max c (Z.of_nat i).
Proof.
  intros Hm. revert l. induction cs as [|c cs IH]; intros l Hl; simpl.
  { intros [= <-]. split; [done|]. intros i. split; [by left|]. intros [?|(c & ?%elem_of_nil & _)]; done. }
  unfold_monad. destruct (parse_component c min max) as [[[start last] step]|] eqn:Hc; [|done].
  pose proof (parse_component_bounds _ _ _ _ _ _ Hm Hc) as (Hb & Hlast & Hst). intros H.
  apply IH in H as [Hlen Hi]; [|by rewrite mark_length]. rewrite mark_length in Hlen.
  split; [done|]. intros i. rewrite Hi, mark_lookup by lia.
  unfold component_selects. case_bool_decide as Hsel; split.
  - intros _. right. exists c. split; [by left|]. by exists start, last, step.
  - by left.
  - intros [?|(c' & ? & ?)]; [by left|]. right. exists c'. split; [by right|done].
  - intros [?|(c' & [->|?]%elem_of_cons & Hs')]; [by left| |right; by exists c'].
    destruct Hs' as (a & b & st & Hp & ? & ?). rewrite Hc in Hp. simplify_eq. exfalso. by apply Hsel.
Qed.

(** A cron field selects what its text says: a parsed field contains a value
    exactly when one of its comma-separated components denotes it, that is, the
    value lies in the component's range at a multiple of its step from the start;
    and only values the field allows are ever selected. *)
Theorem field_parse_selects source min max f v :
  0 <= min <= max -> Field_parse source min max = Ok f ->
  (field_contains f v = true <->
     exists c, c ∈ str_split ","%char source /\ component_selects min max c v) /\
  (field_contains f v = true -> min <= v <= max).
Proof.
  intros Hm. unfold Field_parse. destruct (str_is_empty source); [done|]. unfold_monad.
  destruct (mark_components _ min max _) as [l|] eqn:Hl; [|done].
  destruct (negb _); [done|]. intros [= <-].
  apply mark_components_spec in Hl as [Hlen Hi]; [|done|rewrite length_replicate; lia].
  assert (Hin : forall c u, component_selects min max c u -> min <= u <= max).
  { intros c u (a & b & st & Hp & Hr & _).
    pose proof (parse_component_bounds _ _ _ _ _ _ Hm Hp). lia. }
  assert (Hiff : field_contains {| minimum := min; allowed := l; wildcard := starts_with "*" source |} v = true
    <-> exists c, c ∈ str_split ","%char source /\ component_selects min max c v).
  { unfold field_contains. simpl. split.
    - intros [Hge Hd]%andb_true_iff. apply Z.leb_le in Hge.
      assert (Hs : l !! Z.to_nat v = Some true) by (by destruct (l !! Z.to_nat v) as [[]|]).
      apply Hi in Hs as [Hs|(c & ? & ?)].
      + apply lookup_replicate in Hs as [? _]. done.
      + exists c. by rewrite Z2Nat.id in * by lia.
    - intros (c & Hc & Hsel). pose proof (Hin _ _ Hsel).
      rewrite (proj2 (Z.leb_le min v)) by lia. simpl.
      rewrite (proj2 (Hi (Z.to_nat v))); [done|]. right. exists c. by rewrite Z2Nat.id by lia. }
  split; [done|]. rewrite Hiff. intros (c & _ & Hsel). by eapply Hin.
Qed.

Lemma field_parse_selects_witness :
  exists f, Field_parse "1-5/2,9" 0 59 = Ok f /\ field_contains f 3 = true.
Proof.
  eexists. split; [vm_compute; reflexivity|].
  eapply (field_parse_selects "1-5/2,9" 0 59); [lia|vm_compute; reflexivity|].
  exists "1-5/2"%string. split; [vm_compute; left|].
  exists 1, 5, 2. split; [vm_compute; reflexivity|]. split; [lia|reflexivity].
Defined.
