(* ===== verification/TaskIngress.v ===== *)
(** * Task ingress ([crates/tysel-runtime/src/task_ingress.rs])

    The routing table built from a task module, and the ingress that turns queue
    messages, MCP calls and due cron registrations into queued tasks. *)

From Stdlib Require Import ZArith Lia Ascii String.
From stdpp Require Import base tactics list gmap strings sorting numbers.
From S2P Require Import Prelude Bytes TaskModel Lease Scheduler SchedulerSpec TaskRpc Broker Cron.
Open Scope Z_scope.

(** ** Registry *)

(** [ModuleTaskDefinition] and [ModuleTaskKind] (task_module.rs) *)
Inductive ModuleTaskKind :=
| KindCron (expression : string)
| KindQueue (queue : string)
| KindMcp (description : string) (input : list (string * string)).

Record ModuleTaskDefinition := { def_name : string; def_kind : ModuleTaskKind }.

(** [McpValueType], [McpTool] (tysel-cap-mcp) *)
Inductive McpValueType := McpString | McpNumber | McpInteger | McpBoolean | McpObject | McpArray.

Record McpTool := {
  tool_name : string;
  tool_description : string;
  tool_input : gmap string McpValueType;
}.

Definition McpValueType_parse (source : string) : option McpValueType :=
  if String.eqb source "string" then Some McpString
  else if String.eqb source "number" then Some McpNumber
  else if String.eqb source "integer" then Some McpInteger
  else if String.eqb source "boolean" then Some McpBoolean
  else if String.eqb source "object" then Some McpObject
  else if String.eqb source "array" then Some McpArray
  else None.

Inductive TaskIngressError :=
| IngressCron (e : CronError)
| DuplicateQueueConsumer (queue first second : string)
| UnknownQueue (queue : string)
| UnknownMcpTool (tool : string)
| InvalidTaskIdSeed
| InvalidApplicationId
| InvalidTimeout
| TaskIdExhausted
| Clock
| IngressBroker (e : TaskRpcBrokerError)
| IngressMcp (unsupported_type : string).

Record CronRegistration := { reg_name : string; reg_schedule : CronExpression }.

Record TaskRegistry := {
  cron : list CronRegistration;
  queues : gmap string string;
  mcp_tools : gmap string McpTool;
}.

(** [input.iter().map(..).collect::<Result<_, _>>()] *)
Fixpoint parse_mcp_input (input : list (string * string)) (acc : gmap string McpValueType)
    : result TaskIngressError (gmap string McpValueType) :=
  match input with
  | [] => Ok acc
  | (name, kind) :: rest =>
      ty ← ok_or (McpValueType_parse kind) (IngressMcp kind);
      parse_mcp_input rest (<[name := ty]> acc)
  end.

Fixpoint register_all (defs : list ModuleTaskDefinition) (r : TaskRegistry)
    : result TaskIngressError TaskRegistry :=
  match defs with
  | [] => Ok r
  | d :: defs' =>
      match def_kind d with
      | KindCron expression =>
          schedule ← map_err IngressCron (Cron_parse expression);
          register_all defs'
            {| cron := cron r ++ [{| reg_name := def_name d; reg_schedule := schedule |}];
               queues := queues r; mcp_tools := mcp_tools r |}
      | KindQueue queue =>
          match queues r !! queue with
          | Some existing => Err (DuplicateQueueConsumer queue existing (def_name d))
          | None =>
              register_all defs'
                {| cron := cron r; queues := <[queue := def_name d]> (queues r);
                   mcp_tools := mcp_tools r |}
          end
      | KindMcp description input =>
          input ← parse_mcp_input input ∅;
          register_all defs'
            {| cron := cron r; queues := queues r;
               mcp_tools := <[def_name d := {| tool_name := def_name d;
                 tool_description := description; tool_input := input |}]> (mcp_tools r) |}
      end
  end.

(** [cron.sort_by(|l, r| l.name.cmp(&r.name))]: a stable sort by name. *)
Fixpoint insert_by_name (c : CronRegistration) (l : list CronRegistration) : list CronRegistration :=
  match l with
  | [] => [c]
  | x :: l' => if String.ltb (reg_name x) (reg_name c) || String.eqb (reg_name x) (reg_name c)
               then x :: insert_by_name c l' else c :: l
  end.
Definition sort_by_name (l : list CronRegistration) : list CronRegistration :=
  foldl (fun acc c => insert_by_name c acc) [] l.

(** [TaskRegistry::from_definitions] *)
Definition from_definitions (defs : list ModuleTaskDefinition) : result TaskIngressError TaskRegistry :=
  r ← register_all defs {| cron := []; queues := ∅; mcp_tools := ∅ |};
  Ok {| cron := sort_by_name (cron r); queues := queues r; mcp_tools := mcp_tools r |}.

Definition queue_handler (r : TaskRegistry) (queue : string) : option string := queues r !! queue.
Definition has_mcp_tool (r : TaskRegistry) (name : string) : bool :=
  match mcp_tools r !! name with Some _ => true | None => false end.

(** ** Ingress *)

Record CronPosition := { pos_minute : Z; pos_registration : Z }.

Record TriggeredTask := { trig_id : TaskId; trig_handler : string; trig_scheduled_at_ms : Z }.

Section Ingress.
Context {SJ : SerdeJson} {ES : EnvelopeSerde}.

Record TaskIngress := {
  ig_broker : TaskRpcBroker;
  registry : TaskRegistry;
  ig_application_id : string;
  next_task_id : Z;
  next_cron_position : option CronPosition;
  request_timeout_ms : Z;
}.

Definition set_ig_broker (b : TaskRpcBroker) (i : TaskIngress) : TaskIngress :=
  {| ig_broker := b; registry := registry i; ig_application_id := ig_application_id i;
     next_task_id := next_task_id i; next_cron_position := next_cron_position i;
     request_timeout_ms := request_timeout_ms i |}.
Definition set_next_task_id (n : Z) (i : TaskIngress) : TaskIngress :=
  {| ig_broker := ig_broker i; registry := registry i; ig_application_id := ig_application_id i;
     next_task_id := n; next_cron_position := next_cron_position i;
     request_timeout_ms := request_timeout_ms i |}.
Definition set_cursor (p : option CronPosition) (i : TaskIngress) : TaskIngress :=
  {| ig_broker := ig_broker i; registry := registry i; ig_application_id := ig_application_id i;
     next_task_id := next_task_id i; next_cron_position := p;
     request_timeout_ms := request_timeout_ms i |}.

Abbreviation IM A := (M TaskIngress TaskIngressError A).

(** [TaskIngress::new] *)
Definition TaskIngress_new (b : TaskRpcBroker) (r : TaskRegistry) (app : string)
    (first_task_id timeout : Z) : result TaskIngressError TaskIngress :=
  if str_is_empty app then Err InvalidApplicationId
  else if first_task_id =? 0 then Err InvalidTaskIdSeed
  else if timeout =? 0 then Err InvalidTimeout
  else Ok {| ig_broker := b; registry := r; ig_application_id := app;
             next_task_id := first_task_id; next_cron_position := None;
             request_timeout_ms := timeout |}.

(** [TaskIngress::reserve_task_ids] *)
Definition reserve_task_ids (count : Z) : IM Z := fun i =>
  if count =? 0 then (Ok (next_task_id i), i)
  else match checked_add u64_max (next_task_id i) count with
       | Some next =>
           if next_task_id i <? next then (Ok (next_task_id i), set_next_task_id next i)
           else (Err TaskIdExhausted, i)
       | None => (Err TaskIdExhausted, i)
       end.

Definition ingress_enqueue (task : Task) : IM () := fun i =>
  let '(r, b') := broker_enqueue task (ig_broker i) in
  (map_err IngressBroker r, set_ig_broker b' i).

Definition ingress_meta (i : TaskIngress) (id : TaskId) (key : option string) : TaskMeta :=
  {| meta_id := id; application_id := ig_application_id i; tenant_id := None;
     idempotency_key := key; trace_id := None |}.

(** [TaskIngress::enqueue_queue] *)
Definition enqueue_queue (queue : string) (message_id : option string) (v : Value) (now_ms : Z)
    : IM TaskId :=
  i ← get_state;
  handler ← lift (ok_or (queue_handler (registry i) queue) (UnknownQueue queue));
  id ← reserve_task_ids 1;
  deadline ← lift (ok_or (checked_add u64_max now_ms (request_timeout_ms i)) Clock);
  ingress_enqueue (with_input (Task_new (ingress_meta i id message_id)
    (TriggerQueue queue handler message_id) (Some deadline)) v);;
  mret id.

(** [TaskIngress::enqueue_mcp] *)
Definition enqueue_mcp (tool : string) (v : Value) (now_ms : Z) : IM TaskId :=
  i ← get_state;
  if negb (has_mcp_tool (registry i) tool) then throw (UnknownMcpTool tool)
  else
    id ← reserve_task_ids 1;
    deadline ← lift (ok_or (checked_add u64_max now_ms (request_timeout_ms i)) Clock);
    ingress_enqueue (with_input (Task_new (ingress_meta i id None) (TriggerMcp tool) (Some deadline)) v);;
    mret id.

Definition cron_key (handler : string) (m : Z) : string :=
  ("cron:" ++ handler ++ ":" ++ dec_string m)%string.

(** The inner [while position.registration < self.registry.cron.len()] loop, over
    the registrations that are left. It ends at the end of the list, or early
    with the position it stopped at. *)
Fixpoint cron_registrations (regs : list CronRegistration) (idx now_ms m scheduled_at_ms : Z)
    (triggered : list TriggeredTask) : IM (list TriggeredTask * option CronPosition) :=
  match regs with
  | [] => mret (triggered, None)
  | r :: regs' =>
      if negb (matches_unix_ms (reg_schedule r) scheduled_at_ms)
      then cron_registrations regs' (idx + 1) now_ms m scheduled_at_ms triggered
      else
        i ← get_state;
        if broker_remaining_capacity (ig_broker i) =? 0
        then mret (triggered, Some {| pos_minute := m; pos_registration := idx |})
        else
          id ← reserve_task_ids 1;
          deadline ← lift (ok_or (checked_add u64_max now_ms (request_timeout_ms i)) Clock);
          ingress_enqueue (with_input (Task_new (ingress_meta i id (Some (cron_key (reg_name r) m)))
            (TriggerCron (reg_name r) (cron_source (reg_schedule r))) (Some deadline)) Value_Null);;
          cron_registrations regs' (idx + 1) now_ms m scheduled_at_ms
            (triggered ++ [{| trig_id := id; trig_handler := reg_name r;
                              trig_scheduled_at_ms := scheduled_at_ms |}])
  end.

(** The outer [while position.minute <= current_minute] loop. *)
Fixpoint cron_minutes (fuel : nat) (p : CronPosition) (current now_ms : Z)
    (triggered : list TriggeredTask) : IM (list TriggeredTask * CronPosition) :=
  match fuel with
  | O => mret (triggered, p)
  | S fuel' =>
      if current <? pos_minute p then mret (triggered, p)
      else
        scheduled_at_ms ← lift (ok_or (checked_mul u64_max (pos_minute p) MINUTE_MS) Clock);
        i ← get_state;
        t ← cron_registrations (drop (Z.to_nat (pos_registration p)) (cron (registry i)))
              (pos_registration p) now_ms (pos_minute p) scheduled_at_ms triggered;
        match t with
        | (triggered', Some early) => mret (triggered', early)
        | (triggered', None) =>
            cron_minutes fuel' {| pos_minute := saturating_add u64_max (pos_minute p) 1;
                                  pos_registration := 0 |} current now_ms triggered'
        end
  end.

(** Where [enqueue_due_cron] starts; [None] is the early return. *)
Definition start_position (cursor : option CronPosition) (current : Z) : option CronPosition :=
  let oldest := saturating_sub current (MAX_CRON_CATCH_UP_MINUTES - 1) in
  match cursor with
  | Some p =>
      if current <? pos_minute p then None
      else if oldest <=? pos_minute p then Some p
      else Some {| pos_minute := oldest; pos_registration := 0 |}
  | None => Some {| pos_minute := current; pos_registration := 0 |}
  end.

(** [TaskIngress::enqueue_due_cron]; the fuel is one turn per minute and one to stop. *)
Definition enqueue_due_cron (now_ms : Z) : IM (list TriggeredTask) :=
  i ← get_state;
  let current := now_ms / MINUTE_MS in
  match start_position (next_cron_position i) current with
  | None => mret []
  | Some p =>
      t ← cron_minutes (S (Z.to_nat (current - pos_minute p + 1))) p current now_ms [];
      modify (set_cursor (Some t.2));;
      mret t.1
  end.

End Ingress.
