(* ===== verification/TaskIngressThms.v ===== *)
(** * Task ingress: every due cron registration is enqueued once, in order *)

From Stdlib Require Import ZArith Lia Ascii String.
From stdpp Require Import base tactics list gmap strings sorting numbers.
From S2P Require Import Prelude Bytes TaskModel Lease Scheduler SchedulerSpec TaskRpc Broker BrokerThms Cron TaskIngress.
Open Scope Z_scope.

(** ** What is due *)

(** The registrations of a list that match minute [m], with the time they are due. *)
Fixpoint minute_due (regs : list CronRegistration) (m : Z) : list (string * Z) :=
  match regs with
  | [] => []
  | r :: regs' =>
      if matches_unix_ms (reg_schedule r) (m * MINUTE_MS)
      then (reg_name r, m * MINUTE_MS) :: minute_due regs' m
      else minute_due regs' m
  end.

(** Everything due from a position up to minute [c], in order. *)
Definition due_from (regs : list CronRegistration) (p : CronPosition) (c : Z) : list (string * Z) :=
  if c <? pos_minute p then []
  else minute_due (drop (Z.to_nat (pos_registration p)) regs) (pos_minute p)
       ++ flat_map (minute_due regs) (seqZ (pos_minute p + 1) (c - pos_minute p)).

Lemma due_from_step regs p c :
  pos_minute p <= c ->
  due_from regs p c =
    minute_due (drop (Z.to_nat (pos_registration p)) regs) (pos_minute p)
    ++ due_from regs {| pos_minute := pos_minute p + 1; pos_registration := 0 |} c.
Proof.
  intros H. unfold due_from at 1. rewrite (proj2 (Z.ltb_ge _ _)) by done. f_equal.
  unfold due_from. simpl. destruct (Z.ltb_spec c (pos_minute p + 1)).
  - by rewrite seqZ_nil by lia.
  - rewrite seqZ_cons by lia. simpl. f_equal. f_equal. f_equal; lia.
Qed.

Section IngressThms.
Context {SJ : SerdeJson} {ES : EnvelopeSerde}.

Definition trig_key (t : TriggeredTask) : string * Z := (trig_handler t, trig_scheduled_at_ms t).

(** What the loops leave alone. *)
Definition same_config (i i' : TaskIngress) : Prop :=
  registry i' = registry i /\ ig_application_id i' = ig_application_id i /\
  request_timeout_ms i' = request_timeout_ms i /\ next_cron_position i' = next_cron_position i.

#[local] Instance same_config_preorder : PreOrder same_config.
Proof. split; [done|]. unfold same_config. intros ? ? ? (? & ? & ? & ?) (? & ? & ? & ?). split_and!; congruence. Qed.

(** Tasks only arrive. *)
Definition tasks_grow (i i' : TaskIngress) : Prop :=
  forall id t, broker_task (ig_broker i) id = Some t -> broker_task (ig_broker i') id = Some t.

(** The tasks enqueued between two states: new ids in sequence, each now a task
    of the broker. *)
Definition enqueued (i : TaskIngress) (new : list TriggeredTask) (i' : TaskIngress) : Prop :=
  map trig_id new = seqZ (next_task_id i) (vec_len new) /\
  next_task_id i' = next_task_id i + vec_len new /\
  (forall t, t ∈ new -> is_Some (broker_task (ig_broker i') (trig_id t))) /\
  tasks_grow i i' /\ same_config i i'.

Lemma enqueued_nil i : enqueued i [] i.
Proof. unfold enqueued, vec_len. simpl. split_and!; try done; try lia;
  [by intros t ?%elem_of_nil|by intros ? ?]. Qed.

Lemma enqueued_cons i t i1 new i2 :
  enqueued i [t] i1 -> enqueued i1 new i2 -> enqueued i (t :: new) i2.
Proof.
  unfold enqueued, vec_len. intros (H1 & H2 & H3 & H4 & H5) (K1 & K2 & K3 & K4 & K5).
  simpl in *. split_and!.
  - rewrite seqZ_cons in H1 by lia. injection H1 as Hid.
    rewrite (seqZ_cons _ (Z.of_nat (S (length new)))) by lia. rewrite K1, H2, Hid.
    f_equal. f_equal; lia.
  - lia.
  - intros u [->|Hu]%elem_of_cons; [|by apply K3].
    destruct (H3 t) as [x Hx]; [by left|]. exists x. by apply K4.
  - intros id x Hx. by apply K4, H4.
  - by transitivity i1.
Qed.

Lemma enqueue_Ok task s s' :
  enqueue task s = (Ok (), s') ->
  tasks s !! task_id task = None /\ tasks s' = <[task_id task := set_task_state Queued task]> (tasks s).
Proof.
  unfold enqueue; unfold_monad. destruct (tasks s !! task_id task) eqn:Ht; [done|].
  destruct (queue_is_full s); [done|].
  destruct (task_transition task Queued) as [t'|] eqn:Htr; [|done]. simpl. intros [= <-].
  by apply task_transition_Ok in Htr as [_ ->].
Qed.

(** Reserving an id and enqueueing the task built for it. *)
Lemma reserve_and_enqueue i id i1 task i2 h at_ms :
  0 <= next_task_id i -> task_id task = id ->
  reserve_task_ids 1 i = (Ok id, i1) -> ingress_enqueue task i1 = (Ok (), i2) ->
  enqueued i [{| trig_id := id; trig_handler := h; trig_scheduled_at_ms := at_ms |}] i2.
Proof.
  intros Hn Hid. unfold reserve_task_ids. cbn [Z.eqb].
  destruct (checked_add u64_max (next_task_id i) 1) as [next|] eqn:Ha; [|done].
  apply checked_add_Some in Ha as [-> Ha]. rewrite (proj2 (Z.ltb_lt _ _)) by lia.
  intros [= Hi <-]. unfold ingress_enqueue, broker_enqueue; unfold_monad.
  destruct (deliverable _) as [[]|]; [|done]. rewrite on_scheduler_eq.
  destruct (enqueue _ _) as [[[]|] s'] eqn:He; [|done]. simpl. intros [= <-].
  apply enqueue_Ok in He as [Hnone Htasks]. rewrite Hid, <- Hi in *. simpl in *.
  unfold enqueued, vec_len. simpl. split_and!; try done.
  - intros t ->%list_elem_of_singleton. simpl. unfold broker_task, scheduler_get. simpl.
    rewrite Htasks, lookup_insert_eq. by eexists.
  - intros j t. unfold broker_task, scheduler_get. simpl. rewrite Htasks. intros Hj.
    rewrite lookup_insert_ne; [done|]. congruence.
Qed.

(** The inner loop enqueues a prefix of what is due this minute, and stops before
    the end only at a due registration, when the queue is full. *)
Lemma cron_registrations_spec all idx now m tr i tr' early i' :
  0 <= idx -> 0 <= next_task_id i ->
  cron_registrations (drop (Z.to_nat idx) all) idx now m (m * MINUTE_MS) tr i = (Ok (tr', early), i') ->
  exists new, tr' = tr ++ new /\ enqueued i new i' /\
    match early with
    | None => minute_due (drop (Z.to_nat idx) all) m = map trig_key new
    | Some p => pos_minute p = m /\ 0 <= pos_registration p /\
        minute_due (drop (Z.to_nat idx) all) m =
          map trig_key new ++ minute_due (drop (Z.to_nat (pos_registration p)) all) m /\
        broker_remaining_capacity (ig_broker i') = 0
    end.
Proof.
  remember (drop (Z.to_nat idx) all) as regs eqn:Hregs.
  revert idx Hregs tr i. induction regs as [|r regs IH]; intros idx Hregs tr i Hidx Hn; cbn [cron_registrations].
  { intros [= <- <- <-]. exists []. rewrite app_nil_r. split_and!; [done|apply enqueued_nil|done]. }
  assert (Hregs' : regs = drop (Z.to_nat (idx + 1)) all).
  { rewrite Z2Nat.inj_add, <- drop_drop, <- Hregs by lia. done. }
  cbn [minute_due]. destruct (matches_unix_ms (reg_schedule r) (m * MINUTE_MS)) eqn:Hmt; cbn [negb].
  2:{ intros H. by apply (IH (idx + 1)) in H; [|..|lia|]. }
  unfold_monad. destruct (Z.eqb_spec (broker_remaining_capacity (ig_broker i)) 0) as [Hcap|Hcap].
  { intros [= <- <- <-]. exists []. rewrite app_nil_r. split_and!; [done|apply enqueued_nil|done|done| |done].
    simpl. rewrite <- Hregs. simpl. by rewrite Hmt. }
  destruct (reserve_task_ids 1 i) as [[id|e] i1] eqn:Hres; [|done].
  destruct (ok_or _ Clock) as [d|]; [|done].
  destruct (ingress_enqueue _ i1) as [[[]|e] i2] eqn:Henq; [|done].
  match type of Henq with ingress_enqueue ?t _ = _ =>
    pose proof (reserve_and_enqueue i id i1 t i2 (reg_name r) (m * MINUTE_MS) Hn eq_refl Hres Henq) as E
  end.
  intros H. apply (IH (idx + 1)) in H as (new & -> & En & Hearly); [|done|lia|].
  2:{ destruct E as (_ & Hn2 & _). unfold vec_len in Hn2. simpl in Hn2. lia. }
  exists ({| trig_id := id; trig_handler := reg_name r; trig_scheduled_at_ms := m * MINUTE_MS |} :: new).
  split; [by rewrite <- app_assoc|]. split; [by eapply enqueued_cons|].
  destruct early as [p|]; simpl; [|by rewrite Hearly].
  destruct Hearly as (? & ? & -> & ?). by split_and!.
Qed.

Lemma enqueued_app i new1 i1 new2 i2 :
  enqueued i new1 i1 -> enqueued i1 new2 i2 -> enqueued i (new1 ++ new2) i2.
Proof.
  unfold enqueued, vec_len. intros (H1 & H2 & H3 & H4 & H5) (K1 & K2 & K3 & K4 & K5).
  split_and!.
  - rewrite map_app, H1, K1, H2, length_app, Nat2Z.inj_add, seqZ_app by lia. done.
  - rewrite length_app. lia.
  - intros u [Hu|Hu]%elem_of_app; [|by apply K3].
    destruct (H3 u Hu) as [x Hx]. exists x. by apply K4.
  - intros id x Hx. by apply K4, H4.
  - by transitivity i1.
Qed.

Lemma cron_minutes_spec fuel p current now tr i tr' p' i' :
  0 <= pos_minute p -> 0 <= pos_registration p -> 0 <= next_task_id i -> current < u64_max ->
  current - pos_minute p + 1 < Z.of_nat fuel ->
  cron_minutes fuel p current now tr i = (Ok (tr', p'), i') ->
  exists new, tr' = tr ++ new /\ enqueued i new i' /\
    0 <= pos_minute p' /\ 0 <= pos_registration p' /\
    (forall c, current <= c ->
       due_from (cron (registry i)) p c = map trig_key new ++ due_from (cron (registry i)) p' c) /\
    (pos_minute p' <= current -> broker_remaining_capacity (ig_broker i') = 0).
Proof.
  intros Hm Hr Hn Hcur. revert p tr i Hm Hr Hn. induction fuel as [|fuel IH]; intros p tr i Hm Hr Hn Hf;
    cbn [cron_minutes].
  { intros [= <- <- <-]. exists []. rewrite app_nil_r.
    split_and!; [done|apply enqueued_nil|done|done|done|lia]. }
  destruct (Z.ltb_spec current (pos_minute p)) as [Hgt|Hle].
  { intros [= <- <- <-]. exists []. rewrite app_nil_r.
    split_and!; [done|apply enqueued_nil|done|done|done|lia]. }
  unfold_monad. destruct (checked_mul u64_max (pos_minute p) MINUTE_MS) as [at_ms|] eqn:Hmul; [|done].
  assert (at_ms = pos_minute p * MINUTE_MS) as ->
    by (unfold checked_mul in Hmul; destruct (_ <=? _); by simplify_eq).
  cbn [ok_or]. destruct (cron_registrations _ _ _ _ _ _ i) as [[[tr1 early]|e] i1] eqn:Hc; [|done].
  apply cron_registrations_spec in Hc as (new & -> & En & Hearly); [|done|done].
  destruct early as [pe|].
  - intros [= <- <- <-]. destruct Hearly as (Hpm & Hpr & Hdue & Hcap).
    exists new. split_and!; try done; [lia|].
    intros c Hle'. rewrite due_from_step, Hdue by lia. rewrite <- app_assoc. f_equal.
    rewrite (due_from_step _ pe) by lia. by rewrite Hpm.
  - intros H. unfold saturating_add in H.
    rewrite Z.min_r in H by lia.
    destruct En as (E1 & E2 & E3 & E4 & E5). pose proof E5 as (Hreg & _).
    apply IH in H as (new2 & -> & En2 & ? & ? & Hdue & Hcap); simpl; [|lia|done|unfold vec_len in *; lia|lia].
    exists (new ++ new2). rewrite app_assoc. split; [done|].
    split; [eapply enqueued_app; [|done]; by split_and!|]. split; [done|]. split; [done|].
    split; [|done]. intros c Hle'. rewrite due_from_step by lia. rewrite Hreg in Hdue.
    by rewrite Hearly, Hdue, map_app, app_assoc.
Qed.

Definition position_ok (p : CronPosition) : Prop := 0 <= pos_minute p /\ 0 <= pos_registration p.

Lemma start_position_ok cursor current p :
  0 <= current -> (forall q, cursor = Some q -> position_ok q) ->
  start_position cursor current = Some p ->
  position_ok p /\ pos_minute p <= current /\
  current - pos_minute p + 1 <= MAX_CRON_CATCH_UP_MINUTES.
Proof.
  unfold start_position, saturating_sub, MAX_CRON_CATCH_UP_MINUTES, position_ok.
  intros Hc Hok. destruct cursor as [q|].
  - specialize (Hok q eq_refl). destruct (Z.ltb_spec current (pos_minute q)); [done|].
    destruct (Z.leb_spec (Z.max 0 (current - (24 * 60 - 1))) (pos_minute q)); intros [= <-]; simpl; lia.
  - intros [= <-]. simpl. lia.
Qed.

(** Cron registrations are triggered exactly once and in order. A successful
    call of [enqueue_due_cron] that starts at position [p] (at most one day back)
    enqueues a prefix of everything due from [p] on and moves the cursor right
    behind it: what was due from [p] up to any later minute is what was triggered
    followed by what is due from the new cursor. It stops short of the current
    minute only when the queue is full. The triggered tasks have consecutive
    fresh ids and are all in the broker. *)
Theorem cron_triggered_in_order now i triggered i' p :
  0 <= now <= u64_max -> 0 <= next_task_id i ->
  (forall q, next_cron_position i = Some q -> position_ok q) ->
  start_position (next_cron_position i) (now / MINUTE_MS) = Some p ->
  enqueue_due_cron now i = (Ok triggered, i') ->
  exists p', next_cron_position i' = Some p' /\ position_ok p' /\
    (forall c, now / MINUTE_MS <= c ->
       due_from (cron (registry i)) p c =
       map trig_key triggered ++ due_from (cron (registry i)) p' c) /\
    (pos_minute p' <= now / MINUTE_MS -> broker_remaining_capacity (ig_broker i') = 0) /\
    map trig_id triggered = seqZ (next_task_id i) (vec_len triggered) /\
    (forall t, t ∈ triggered -> is_Some (broker_task (ig_broker i') (trig_id t))).
Proof.
  intros Hnow Hid Hcur Hp. unfold enqueue_due_cron; unfold_monad. rewrite Hp.
  assert (Hmin : 0 <= now / MINUTE_MS < u64_max).
  { unfold MINUTE_MS, u64_max in *. split; [apply Z.div_pos; lia|apply Z.div_lt_upper_bound; lia]. }
  apply start_position_ok in Hp as ((Hpm & Hpr) & Hle & _); [|lia|done].
  destruct (cron_minutes _ p _ now [] i) as [[[tr p']|e] i1] eqn:Hm; [|done]. intros [= <- <-].
  apply cron_minutes_spec in Hm as (new & -> & En & ? & ? & Hdue & Hcap); [|done|done|done|lia|lia].
  exists p'. simpl. destruct En as (E1 & E2 & E3 & E4 & E5). by split_and!.
Qed.

End IngressThms.

(** ** Example *)

#[local] Instance ingress_serde : @EnvelopeSerde sample_json :=
  {| envelope_to_vec := fun _ => Some "{}"%string; envelope_from_slice := fun _ => None |}.

Definition sample_registry : TaskRegistry :=
  match from_definitions [{| def_name := "b"; def_kind := KindCron "* * * * *" |};
                          {| def_name := "a"; def_kind := KindCron "*/2 * * * *" |}] with
  | Ok r => r
  | Err _ => {| cron := []; queues := ∅; mcp_tools := ∅ |}
  end.

Definition sample_ingress : @TaskIngress sample_json :=
  {| ig_broker := {| scheduler := {| capacity := 3; queue := []; tasks := ∅; claims := ∅;
                                     generations := ∅ |}; outcomes := ∅ |};
     registry := sample_registry; ig_application_id := "app"; next_task_id := 1;
     next_cron_position := Some {| pos_minute := 9; pos_registration := 0 |};
     request_timeout_ms := 1000 |}.

Lemma cron_triggered_in_order_witness :
  exists triggered i' p',
    enqueue_due_cron 660000 sample_ingress = (Ok triggered, i') /\
    next_cron_position i' = Some p' /\ map trig_id triggered = [1; 2; 3].
Proof.
  destruct (enqueue_due_cron 660000 sample_ingress) as [r i'] eqn:E.
  destruct r as [triggered|e]; [|apply (f_equal fst) in E; vm_compute in E; discriminate E].
  destruct (cron_triggered_in_order 660000 sample_ingress triggered i'
    {| pos_minute := 9; pos_registration := 0 |}) as (p' & Hp & _ & _ & _ & Hids & _);
    [by vm_compute|by vm_compute|intros q [= <-]; by vm_compute|by vm_compute|exact E|].
  exists triggered, i', p'. split; [done|]. split; [done|].
  assert (vec_len triggered = 3) as Hl by (apply (f_equal fst) in E; vm_compute in E; by simplify_eq).
  rewrite Hids, Hl. reflexivity.
Defined.
