(* ===== verification/DurableTypes.v ===== *)
(** * Durable tasks: types, limits and replay ([crates/tysel-durable/src/lib.rs])

    Event kinds, stored events, the replay cursor, and the checks every store
    operation makes on its arguments. SHA-256 ([sha2]) is a parameter. *)

From Stdlib Require Import ZArith Lia Ascii String.
From stdpp Require Import base tactics list gmap strings.
From S2P Require Import Prelude Bytes TaskModel.
Open Scope Z_scope.

Definition MAX_WAKEUP_BATCH : Z := 10000.
Definition MAX_EVENT_KEY_BYTES : Z := 256.
Definition MAX_EVENT_PAYLOAD_BYTES : Z := 1048576.
Definition MAX_HISTORY_EVENTS : Z := 10000.
Definition MAX_HISTORY_BYTES : Z := 16 * 1048576.
Definition MAX_PENDING_SIGNALS : Z := 1000.
Definition MAX_DURABLE_LEASE_OWNER_BYTES : Z := 128.
Definition DURABLE_LOG_VERSION : Z := 3.
Definition MAX_DURABLE_PROGRAM_BYTES : Z := 1048576.
Definition MAX_DURABLE_PROGRAM_TOTAL_BYTES : Z := 64 * 1048576.
Definition MAX_DURABLE_PROGRAMS : Z := 10000.

(** [Sha256::digest] *)
Class Sha256 := {
  sha256 : string -> string;
}.

Class Sha256Laws (SH : Sha256) : Prop := {
  sha256_length : forall s, String.length (sha256 s) = 32%nat;
}.

(** A concrete digest, for the examples that evaluate definitions which take
    one as a parameter. *)
Definition sample_sha : Sha256 := {| sha256 s := format_fixed 16 32 (len s) |}.

Lemma sample_sha_laws : Sha256Laws sample_sha.
Proof. split. intros s. apply format_fixed_length. Qed.

Inductive EventKind := Step | Effect | Sleep | Signal | Retry | Now | Random.

#[global] Instance EventKind_eq_dec : EqDecision EventKind.
Proof. solve_decision. Defined.

Inductive DurableProgramKind := Script | Module_.

#[global] Instance DurableProgramKind_eq_dec : EqDecision DurableProgramKind.
Proof. solve_decision. Defined.

(** Failures of the database driver. A code of [rusqlite] is corruption, a broken
    constraint or anything else; Postgres errors carry whether the connection is
    closed and their SQLSTATE. *)
Inductive SqliteCode := DatabaseCorrupt | NotADatabase | ConstraintViolation | OtherCode.
Inductive DriverError :=
| DriverIo
| SqliteFailure (code : SqliteCode)
| SqlInputError
| SqliteOther
| PostgresFailure (closed : bool) (sqlstate : option string)
| PostgresPool
| PostgresConfiguration
| LockPoisoned
| InvalidLogVersion
| UnsupportedLogVersion (found supported : Z).

Inductive DurableError :=
| DriverFailed (e : DriverError)
| ExecutionLeaseLost
| AdmissionConflict
| InvalidIdempotencyKey
| TaskCompleted (id : TaskId)
| TaskSuspended (id : TaskId)
| SqliteConstraint
| DurableJson
| InvalidEventKind (raw : string)
| DurableInvalidTaskId
| IntegerRange (field : string)
| EventKeyTooLarge
| EventPayloadTooLarge
| HistoryConflict (expected actual : Z)
| HistoryEventLimit
| HistoryByteLimit
| DurableInvalidLeaseOwner
| InvalidSignalName
| SignalWaitConflict
| WakeupClaimRequired
| SignalInboxLimit
| InvalidProgram
| ProgramLimit
| ProgramByteLimit
| ProgramConflict (id : TaskId)
| ProgramInUse (id : TaskId)
| InvalidProgramKind (raw : string)
| InvalidProgramDigest.

(** [DurableError::is_retryable] *)
Definition is_retryable (e : DurableError) : bool :=
  match e with
  | DriverFailed (SqliteFailure OtherCode) | DriverFailed SqlInputError => true
  | DriverFailed DriverIo | DriverFailed PostgresPool => true
  | DriverFailed (PostgresFailure closed sqlstate) =>
      closed || match sqlstate with
                | Some code => existsb (fun prefix => starts_with prefix code)
                                 ["08"; "40"; "53"; "55"; "57"; "58"]%string
                | None => false
                end
  | _ => false
  end.

Definition EventKind_as_str (k : EventKind) : string :=
  match k with
  | Step => "step" | Effect => "effect" | Sleep => "sleep" | Signal => "signal"
  | Retry => "retry" | Now => "now" | Random => "random"
  end.

Definition EventKind_parse (raw : string) : result DurableError EventKind :=
  if String.eqb raw "step" then Ok Step
  else if String.eqb raw "effect" then Ok Effect
  else if String.eqb raw "sleep" then Ok Sleep
  else if String.eqb raw "signal" then Ok Signal
  else if String.eqb raw "retry" then Ok Retry
  else if String.eqb raw "now" then Ok Now
  else if String.eqb raw "random" then Ok Random
  else Err (InvalidEventKind raw).

Definition ProgramKind_as_str (k : DurableProgramKind) : string :=
  match k with Script => "script" | Module_ => "module" end.

Definition ProgramKind_parse (raw : string) : result DurableError DurableProgramKind :=
  if String.eqb raw "script" then Ok Script
  else if String.eqb raw "module" then Ok Module_
  else Err (InvalidProgramKind raw).

Lemma EventKind_roundtrip k : EventKind_parse (EventKind_as_str k) = Ok k.
Proof. by destruct k. Qed.

Lemma ProgramKind_roundtrip k : ProgramKind_parse (ProgramKind_as_str k) = Ok k.
Proof. by destruct k. Qed.

(** [to_sql_integer], [from_sql_integer]: u64 to SQLite's i64 and back. *)
Definition to_sql_integer (value : Z) (field : string) : result DurableError Z :=
  ok_or (i64_try_from value) (IntegerRange field).
Definition from_sql_integer (value : Z) (field : string) : result DurableError Z :=
  ok_or (u64_try_from value) (IntegerRange field).

Definition task_id_bytes (id : TaskId) : string := to_be_bytes 16 id.
Definition task_id_from_bytes (b : string) : result DurableError TaskId :=
  if Nat.eqb (String.length b) 16 then Ok (from_be_bytes b) else Err DurableInvalidTaskId.

Lemma task_id_bytes_roundtrip id : is_u128 id = true -> task_id_from_bytes (task_id_bytes id) = Ok id.
Proof.
  intros H. apply in_range_spec in H. unfold u128_max in H.
  unfold task_id_from_bytes, task_id_bytes. rewrite to_be_bytes_length. simpl.
  by rewrite from_to_be_bytes by (simpl; lia).
Qed.

(** ** Argument checks *)

Definition validate_program_source (source : string) : result DurableError () :=
  if str_is_empty source || (MAX_DURABLE_PROGRAM_BYTES <? len source) then Err InvalidProgram else Ok ().

Definition durable_validate_lease_owner (owner : string) : result DurableError () :=
  if str_is_empty owner || (MAX_DURABLE_LEASE_OWNER_BYTES <? len owner)
  then Err DurableInvalidLeaseOwner else Ok ().

Definition validate_signal_name (name : string) : result DurableError () :=
  if str_is_empty name || (MAX_EVENT_KEY_BYTES <? len name) then Err InvalidSignalName else Ok ().

Definition validate_key (key : string) : result DurableError () :=
  if str_is_empty key || (256 <? len key) then Err InvalidIdempotencyKey else Ok ().

(** [format!("{:x}", digest)]: two lower-case digits per byte. *)
Fixpoint to_hex (s : string) : string :=
  match s with
  | EmptyString => EmptyString
  | String c s' => append (format_fixed 16 2 (byte_code c)) (to_hex s')
  end.

(** [admission_task_id] *)
Definition admission_task_id `{Sha256} (key : string) : result DurableError TaskId :=
  validate_key key;;
  Ok (from_be_bytes (str_take 16 (sha256 ("tysel:admission:v1:" ++ key)%string))).

Section Events.
Context {SJ : SerdeJson}.

Record NewEvent := {
  ne_kind : EventKind;
  ne_key : string;
  ne_payload : Value;
  ne_recorded_at_ms : Z;
}.

Record TaskEvent := {
  te_task_id : TaskId;
  te_sequence : Z;
  te_kind : EventKind;
  te_key : string;
  te_payload : Value;
  te_recorded_at_ms : Z;
  te_payload_json : string;
}.

Record History := { h_task_id : TaskId; h_events : list TaskEvent }.

Definition validate_event (e : NewEvent) : result DurableError (string * Z) :=
  if MAX_EVENT_KEY_BYTES <? len (ne_key e) then Err EventKeyTooLarge
  else
    payload ← ok_or (json_to_string (ne_payload e)) DurableJson;
    if MAX_EVENT_PAYLOAD_BYTES <? len payload then Err EventPayloadTooLarge
    else
      at_ms ← to_sql_integer (ne_recorded_at_ms e) "recorded_at_ms";
      Ok (payload, at_ms).

Definition raw_event (kind : EventKind) (key payload_json : string) (recorded_at_ms : Z)
    : result DurableError NewEvent :=
  if MAX_EVENT_KEY_BYTES <? len key then Err EventKeyTooLarge
  else if MAX_EVENT_PAYLOAD_BYTES <? len payload_json then Err EventPayloadTooLarge
  else
    payload ← ok_or (json_from_str payload_json) DurableJson;
    Ok {| ne_kind := kind; ne_key := key; ne_payload := payload; ne_recorded_at_ms := recorded_at_ms |}.

Definition stored_event (id : TaskId) (sequence : Z) (e : NewEvent) (payload_json : string)
    : result DurableError TaskEvent :=
  seq ← from_sql_integer sequence "sequence";
  Ok {| te_task_id := id; te_sequence := seq; te_kind := ne_kind e; te_key := ne_key e;
        te_payload := ne_payload e; te_recorded_at_ms := ne_recorded_at_ms e;
        te_payload_json := payload_json |}.

(** ** Replay *)

Inductive ReplayError :=
| Mismatch (sequence : Z) (expected_kind : EventKind) (expected_key : string)
    (actual_kind : EventKind) (actual_key : string)
| HistoryRemaining (sequence : Z) (kind : EventKind) (key : string).

Record ReplayCursor := { rc_events : list TaskEvent; rc_position : Z }.

Definition replay (h : History) : ReplayCursor := {| rc_events := h_events h; rc_position := 0 |}.

Definition event_at (c : ReplayCursor) : option TaskEvent := rc_events c !! Z.to_nat (rc_position c).

Definition consume_event (kind : EventKind) (key : string)
    : M ReplayCursor ReplayError (option TaskEvent) := fun c =>
  match event_at c with
  | None => (Ok None, c)
  | Some e =>
      if negb (bool_decide (te_kind e = kind)) || negb (String.eqb (te_key e) key)
      then (Err (Mismatch (te_sequence e) (te_kind e) (te_key e) kind key), c)
      else (Ok (Some e), {| rc_events := rc_events c; rc_position := rc_position c + 1 |})
  end.

Definition consume (kind : EventKind) (key : string) : M ReplayCursor ReplayError (option Value) :=
  e ← consume_event kind key; mret (te_payload <$> e).

Definition event_matches (kind : EventKind) (key : string) (e : TaskEvent) : bool :=
  bool_decide (te_kind e = kind) && String.eqb (te_key e) key.

(** [Iterator::position] *)
Fixpoint find_position {A} (p : A -> bool) (l : list A) : option Z :=
  match l with
  | [] => None
  | x :: l' => if p x then Some 0 else (fun n => n + 1) <$> find_position p l'
  end.

Definition consume_through (kind : EventKind) (key : string) (c : ReplayCursor)
    : option TaskEvent * ReplayCursor :=
  match find_position (event_matches kind key) (drop (Z.to_nat (rc_position c)) (rc_events c)) with
  | None => (None, c)
  | Some offset =>
      let c' := {| rc_events := rc_events c; rc_position := rc_position c + (offset + 1) |} in
      (rc_events c !! Z.to_nat (rc_position c' - 1), c')
  end.

Definition ensure_consumed (c : ReplayCursor) : result ReplayError () :=
  match event_at c with
  | Some e => Err (HistoryRemaining (te_sequence e) (te_kind e) (te_key e))
  | None => Ok ()
  end.

End Events.

(** [Wakeup], [WakeupClaim], [SignalWait], [ExecutionClaim], [DurableProgram], [TaskCompletion] *)
Record Wakeup := { wk_task_id : TaskId; wk_sequence : Z; wk_wake_at_ms : Z }.

Record WakeupClaim := {
  wc_task_id : TaskId;
  wc_sequence : Z;
  wc_wake_at_ms : Z;
  wc_lease_owner : string;
  wc_lease_until_ms : Z;
}.

Record SignalWait := { swt_task_id : TaskId; swt_sequence : Z; swt_name : string }.

Record ExecutionClaim := {
  xc_task_id : TaskId;
  xc_owner : string;
  xc_generation : Z;
  xc_lease_until_ms : Z;
  xc_wakeup : option WakeupClaim;
}.

Record DurableProgram := {
  dp_task_id : TaskId;
  dp_kind : DurableProgramKind;
  dp_source : string;
  dp_source_sha256 : string;
  dp_registered_at_ms : Z;
}.

Record TaskCompletion {SJ : SerdeJson} := {
  cp_task_id : TaskId;
  cp_next_sequence : Z;
  cp_value : Value;
  cp_completed_at_ms : Z;
}.

(** [ORDER BY task_id] on the blobs is the numeric order. *)
Lemma task_id_order a b :
  is_u128 a = true -> is_u128 b = true ->
  String.compare (task_id_bytes a) (task_id_bytes b) = (a ?= b).
Proof.
  intros Ha Hb. unfold task_id_bytes. rewrite from_be_bytes_compare by (by rewrite !to_be_bytes_length).
  apply in_range_spec in Ha, Hb. unfold u128_max in *.
  by rewrite !from_to_be_bytes by (simpl; lia).
Qed.
