(* ===== verification/DurableDb.v ===== *)
(** * The durable SQLite database and its transactions

    The tables of [initialize_schema] (lib.rs, execution.rs, lifecycle.rs) as a
    record, one field per table: tables keyed by task id are finite maps, the
    events of one task are a list of rows, the signal inbox is a list of rows in
    insertion order with its AUTOINCREMENT counter. Task ids are stored as
    big-endian blobs, whose byte order is the numeric order ([task_id_order]).

    A transaction body works on its own copy. [run_tx] keeps the copy when the
    body committed and drops it when the body returned without committing or
    failed. The connection is behind a mutex and transactions are IMMEDIATE, so
    a whole operation is one step. *)

From Stdlib Require Import ZArith Lia Ascii String.
From stdpp Require Import base tactics list gmap strings.
From S2P Require Import Prelude Bytes TaskModel DurableTypes.
Open Scope Z_scope.

Record EventRow := {
  er_sequence : Z; er_kind : string; er_key : string; er_payload : string; er_recorded_at_ms : Z }.
Record WakeupRow := {
  wr_sequence : Z; wr_wake_at_ms : Z; wr_lease_owner : option string; wr_lease_until_ms : option Z }.
Record StatsRow := { hs_event_count : Z; hs_payload_bytes : Z }.
Record SignalRow := {
  sr_id : Z; sr_task_id : TaskId; sr_name : string; sr_payload : string; sr_sent_at_ms : Z }.
Record WaitRow := { sw_sequence : Z; sw_name : string }.
Record ProgramRow := {
  pr_kind : string; pr_source : string; pr_sha256 : string; pr_registered_at_ms : Z }.
Record CompletionRow := { cr_next_sequence : Z; cr_result_json : string; cr_completed_at_ms : Z }.
Inductive ExecutionState := ExReady | ExRunning | ExSuspended | ExFailed | ExCompleted.
Record ExecutionRow := {
  ex_state : ExecutionState; ex_generation : Z; ex_owner : option string;
  ex_lease_until_ms : option Z; ex_admission_key : option string; ex_request_hash : option string }.
Record ReceiptRow := { rr_name : string; rr_payload : string; rr_signal_id : Z }.

#[global] Instance ExecutionState_eq_dec : EqDecision ExecutionState.
Proof. solve_decision. Defined.

Record Db := {
  durable_events : gmap TaskId (list EventRow);
  durable_wakeups : gmap TaskId WakeupRow;
  durable_history_stats : gmap TaskId StatsRow;
  durable_signal_inbox : list SignalRow;
  signal_inbox_next_id : Z;
  durable_signal_waits : gmap TaskId WaitRow;
  durable_programs : gmap TaskId ProgramRow;
  durable_completions : gmap TaskId CompletionRow;
  active_count : Z;
  active_bytes : Z;
  durable_executions : gmap TaskId ExecutionRow;
  durable_signal_receipts : gmap (TaskId * string) ReceiptRow;
}.

Definition empty_db : Db := {|
  durable_events := ∅; durable_wakeups := ∅; durable_history_stats := ∅;
  durable_signal_inbox := []; signal_inbox_next_id := 1; durable_signal_waits := ∅;
  durable_programs := ∅; durable_completions := ∅; active_count := 0; active_bytes := 0;
  durable_executions := ∅; durable_signal_receipts := ∅ |}.

Definition set_events (t : gmap TaskId (list EventRow)) (d : Db) : Db := {|
  durable_events := t; durable_wakeups := durable_wakeups d;
  durable_history_stats := durable_history_stats d; durable_signal_inbox := durable_signal_inbox d;
  signal_inbox_next_id := signal_inbox_next_id d; durable_signal_waits := durable_signal_waits d;
  durable_programs := durable_programs d; durable_completions := durable_completions d;
  active_count := active_count d; active_bytes := active_bytes d;
  durable_executions := durable_executions d; durable_signal_receipts := durable_signal_receipts d |}.
Definition set_wakeups (t : gmap TaskId WakeupRow) (d : Db) : Db := {|
  durable_events := durable_events d; durable_wakeups := t;
  durable_history_stats := durable_history_stats d; durable_signal_inbox := durable_signal_inbox d;
  signal_inbox_next_id := signal_inbox_next_id d; durable_signal_waits := durable_signal_waits d;
  durable_programs := durable_programs d; durable_completions := durable_completions d;
  active_count := active_count d; active_bytes := active_bytes d;
  durable_executions := durable_executions d; durable_signal_receipts := durable_signal_receipts d |}.
Definition set_history_stats (t : gmap TaskId StatsRow) (d : Db) : Db := {|
  durable_events := durable_events d; durable_wakeups := durable_wakeups d;
  durable_history_stats := t; durable_signal_inbox := durable_signal_inbox d;
  signal_inbox_next_id := signal_inbox_next_id d; durable_signal_waits := durable_signal_waits d;
  durable_programs := durable_programs d; durable_completions := durable_completions d;
  active_count := active_count d; active_bytes := active_bytes d;
  durable_executions := durable_executions d; durable_signal_receipts := durable_signal_receipts d |}.
Definition set_inbox (t : list SignalRow) (n : Z) (d : Db) : Db := {|
  durable_events := durable_events d; durable_wakeups := durable_wakeups d;
  durable_history_stats := durable_history_stats d; durable_signal_inbox := t;
  signal_inbox_next_id := n; durable_signal_waits := durable_signal_waits d;
  durable_programs := durable_programs d; durable_completions := durable_completions d;
  active_count := active_count d; active_bytes := active_bytes d;
  durable_executions := durable_executions d; durable_signal_receipts := durable_signal_receipts d |}.
Definition set_waits (t : gmap TaskId WaitRow) (d : Db) : Db := {|
  durable_events := durable_events d; durable_wakeups := durable_wakeups d;
  durable_history_stats := durable_history_stats d; durable_signal_inbox := durable_signal_inbox d;
  signal_inbox_next_id := signal_inbox_next_id d; durable_signal_waits := t;
  durable_programs := durable_programs d; durable_completions := durable_completions d;
  active_count := active_count d; active_bytes := active_bytes d;
  durable_executions := durable_executions d; durable_signal_receipts := durable_signal_receipts d |}.
Definition set_programs (t : gmap TaskId ProgramRow) (d : Db) : Db := {|
  durable_events := durable_events d; durable_wakeups := durable_wakeups d;
  durable_history_stats := durable_history_stats d; durable_signal_inbox := durable_signal_inbox d;
  signal_inbox_next_id := signal_inbox_next_id d; durable_signal_waits := durable_signal_waits d;
  durable_programs := t; durable_completions := durable_completions d;
  active_count := active_count d; active_bytes := active_bytes d;
  durable_executions := durable_executions d; durable_signal_receipts := durable_signal_receipts d |}.
Definition set_completions (t : gmap TaskId CompletionRow) (d : Db) : Db := {|
  durable_events := durable_events d; durable_wakeups := durable_wakeups d;
  durable_history_stats := durable_history_stats d; durable_signal_inbox := durable_signal_inbox d;
  signal_inbox_next_id := signal_inbox_next_id d; durable_signal_waits := durable_signal_waits d;
  durable_programs := durable_programs d; durable_completions := t;
  active_count := active_count d; active_bytes := active_bytes d;
  durable_executions := durable_executions d; durable_signal_receipts := durable_signal_receipts d |}.
Definition set_program_stats (c b : Z) (d : Db) : Db := {|
  durable_events := durable_events d; durable_wakeups := durable_wakeups d;
  durable_history_stats := durable_history_stats d; durable_signal_inbox := durable_signal_inbox d;
  signal_inbox_next_id := signal_inbox_next_id d; durable_signal_waits := durable_signal_waits d;
  durable_programs := durable_programs d; durable_completions := durable_completions d;
  active_count := c; active_bytes := b;
  durable_executions := durable_executions d; durable_signal_receipts := durable_signal_receipts d |}.
Definition set_executions (t : gmap TaskId ExecutionRow) (d : Db) : Db := {|
  durable_events := durable_events d; durable_wakeups := durable_wakeups d;
  durable_history_stats := durable_history_stats d; durable_signal_inbox := durable_signal_inbox d;
  signal_inbox_next_id := signal_inbox_next_id d; durable_signal_waits := durable_signal_waits d;
  durable_programs := durable_programs d; durable_completions := durable_completions d;
  active_count := active_count d; active_bytes := active_bytes d;
  durable_executions := t; durable_signal_receipts := durable_signal_receipts d |}.
Definition set_receipts (t : gmap (TaskId * string) ReceiptRow) (d : Db) : Db := {|
  durable_events := durable_events d; durable_wakeups := durable_wakeups d;
  durable_history_stats := durable_history_stats d; durable_signal_inbox := durable_signal_inbox d;
  signal_inbox_next_id := signal_inbox_next_id d; durable_signal_waits := durable_signal_waits d;
  durable_programs := durable_programs d; durable_completions := durable_completions d;
  active_count := active_count d; active_bytes := active_bytes d;
  durable_executions := durable_executions d; durable_signal_receipts := t |}.

(** ** Transactions *)

(** The transaction's copy of the database, and how often the clock was read. *)
Record TxState := { tx_db : Db; tx_reads : nat }.
Definition Tx (A : Type) : Type := M TxState DurableError A.

Definition get_db : Tx Db := fun s => (Ok (tx_db s), s).
Definition put_db (f : Db -> Db) : Tx () := fun s =>
  (Ok (), {| tx_db := f (tx_db s); tx_reads := tx_reads s |}).

(** [now()]: successive readings of the system clock. *)
Definition read_clock (clock : nat -> Z) : Tx Z := fun s =>
  (Ok (clock (tx_reads s)), {| tx_db := tx_db s; tx_reads := S (tx_reads s) |}).

(** How a body ends when it does not fail: [commit] then a value, or a value
    with the transaction dropped. *)
Inductive Ending (A : Type) := Committed_ (a : A) | RolledBack (a : A).
Arguments Committed_ {A} _.
Arguments RolledBack {A} _.

Definition commit {A} (a : A) : Tx (Ending A) := mret (Committed_ a).
Definition rollback {A} (a : A) : Tx (Ending A) := mret (RolledBack a).

Definition run_tx {A} (body : Tx (Ending A)) (d : Db) : result DurableError A * Db :=
  match body {| tx_db := d; tx_reads := 0 |} with
  | (Ok (Committed_ a), s) => (Ok a, tx_db s)
  | (Ok (RolledBack a), _) => (Ok a, d)
  | (Err e, _) => (Err e, d)
  end.

(** What an operation does with its transaction's value after the commit. *)
Definition and_then {A B} (r : result DurableError A * Db) (f : A -> result DurableError B)
    : result DurableError B * Db := (mbind f r.1, r.2).

(** [UPDATE durable_program_stats ..]: the CHECK constraints keep both columns
    non-negative. *)
Definition update_program_stats (dcount dbytes : Z) : Tx () :=
  d ← get_db;
  if (0 <=? active_count d + dcount) && (0 <=? active_bytes d + dbytes)
  then put_db (set_program_stats (active_count d + dcount) (active_bytes d + dbytes))
  else throw SqliteConstraint.

(** The rows of one task's history, and [COALESCE(MAX(sequence) + 1, 0)]. *)
Definition task_events (d : Db) (id : TaskId) : list EventRow := default [] (durable_events d !! id).
Definition next_sequence (rows : list EventRow) : Z :=
  foldr (fun r acc => Z.max (er_sequence r + 1) acc) 0 rows.

(** [ORDER BY a, b]: a stable insertion sort on a pair of integers. *)
Definition pair_le (a b : Z * Z) : bool := (a.1 <? b.1) || ((a.1 =? b.1) && (a.2 <=? b.2)).
Fixpoint insert_ordered {A} (key : A -> Z * Z) (x : A) (l : list A) : list A :=
  match l with
  | [] => [x]
  | y :: l' => if pair_le (key x) (key y) then x :: l else y :: insert_ordered key x l'
  end.
Definition order_by {A} (key : A -> Z * Z) (l : list A) : list A := foldr (insert_ordered key) [] l.

(** [ORDER BY sequence] *)
Definition order_events (rows : list EventRow) : list EventRow :=
  order_by (fun r => (er_sequence r, 0)) rows.
