(* ===== verification/DurableStore.v ===== *)
(** * The SQLite durable store ([crates/tysel-durable/src/lib.rs])

    [SqliteStore]'s operations on programs, events, wakeups and signals. Every
    operation takes the readings of the system clock as a stream ([clock]) and
    the execution the store handle is scoped to ([scope]); SHA-256 and JSON are
    parameters. I/O failures of the database itself are not modelled. *)

From Stdlib Require Import ZArith Lia Ascii String.
From stdpp Require Import base tactics list gmap strings.
From S2P Require Import Prelude Bytes TaskModel DurableTypes DurableDb.
Open Scope Z_scope.

Section Store.
Context {SJ : SerdeJson} {SH : Sha256}.

(** ** Guards and selections *)

(** [lifecycle::ensure_open] *)
Definition ensure_open (id : TaskId) : Tx () :=
  d ← get_db;
  match durable_completions d !! id with
  | Some _ => throw (TaskCompleted id)
  | None => mret ()
  end.

(** [SqliteStore::guard_execution] *)
Definition guard_execution (clock : nat -> Z) (scope : option ExecutionClaim) (id : TaskId) : Tx () :=
  match scope with
  | None => mret ()
  | Some c =>
      generation ← lift (to_sql_integer (xc_generation c) "generation");
      time ← read_clock clock;
      time ← lift (to_sql_integer time "time");
      d ← get_db;
      let valid :=
        match durable_executions d !! id with
        | Some r =>
            bool_decide (ex_state r = ExRunning) && bool_decide (ex_owner r = Some (xc_owner c))
            && (ex_generation r =? generation)
            && match ex_lease_until_ms r with Some u => time <? u | None => false end
        | None => false
        end in
      if negb (id =? xc_task_id c) || negb valid then throw ExecutionLeaseLost else mret ()
  end.

Definition decode_program (id : TaskId) (r : ProgramRow) : result DurableError DurableProgram :=
  validate_program_source (pr_source r);;
  if negb (Nat.eqb (String.length (pr_sha256 r)) 32) then Err InvalidProgramDigest
  else if negb (String.eqb (pr_sha256 r) (sha256 (pr_source r))) then Err InvalidProgramDigest
  else
    kind ← ProgramKind_parse (pr_kind r);
    at_ms ← from_sql_integer (pr_registered_at_ms r) "registered_at_ms";
    Ok {| dp_task_id := id; dp_kind := kind; dp_source := pr_source r;
          dp_source_sha256 := pr_sha256 r; dp_registered_at_ms := at_ms |}.

Definition select_program (d : Db) (id : TaskId) : result DurableError (option DurableProgram) :=
  match durable_programs d !! id with
  | None => Ok None
  | Some r => p ← decode_program id r; Ok (Some p)
  end.

(** ** Programs *)

Definition put_program_inner (id : TaskId) (kind : DurableProgramKind) (source : string)
    (registered_at_ms : Z) (d : Db) : result DurableError (option DurableProgram) * Db :=
  match validate_program_source source, to_sql_integer registered_at_ms "registered_at_ms" with
  | Err e, _ => (Err e, d)
  | _, Err e => (Err e, d)
  | Ok _, Ok at_ms =>
      let digest := sha256 source in
      run_tx (
        ensure_open id;;
        d ← get_db;
        existing ← lift (select_program d id);
        match existing with
        | Some p =>
            if negb (bool_decide (dp_kind p = kind)) || negb (String.eqb (dp_source_sha256 p) digest)
               || negb (String.eqb (dp_source p) source)
            then throw (ProgramConflict id)
            else commit (Some p)
        | None =>
            if MAX_DURABLE_PROGRAMS <=? active_count d then throw ProgramLimit
            else
              match checked_add_i64 (active_bytes d) (len source) with
              | None => throw ProgramByteLimit
              | Some bytes =>
                  if MAX_DURABLE_PROGRAM_TOTAL_BYTES <? bytes then throw ProgramByteLimit
                  else
                    put_db (fun d => set_programs (<[id := {| pr_kind := ProgramKind_as_str kind;
                      pr_source := source; pr_sha256 := digest; pr_registered_at_ms := at_ms |}]>
                      (durable_programs d)) d);;
                    update_program_stats 1 (len source);;
                    commit None
              end
        end) d
  end.

Definition put_program (id : TaskId) := put_program_inner id Script.
Definition put_module (id : TaskId) := put_program_inner id Module_.

Definition program (id : TaskId) (d : Db) : result DurableError (option DurableProgram) :=
  select_program d id.

(** [decode_program_rows] *)
Fixpoint decode_program_rows (rows : list (TaskId * ProgramRow)) (programs : list DurableProgram)
    (total_bytes : Z) : result DurableError (list DurableProgram) :=
  match rows with
  | [] => Ok programs
  | (id, r) :: rows' =>
      if MAX_DURABLE_PROGRAMS <=? vec_len programs then Err ProgramLimit
      else
        validate_program_source (pr_source r);;
        total ← ok_or (checked_add u64_max total_bytes (len (pr_source r))) ProgramByteLimit;
        if MAX_DURABLE_PROGRAM_TOTAL_BYTES <? total then Err ProgramByteLimit
        else
          p ← decode_program id r;
          decode_program_rows rows' (programs ++ [p]) total
  end.

Definition not_completed (d : Db) (id : TaskId) : bool :=
  match durable_completions d !! id with Some _ => false | None => true end.

(** [SqliteStore::load_programs] *)
Definition load_programs (d : Db) : result DurableError (list DurableProgram) :=
  decode_program_rows
    (takeZ (MAX_DURABLE_PROGRAMS + 1)
       (order_by (fun kv => (kv.1, 0))
          (filter (fun kv => not_completed d kv.1 = true) (map_to_list (durable_programs d)))))
    [] 0.

(** The [due] common table expression: task ids with the time they became due. *)
Definition lease_expired (until : option Z) (now : Z) : bool :=
  match until with None => true | Some u => u <=? now end.

Definition due_wakeups (d : Db) (now : Z) : list (TaskId * Z) :=
  omap (fun kv : TaskId * WakeupRow =>
    let '(id, w) := kv in
    let r := durable_executions d !! id in
    if (wr_wake_at_ms w <=? now) && lease_expired (wr_lease_until_ms w) now
       && match r with
          | None => true
          | Some r => bool_decide (ex_state r = ExReady) || bool_decide (ex_state r = ExRunning)
                      || bool_decide (ex_state r = ExSuspended)
          end
       && lease_expired (r ≫= ex_lease_until_ms) now
    then Some (id, wr_wake_at_ms w) else None)
  (map_to_list (durable_wakeups d)).

Definition due_executions (d : Db) (now : Z) : list (TaskId * Z) :=
  omap (fun kv : TaskId * ExecutionRow =>
    let '(id, r) := kv in
    if (bool_decide (ex_state r = ExReady) || bool_decide (ex_state r = ExRunning))
       && lease_expired (ex_lease_until_ms r) now
       && match durable_wakeups d !! id with Some _ => false | None => true end
       && match durable_signal_waits d !! id with Some _ => false | None => true end
    then Some (id, default 0 (ex_lease_until_ms r)) else None)
  (map_to_list (durable_executions d)).

(** [SqliteStore::load_due_programs_batch] *)
Definition load_due_programs_batch (now_ms : Z) (kind : DurableProgramKind) (limit : Z) (d : Db)
    : result DurableError (list DurableProgram) :=
  now ← to_sql_integer now_ms "now_ms";
  let joined :=
    omap (fun due : TaskId * Z =>
      match durable_programs d !! due.1 with
      | Some r => if String.eqb (pr_kind r) (ProgramKind_as_str kind) && not_completed d due.1
                  then Some (due.1, due.2, r) else None
      | None => None
      end) (due_wakeups d now ++ due_executions d now) in
  decode_program_rows
    (map (fun x => (x.1.1, x.2))
       (takeZ (Z.min limit MAX_DURABLE_PROGRAMS) (order_by (fun x => (x.1.2, x.1.1)) joined)))
    [] 0.

Definition load_due_programs_by_kind (now_ms : Z) (kind : DurableProgramKind) :=
  load_due_programs_batch now_ms kind MAX_DURABLE_PROGRAMS.
Definition load_due_programs (now_ms : Z) := load_due_programs_by_kind now_ms Script.

Definition has_signals (d : Db) (id : TaskId) : bool :=
  existsb (fun r => sr_task_id r =? id) (durable_signal_inbox d).

(** [SqliteStore::remove_program] *)
Definition remove_program (id : TaskId) (d : Db) : result DurableError (option DurableProgram) * Db :=
  run_tx (
    ensure_open id;;
    d ← get_db;
    existing ← lift (select_program d id);
    match existing with
    | None => commit None
    | Some p =>
        let in_use :=
          match task_events d id with [] => false | _ => true end
          || match durable_wakeups d !! id with Some _ => true | None => false end
          || has_signals d id
          || match durable_signal_waits d !! id with Some _ => true | None => false end in
        if in_use then throw (ProgramInUse id)
        else
          update_program_stats (-1) (- len (dp_source p));;
          put_db (fun d => set_programs (delete id (durable_programs d)) d);;
          commit (Some p)
    end) d.

Definition program_count (d : Db) : result DurableError Z :=
  ok_or (u64_try_from (active_count d)) ProgramLimit.

(** ** Events *)

(** [insert_event]: the sequence it gave the event. *)
Definition insert_event (id : TaskId) (expected : option Z) (kind : EventKind) (key payload : string)
    (recorded_at_ms : Z) : Tx Z :=
  ensure_open id;;
  let event_bytes := len key + len payload in
  d ← get_db;
  let stats := default {| hs_event_count := 0; hs_payload_bytes := 0 |} (durable_history_stats d !! id) in
  if MAX_HISTORY_EVENTS <=? hs_event_count stats then throw HistoryEventLimit
  else
    next_bytes ← lift (ok_or (checked_add_i64 (hs_payload_bytes stats) event_bytes) HistoryByteLimit);
    if MAX_HISTORY_BYTES <? next_bytes then throw HistoryByteLimit
    else
      let sequence := next_sequence (task_events d id) in
      match expected with
      | None => mret ()
      | Some expected =>
          actual ← lift (from_sql_integer sequence "sequence");
          if negb (actual =? expected) then throw (HistoryConflict expected actual) else mret ()
      end;;
      put_db (fun d => set_events (<[id := task_events d id ++
        [{| er_sequence := sequence; er_kind := EventKind_as_str kind; er_key := key;
            er_payload := payload; er_recorded_at_ms := recorded_at_ms |}]]> (durable_events d)) d);;
      put_db (fun d => set_history_stats (<[id := {|
        hs_event_count := hs_event_count stats + 1;
        hs_payload_bytes := hs_payload_bytes stats + event_bytes |}]> (durable_history_stats d)) d);;
      mret sequence.

(** [upsert_wakeup] *)
Definition upsert_wakeup (id : TaskId) (sequence wake_at_ms : Z) : Tx () :=
  put_db (fun d => set_wakeups (<[id := {| wr_sequence := sequence; wr_wake_at_ms := wake_at_ms;
    wr_lease_owner := None; wr_lease_until_ms := None |}]> (durable_wakeups d)) d).

(** The transaction the four append operations share: guard, insert, optional
    wakeup, guard, commit. *)
Definition append_tx (clock : nat -> Z) (scope : option ExecutionClaim) (id : TaskId)
    (expected : option Z) (kind : EventKind) (key payload : string) (recorded : Z)
    (wake_at : option Z) : Tx (Ending Z) :=
  guard_execution clock scope id;;
  sequence ← insert_event id expected kind key payload recorded;
  match wake_at with
  | Some at_ms => upsert_wakeup id sequence at_ms
  | None => mret ()
  end;;
  guard_execution clock scope id;;
  commit sequence.

(** [append_event_inner] and [append_event_with_wakeup_inner] *)
Definition append_event_inner (clock : nat -> Z) (scope : option ExecutionClaim) (id : TaskId)
    (expected : option Z) (e : NewEvent) (wake_at_ms : option Z) (d : Db)
    : result DurableError TaskEvent * Db :=
  match validate_event e with
  | Err er => (Err er, d)
  | Ok (payload, recorded) =>
      match match wake_at_ms with
            | None => Ok None
            | Some w => w' ← to_sql_integer w "wake_at_ms"; Ok (Some w')
            end with
      | Err er => (Err er, d)
      | Ok wake =>
          and_then (run_tx (append_tx clock scope id expected (ne_kind e) (ne_key e) payload recorded wake) d)
            (fun sequence => stored_event id sequence e payload)
      end
  end.

Definition append_event clock scope id e := append_event_inner clock scope id None e None.
Definition append_event_at clock scope id expected e :=
  append_event_inner clock scope id (Some expected) e None.
Definition append_event_with_wakeup clock scope id e wake_at_ms :=
  append_event_inner clock scope id None e (Some wake_at_ms).
Definition append_event_with_wakeup_at clock scope id expected e wake_at_ms :=
  append_event_inner clock scope id (Some expected) e (Some wake_at_ms).

(** [append_event_json_at] and [append_event_json_with_wakeup_at] *)
Definition append_event_json_inner (clock : nat -> Z) (scope : option ExecutionClaim) (id : TaskId)
    (expected : Z) (kind : EventKind) (key payload_json : string) (recorded_at_ms : Z)
    (wake_at_ms : option Z) (d : Db) : result DurableError TaskEvent * Db :=
  match (e ← raw_event kind key payload_json recorded_at_ms;
         recorded ← to_sql_integer recorded_at_ms "recorded_at_ms";
         wake ← match wake_at_ms with
                | None => Ok None
                | Some w => w' ← to_sql_integer w "wake_at_ms"; Ok (Some w')
                end;
         Ok (e, recorded, wake)) with
  | Err er => (Err er, d)
  | Ok (e, recorded, wake) =>
      and_then (run_tx (append_tx clock scope id (Some expected) (ne_kind e) (ne_key e)
                          payload_json recorded wake) d)
        (fun sequence => stored_event id sequence e payload_json)
  end.

Definition append_event_json_at clock scope id expected kind key payload_json recorded_at_ms :=
  append_event_json_inner clock scope id expected kind key payload_json recorded_at_ms None.
Definition append_event_json_with_wakeup_at clock scope id expected key payload_json recorded_at_ms wake_at_ms :=
  append_event_json_inner clock scope id expected Sleep key payload_json recorded_at_ms (Some wake_at_ms).

(** The loop of [load_history]. *)
Fixpoint decode_history (id : TaskId) (rows : list EventRow) (events : list TaskEvent) (bytes : Z)
    : result DurableError (list TaskEvent) :=
  match rows with
  | [] => Ok events
  | r :: rows' =>
      if MAX_HISTORY_EVENTS <=? vec_len events then Err HistoryEventLimit
      else
        b1 ← ok_or (checked_add u64_max bytes (len (er_key r))) HistoryByteLimit;
        b2 ← ok_or (checked_add u64_max b1 (len (er_payload r))) HistoryByteLimit;
        if MAX_HISTORY_BYTES <? b2 then Err HistoryByteLimit
        else
          seq ← from_sql_integer (er_sequence r) "sequence";
          kind ← EventKind_parse (er_kind r);
          payload ← ok_or (json_from_str (er_payload r)) DurableJson;
          at_ms ← from_sql_integer (er_recorded_at_ms r) "recorded_at_ms";
          decode_history id rows' (events ++ [{| te_task_id := id; te_sequence := seq; te_kind := kind;
            te_key := er_key r; te_payload := payload; te_recorded_at_ms := at_ms;
            te_payload_json := er_payload r |}]) b2
  end.

(** [SqliteStore::load_history] *)
Definition load_history (id : TaskId) (d : Db) : result DurableError History :=
  events ← decode_history id
    (takeZ (MAX_HISTORY_EVENTS + 1) (order_events (task_events d id))) [] 0;
  Ok {| h_task_id := id; h_events := events |}.

End Store.
