(* ===== verification/DurableWakeups.v ===== *)
(** * Durable wakeups and signals ([crates/tysel-durable/src/lib.rs])

    Timers with leases on their exact generation, the signal inbox, and the
    signal boundary that either consumes the oldest queued signal into the
    history or registers the task as waiting. *)

From Stdlib Require Import ZArith Lia Ascii String.
From stdpp Require Import base tactics list gmap strings.
From S2P Require Import Prelude Bytes TaskModel DurableTypes DurableDb DurableStore.
Open Scope Z_scope.

Section Wakeups.
Context {SJ : SerdeJson} {SH : Sha256}.

(** ** Wakeups *)

(** [SqliteStore::schedule_wakeup] *)
Definition schedule_wakeup (w : Wakeup) (d : Db) : result DurableError () * Db :=
  run_tx (
    ensure_open (wk_task_id w);;
    sequence ← lift (to_sql_integer (wk_sequence w) "sequence");
    wake_at ← lift (to_sql_integer (wk_wake_at_ms w) "wake_at_ms");
    upsert_wakeup (wk_task_id w) sequence wake_at;;
    commit ()) d.

Definition ordered_wakeups (keep : WakeupRow -> bool) (d : Db) : list (TaskId * WakeupRow) :=
  order_by (fun kv => (wr_wake_at_ms kv.2, kv.1))
    (filter (fun kv => keep kv.2 = true) (map_to_list (durable_wakeups d))).

Definition decode_wakeup (id : TaskId) (w : WakeupRow) : result DurableError Wakeup :=
  sequence ← from_sql_integer (wr_sequence w) "sequence";
  wake_at ← from_sql_integer (wr_wake_at_ms w) "wake_at_ms";
  Ok {| wk_task_id := id; wk_sequence := sequence; wk_wake_at_ms := wake_at |}.

Fixpoint decode_wakeups (rows : list (TaskId * WakeupRow)) : result DurableError (list Wakeup) :=
  match rows with
  | [] => Ok []
  | (id, w) :: rows' => x ← decode_wakeup id w; xs ← decode_wakeups rows'; Ok (x :: xs)
  end.

(** [SqliteStore::peek_due_wakeups] *)
Definition peek_due_wakeups (now_ms limit : Z) (d : Db) : result DurableError (list Wakeup) :=
  if limit =? 0 then Ok []
  else
    now ← to_sql_integer now_ms "now_ms";
    decode_wakeups (takeZ (Z.min limit MAX_WAKEUP_BATCH)
                      (ordered_wakeups (fun w => wr_wake_at_ms w <=? now) d)).

(** [wake_at_ms <= now AND (lease_until_ms IS NULL OR lease_until_ms <= now)] *)
Definition wakeup_claimable (now : Z) (w : WakeupRow) : bool :=
  (wr_wake_at_ms w <=? now) && lease_expired (wr_lease_until_ms w) now.

Definition lease_wakeup (owner : string) (until : Z) (w : WakeupRow) : WakeupRow :=
  {| wr_sequence := wr_sequence w; wr_wake_at_ms := wr_wake_at_ms w;
     wr_lease_owner := Some owner; wr_lease_until_ms := Some until |}.

(** The deadline of a new wakeup lease: as the caller sees it and as stored. *)
Definition wakeup_lease_until (now_ms duration_ms : Z) : result DurableError (Z * Z) :=
  until ← ok_or (checked_add u64_max now_ms (Z.max duration_ms 1)) (IntegerRange "lease_until_ms");
  until_sql ← to_sql_integer until "lease_until_ms";
  Ok (until, until_sql).

(** The claiming loop of [claim_due_wakeups]. *)
Fixpoint claim_candidates (now until until_sql : Z) (owner : string)
    (candidates : list (TaskId * WakeupRow)) (claims : list WakeupClaim) : Tx (list WakeupClaim) :=
  match candidates with
  | [] => mret claims
  | (id, c) :: rest =>
      d ← get_db;
      match durable_wakeups d !! id with
      | Some w =>
          if (wr_sequence w =? wr_sequence c) && wakeup_claimable now w
          then
            put_db (fun d => set_wakeups (<[id := lease_wakeup owner until_sql w]> (durable_wakeups d)) d);;
            x ← lift (decode_wakeup id c);
            claim_candidates now until until_sql owner rest
              (claims ++ [{| wc_task_id := id; wc_sequence := wk_sequence x;
                 wc_wake_at_ms := wk_wake_at_ms x; wc_lease_owner := owner; wc_lease_until_ms := until |}])
          else claim_candidates now until until_sql owner rest claims
      | None => claim_candidates now until until_sql owner rest claims
      end
  end.

(** [SqliteStore::claim_due_wakeups] *)
Definition claim_due_wakeups (now_ms limit : Z) (owner : string) (duration_ms : Z) (d : Db)
    : result DurableError (list WakeupClaim) * Db :=
  match durable_validate_lease_owner owner with
  | Err e => (Err e, d)
  | Ok _ =>
      if limit =? 0 then (Ok [], d)
      else
        match (now ← to_sql_integer now_ms "now_ms";
               u ← wakeup_lease_until now_ms duration_ms; Ok (now, u)) with
        | Err e => (Err e, d)
        | Ok (now, (until, until_sql)) =>
            run_tx (
              d ← get_db;
              claims ← claim_candidates now until until_sql owner
                (takeZ (Z.min limit MAX_WAKEUP_BATCH) (ordered_wakeups (wakeup_claimable now) d)) [];
              commit claims) d
        end
  end.

(** [SqliteStore::claim_wakeup] *)
Definition claim_wakeup (id : TaskId) (now_ms : Z) (owner : string) (duration_ms : Z) (d : Db)
    : result DurableError (option WakeupClaim) * Db :=
  match (durable_validate_lease_owner owner;;
         now ← to_sql_integer now_ms "now_ms";
         u ← wakeup_lease_until now_ms duration_ms; Ok (now, u)) with
  | Err e => (Err e, d)
  | Ok (now, (until, until_sql)) =>
      match durable_wakeups d !! id with
      | Some w =>
          if wakeup_claimable now w
          then
            let d' := set_wakeups (<[id := lease_wakeup owner until_sql w]> (durable_wakeups d)) d in
            match decode_wakeup id w with
            | Ok x => (Ok (Some {| wc_task_id := id; wc_sequence := wk_sequence x;
                         wc_wake_at_ms := wk_wake_at_ms x; wc_lease_owner := owner;
                         wc_lease_until_ms := until |}), d')
            | Err e => (Err e, d')
            end
          else (Ok None, d)
      | None => (Ok None, d)
      end
  end.

(** [SqliteStore::complete_wakeup] *)
Definition complete_wakeup (clock : nat -> Z) (scope : option ExecutionClaim) (id : TaskId)
    (sequence : Z) (owner : option string) (now_ms : Z) (d : Db) : result DurableError bool * Db :=
  run_tx (
    guard_execution clock scope id;;
    sequence ← lift (to_sql_integer sequence "sequence");
    now ← lift (to_sql_integer now_ms "now_ms");
    match owner with
    | Some o => lift (durable_validate_lease_owner o)
    | None => mret ()
    end;;
    d ← get_db;
    let deleted :=
      match durable_wakeups d !! id with
      | None => false
      | Some w =>
          (wr_sequence w =? sequence)
          && match owner with
             | Some o => bool_decide (wr_lease_owner w = Some o)
                         && match wr_lease_until_ms w with Some u => now <? u | None => false end
             | None => bool_decide (wr_lease_owner w = None)
             end
      end in
    (if deleted then put_db (fun d => set_wakeups (delete id (durable_wakeups d)) d) else mret ());;
    guard_execution clock scope id;;
    commit deleted) d.

(** The row a wakeup claim is about, when its lease is exactly the claim's. *)
Definition exact_claim (w : WakeupRow) (owner : string) (sequence wake_at until : Z) : bool :=
  (wr_sequence w =? sequence) && (wr_wake_at_ms w =? wake_at)
  && bool_decide (wr_lease_owner w = Some owner)
  && bool_decide (wr_lease_until_ms w = Some until).

(** The claim's integers as SQL parameters, in the order they are bound. *)
Definition claim_params (c : WakeupClaim) : result DurableError (Z * Z * Z) :=
  sequence ← to_sql_integer (wc_sequence c) "sequence";
  wake_at ← to_sql_integer (wc_wake_at_ms c) "wake_at_ms";
  until ← to_sql_integer (wc_lease_until_ms c) "lease_until_ms";
  Ok (sequence, wake_at, until).

Definition claim_matches (c : WakeupClaim) (p : Z * Z * Z) (d : Db) : bool :=
  let '(sequence, wake_at, until) := p in
  match durable_wakeups d !! wc_task_id c with
  | Some w => exact_claim w (wc_lease_owner c) sequence wake_at until
  | None => false
  end.

(** [SqliteStore::claim_is_active] *)
Definition claim_is_active (c : WakeupClaim) (now_ms : Z) (d : Db) : result DurableError bool :=
  p ← claim_params c;
  now ← to_sql_integer now_ms "now_ms";
  Ok (claim_matches c p d && (now <? p.2)).

(** [SqliteStore::renew_wakeup_claim] *)
Definition renew_wakeup_claim (c : WakeupClaim) (now_ms duration_ms : Z) (d : Db)
    : result DurableError (option WakeupClaim) * Db :=
  match (durable_validate_lease_owner (wc_lease_owner c);;
         u ← wakeup_lease_until now_ms duration_ms;
         p ← claim_params c;
         now ← to_sql_integer now_ms "now_ms"; Ok (u, p, now)) with
  | Err e => (Err e, d)
  | Ok (until, until_sql, p, now) =>
      if claim_matches c p d && (now <? p.2)
      then
        (Ok (Some {| wc_task_id := wc_task_id c; wc_sequence := wc_sequence c;
               wc_wake_at_ms := wc_wake_at_ms c; wc_lease_owner := wc_lease_owner c;
               wc_lease_until_ms := until |}),
         set_wakeups (alter (fun w => lease_wakeup (wc_lease_owner c) until_sql w) (wc_task_id c)
                        (durable_wakeups d)) d)
      else (Ok None, d)
  end.

Definition unlease_wakeup (w : WakeupRow) : WakeupRow :=
  {| wr_sequence := wr_sequence w; wr_wake_at_ms := wr_wake_at_ms w;
     wr_lease_owner := None; wr_lease_until_ms := None |}.

(** [SqliteStore::release_wakeup_claim] *)
Definition release_wakeup_claim (c : WakeupClaim) (d : Db) : result DurableError bool * Db :=
  match (durable_validate_lease_owner (wc_lease_owner c);; claim_params c) with
  | Err e => (Err e, d)
  | Ok p =>
      if claim_matches c p d
      then (Ok true, set_wakeups (alter unlease_wakeup (wc_task_id c) (durable_wakeups d)) d)
      else (Ok false, d)
  end.

Definition wakeup (id : TaskId) (d : Db) : result DurableError (option Wakeup) :=
  match durable_wakeups d !! id with
  | None => Ok None
  | Some w => x ← decode_wakeup id w; Ok (Some x)
  end.

Definition signal_wait (id : TaskId) (d : Db) : result DurableError (option SignalWait) :=
  match durable_signal_waits d !! id with
  | None => Ok None
  | Some w =>
      sequence ← from_sql_integer (sw_sequence w) "sequence";
      Ok (Some {| swt_task_id := id; swt_sequence := sequence; swt_name := sw_name w |})
  end.

(** ** Signals *)

Definition task_signals (d : Db) (id : TaskId) : list SignalRow :=
  filter (fun r => sr_task_id r = id) (durable_signal_inbox d).
Definition signal_bytes (rows : list SignalRow) : Z :=
  foldr (fun r acc => len (sr_name r) + len (sr_payload r) + acc) 0 rows.
Definition task_receipts (d : Db) (id : TaskId) : list ((TaskId * string) * ReceiptRow) :=
  filter (fun kv => kv.1.1 = id) (map_to_list (durable_signal_receipts d)).

(** What [send_signal_inner] does when it carries an idempotency key: the
    recorded signal id, or nothing when the signal is new. *)
Definition check_receipt (id : TaskId) (name payload key : string) : Tx (option Z) :=
  lift (validate_key key);;
  d ← get_db;
  match durable_signal_receipts d !! (id, key) with
  | Some r =>
      if negb (String.eqb (rr_name r) name) || negb (String.eqb (rr_payload r) (to_hex (sha256 payload)))
      then throw AdmissionConflict
      else s ← lift (from_sql_integer (rr_signal_id r) "signal_id"); mret (Some s)
  | None =>
      if MAX_HISTORY_EVENTS <=? vec_len (task_receipts d id) then throw SignalInboxLimit
      else
        match durable_programs d !! id with
        | None => throw AdmissionConflict
        | Some _ => mret None
        end
  end.

Definition enqueue_signal (id : TaskId) (name payload : string) (sent_at : Z) : Tx Z :=
  ensure_open id;;
  d ← get_db;
  let pending := task_signals d id in
  if (MAX_PENDING_SIGNALS <=? vec_len pending)
     || match checked_add_i64 (signal_bytes pending) (len name + len payload) with
        | None => true
        | Some bytes => MAX_HISTORY_BYTES <? bytes
        end
  then throw SignalInboxLimit
  else
    let signal_id := signal_inbox_next_id d in
    put_db (fun d => set_inbox (durable_signal_inbox d ++
      [{| sr_id := signal_id; sr_task_id := id; sr_name := name; sr_payload := payload;
          sr_sent_at_ms := sent_at |}]) (signal_id + 1) d);;
    match durable_signal_waits d !! id with
    | Some w =>
        if String.eqb (sw_name w) name
        then
          match durable_wakeups d !! id with
          | Some _ => mret ()
          | None => upsert_wakeup id (sw_sequence w) sent_at
          end
        else mret ()
    | None => mret ()
    end;;
    mret signal_id.

(** [SqliteStore::send_signal_inner] *)
Definition send_signal_inner (id : TaskId) (name : string) (payload : Value) (sent_at_ms : Z)
    (key : option string) (d : Db) : result DurableError Z * Db :=
  match (validate_signal_name name;;
         json ← ok_or (json_to_string payload) DurableJson;
         if MAX_EVENT_PAYLOAD_BYTES <? len json then Err EventPayloadTooLarge
         else sent_at ← to_sql_integer sent_at_ms "sent_at_ms"; Ok (json, sent_at)) with
  | Err e => (Err e, d)
  | Ok (json, sent_at) =>
      and_then
        (run_tx (
          prior ← match key with None => mret None | Some k => check_receipt id name json k end;
          match prior with
          | Some s => rollback s
          | None =>
              signal_id ← enqueue_signal id name json sent_at;
              match key with
              | None => mret ()
              | Some k =>
                  put_db (fun d => set_receipts (<[(id, k) := {| rr_name := name;
                    rr_payload := to_hex (sha256 json); rr_signal_id := signal_id |}]>
                    (durable_signal_receipts d)) d)
              end;;
              commit signal_id
          end) d)
        (fun s => from_sql_integer s "signal_id")
  end.

Definition send_signal id name payload sent_at_ms := send_signal_inner id name payload sent_at_ms None.
Definition send_signal_once id name payload key sent_at_ms :=
  send_signal_inner id name payload sent_at_ms (Some key).

(** [register_signal_wait] *)
Definition register_signal_wait (id : TaskId) (sequence : Z) (name : string) : Tx () :=
  d ← get_db;
  match durable_signal_waits d !! id with
  | Some w =>
      existing ← lift (from_sql_integer (sw_sequence w) "sequence");
      if negb (existing =? sequence) || negb (String.eqb (sw_name w) name)
      then throw SignalWaitConflict else mret ()
  | None =>
      sequence ← lift (to_sql_integer sequence "sequence");
      put_db (fun d => set_waits (<[id := {| sw_sequence := sequence; sw_name := name |}]>
                                    (durable_signal_waits d)) d)
  end.

(** The claim check of [poll_signal] when a signal is queued. *)
Definition take_wakeup (id : TaskId) (expected now : Z) (claim : option WakeupClaim) : Tx () :=
  d ← get_db;
  let waiting := match durable_signal_waits d !! id with Some _ => true | None => false end in
  match claim with
  | Some c =>
      if negb waiting || negb (wc_task_id c =? id) || negb (wc_sequence c =? expected)
      then throw WakeupClaimRequired
      else
        p ← lift (claim_params c);
        if claim_matches c p d && (now <? p.2)
        then put_db (fun d => set_wakeups (delete id (durable_wakeups d)) d)
        else throw WakeupClaimRequired
  | None =>
      if waiting then throw WakeupClaimRequired
      else match durable_wakeups d !! id with
           | Some _ => throw WakeupClaimRequired
           | None => mret ()
           end
  end.

(** [SELECT .. WHERE task_id AND signal_name ORDER BY id LIMIT 1] *)
Definition oldest_signal (d : Db) (id : TaskId) (name : string) : option SignalRow :=
  head (order_by (fun r => (sr_id r, 0)) (filter (fun r => sr_name r = name) (task_signals d id))).

(** Consume a queued signal into the history. *)
Definition consume_signal (id : TaskId) (expected : Z) (name : string) (s : SignalRow)
    : Tx (NewEvent * Z) :=
  payload ← lift (ok_or (json_from_str (sr_payload s)) DurableJson);
  recorded ← lift (from_sql_integer (sr_sent_at_ms s) "sent_at_ms");
  let e := {| ne_kind := Signal; ne_key := name; ne_payload := payload; ne_recorded_at_ms := recorded |} in
  sequence ← insert_event id (Some expected) Signal name (sr_payload s) (sr_sent_at_ms s);
  put_db (fun d => set_inbox (filter (fun r => sr_id r <> sr_id s) (durable_signal_inbox d))
                     (signal_inbox_next_id d) d);;
  put_db (fun d => set_waits (match durable_signal_waits d !! id with
    | Some w => if (sw_sequence w =? sequence) && String.eqb (sw_name w) name
                then delete id (durable_signal_waits d) else durable_signal_waits d
    | None => durable_signal_waits d
    end) d);;
  mret (e, sequence).

(** [SqliteStore::poll_signal] *)
Definition poll_signal (clock : nat -> Z) (scope : option ExecutionClaim) (id : TaskId)
    (expected : Z) (name : string) (now_ms : Z) (claim : option WakeupClaim) (d : Db)
    : result DurableError (option TaskEvent) * Db :=
  match (validate_signal_name name;; to_sql_integer now_ms "now_ms") with
  | Err e => (Err e, d)
  | Ok now =>
      and_then
        (run_tx (
          guard_execution clock scope id;;
          ensure_open id;;
          d ← get_db;
          actual ← lift (from_sql_integer (next_sequence (task_events d id)) "sequence");
          if negb (actual =? expected) then throw (HistoryConflict expected actual)
          else
            match durable_signal_waits d !! id with
            | Some w =>
                wait ← lift (from_sql_integer (sw_sequence w) "sequence");
                if negb (wait =? expected) || negb (String.eqb (sw_name w) name)
                then throw SignalWaitConflict else mret ()
            | None => mret ()
            end;;
            match oldest_signal d id name with
            | None =>
                register_signal_wait id expected name;;
                guard_execution clock scope id;;
                commit None
            | Some s =>
                take_wakeup id expected now claim;;
                x ← consume_signal id expected name s;
                guard_execution clock scope id;;
                commit (Some (x, sr_payload s))
            end) d)
        (fun x => match x with
         | None => Ok None
         | Some (e, sequence, json) => v ← stored_event id sequence e json; Ok (Some v)
         end)
  end.

End Wakeups.
