(* ===== verification/DurableExec.v ===== *)
(** * Durable executions and task lifecycle
    ([crates/tysel-durable/src/execution.rs] and [lifecycle.rs])

    Idempotent admission, the fenced execution lease, completion and retention.
    The random owner token of [claim_run] is an argument ([entropy]); the clock
    is a stream of readings. *)

From Stdlib Require Import ZArith Lia Ascii String.
From stdpp Require Import base tactics list gmap strings.
From S2P Require Import Prelude Bytes TaskModel DurableTypes DurableDb DurableStore DurableWakeups.
Open Scope Z_scope.

(** [x as i64] on a u64, [x as u64] on an i64 or u128. *)
Definition as_i64 (z : Z) : Z := (z + 2 ^ 63) mod 2 ^ 64 - 2 ^ 63.
Definition as_u64 (z : Z) : Z := z mod 2 ^ 64.

Section Exec.
Context {SJ : SerdeJson} {SH : Sha256}.

(** ** Executions *)

(** [owner_token], with the 32 bytes of [getrandom] *)
Definition owner_token (entropy owner : string) : result DurableError string :=
  durable_validate_lease_owner owner;;
  Ok (to_hex (sha256 (owner ++ entropy)%string)).

(** [fingerprint] *)
Definition fingerprint (source input : string) : result DurableError (string * string) :=
  validate_program_source source;;
  if MAX_EVENT_PAYLOAD_BYTES <? len input then Err EventPayloadTooLarge
  else
    v ← ok_or (json_from_str input) DurableJson;
    input ← ok_or (json_to_string v) DurableJson;
    Ok (to_hex (sha256 (source ++ String (byte_of 0) input)%string), input).

Definition TASK_INPUT_KEY : string := "$tysel:task-input".

(** [SqliteStore::admit] *)
Definition admit_task (id : TaskId) (key source input : string) (time : Z) (d : Db)
    : result DurableError () * Db :=
  match (validate_key key;; fingerprint source input) with
  | Err e => (Err e, d)
  | Ok (hash, input) =>
      run_tx (
        d ← get_db;
        match durable_executions d !! id with
        | Some r =>
            if negb (bool_decide (ex_admission_key r = Some key))
               || negb (bool_decide (ex_request_hash r = Some hash))
            then throw AdmissionConflict
            else rollback ()
        | None =>
            existing ← lift (select_program d id);
            match existing with
            | Some _ => throw AdmissionConflict
            | None =>
                if MAX_DURABLE_PROGRAMS <=? active_count d then throw ProgramLimit
                else if MAX_DURABLE_PROGRAM_TOTAL_BYTES <? active_bytes d + len source
                then throw ProgramByteLimit
                else
                  time_sql ← lift (to_sql_integer time "time");
                  put_db (fun d => set_programs (<[id := {| pr_kind := "module"; pr_source := source;
                    pr_sha256 := sha256 source; pr_registered_at_ms := time_sql |}]>
                    (durable_programs d)) d);;
                  update_program_stats 1 (len source);;
                  e ← lift (raw_event Step TASK_INPUT_KEY input time);
                  insert_event id (Some 0) Step TASK_INPUT_KEY input time_sql;;
                  put_db (fun d => set_executions (<[id := {| ex_state := ExReady; ex_generation := 0;
                    ex_owner := None; ex_lease_until_ms := None; ex_admission_key := Some key;
                    ex_request_hash := Some hash |}]> (durable_executions d)) d);;
                  commit ()
            end
        end) d
  end.

Definition lease_over (time : Z) (until : option Z) : bool :=
  match until with Some u => as_i64 time <? u | None => false end.

(** The row [claim_run] writes: the admission columns of an existing row stay. *)
Definition running_row (old : option ExecutionRow) (generation : Z) (owner : string) (until : Z)
    : ExecutionRow :=
  {| ex_state := ExRunning; ex_generation := generation; ex_owner := Some owner;
     ex_lease_until_ms := Some until;
     ex_admission_key := old ≫= ex_admission_key; ex_request_hash := old ≫= ex_request_hash |}.

(** May the task be claimed at [time]? *)
Definition run_blocked (d : Db) (id : TaskId) (time : Z) : bool :=
  match durable_executions d !! id with
  | Some r => bool_decide (ex_state r = ExCompleted) || bool_decide (ex_state r = ExFailed)
              || lease_over time (ex_lease_until_ms r)
  | None => false
  end
  || match durable_wakeups d !! id with
     | Some w => (as_i64 time <? wr_wake_at_ms w) || lease_over time (wr_lease_until_ms w)
     | None => match durable_signal_waits d !! id with Some _ => true | None => false end
     end.

(** [SqliteStore::claim_run] *)
Definition claim_run (clock : nat -> Z) (entropy : string) (id : TaskId) (owner : string)
    (duration : Z) (d : Db) : result DurableError (option ExecutionClaim) * Db :=
  match owner_token entropy owner with
  | Err e => (Err e, d)
  | Ok token =>
      run_tx (
        d ← get_db;
        if negb (not_completed d id) then rollback None
        else
          match durable_programs d !! id with
          | None => rollback None
          | Some _ =>
              time ← read_clock clock;
              until ← lift (ok_or (u ← checked_add u64_max time duration;
                                   if time <? u then Some u else None) ExecutionLeaseLost);
              if run_blocked d id time then rollback None
              else
                let row := durable_executions d !! id in
                generation ← lift (match row with
                  | None => Ok 1
                  | Some r => ok_or (checked_add_i64 (ex_generation r) 1) ExecutionLeaseLost
                  end);
                until_sql ← lift (to_sql_integer until "lease");
                put_db (fun d => set_executions (<[id := running_row row generation token until_sql]>
                  (durable_executions d)) d);;
                let wakeup := (fun w => {| wc_task_id := id; wc_sequence := as_u64 (wr_sequence w);
                  wc_wake_at_ms := as_u64 (wr_wake_at_ms w); wc_lease_owner := token;
                  wc_lease_until_ms := until |}) <$> durable_wakeups d !! id in
                put_db (fun d => set_wakeups (alter (lease_wakeup token until_sql) id (durable_wakeups d)) d);;
                now ← read_clock clock;
                if until <=? now then rollback None
                else commit (Some {| xc_task_id := id; xc_owner := token;
                       xc_generation := as_u64 generation; xc_lease_until_ms := until;
                       xc_wakeup := wakeup |})
          end) d
  end.

Definition ended_row (state : ExecutionState) (r : ExecutionRow) : ExecutionRow :=
  {| ex_state := state; ex_generation := ex_generation r; ex_owner := None;
     ex_lease_until_ms := None; ex_admission_key := ex_admission_key r;
     ex_request_hash := ex_request_hash r |}.

(** [SqliteStore::release_run] *)
Definition release_run (clock : nat -> Z) (claim : ExecutionClaim) (failed : bool) (d : Db)
    : result DurableError () * Db :=
  let id := xc_task_id claim in
  run_tx (
    guard_execution clock (Some claim) id;;
    put_db (fun d => set_wakeups (alter unlease_wakeup id (durable_wakeups d)) d);;
    guard_execution clock (Some claim) id;;
    put_db (fun d => set_executions
      (alter (ended_row (if failed then ExFailed else ExSuspended)) id (durable_executions d)) d);;
    commit ()) d.

(** [SqliteStore::execution_failed] *)
Definition execution_failed (id : TaskId) (d : Db) : bool :=
  match durable_executions d !! id with
  | Some r => bool_decide (ex_state r = ExFailed)
  | None => false
  end.

(** ** Lifecycle *)

(** [completion_time] *)
Definition completion_time (clock : nat -> Z) (id : TaskId) (timestamp : Z)
    (lease_until_ms : option Z) : Tx Z :=
  match lease_until_ms with
  | None => mret timestamp
  | Some until =>
      now ← read_clock clock;
      if until <=? now then throw (TaskSuspended id) else mret (as_u64 now)
  end.

(** [SqliteStore::completion] *)
Definition completion (id : TaskId) (d : Db) : result DurableError (option TaskCompletion) :=
  match durable_completions d !! id with
  | None => Ok None
  | Some r =>
      next ← from_sql_integer (cr_next_sequence r) "next_sequence";
      v ← ok_or (json_from_str (cr_result_json r)) DurableJson;
      at_ms ← from_sql_integer (cr_completed_at_ms r) "completed_at_ms";
      Ok (Some {| cp_task_id := id; cp_next_sequence := next; cp_value := v; cp_completed_at_ms := at_ms |})
  end.

(** Is the task suspended on a timer or a signal? *)
Definition suspended (d : Db) (id : TaskId) : bool :=
  match durable_wakeups d !! id with Some _ => true | None => false end
  || match durable_signal_waits d !! id with Some _ => true | None => false end.

(** [SqliteStore::finish_task]; JSON values are compared with [PartialEq]. *)
Definition finish_task (clock : nat -> Z) (scope : option ExecutionClaim) (id : TaskId)
    (expected : Z) (value : Value) (completed_at_ms : Z) (lease_until_ms : option Z) (d : Db)
    : result DurableError bool * Db :=
  match (json ← ok_or (json_to_string value) DurableJson;
         if MAX_EVENT_PAYLOAD_BYTES <? len json then Err EventPayloadTooLarge else Ok json) with
  | Err e => (Err e, d)
  | Ok json =>
      run_tx (
        d ← get_db;
        match durable_completions d !! id with
        | Some r =>
            e ← lift (to_sql_integer expected "next_sequence");
            if negb (cr_next_sequence r =? e) then throw (TaskCompleted id)
            else
              stored ← lift (ok_or (json_from_str (cr_result_json r)) DurableJson);
              if negb (bool_decide (stored = value)) then throw (TaskCompleted id)
              else rollback true
        | None =>
            guard_execution clock scope id;;
            match durable_programs d !! id with
            | None => rollback false
            | Some p =>
                let actual := next_sequence (task_events d id) in
                a ← lift (from_sql_integer actual "next_sequence");
                if negb (a =? expected) then throw (HistoryConflict expected (as_u64 actual))
                else if suspended d id then throw (TaskSuspended id)
                else
                  at_ms ← completion_time clock id completed_at_ms lease_until_ms;
                  at_sql ← lift (to_sql_integer at_ms "completed_at_ms");
                  put_db (fun d => set_completions (<[id := {| cr_next_sequence := actual;
                    cr_result_json := json; cr_completed_at_ms := at_sql |}]> (durable_completions d)) d);;
                  update_program_stats (-1) (- len (pr_source p));;
                  completion_time clock id at_ms lease_until_ms;;
                  guard_execution clock scope id;;
                  put_db (fun d => set_executions (alter (ended_row ExCompleted) id (durable_executions d)) d);;
                  commit true
            end
        end) d
  end.

Definition complete_task clock scope id expected value completed_at_ms :=
  finish_task clock scope id expected value completed_at_ms None.
Definition complete_task_before clock scope id expected value lease_until_ms :=
  finish_task clock scope id expected value 0 (Some lease_until_ms).

(** The bytes a completed task still occupies. *)
Definition receipt_bytes (rows : list ((TaskId * string) * ReceiptRow)) : Z :=
  foldr (fun kv acc => len kv.1.2 + len (rr_name kv.2) + len (rr_payload kv.2) + acc) 0 rows.

Definition retained_bytes (d : Db) (id : TaskId) (c : CompletionRow) : Z :=
  from_option hs_payload_bytes 0 (durable_history_stats d !! id)
  + from_option (fun p => len (pr_source p)) 0 (durable_programs d !! id)
  + len (cr_result_json c)
  + signal_bytes (task_signals d id)
  + receipt_bytes (task_receipts d id).

Definition prune_candidates (before limit : Z) (d : Db) : list (TaskId * CompletionRow) :=
  takeZ (Z.min limit 100)
    (order_by (fun kv => (cr_completed_at_ms kv.2, kv.1))
       (filter (fun kv => (cr_completed_at_ms kv.2 <? before) = true) (map_to_list (durable_completions d)))).

(** [DELETE FROM <table> WHERE task_id = ..] on the seven tables *)
Definition delete_task (id : TaskId) (d : Db) : Db :=
  set_receipts (filter (fun kv => kv.1.1 <> id) (durable_signal_receipts d))
  (set_executions (delete id (durable_executions d))
  (set_completions (delete id (durable_completions d))
  (set_inbox (filter (fun r => sr_task_id r <> id) (durable_signal_inbox d)) (signal_inbox_next_id d)
  (set_history_stats (delete id (durable_history_stats d))
  (set_events (delete id (durable_events d))
  (set_programs (delete id (durable_programs d)) d)))))).

(** The loop of [prune_completed]: candidates with the bytes they retain. *)
Fixpoint prune_loop (candidates : list (TaskId * Z)) (deleted bytes : Z) (d : Db) : Z * Db :=
  match candidates with
  | [] => (deleted, d)
  | (id, retained) :: rest =>
      if (0 <? deleted) && (MAX_HISTORY_BYTES <? bytes + as_u64 retained) then (deleted, d)
      else if suspended d id then prune_loop rest deleted bytes d
      else prune_loop rest (deleted + 1) (bytes + as_u64 retained) (delete_task id d)
  end.

(** [SqliteStore::prune_completed] *)
Definition prune_completed (before_ms limit : Z) (d : Db) : result DurableError Z * Db :=
  if limit =? 0 then (Ok 0, d)
  else
    match to_sql_integer before_ms "before_ms" with
    | Err e => (Err e, d)
    | Ok before =>
        let candidates := map (fun kv => (kv.1, retained_bytes d kv.1 kv.2))
                            (prune_candidates before limit d) in
        let '(deleted, d') := prune_loop candidates 0 0 d in
        (Ok deleted, d')
    end.

End Exec.
