(* ===== verification/DurableLogic.v ===== *)
(** * A logic for transaction bodies

    [tx_ok m Q d]: when the body [m] started on [d] succeeds with [a], the
    transaction's copy then satisfies [Q a]. One rule per statement the store
    uses, the tactic [tx] that applies them along a body, and [run_tx_post]
    from the body to the whole operation. *)

From Stdlib Require Import ZArith Lia Ascii String.
From stdpp Require Import base tactics list gmap strings.
From S2P Require Import Prelude Bytes TaskModel DurableTypes DurableDb DurableStore DurableWakeups DurableExec.
Open Scope Z_scope.

Definition tx_ok {A} (m : Tx A) (Q : A -> Db -> Prop) (d : Db) : Prop :=
  forall n a s', m {| tx_db := d; tx_reads := n |} = (Ok a, s') -> Q a (tx_db s').

Section Rules.
Context {SJ : SerdeJson} {SH : Sha256}.

Lemma tx_bind {A B} (m : Tx A) (k : A -> Tx B) Q d :
  tx_ok m (fun a d' => tx_ok (k a) Q d') d -> tx_ok (mbind k m) Q d.
Proof.
  intros H n b s'. unfold mbind, M_bind. destruct (m _) as [[a|e] [d1 n1]] eqn:E; [|done].
  intros E2. exact (H _ _ _ E _ _ _ E2).
Qed.

Lemma tx_ret {A} (a : A) (Q : A -> Db -> Prop) d : Q a d -> tx_ok (mret a) Q d.
Proof. intros H n b s' [= <- <-]. done. Qed.
Lemma tx_commit {A} (a : A) (Q : Ending A -> Db -> Prop) d : Q (Committed_ a) d -> tx_ok (commit a) Q d.
Proof. apply tx_ret. Qed.
Lemma tx_rollback {A} (a : A) (Q : Ending A -> Db -> Prop) d : Q (RolledBack a) d -> tx_ok (rollback a) Q d.
Proof. apply tx_ret. Qed.
Lemma tx_throw {A} e (Q : A -> Db -> Prop) d : tx_ok (throw e) Q d.
Proof. by intros n a s'. Qed.
Lemma tx_lift {A} r (Q : A -> Db -> Prop) d : (forall a, r = Ok a -> Q a d) -> tx_ok (lift r) Q d.
Proof. intros H n a s' [= E <-]. by apply H. Qed.
Lemma tx_get (Q : Db -> Db -> Prop) d : Q d d -> tx_ok get_db Q d.
Proof. by intros H n a s' [= <- <-]. Qed.
Lemma tx_put f (Q : () -> Db -> Prop) d : Q tt (f d) -> tx_ok (put_db f) Q d.
Proof. by intros H n [] s' [= <-]. Qed.
Lemma tx_clock clock (Q : Z -> Db -> Prop) d : (forall n, Q (clock n) d) -> tx_ok (read_clock clock) Q d.
Proof. by intros H n a s' [= <- <-]. Qed.

Lemma tx_ensure_open id (Q : () -> Db -> Prop) d :
  (durable_completions d !! id = None -> Q tt d) -> tx_ok (ensure_open id) Q d.
Proof.
  intros H. unfold ensure_open. apply tx_bind, tx_get.
  destruct (durable_completions d !! id); [apply tx_throw|by apply tx_ret, H].
Qed.

Lemma tx_stats dc db (Q : () -> Db -> Prop) d :
  (0 <= active_count d + dc -> 0 <= active_bytes d + db ->
   Q tt (set_program_stats (active_count d + dc) (active_bytes d + db) d)) ->
  tx_ok (update_program_stats dc db) Q d.
Proof.
  intros H. unfold update_program_stats. apply tx_bind, tx_get.
  destruct (_ && _) eqn:E; [|apply tx_throw]. apply tx_put, H; lia.
Qed.

Lemma tx_upsert id seq at_ms (Q : () -> Db -> Prop) d :
  Q tt (set_wakeups (<[id := {| wr_sequence := seq; wr_wake_at_ms := at_ms;
    wr_lease_owner := None; wr_lease_until_ms := None |}]> (durable_wakeups d)) d) ->
  tx_ok (upsert_wakeup id seq at_ms) Q d.
Proof. apply tx_put. Qed.

(** Does the row let the holder of [c] write at [time]? *)
Definition execution_valid (c : ExecutionClaim) (time : Z) (d : Db) : Prop :=
  exists r u, durable_executions d !! xc_task_id c = Some r /\ ex_state r = ExRunning
    /\ ex_owner r = Some (xc_owner c) /\ ex_generation r = xc_generation c
    /\ ex_lease_until_ms r = Some u /\ time < u.

Definition scope_valid (clock : nat -> Z) (scope : option ExecutionClaim) (id : TaskId) (d : Db) : Prop :=
  match scope with
  | None => True
  | Some c => id = xc_task_id c /\ exists n, execution_valid c (clock n) d
  end.

Lemma to_sql_Ok v f w : to_sql_integer v f = Ok w -> w = v /\ v <= i64_max.
Proof. unfold to_sql_integer, i64_try_from. destruct (Z.leb_spec v i64_max); intros [= <-]. lia. Qed.
Lemma to_sql_total v f : v <= i64_max -> to_sql_integer v f = Ok v.
Proof. unfold to_sql_integer, i64_try_from. destruct (Z.leb_spec v i64_max); [done|lia]. Qed.
Lemma from_sql_Ok v f w : from_sql_integer v f = Ok w -> w = v /\ 0 <= v.
Proof. unfold from_sql_integer, u64_try_from. destruct (Z.leb_spec 0 v); intros [= <-]. lia. Qed.
Lemma from_sql_total v f : 0 <= v -> from_sql_integer v f = Ok v.
Proof. unfold from_sql_integer, u64_try_from. destruct (Z.leb_spec 0 v); [done|lia]. Qed.

Lemma tx_guard clock scope id (Q : () -> Db -> Prop) d :
  (scope_valid clock scope id d -> Q tt d) -> tx_ok (guard_execution clock scope id) Q d.
Proof.
  intros H. destruct scope as [c|]; simpl; [|by apply tx_ret, H].
  apply tx_bind, tx_lift. intros g [-> _]%to_sql_Ok. apply tx_bind, tx_clock. intros n.
  apply tx_bind, tx_lift. intros t [-> _]%to_sql_Ok. apply tx_bind, tx_get.
  destruct (_ || _) eqn:E; [apply tx_throw|]. apply tx_ret, H.
  apply orb_false_iff in E as [E1%negb_false_iff%Z.eqb_eq E2%negb_false_iff].
  split; [done|]. exists n. unfold execution_valid. rewrite <-E1. destruct (durable_executions d !! id) as [r|] eqn:Er; [|done].
  destruct (ex_lease_until_ms r) as [u|] eqn:Eu; [|by rewrite andb_false_r in E2].
  split_bool. exists r, u. subst. by repeat split.
Qed.

(** From the body to the operation. *)
Lemma run_tx_post {A} (body : Tx (Ending A)) (P : result DurableError A -> Db -> Prop) d :
  (forall e, P (Err e) d) ->
  tx_ok body (fun e d' => match e with
    | Committed_ a => P (Ok a) d'
    | RolledBack a => P (Ok a) d
    end) d ->
  P (run_tx body d).1 (run_tx body d).2.
Proof.
  intros He Hb. unfold run_tx. destruct (body _) as [[[a|a]|e] s] eqn:E; simpl;
    [exact (Hb _ _ _ E)|exact (Hb _ _ _ E)|apply He].
Qed.

(** Nothing is known about what [m] wrote. *)
Lemma tx_any {A} (m : Tx A) (Q : A -> Db -> Prop) d : (forall a d', Q a d') -> tx_ok m Q d.
Proof. by intros H n a s' _. Qed.

Lemma tx_mono {A} (m : Tx A) (Q R : A -> Db -> Prop) d :
  tx_ok m Q d -> (forall a d', Q a d' -> R a d') -> tx_ok m R d.
Proof. intros H HR n a s' E. apply HR, (H _ _ _ E). Qed.

End Rules.

(** One statement of a body. *)
Ltac tx_step :=
  lazymatch goal with
  | |- tx_ok (mbind _ _) _ _ => apply tx_bind; cbn beta
  | |- tx_ok (mret _) _ _ => apply tx_ret; cbn beta
  | |- tx_ok (commit _) _ _ => apply tx_commit; cbn beta iota
  | |- tx_ok (rollback _) _ _ => apply tx_rollback; cbn beta iota
  | |- tx_ok (throw _) _ _ => apply tx_throw
  | |- tx_ok (lift _) _ _ => apply tx_lift; intros ? ?; cbn beta
  | |- tx_ok get_db _ _ => apply tx_get; cbn beta
  | |- tx_ok (put_db _) _ _ => apply tx_put; cbn beta
  | |- tx_ok (read_clock _) _ _ => apply tx_clock; intros ?; cbn beta
  | |- tx_ok (ensure_open _) _ _ => apply tx_ensure_open; intros ?; cbn beta
  | |- tx_ok (guard_execution _ _ _) _ _ => apply tx_guard; intros ?; cbn beta
  | |- tx_ok (update_program_stats _ _) _ _ => apply tx_stats; intros ? ?; cbn beta
  | |- tx_ok (upsert_wakeup _ _ _) _ _ => apply tx_upsert; cbn beta
  | |- tx_ok (match Some _ with _ => _ end) _ _ => cbn iota
  | |- tx_ok (match ?x with _ => _ end) _ _ => destruct x eqn:?
  | |- tx_ok (let _ := _ in _) _ _ => cbv zeta
  end.

Ltac tx := repeat tx_step.
