(* ===== verification/DurableSpec.v ===== *)
(** * What the durable store promises

    The invariant of the database ([DInv]) and the abstract transitions
    ([db_step]) every operation of the store is a sequence of. A transition
    carries labels for what it adds to the outside world: a signal accepted, an
    execution token issued, a signal event written directly, a task pruned. *)

From Stdlib Require Import ZArith Lia Ascii String Sorted.
From stdpp Require Import base tactics list gmap strings numbers.
From S2P Require Import Prelude Bytes TaskModel DurableTypes DurableDb DurableStore DurableWakeups DurableExec DurableLogic.
Open Scope Z_scope.

(** ** Everything the database holds about one task *)

Record TaskView := {
  tv_events : list EventRow;
  tv_stats : StatsRow;
  tv_wakeup : option WakeupRow;
  tv_wait : option WaitRow;
  tv_program : option ProgramRow;
  tv_completion : option CompletionRow;
  tv_execution : option ExecutionRow;
}.

Definition no_stats : StatsRow := {| hs_event_count := 0; hs_payload_bytes := 0 |}.

Definition view (d : Db) (id : TaskId) : TaskView := {|
  tv_events := task_events d id;
  tv_stats := default no_stats (durable_history_stats d !! id);
  tv_wakeup := durable_wakeups d !! id;
  tv_wait := durable_signal_waits d !! id;
  tv_program := durable_programs d !! id;
  tv_completion := durable_completions d !! id;
  tv_execution := durable_executions d !! id |}.

Definition history_bytes (rows : list EventRow) : Z :=
  foldr (fun r acc => len (er_key r) + len (er_payload r) + acc) 0 rows.

(** The programs that count against the store's limits. *)
Definition active_programs (d : Db) : gmap TaskId ProgramRow :=
  filter (fun kv => durable_completions d !! kv.1 = None) (durable_programs d).
Definition program_bytes (m : gmap TaskId ProgramRow) : Z :=
  map_fold (fun _ p acc => len (pr_source p) + acc) 0 m.

Section Spec.
Context {SJ : SerdeJson} {SH : Sha256}.

(** ** The invariant *)

Definition event_ok (r : EventRow) : Prop :=
  is_ok (EventKind_parse (er_kind r)) = true /\ is_Some (json_from_str (er_payload r))
  /\ 0 <= er_recorded_at_ms r.

Definition program_ok (p : ProgramRow) : Prop :=
  is_ok (ProgramKind_parse (pr_kind p)) = true /\ validate_program_source (pr_source p) = Ok ()
  /\ pr_sha256 p = sha256 (pr_source p) /\ 0 <= pr_registered_at_ms p.

Definition wakeup_ok (w : WakeupRow) : Prop :=
  0 <= wr_sequence w /\ 0 <= wr_wake_at_ms w /\ (is_Some (wr_lease_owner w) <-> is_Some (wr_lease_until_ms w)).

Definition execution_ok (r : ExecutionRow) : Prop :=
  0 <= ex_generation r
  /\ (ex_state r = ExRunning <-> is_Some (ex_owner r))
  /\ (is_Some (ex_owner r) <-> is_Some (ex_lease_until_ms r)).

Definition completion_ok (v : TaskView) (c : CompletionRow) : Prop :=
  is_Some (tv_program v) /\ tv_wakeup v = None /\ tv_wait v = None
  /\ (forall r, tv_execution v = Some r -> ex_state r = ExCompleted)
  /\ cr_next_sequence c = vec_len (tv_events v) /\ 0 <= cr_completed_at_ms c
  /\ is_Some (json_from_str (cr_result_json c)).

Record TaskOk (v : TaskView) : Prop := {
  ok_sequences : er_sequence <$> tv_events v = seqZ 0 (vec_len (tv_events v));
  ok_events : Forall event_ok (tv_events v);
  ok_count : hs_event_count (tv_stats v) = vec_len (tv_events v) /\ hs_event_count (tv_stats v) <= MAX_HISTORY_EVENTS;
  ok_bytes : hs_payload_bytes (tv_stats v) = history_bytes (tv_events v) /\ hs_payload_bytes (tv_stats v) <= MAX_HISTORY_BYTES;
  ok_wakeup : forall w, tv_wakeup v = Some w -> wakeup_ok w;
  ok_wait : forall w, tv_wait v = Some w -> 0 <= sw_sequence w;
  ok_program : forall p, tv_program v = Some p -> program_ok p;
  ok_execution : forall r, tv_execution v = Some r -> execution_ok r;
  ok_completion : forall c, tv_completion v = Some c -> completion_ok v c;
}.

Definition signal_ok (next : Z) (r : SignalRow) : Prop :=
  0 < sr_id r < next /\ is_Some (json_from_str (sr_payload r)) /\ 0 <= sr_sent_at_ms r.

Record InboxOk (d : Db) : Prop := {
  inbox_next : 0 < signal_inbox_next_id d;
  inbox_sorted : StronglySorted Z.lt (sr_id <$> durable_signal_inbox d);
  inbox_rows : Forall (signal_ok (signal_inbox_next_id d)) (durable_signal_inbox d);
  inbox_bounded : forall id, vec_len (task_signals d id) <= MAX_PENDING_SIGNALS
                        /\ signal_bytes (task_signals d id) <= MAX_HISTORY_BYTES;
  inbox_receipts : forall k r, durable_signal_receipts d !! k = Some r ->
                     0 < rr_signal_id r < signal_inbox_next_id d;
}.

Record DInv (d : Db) : Prop := {
  inv_tasks : forall id, TaskOk (view d id);
  inv_count : active_count d = Z.of_nat (size (active_programs d)) /\ active_count d <= MAX_DURABLE_PROGRAMS;
  inv_bytes : active_bytes d = program_bytes (active_programs d) /\ active_bytes d <= MAX_DURABLE_PROGRAM_TOTAL_BYTES;
  inv_inbox : InboxOk d;
}.

(** ** Abstract transitions *)

Inductive Label :=
| Accepted (id : TaskId) (name payload : string)
| Issued (token : string)
| WroteSignal (id : TaskId) (name payload : string)
| Pruned (id : TaskId).

#[global] Instance Label_eq_dec : EqDecision Label.
Proof. solve_decision. Defined.

Definition add_event (id : TaskId) (r : EventRow) (d : Db) : Db :=
  let stats := default no_stats (durable_history_stats d !! id) in
  set_history_stats (<[id := {| hs_event_count := hs_event_count stats + 1;
    hs_payload_bytes := hs_payload_bytes stats + (len (er_key r) + len (er_payload r)) |}]>
    (durable_history_stats d))
    (set_events (<[id := task_events d id ++ [r]]> (durable_events d)) d).

(** May [r] be appended to the history of [id]? *)
Definition appendable (id : TaskId) (r : EventRow) (d : Db) : Prop :=
  let stats := default no_stats (durable_history_stats d !! id) in
  durable_completions d !! id = None /\ er_sequence r = next_sequence (task_events d id)
  /\ event_ok r /\ hs_event_count stats < MAX_HISTORY_EVENTS
  /\ hs_payload_bytes stats + (len (er_key r) + len (er_payload r)) <= MAX_HISTORY_BYTES.

(** Take signal [s] out of the inbox, and the wait it answers. *)
Definition drop_signal (s : SignalRow) (d : Db) : Db :=
  set_inbox (filter (fun r => sr_id r <> sr_id s) (durable_signal_inbox d)) (signal_inbox_next_id d) d.

Definition drop_wait (id : TaskId) (sequence : Z) (name : string) (d : Db) : Db :=
  set_waits (match durable_signal_waits d !! id with
    | Some w => if (sw_sequence w =? sequence) && String.eqb (sw_name w) name
                then delete id (durable_signal_waits d) else durable_signal_waits d
    | None => durable_signal_waits d
    end) d.

Inductive db_step : list Label -> Db -> Db -> Prop :=
| step_put id p d :
    durable_programs d !! id = None -> durable_completions d !! id = None -> program_ok p ->
    active_count d < MAX_DURABLE_PROGRAMS ->
    active_bytes d + len (pr_source p) <= MAX_DURABLE_PROGRAM_TOTAL_BYTES ->
    db_step [] d (set_program_stats (active_count d + 1) (active_bytes d + len (pr_source p))
                    (set_programs (<[id := p]> (durable_programs d)) d))
| step_remove id p d :
    durable_programs d !! id = Some p -> durable_completions d !! id = None ->
    task_events d id = [] -> durable_wakeups d !! id = None -> durable_signal_waits d !! id = None ->
    db_step [] d (set_programs (delete id (durable_programs d))
                    (set_program_stats (active_count d + -1) (active_bytes d + - len (pr_source p)) d))
| step_append id r d :
    appendable id r d ->
    db_step (if String.eqb (er_kind r) "signal" then [WroteSignal id (er_key r) (er_payload r)] else [])
      d (add_event id r d)
| step_consume id s r d :
    oldest_signal d id (er_key r) = Some s -> appendable id r d ->
    er_kind r = "signal" -> er_payload r = sr_payload s -> er_recorded_at_ms r = sr_sent_at_ms s ->
    db_step [] d (drop_wait id (er_sequence r) (er_key r) (drop_signal s (add_event id r d)))
| step_wake id w d :
    durable_completions d !! id = None -> wakeup_ok w ->
    db_step [] d (set_wakeups (<[id := w]> (durable_wakeups d)) d)
| step_lease id w w' d :
    durable_wakeups d !! id = Some w -> wr_sequence w' = wr_sequence w ->
    wr_wake_at_ms w' = wr_wake_at_ms w ->
    (is_Some (wr_lease_owner w') <-> is_Some (wr_lease_until_ms w')) ->
    db_step [] d (set_wakeups (<[id := w']> (durable_wakeups d)) d)
| step_unwake id d :
    db_step [] d (set_wakeups (delete id (durable_wakeups d)) d)
| step_wait id w d :
    durable_completions d !! id = None -> durable_signal_waits d !! id = None -> 0 <= sw_sequence w ->
    db_step [] d (set_waits (<[id := w]> (durable_signal_waits d)) d)
| step_enqueue id s d :
    durable_completions d !! id = None -> sr_task_id s = id -> sr_id s = signal_inbox_next_id d ->
    is_Some (json_from_str (sr_payload s)) -> 0 <= sr_sent_at_ms s ->
    vec_len (task_signals d id) < MAX_PENDING_SIGNALS ->
    signal_bytes (task_signals d id) + (len (sr_name s) + len (sr_payload s)) <= MAX_HISTORY_BYTES ->
    db_step [Accepted id (sr_name s) (sr_payload s)] d
      (set_inbox (durable_signal_inbox d ++ [s]) (signal_inbox_next_id d + 1) d)
| step_receipt k r d :
    durable_signal_receipts d !! k = None -> 0 < rr_signal_id r < signal_inbox_next_id d ->
    db_step [] d (set_receipts (<[k := r]> (durable_signal_receipts d)) d)
| step_ready id r d :
    durable_executions d !! id = None -> durable_completions d !! id = None ->
    ex_state r = ExReady -> ex_generation r = 0 -> ex_owner r = None -> ex_lease_until_ms r = None ->
    db_step [] d (set_executions (<[id := r]> (durable_executions d)) d)
| step_run id token until generation d :
    durable_completions d !! id = None ->
    generation = from_option (fun r => ex_generation r + 1) 1 (durable_executions d !! id) ->
    db_step [Issued token] d
      (set_executions (<[id := running_row (durable_executions d !! id) generation token until]>
         (durable_executions d)) d)
| step_end id r state d :
    durable_executions d !! id = Some r -> ex_state r = ExRunning -> state <> ExRunning ->
    db_step [] d (set_executions (<[id := ended_row state r]> (durable_executions d)) d)
| step_complete id p c d :
    durable_programs d !! id = Some p -> durable_completions d !! id = None ->
    suspended d id = false -> cr_next_sequence c = next_sequence (task_events d id) ->
    0 <= cr_completed_at_ms c -> is_Some (json_from_str (cr_result_json c)) ->
    db_step [] d
      (set_executions (alter (ended_row ExCompleted) id (durable_executions d))
      (set_program_stats (active_count d + -1) (active_bytes d + - len (pr_source p))
      (set_completions (<[id := c]> (durable_completions d)) d)))
| step_prune id c d :
    durable_completions d !! id = Some c -> suspended d id = false ->
    db_step [Pruned id] d (delete_task id d).

Inductive db_steps : list Label -> Db -> Db -> Prop :=
| steps_nil d : db_steps [] d d
| steps_cons l l' d d1 d' : db_step l d d1 -> db_steps l' d1 d' -> db_steps (l ++ l') d d'.

Lemma steps_one l d d' : db_step l d d' -> db_steps l d d'.
Proof. intros H. rewrite <-(app_nil_r l). by eapply steps_cons; [|constructor]. Qed.

Lemma steps_app l l' d d1 d' : db_steps l d d1 -> db_steps l' d1 d' -> db_steps (l ++ l') d d'.
Proof. induction 1; [done|]. intros H'. rewrite <-app_assoc. eapply steps_cons; eauto. Qed.

(** A property of single steps that composes holds along any sequence. *)
Lemma steps_inv (R : Db -> Db -> Prop) `{!PreOrder R} (P : Db -> Prop) (ok : Label -> Prop) l d d' :
  (forall l d d', Forall ok l -> P d -> db_step l d d' -> P d' /\ R d d') ->
  db_steps l d d' -> Forall ok l -> P d -> P d' /\ R d d'.
Proof.
  intros HS. induction 1 as [|l l' d d1 d' S _ IH]; [done|]. intros [Hl Hl']%Forall_app Hd.
  destruct (HS _ _ _ Hl Hd S) as [Hd1 R1]. destruct (IH Hl' Hd1) as [Hd' R2].
  split; [done|]. by etrans.
Qed.

End Spec.
