(* ===== verification/DurableInv.v ===== *)
(** * The invariant of the durable store

    Every abstract transition preserves [DInv] and touches one task only. *)

From Stdlib Require Import ZArith Lia Ascii String Sorted.
From stdpp Require Import base tactics list gmap strings numbers.
From S2P Require Import Prelude Bytes TaskModel DurableTypes DurableDb DurableStore DurableWakeups DurableExec DurableLogic DurableSpec.
Open Scope Z_scope.

(** ** Sequences and sums *)

Lemma seqZ_snoc n : 0 <= n -> seqZ 0 (n + 1) = seqZ 0 n ++ [n].
Proof. intros H. by rewrite seqZ_app by lia. Qed.

Lemma vec_len_snoc {A} (l : list A) x : vec_len (l ++ [x]) = vec_len l + 1.
Proof. unfold vec_len. rewrite length_app. simpl. lia. Qed.

Lemma vec_len_cons {A} x (l : list A) : vec_len (x :: l) = vec_len l + 1.
Proof. unfold vec_len. cbn [length]. lia. Qed.

Lemma vec_len_nonneg {A} (l : list A) : 0 <= vec_len l.
Proof. unfold vec_len. lia. Qed.

Lemma next_sequence_max rows n :
  (forall r, r ∈ rows -> er_sequence r < n) -> 0 <= n ->
  next_sequence rows <= n /\ forall r, r ∈ rows -> er_sequence r < next_sequence rows.
Proof.
  intros H Hn. induction rows as [|r rows IH]; simpl; [split; [lia|by intros r ?%elem_of_nil]|].
  destruct IH as [IH1 IH2]; [intros x Hx; apply H; by right|].
  pose proof (H r ltac:(left)). split; [lia|].
  intros x [->|Hx]%elem_of_cons; [lia|]. specialize (IH2 x Hx). lia.
Qed.

(** In a gap-free history the next sequence is the number of events. *)
Lemma next_sequence_len rows :
  er_sequence <$> rows = seqZ 0 (vec_len rows) -> next_sequence rows = vec_len rows.
Proof.
  intros H. destruct (next_sequence_max rows (vec_len rows)) as [Hle Hlt]; [|apply vec_len_nonneg|].
  - intros r Hr. assert (er_sequence r ∈ er_sequence <$> rows) as Hi by (apply list_elem_of_fmap; eauto).
    rewrite H in Hi. apply elem_of_seqZ in Hi. lia.
  - destruct rows as [|r rows] using rev_ind; [done|].
    rewrite fmap_app, vec_len_snoc, seqZ_snoc in H by apply vec_len_nonneg.
    apply app_inj_tail in H as [_ H]. specialize (Hlt r ltac:(set_solver)).
    rewrite vec_len_snoc in *. simpl in H. lia.
Qed.

Lemma history_bytes_app a b : history_bytes (a ++ b) = history_bytes a + history_bytes b.
Proof. unfold history_bytes. induction a as [|r a IH]; simpl; [done|]. lia. Qed.

Lemma signal_bytes_app a b : signal_bytes (a ++ b) = signal_bytes a + signal_bytes b.
Proof. unfold signal_bytes. induction a as [|r a IH]; simpl; [done|]. lia. Qed.

Lemma signal_bytes_sublist a b : sublist a b -> signal_bytes a <= signal_bytes b.
Proof.
  induction 1 as [|r a b _ IH|r a b _ IH]; simpl in *; [lia|lia|].
  pose proof (len_nonneg (sr_name r)). pose proof (len_nonneg (sr_payload r)). lia.
Qed.

Lemma program_bytes_insert m id p :
  m !! id = None -> program_bytes (<[id := p]> m) = len (pr_source p) + program_bytes m.
Proof. intros H. unfold program_bytes. rewrite map_fold_insert_L; [done| |done]. intros. lia. Qed.

Lemma program_bytes_delete m id p :
  m !! id = Some p -> program_bytes m = len (pr_source p) + program_bytes (delete id m).
Proof.
  intros H. rewrite <-(insert_delete_id m id p H) at 1. by rewrite program_bytes_insert by apply lookup_delete_eq.
Qed.

Lemma size_delete_Some {A} (m : gmap TaskId A) id p :
  m !! id = Some p -> Z.of_nat (size m) = Z.of_nat (size (delete id m)) + 1.
Proof.
  intros H. rewrite <-(insert_delete_id m id p H) at 1.
  rewrite map_size_insert_None by apply lookup_delete_eq. lia.
Qed.

(** ** Active programs *)

Lemma active_lookup d id p :
  active_programs d !! id = Some p <-> durable_programs d !! id = Some p /\ durable_completions d !! id = None.
Proof. unfold active_programs. by rewrite map_lookup_filter_Some. Qed.

(** The active programs of a database that differs at [id] only. *)
Lemma active_insert d d' id p :
  durable_completions d' = durable_completions d ->
  durable_programs d' = <[id := p]> (durable_programs d) ->
  durable_completions d !! id = None -> active_programs d' = <[id := p]> (active_programs d).
Proof. intros Hc Hp H. unfold active_programs. rewrite Hp, Hc. by apply map_filter_insert_True. Qed.

Lemma active_delete d d' id :
  (forall i, i <> id -> durable_completions d' !! i = durable_completions d !! i) ->
  (forall i, i <> id -> durable_programs d' !! i = durable_programs d !! i) ->
  (durable_programs d' !! id = None \/ is_Some (durable_completions d' !! id)) ->
  active_programs d' = delete id (active_programs d).
Proof.
  intros Hc Hp H. apply map_eq. intros i. apply option_eq. intros p.
  rewrite lookup_delete_Some, !active_lookup. destruct (decide (i = id)) as [->|n].
  - split; [|by intros []]. intros [H1 H2]. rewrite H2, H1 in H. destruct H as [?|[? ?]]; done.
  - rewrite Hc, Hp by done. naive_solver.
Qed.

Lemma active_same d d' :
  durable_completions d' = durable_completions d -> durable_programs d' = durable_programs d ->
  active_programs d' = active_programs d.
Proof. unfold active_programs. by intros -> ->. Qed.

(** ** The inbox *)

Lemma sorted_snoc l x : StronglySorted Z.lt l -> (forall y, y ∈ l -> y < x) -> StronglySorted Z.lt (l ++ [x]).
Proof.
  intros H Hx. induction H as [|y l HS IH HF]; simpl; [repeat constructor|].
  constructor; [apply IH; intros z Hz; apply Hx; by right|].
  apply list.Forall_app. split; [done|]. constructor; [apply Hx; by left|constructor].
Qed.

Lemma Forall_filtered {A} (Q P : A -> Prop) `{!forall x, Decision (P x)} l :
  Forall Q l -> Forall Q (filter P l).
Proof. rewrite !list.Forall_forall. intros HQ x [_ Hx]%list_elem_of_filter. by apply HQ. Qed.

Lemma filter_swap {A} (P Q : A -> Prop) `{!forall x, Decision (P x), !forall x, Decision (Q x)} (l : list A) :
  filter P (filter Q l) = filter Q (filter P l).
Proof. rewrite !list_filter_filter. apply list_filter_iff. naive_solver. Qed.

Lemma sorted_filter {A} (f : A -> Z) (P : A -> Prop) `{!forall x, Decision (P x)} l :
  StronglySorted Z.lt (f <$> l) -> StronglySorted Z.lt (f <$> filter P l).
Proof.
  induction l as [|x l IH]; [done|]. simpl. intros [HS HF]%StronglySorted_inv.
  rewrite filter_cons. case_decide; [|by apply IH]. simpl. constructor; [by apply IH|].
  rewrite Forall_fmap in *. by apply Forall_filtered.
Qed.

Lemma seqZ_sorted n : 0 <= n -> StronglySorted Z.lt (seqZ 0 n).
Proof.
  intros H. rewrite <-(Z2Nat.id n) by done. induction (Z.to_nat n) as [|m IH]; [constructor|].
  rewrite Nat2Z.inj_succ, <-Z.add_1_r, seqZ_snoc by lia. apply sorted_snoc; [done|].
  intros y Hy%elem_of_seqZ. lia.
Qed.

(** [ORDER BY] leaves rows that are in order. *)
Lemma order_by_sorted {A} (f : A -> Z) l :
  StronglySorted Z.lt (f <$> l) -> order_by (fun x => (f x, 0)) l = l.
Proof.
  induction l as [|x l IH]; [done|]. simpl. intros [HS HF]%StronglySorted_inv. rewrite IH by done.
  destruct l as [|y l]; [done|]. simpl. apply list.Forall_cons in HF as [Hlt _].
  unfold pair_le. simpl. destruct (Z.ltb_spec (f x) (f y)); [done|lia].
Qed.

(** Two databases that differ at one task. *)
Ltac solve_frame :=
  intros i n; unfold view, task_events, drop_wait; simpl;
  rewrite ?lookup_insert_ne, ?lookup_delete_ne, ?lookup_alter_ne by done;
  repeat case_match; by rewrite ?lookup_delete_ne by done.

Section Inv.
Context {SJ : SerdeJson} {SH : Sha256}.

Lemma empty_view_ok id : TaskOk (view empty_db id).
Proof. split; by try (simpl; rewrite ?lookup_empty; naive_solver constructor). Qed.

(** Rows only ever leave the inbox, or one joins at its end. *)
Lemma inbox_filter d d' (P : SignalRow -> Prop) `{!forall x, Decision (P x)} :
  durable_signal_inbox d' = filter P (durable_signal_inbox d) ->
  signal_inbox_next_id d' = signal_inbox_next_id d ->
  (forall k r, durable_signal_receipts d' !! k = Some r -> durable_signal_receipts d !! k = Some r) ->
  InboxOk d -> InboxOk d'.
Proof.
  intros Hi Hn Hr [HN HS HR HB HT]. split; rewrite ?Hn, ?Hi; eauto using sorted_filter, Forall_filtered.
  intros id. specialize (HB id). unfold task_signals in *. rewrite Hi.
  assert (sublist (filter (fun r => sr_task_id r = id) (filter P (durable_signal_inbox d)))
    (filter (fun r => sr_task_id r = id) (durable_signal_inbox d))) as HSub.
  { rewrite filter_swap. apply sublist_filter. }
  pose proof (sublist_length _ _ HSub). pose proof (signal_bytes_sublist _ _ HSub).
  unfold vec_len in *. lia.
Qed.

Lemma inbox_same d d' :
  durable_signal_inbox d' = durable_signal_inbox d -> signal_inbox_next_id d' = signal_inbox_next_id d ->
  durable_signal_receipts d' = durable_signal_receipts d -> InboxOk d -> InboxOk d'.
Proof.
  intros Hi Hn Hr [HN HS HR HB HT]. split; unfold task_signals; rewrite ?Hi, ?Hn, ?Hr; eauto.
Qed.

Lemma inbox_enqueue d s :
  sr_id s = signal_inbox_next_id d -> is_Some (json_from_str (sr_payload s)) -> 0 <= sr_sent_at_ms s ->
  vec_len (task_signals d (sr_task_id s)) < MAX_PENDING_SIGNALS ->
  signal_bytes (task_signals d (sr_task_id s)) + (len (sr_name s) + len (sr_payload s)) <= MAX_HISTORY_BYTES ->
  InboxOk d -> InboxOk (set_inbox (durable_signal_inbox d ++ [s]) (signal_inbox_next_id d + 1) d).
Proof.
  intros Hid Hj Hs Hc Hb [HN HS HR HB HT]. split; simpl.
  - lia.
  - rewrite fmap_app. apply sorted_snoc; [done|]. intros y [r [-> Hr]]%list_elem_of_fmap.
    rewrite list.Forall_forall in HR. destruct (HR r Hr) as [? _]. lia.
  - apply list.Forall_app. split; [|repeat constructor; (lia || done)].
    eapply list.Forall_impl; [exact HR|]. intros r (? & ? & ?). repeat split; (lia || done).
  - intros id. specialize (HB id). unfold task_signals in *. simpl.
    rewrite list.filter_app, list.filter_cons, list.filter_nil. case_decide; [subst|by rewrite app_nil_r].
    rewrite vec_len_snoc, signal_bytes_app. simpl. lia.
  - intros k r Hk. specialize (HT k r Hk). lia.
Qed.

(** ** Each transition touches one task *)

Lemma step_frame l d d' :
  db_step l d d' -> exists id, forall i, i <> id -> view d' i = view d i.
Proof.
  destruct 1 as [id|id|id|id|id|id|id|id|id|k|id|id|id|id|id]; first [by exists 0|exists id; solve_frame].
Qed.

Lemma tasks_update id d d' :
  (forall i, i <> id -> view d' i = view d i) -> (TaskOk (view d id) -> TaskOk (view d' id)) ->
  (forall i, TaskOk (view d i)) -> forall i, TaskOk (view d' i).
Proof. intros Hf Hid H i. destruct (decide (i = id)) as [->|n]; [auto|by rewrite Hf]. Qed.

Lemma add_event_ok id r d :
  appendable id r d -> TaskOk (view d id) ->
  er_sequence r = vec_len (task_events d id) /\ TaskOk (view (add_event id r d) id).
Proof.
  intros (Hc & Hs & He & Hn & Hb) [V1 V2 [V3 V3'] [V4 V4'] V5 V6 V7 V8 V9]. simpl in *.
  rewrite (next_sequence_len _ V1) in Hs. split; [done|].
  split; unfold view, task_events, add_event; simpl; rewrite ?lookup_insert_eq; simpl; try done.
  - rewrite fmap_app, V1, vec_len_snoc, seqZ_snoc by apply vec_len_nonneg. simpl. by rewrite Hs.
  - apply list.Forall_app. split; [done|by apply Forall_singleton].
  - rewrite vec_len_snoc. fold (task_events d id) in *. lia.
  - rewrite history_bytes_app. fold (task_events d id). simpl. lia.
  - intros c Hc'. congruence.
Qed.

(** ** Each transition preserves the invariant *)

Lemma view_ok_update v v' :
  TaskOk v -> tv_events v' = tv_events v -> tv_stats v' = tv_stats v ->
  (forall w, tv_wakeup v' = Some w -> wakeup_ok w) ->
  (forall w, tv_wait v' = Some w -> 0 <= sw_sequence w) ->
  (forall p, tv_program v' = Some p -> program_ok p) ->
  (forall r, tv_execution v' = Some r -> execution_ok r) ->
  (forall c, tv_completion v' = Some c -> completion_ok v' c) -> TaskOk v'.
Proof. intros [] E1 E2 **. split; rewrite ?E1, ?E2; auto. Qed.

(** Parts of a task's view an update at [id] does not name. *)
Ltac view_update V :=
  refine (view_ok_update _ _ V _ _ _ _ _ _ _); unfold view, task_events; simpl;
  rewrite ?lookup_insert_eq, ?lookup_delete_eq, ?lookup_alter_eq; try done;
  try (by destruct V); try (let x := fresh "x" in let Hx := fresh "Hx" in intros x Hx; simplify_eq/=; try done).

Lemma suspended_false d id :
  suspended d id = false <-> durable_wakeups d !! id = None /\ durable_signal_waits d !! id = None.
Proof.
  unfold suspended. destruct (durable_wakeups d !! id), (durable_signal_waits d !! id); naive_solver.
Qed.

Lemma consume_ok id r s d :
  appendable id r d -> TaskOk (view d id) ->
  TaskOk (view (drop_wait id (er_sequence r) (er_key r) (drop_signal s (add_event id r d))) id).
Proof.
  intros HA HV. destruct (add_event_ok id r d HA HV) as [_ V]. view_update V.
  - apply (ok_wait _ HV). simpl. destruct (durable_signal_waits d !! id) eqn:E; [|congruence].
    destruct (_ && _); [by rewrite lookup_delete_eq in Hx|congruence].
  - destruct HA as [? _]. congruence.
Qed.

Lemma end_ok id r state d :
  durable_executions d !! id = Some r -> ex_state r = ExRunning -> state <> ExRunning ->
  TaskOk (view d id) ->
  TaskOk (view (set_executions (<[id := ended_row state r]> (durable_executions d)) d) id).
Proof.
  intros Hr Hs Hn V. view_update V.
  - destruct (ok_execution _ V r Hr) as (? & ? & ?). repeat split; simpl; try done; naive_solver.
  - destruct (ok_completion _ V _ Hx) as (_ & _ & _ & HX & _). specialize (HX r Hr). congruence.
Qed.

Lemma complete_ok id p c d :
  durable_programs d !! id = Some p -> durable_completions d !! id = None ->
  suspended d id = false -> cr_next_sequence c = next_sequence (task_events d id) ->
  0 <= cr_completed_at_ms c -> is_Some (json_from_str (cr_result_json c)) -> TaskOk (view d id) ->
  TaskOk (view (set_executions (alter (ended_row ExCompleted) id (durable_executions d))
    (set_program_stats (active_count d + -1) (active_bytes d + - len (pr_source p))
      (set_completions (<[id := c]> (durable_completions d)) d))) id).
Proof.
  intros Hp Hc [Hw Hs]%suspended_false Hn Ht Hj V.
  pose proof (next_sequence_len _ (ok_sequences _ V)) as Hl. simpl in Hl. rewrite Hl in Hn.
  view_update V.
  - destruct (durable_executions d !! id) as [r'|] eqn:Er; [|done].
    destruct (ok_execution _ V r' Er) as (? & ? & ?). simplify_eq/=.
    repeat split; simpl; try done; naive_solver.
  - rewrite Hp, Hw, Hs. repeat split; simpl; try done; eauto.
    intros r. destruct (durable_executions d !! id); naive_solver.
Qed.

Lemma prune_ok id d : suspended d id = false -> TaskOk (view (delete_task id d) id).
Proof.
  intros [Hw Hs]%suspended_false. unfold view, task_events, delete_task. simpl.
  rewrite !lookup_delete_eq, Hw, Hs. by split; simpl.
Qed.

Lemma lease_ok id w w' d :
  durable_wakeups d !! id = Some w -> wr_sequence w' = wr_sequence w ->
  wr_wake_at_ms w' = wr_wake_at_ms w ->
  (is_Some (wr_lease_owner w') <-> is_Some (wr_lease_until_ms w')) -> TaskOk (view d id) ->
  TaskOk (view (set_wakeups (<[id := w']> (durable_wakeups d)) d) id).
Proof.
  intros Hw H1 H2 H3 V. view_update V.
  - destruct (ok_wakeup _ V w Hw) as (? & ? & ?). by rewrite <-H1, <-H2 in *.
  - destruct (ok_completion _ V _ Hx) as (_ & HX & _). simpl in HX. congruence.
Qed.

Lemma step_tasks l d d' :
  db_step l d d' -> (forall i, TaskOk (view d i)) -> forall i, TaskOk (view d' i).
Proof.
  destruct 1 as [id p d Hp Hc Hpo|id p d Hp Hc|id|id|id w d Hc Hw|id|id|id w d Hc Hn Hw|id|k|id r d Hr Hc Hs Hg Ho Hu|
    id token until generation d Hc Hg|id|id|id];
    try done; apply (tasks_update id); try solve_frame; intros V.
  - view_update V; congruence.
  - view_update V; congruence.
  - by apply add_event_ok.
  - by apply consume_ok.
  - view_update V; congruence.
  - by eapply lease_ok.
  - view_update V. destruct (ok_completion _ V _ Hx) as (? & _ & ?). by split.
  - view_update V; congruence.
  - view_update V. unfold execution_ok. rewrite Hg, Hs, Ho, Hu. split; [done|]. naive_solver.
  - view_update V. repeat split; simpl; eauto.
    destruct (durable_executions d !! id) as [r|] eqn:E; simpl; [|done].
    destruct (ok_execution _ V r E). lia.
  - by apply end_ok.
  - by apply complete_ok.
  - by apply prune_ok.
Qed.

(** The counters of [durable_program_stats] against the active programs. *)
Definition counters_ok (d : Db) : Prop :=
  active_count d = Z.of_nat (size (active_programs d)) /\ active_count d <= MAX_DURABLE_PROGRAMS
  /\ active_bytes d = program_bytes (active_programs d)
  /\ active_bytes d <= MAX_DURABLE_PROGRAM_TOTAL_BYTES.

Lemma counters_same d d' :
  counters_ok d -> durable_completions d' = durable_completions d ->
  durable_programs d' = durable_programs d -> active_count d' = active_count d ->
  active_bytes d' = active_bytes d -> counters_ok d'.
Proof. intros H Hc Hp Hn Hb. unfold counters_ok. by rewrite (active_same _ _ Hc Hp), Hn, Hb. Qed.

Lemma counters_delete d d' id p :
  counters_ok d -> active_programs d !! id = Some p ->
  active_programs d' = delete id (active_programs d) ->
  active_count d' = active_count d + -1 -> active_bytes d' = active_bytes d + - len (pr_source p) ->
  counters_ok d'.
Proof.
  intros (H1 & H2 & H3 & H4) Hp HA Hn Hb. unfold counters_ok. rewrite HA, Hn, Hb.
  pose proof (size_delete_Some _ _ _ Hp). pose proof (program_bytes_delete _ _ _ Hp).
  pose proof (len_nonneg (pr_source p)). lia.
Qed.

Lemma step_counters l d d' : db_step l d d' -> counters_ok d -> counters_ok d'.
Proof.
  destruct 1 as [id p d Hp Hc Hpo Hn Hb|id p d Hp Hc|id|id|id|id|id|id|id|k|id|id|id|
    id p c d Hp Hc|id c d Hc]; intros HK; try by apply (counters_same d).
  - destruct HK as (H1 & H2 & H3 & H4). unfold counters_ok. rewrite (active_insert d _ id p) by done. simpl.
    assert (active_programs d !! id = None) as Hf.
    { apply eq_None_not_Some. intros [q Hq%active_lookup]. naive_solver. }
    rewrite map_size_insert_None, program_bytes_insert by done. lia.
  - eapply (counters_delete d _ id p); [done|by apply active_lookup| |done|done].
    apply active_delete; simpl; [done|by intros; rewrite lookup_delete_ne|left; apply lookup_delete_eq].
  - eapply (counters_delete d _ id p); [done|by apply active_lookup| |done|done].
    apply active_delete; simpl; [by intros; rewrite lookup_insert_ne|done|].
    right. rewrite lookup_insert_eq. eauto.
  - unfold counters_ok. rewrite (active_delete d (delete_task id d) id); simpl.
    + rewrite delete_id; [done|]. apply eq_None_not_Some. intros [q Hq%active_lookup]. naive_solver.
    + by intros; rewrite lookup_delete_ne.
    + by intros; rewrite lookup_delete_ne.
    + left. apply lookup_delete_eq.
Qed.

Lemma step_inbox l d d' : db_step l d d' -> InboxOk d -> InboxOk d'.
Proof.
  destruct 1 as [id|id|id|id s r d|id|id|id|id|id s d Hc Hi Hid Hj Hs Hn Hb|k r d Hk Hr|id|id|id|id|id c d]; intros HK;
    try by apply (inbox_same d).
  - eapply (inbox_filter d); [done..|exact HK].
  - subst id. by apply inbox_enqueue.
  - destruct HK. split; simpl; try done. intros k' r' Hk'.
    destruct (decide (k = k')) as [->|n]; simplify_map_eq; eauto.
  - eapply (inbox_filter d); [done|done| |exact HK]. simpl.
    intros k r Hk. by apply map_lookup_filter_Some in Hk as [? _].
Qed.

Lemma step_DInv l d d' : db_step l d d' -> DInv d -> DInv d'.
Proof.
  intros S [HT [HC1 HC2] [HB1 HB2] HI]. destruct (step_counters _ _ _ S) as (? & ? & ? & ?); [done|].
  split; [by eapply step_tasks|done|done|by eapply step_inbox].
Qed.

Lemma steps_DInv l d d' : db_steps l d d' -> DInv d -> DInv d'.
Proof. induction 1; eauto using step_DInv. Qed.

Lemma empty_DInv : DInv empty_db.
Proof.
  split; [apply empty_view_ok|done|done|]. split; simpl; [done|constructor|constructor|done|].
  intros k r. by rewrite lookup_empty.
Qed.

End Inv.
