(* ===== verification/DurableRefine.v ===== *)
(** * The operations of the durable store refine its abstract transitions

    [StoreOp] names every operation that writes, [run_op] runs it, and
    [run_op_refines] shows that whatever it wrote is a sequence of [db_step]s
    whose labels the operation may emit. *)

From Stdlib Require Import ZArith Lia Ascii String.
From stdpp Require Import base tactics list gmap strings numbers.
From S2P Require Import Prelude Bytes TaskModel DurableTypes DurableDb DurableStore DurableWakeups DurableExec DurableLogic DurableSpec DurableInv.
Open Scope Z_scope.

Section Refine.
Context {SJ : SerdeJson} {SH : Sha256}.

Inductive StoreOp :=
| OpPutProgram (id : TaskId) (kind : DurableProgramKind) (source : string) (registered_at_ms : Z)
| OpRemoveProgram (id : TaskId)
| OpAppend (clock : nat -> Z) (scope : option ExecutionClaim) (id : TaskId) (expected : option Z)
    (e : NewEvent) (wake_at_ms : option Z)
| OpAppendJson (clock : nat -> Z) (scope : option ExecutionClaim) (id : TaskId) (expected : Z)
    (kind : EventKind) (key payload_json : string) (recorded_at_ms : Z) (wake_at_ms : option Z)
| OpScheduleWakeup (w : Wakeup)
| OpClaimDueWakeups (now_ms limit : Z) (owner : string) (duration_ms : Z)
| OpClaimWakeup (id : TaskId) (now_ms : Z) (owner : string) (duration_ms : Z)
| OpCompleteWakeup (clock : nat -> Z) (scope : option ExecutionClaim) (id : TaskId) (sequence : Z)
    (owner : option string) (now_ms : Z)
| OpRenewWakeup (c : WakeupClaim) (now_ms duration_ms : Z)
| OpReleaseWakeup (c : WakeupClaim)
| OpSendSignal (id : TaskId) (name : string) (payload : Value) (sent_at_ms : Z) (key : option string)
| OpPollSignal (clock : nat -> Z) (scope : option ExecutionClaim) (id : TaskId) (expected : Z)
    (name : string) (now_ms : Z) (claim : option WakeupClaim)
| OpAdmit (id : TaskId) (key source input : string) (time : Z)
| OpClaimRun (clock : nat -> Z) (entropy : string) (id : TaskId) (owner : string) (duration : Z)
| OpReleaseRun (clock : nat -> Z) (claim : ExecutionClaim) (failed : bool)
| OpFinish (clock : nat -> Z) (scope : option ExecutionClaim) (id : TaskId) (expected : Z)
    (value : Value) (completed_at_ms : Z) (lease_until_ms : option Z)
| OpPrune (before_ms limit : Z).

Definition run_op (op : StoreOp) (d : Db) : Db :=
  match op with
  | OpPutProgram id kind source at_ms => (put_program_inner id kind source at_ms d).2
  | OpRemoveProgram id => (remove_program id d).2
  | OpAppend clock scope id expected e wake => (append_event_inner clock scope id expected e wake d).2
  | OpAppendJson clock scope id expected kind key json at_ms wake =>
      (append_event_json_inner clock scope id expected kind key json at_ms wake d).2
  | OpScheduleWakeup w => (schedule_wakeup w d).2
  | OpClaimDueWakeups now limit owner dur => (claim_due_wakeups now limit owner dur d).2
  | OpClaimWakeup id now owner dur => (claim_wakeup id now owner dur d).2
  | OpCompleteWakeup clock scope id seq owner now => (complete_wakeup clock scope id seq owner now d).2
  | OpRenewWakeup c now dur => (renew_wakeup_claim c now dur d).2
  | OpReleaseWakeup c => (release_wakeup_claim c d).2
  | OpSendSignal id name payload at_ms key => (send_signal_inner id name payload at_ms key d).2
  | OpPollSignal clock scope id expected name now claim =>
      (poll_signal clock scope id expected name now claim d).2
  | OpAdmit id key source input time => (admit_task id key source input time d).2
  | OpClaimRun clock entropy id owner dur => (claim_run clock entropy id owner dur d).2
  | OpReleaseRun clock claim failed => (release_run clock claim failed d).2
  | OpFinish clock scope id expected value at_ms until =>
      (finish_task clock scope id expected value at_ms until d).2
  | OpPrune before limit => (prune_completed before limit d).2
  end.

Definition run_ops (ops : list StoreOp) (d : Db) : Db := foldl (fun d op => run_op op d) d ops.

(** The arguments an operation stores: unsigned integers, and payloads whose
    text the store can read again. *)
Definition op_valid (op : StoreOp) : Prop :=
  match op with
  | OpPutProgram _ _ _ at_ms => 0 <= at_ms
  | OpAppend _ _ _ _ e wake =>
      readable (ne_payload e) /\ 0 <= ne_recorded_at_ms e /\ forall w, wake = Some w -> 0 <= w
  | OpAppendJson _ _ _ _ _ _ _ at_ms wake => 0 <= at_ms /\ forall w, wake = Some w -> 0 <= w
  | OpScheduleWakeup w => 0 <= wk_sequence w /\ 0 <= wk_wake_at_ms w
  | OpSendSignal _ _ payload at_ms _ => readable payload /\ 0 <= at_ms
  | OpAdmit _ _ _ _ time => 0 <= time
  | OpFinish _ _ _ _ value at_ms _ => readable value /\ 0 <= at_ms
  | _ => True
  end.

(** The labels an operation may emit. *)
Definition op_emits (op : StoreOp) (l : Label) : Prop :=
  match op with
  | OpAppend _ _ id _ e _ => ne_kind e = Signal /\ exists json, l = WroteSignal id (ne_key e) json
  | OpAppendJson _ _ id _ kind key json _ _ => kind = Signal /\ l = WroteSignal id key json
  | OpSendSignal id name payload _ _ => exists json, json_to_string payload = Some json /\ l = Accepted id name json
  | OpClaimRun _ entropy _ owner _ => exists token, owner_token entropy owner = Ok token /\ l = Issued token
  | OpPrune _ _ => exists id, l = Pruned id
  | _ => False
  end.

Definition steps_with (ok : Label -> Prop) (d d' : Db) : Prop :=
  exists l, Forall ok l /\ db_steps l d d'.

Lemma sw_refl ok d : steps_with ok d d.
Proof. exists []. split; constructor. Qed.
Lemma sw_trans ok d d1 d' : steps_with ok d d1 -> steps_with ok d1 d' -> steps_with ok d d'.
Proof.
  intros (l1 & F1 & S1) (l2 & F2 & S2). exists (l1 ++ l2).
  split; [by apply list.Forall_app|by eapply steps_app].
Qed.
Lemma sw_silent ok d d' : db_step [] d d' -> steps_with ok d d'.
Proof. intros H. exists []. split; [constructor|by apply steps_one]. Qed.
Lemma sw_labelled ok x d d' : ok x -> db_step [x] d d' -> steps_with ok d d'.
Proof. intros Hx H. exists [x]. split; [by apply Forall_singleton|by apply steps_one]. Qed.

Lemma set_wakeups_id d : set_wakeups (durable_wakeups d) d = d.
Proof. by destruct d. Qed.
Lemma set_executions_id d : set_executions (durable_executions d) d = d.
Proof. by destruct d. Qed.

Lemma alter_Some {A} (f : A -> A) (m : gmap TaskId A) id x :
  m !! id = Some x -> alter f id m = <[id := f x]> m.
Proof. intros H. apply map_eq. intros i. destruct (decide (i = id)) as [->|n]; by simplify_map_eq. Qed.

(** Changing a wakeup's lease, if there is a wakeup. *)
Lemma sw_alter_wakeup ok f id d :
  (forall w, wr_sequence (f w) = wr_sequence w /\ wr_wake_at_ms (f w) = wr_wake_at_ms w
        /\ (is_Some (wr_lease_owner (f w)) <-> is_Some (wr_lease_until_ms (f w)))) ->
  steps_with ok d (set_wakeups (alter f id (durable_wakeups d)) d).
Proof.
  intros Hf. destruct (durable_wakeups d !! id) as [w|] eqn:E.
  - rewrite (alter_Some _ _ _ _ E). destruct (Hf w) as (? & ? & ?). apply sw_silent. by eapply step_lease.
  - rewrite alter_id by naive_solver. rewrite set_wakeups_id. apply sw_refl.
Qed.

Lemma lease_wakeup_keeps owner until w :
  wr_sequence (lease_wakeup owner until w) = wr_sequence w
  /\ wr_wake_at_ms (lease_wakeup owner until w) = wr_wake_at_ms w
  /\ (is_Some (wr_lease_owner (lease_wakeup owner until w))
      <-> is_Some (wr_lease_until_ms (lease_wakeup owner until w))).
Proof. repeat split; eauto. Qed.

Lemma unlease_wakeup_keeps w :
  wr_sequence (unlease_wakeup w) = wr_sequence w /\ wr_wake_at_ms (unlease_wakeup w) = wr_wake_at_ms w
  /\ (is_Some (wr_lease_owner (unlease_wakeup w)) <-> is_Some (wr_lease_until_ms (unlease_wakeup w))).
Proof. repeat split; simpl; intros []; done. Qed.

(** ** Programs *)

Lemma program_row_ok source at_ms kind :
  validate_program_source source = Ok () -> 0 <= at_ms ->
  program_ok {| pr_kind := ProgramKind_as_str kind; pr_source := source;
                pr_sha256 := sha256 source; pr_registered_at_ms := at_ms |}.
Proof. intros Hv Ha. split; [by destruct kind|done]. Qed.

Lemma select_None d id : select_program d id = Ok None -> durable_programs d !! id = None.
Proof.
  unfold select_program. destruct (durable_programs d !! id) as [r|]; [|done].
  unfold mbind, result_bind. by destruct (decode_program id r).
Qed.

Lemma decode_source id r p : decode_program id r = Ok p -> dp_source p = pr_source r.
Proof.
  unfold decode_program, mbind, result_bind. destruct (validate_program_source _); [|done].
  repeat case_match; try done. by intros [= <-].
Qed.

Lemma select_Some d id p :
  select_program d id = Ok (Some p) -> exists r, durable_programs d !! id = Some r /\ dp_source p = pr_source r.
Proof.
  unfold select_program. destruct (durable_programs d !! id) as [r|]; [|done].
  unfold mbind, result_bind. destruct (decode_program id r) eqn:E; [|done]. intros [= ->].
  eauto using decode_source.
Qed.

Lemma put_refines ok id kind source at_ms d :
  0 <= at_ms -> steps_with ok d (put_program_inner id kind source at_ms d).2.
Proof.
  intros Ha. unfold put_program_inner. destruct (validate_program_source source) as [[]|] eqn:Hv; [|apply sw_refl].
  destruct (to_sql_integer at_ms _) as [v|] eqn:Ev; [apply to_sql_Ok in Ev as [-> _]|apply sw_refl].
  apply (run_tx_post _ (fun _ d' => steps_with ok d d')); [intros; apply sw_refl|]. tx; try apply sw_refl.
  apply sw_silent. apply (step_put id {| pr_kind := ProgramKind_as_str kind; pr_source := source;
    pr_sha256 := sha256 source; pr_registered_at_ms := at_ms |} d); try done.
  - subst. by apply select_None.
  - by apply program_row_ok.
  - lia.
  - simpl. unfold checked_add_i64 in *. case_match; [|done]. simplify_eq. lia.
Qed.

Lemma remove_refines ok id d : steps_with ok d (remove_program id d).2.
Proof.
  unfold remove_program. apply (run_tx_post _ (fun _ d' => steps_with ok d d')); [intros; apply sw_refl|].
  tx; try apply sw_refl. subst.
  destruct (select_Some _ _ _ ltac:(eassumption)) as (r & Hr & Hs). apply sw_silent. simpl. rewrite Hs.
  repeat match goal with H : _ || _ = false |- _ => apply orb_false_iff in H as [? ?] end.
  apply step_remove; try done; repeat case_match; done.
Qed.

(** ** Events *)

Lemma tx_insert_event id expected kind key payload recorded (Q : Z -> Db -> Prop) d :
  is_Some (json_from_str payload) -> 0 <= recorded ->
  (let r := {| er_sequence := next_sequence (task_events d id); er_kind := EventKind_as_str kind;
     er_key := key; er_payload := payload; er_recorded_at_ms := recorded |} in
   appendable id r d -> (forall e, expected = Some e -> e = er_sequence r) ->
   Q (er_sequence r) (add_event id r d)) ->
  tx_ok (insert_event id expected kind key payload recorded) Q d.
Proof.
  intros Hj Hr HQ. unfold insert_event. cbv zeta in *. tx.
  all: apply HQ; [|intros e' He'; simplify_eq; try done].
  all: try match goal with H : from_sql_integer _ _ = Ok _ |- _ => apply from_sql_Ok in H as [-> _] end;
    split_bool; subst; try done.
  all: repeat split; simpl; try done; try by destruct kind; try lia.
  all: unfold no_stats, checked_add_i64, ok_or in *; repeat case_match; simplify_eq; lia.
Qed.

Lemma wake_row_ok seq at_ms : 0 <= seq -> 0 <= at_ms ->
  wakeup_ok {| wr_sequence := seq; wr_wake_at_ms := at_ms; wr_lease_owner := None; wr_lease_until_ms := None |}.
Proof. intros. repeat split; simpl; (done || by intros []). Qed.

Lemma sw_append (ok : Label -> Prop) id r d :
  (er_kind r = "signal"%string -> ok (WroteSignal id (er_key r) (er_payload r))) ->
  appendable id r d -> steps_with ok d (add_event id r d).
Proof.
  intros Hok HA. pose proof (step_append id r d HA) as S.
  destruct (String.eqb_spec (er_kind r) "signal"); [eapply sw_labelled; eauto|by eapply sw_silent].
Qed.

Lemma signal_kind kind : EventKind_as_str kind = "signal"%string -> kind = Signal.
Proof. by destruct kind. Qed.

Lemma append_tx_refines (ok : Label -> Prop) clock scope id expected kind key payload recorded wake d :
  DInv d -> is_Some (json_from_str payload) -> 0 <= recorded -> (forall w, wake = Some w -> 0 <= w) ->
  (kind = Signal -> ok (WroteSignal id key payload)) ->
  steps_with ok d (run_tx (append_tx clock scope id expected kind key payload recorded wake) d).2.
Proof.
  intros HD Hj Hr Hw Hok.
  apply (run_tx_post _ (fun _ d' => steps_with ok d d')); [intros; apply sw_refl|].
  unfold append_tx. tx_step. tx_step. tx_step. apply tx_insert_event; [done..|]. intros r HA _.
  pose proof (sw_append ok id r d (fun E => Hok (signal_kind _ E)) HA) as S. tx; [|done].
  eapply sw_trans; [exact S|]. apply sw_silent. apply step_wake; [apply HA|].
  destruct (add_event_ok id r d HA (inv_tasks _ HD id)) as [Hs _].
  apply wake_row_ok; [|by apply Hw]. pose proof (vec_len_nonneg (task_events d id)). lia.
Qed.

(** The wakeup argument of an append, converted. *)
Lemma wake_arg_ok (wake : option Z) v :
  match wake with None => Ok None | Some w => w' ← to_sql_integer w "wake_at_ms"; Ok (Some w') end = Ok v ->
  v = wake.
Proof.
  destruct wake as [w|]; [|by intros [= <-]]. unfold mbind, result_bind.
  destruct (to_sql_integer w _) eqn:E; [|done]. apply to_sql_Ok in E as [-> _]. by intros [= <-].
Qed.

Lemma validate_event_Ok e json at_ms :
  readable (ne_payload e) -> validate_event e = Ok (json, at_ms) ->
  json_to_string (ne_payload e) = Some json /\ is_Some (json_from_str json) /\ at_ms = ne_recorded_at_ms e.
Proof.
  intros Hp. unfold validate_event, mbind, result_bind. case_match; [done|].
  destruct (json_to_string (ne_payload e)) as [s|] eqn:Hs; [|done]. apply Hp in Hs as Hr. simpl.
  case_match; [done|]. destruct (to_sql_integer _ _) eqn:E; [|done].
  apply to_sql_Ok in E as [-> _]. by intros [= -> ->].
Qed.

Lemma append_refines clock scope id expected e wake d :
  DInv d -> op_valid (OpAppend clock scope id expected e wake) ->
  steps_with (op_emits (OpAppend clock scope id expected e wake)) d
    (append_event_inner clock scope id expected e wake d).2.
Proof.
  intros HD (Hp & Ha & Hw). unfold append_event_inner.
  destruct (validate_event e) as [[json at_ms]|] eqn:Hv; [|apply sw_refl].
  apply validate_event_Ok in Hv as (_ & Hj & ->); [|done].
  destruct (match wake with None => _ | _ => _ end) as [v|] eqn:Ev; [|apply sw_refl].
  apply wake_arg_ok in Ev as ->.
  apply append_tx_refines; simpl; eauto.
Qed.

Lemma raw_event_Ok kind key json at_ms e :
  raw_event kind key json at_ms = Ok e ->
  is_Some (json_from_str json) /\ ne_kind e = kind /\ ne_key e = key /\ ne_recorded_at_ms e = at_ms
  /\ json_from_str json = Some (ne_payload e).
Proof.
  unfold raw_event, mbind, result_bind. repeat case_match; try done.
  unfold ok_or in *. case_match; simplify_eq. intros [= <-]. eauto.
Qed.

Lemma append_json_refines clock scope id expected kind key json at_ms wake d :
  DInv d -> op_valid (OpAppendJson clock scope id expected kind key json at_ms wake) ->
  steps_with (op_emits (OpAppendJson clock scope id expected kind key json at_ms wake)) d
    (append_event_json_inner clock scope id expected kind key json at_ms wake d).2.
Proof.
  intros HD [Ha Hw]. unfold append_event_json_inner.
  destruct (raw_event kind key json at_ms) as [e|] eqn:Hv; [|apply sw_refl].
  apply raw_event_Ok in Hv as (Hj & <- & <- & <- & _). unfold mbind at 1, result_bind at 1. cbn beta iota.
  destruct (to_sql_integer (ne_recorded_at_ms e) _) as [v|] eqn:Ev; [|apply sw_refl].
  apply to_sql_Ok in Ev as [-> _]. unfold mbind at 1, result_bind at 1. cbn beta iota.
  destruct (match wake with None => _ | _ => _ end) as [v|] eqn:Ev; [|apply sw_refl].
  apply wake_arg_ok in Ev as ->. unfold mbind at 1, result_bind at 1. cbn beta iota.
  apply append_tx_refines; simpl; eauto.
Qed.

(** ** Wakeups *)

Ltac tx_op ok d := apply (run_tx_post _ (fun _ d' => steps_with ok d d')); [intros; apply sw_refl|].

Lemma schedule_refines ok w d :
  op_valid (OpScheduleWakeup w) -> steps_with ok d (schedule_wakeup w d).2.
Proof.
  intros [Hs Ha]. unfold schedule_wakeup. tx_op ok d. tx.
  repeat match goal with H : to_sql_integer _ _ = Ok _ |- _ => apply to_sql_Ok in H as [-> _] end.
  apply sw_silent. apply step_wake; [done|by apply wake_row_ok].
Qed.

(** Leasing a wakeup that is there. *)
Lemma sw_lease ok owner until id w d :
  durable_wakeups d !! id = Some w ->
  steps_with ok d (set_wakeups (<[id := lease_wakeup owner until w]> (durable_wakeups d)) d).
Proof. intros H. apply sw_silent. by eapply step_lease; [exact H|apply lease_wakeup_keeps..]. Qed.

Lemma claim_candidates_refines ok now until until_sql owner cs d0 d claims :
  steps_with ok d0 d ->
  tx_ok (claim_candidates now until until_sql owner cs claims) (fun _ d' => steps_with ok d0 d') d.
Proof.
  revert d claims. induction cs as [|[id c] cs IH]; intros d claims H; simpl; [by tx|].
  tx; try by apply IH. apply IH. eapply sw_trans; [exact H|]. by apply sw_lease.
Qed.

Lemma claim_due_refines ok now limit owner dur d :
  steps_with ok d (claim_due_wakeups now limit owner dur d).2.
Proof.
  unfold claim_due_wakeups. destruct (durable_validate_lease_owner owner); [|apply sw_refl].
  destruct (limit =? 0); [apply sw_refl|].
  destruct (now' ← _; _) as [[? [? ?]]|]; [|apply sw_refl]. tx_op ok d.
  tx_step. tx_step. tx_step. eapply tx_mono; [apply claim_candidates_refines, sw_refl|].
  intros claims d' H. cbn beta in H. by tx.
Qed.

Lemma claim_wakeup_refines ok id now owner dur d : steps_with ok d (claim_wakeup id now owner dur d).2.
Proof.
  unfold claim_wakeup. destruct (durable_validate_lease_owner owner;; _) as [[? [? ?]]|]; [|apply sw_refl].
  destruct (durable_wakeups d !! id) eqn:E; [|apply sw_refl].
  destruct (wakeup_claimable _ _); [|apply sw_refl]. destruct (decode_wakeup id w); by apply sw_lease.
Qed.

Lemma complete_wakeup_refines ok clock scope id seq owner now d :
  steps_with ok d (complete_wakeup clock scope id seq owner now d).2.
Proof. unfold complete_wakeup. tx_op ok d. tx; try apply sw_refl; apply sw_silent; constructor. Qed.

Lemma renew_refines ok c now dur d : steps_with ok d (renew_wakeup_claim c now dur d).2.
Proof.
  unfold renew_wakeup_claim. destruct (durable_validate_lease_owner (wc_lease_owner c);; _) as [[[[? ?] ?] ?]|];
    [|apply sw_refl]. case_match; [|apply sw_refl]. apply sw_alter_wakeup, lease_wakeup_keeps.
Qed.

Lemma release_wakeup_refines ok c d : steps_with ok d (release_wakeup_claim c d).2.
Proof.
  unfold release_wakeup_claim. destruct (durable_validate_lease_owner (wc_lease_owner c);; _) as [[[? ?] ?]|];
    [|apply sw_refl]. case_match; [|apply sw_refl]. apply sw_alter_wakeup, unlease_wakeup_keeps.
Qed.

(** ** Signals *)

Lemma sw_enqueue (ok : Label -> Prop) id name json at_ms d :
  is_Some (json_from_str json) -> 0 <= at_ms -> ok (Accepted id name json) ->
  durable_completions d !! id = None ->
  (MAX_PENDING_SIGNALS <=? vec_len (task_signals d id))
    || match checked_add_i64 (signal_bytes (task_signals d id)) (len name + len json) with
       | Some bytes => MAX_HISTORY_BYTES <? bytes
       | None => true
       end = false ->
  steps_with ok d (set_inbox (durable_signal_inbox d ++ [{| sr_id := signal_inbox_next_id d;
    sr_task_id := id; sr_name := name; sr_payload := json; sr_sent_at_ms := at_ms |}])
    (signal_inbox_next_id d + 1) d).
Proof.
  intros Hj Ha Hok Ho [H1 H2]%orb_false_iff. eapply sw_labelled; [exact Hok|].
  apply (step_enqueue id {| sr_id := signal_inbox_next_id d; sr_task_id := id; sr_name := name;
    sr_payload := json; sr_sent_at_ms := at_ms |} d); simpl; try done; [lia|].
  unfold checked_add_i64 in H2. destruct (is_i64 _); [|done]. lia.
Qed.

Lemma tx_enqueue (ok : Label -> Prop) id name json at_ms d :
  DInv d -> is_Some (json_from_str json) -> 0 <= at_ms -> ok (Accepted id name json) ->
  tx_ok (enqueue_signal id name json at_ms)
    (fun s d' => steps_with ok d d' /\ s = signal_inbox_next_id d
       /\ signal_inbox_next_id d' = s + 1 /\ durable_signal_receipts d' = durable_signal_receipts d) d.
Proof.
  intros HD Hj Ha Hok. unfold enqueue_signal. tx; (split; [|done]); try by apply sw_enqueue.
  eapply sw_trans; [by apply sw_enqueue|]. apply sw_silent, step_wake; [done|].
  apply wake_row_ok; [|done]. by apply (ok_wait _ (inv_tasks _ HD id)).
Qed.

Lemma send_refines id name payload at_ms key d :
  DInv d -> readable payload -> 0 <= at_ms ->
  steps_with (op_emits (OpSendSignal id name payload at_ms key)) d (send_signal_inner id name payload at_ms key d).2.
Proof.
  intros HD Hp Ha. set (ok := op_emits _). unfold send_signal_inner.
  destruct (json_to_string payload) as [json|] eqn:Hs;
    [|unfold mbind, result_bind; destruct (validate_signal_name name); apply sw_refl].
  apply Hp in Hs as Hj. clear Hp.
  destruct (validate_signal_name name;; _) as [[json' at_ms']|] eqn:Ev; [|apply sw_refl].
  assert (json' = json /\ at_ms' = at_ms) as [-> ->].
  { revert Ev. unfold mbind, result_bind. destruct (validate_signal_name name); simpl; [|done]. case_match; [done|].
    destruct (to_sql_integer at_ms _) eqn:E; [|done]. apply to_sql_Ok in E as [-> _]. by intros [= -> ->]. }
  assert (ok (Accepted id name json)) as Hok by (by exists json).
  simpl. tx_op ok d. tx_step.
  apply (tx_mono _ (fun prior d' => d' = d /\ forall k, key = Some k -> prior = None ->
           durable_signal_receipts d !! (id, k) = None)).
  { unfold check_receipt. tx; (split; [done|]); intros; simplify_eq; done. }
  intros prior d' [-> Hp]. tx_step; [tx; apply sw_refl|]. tx_step.
  eapply tx_mono; [by apply tx_enqueue|]. intros s d' (S & -> & Hn & Hr). tx; [|done].
  eapply sw_trans; [exact S|]. apply sw_silent, step_receipt; simpl; [rewrite Hr; by apply Hp|].
  pose proof (inbox_next _ (inv_inbox _ HD)). lia.
Qed.

Lemma tx_consume (ok : Label -> Prop) id expected name s d :
  oldest_signal d id name = Some s ->
  tx_ok (consume_signal id expected name s) (fun _ d' => steps_with ok d d') d.
Proof.
  intros Ho. unfold consume_signal. tx_step. tx_step. tx_step. tx_step.
  match goal with H : from_sql_integer _ _ = Ok _ |- _ => apply from_sql_Ok in H as [_ ?] end.
  tx_step. apply tx_insert_event; [|done|].
  { unfold ok_or in *. case_match; [eauto|done]. }
  intros r HA _. tx. apply sw_silent. by apply (step_consume id s r d).
Qed.

Lemma poll_refines ok clock scope id expected name now claim d :
  steps_with ok d (poll_signal clock scope id expected name now claim d).2.
Proof.
  unfold poll_signal. destruct (validate_signal_name name;; _) as [now'|]; [|apply sw_refl]. simpl. tx_op ok d.
  unfold register_signal_wait, take_wakeup. tx; try apply sw_refl.
  all: try (eapply tx_mono; [by apply (tx_consume ok)|]; intros [e sequence] d' S; cbn beta in S; tx;
            try (eapply sw_trans; [apply sw_silent, step_unwake|exact S]); done).
  all: match goal with
    | H : from_sql_integer (next_sequence _) _ = Ok _, H' : to_sql_integer _ _ = Ok _ |- _ =>
        apply from_sql_Ok in H as [-> ?]; apply to_sql_Ok in H' as [-> _]
    end; split_bool; subst; apply sw_silent, step_wait; simpl; congruence || lia.
Qed.

(** ** Executions *)

Lemma fingerprint_Ok key source input hash json :
  (validate_key key;; fingerprint source input) = Ok (hash, json) ->
  validate_program_source source = Ok () /\ validate_key key = Ok ()
  /\ hash = to_hex (sha256 (source ++ String (byte_of 0) json)%string)
  /\ exists v, json_from_str input = Some v /\ json_to_string v = Some json.
Proof.
  unfold fingerprint, mbind, result_bind. destruct (validate_key key) as [[]|]; [|done].
  destruct (validate_program_source source) as [[]|]; [|done]. case_match; [done|].
  destruct (json_from_str input) as [v|]; simpl; [|done].
  destruct (json_to_string v) as [s|] eqn:E; simpl; [|done]. intros [= <- <-]. eauto 10.
Qed.

Lemma admit_refines ok id key source input time d :
  0 <= time -> steps_with ok d (admit_task id key source input time d).2.
Proof.
  intros Ht. unfold admit_task.
  destruct (validate_key key;; _) as [[hash input']|] eqn:Ev; [|apply sw_refl].
  apply fingerprint_Ok in Ev as (Hv & _). tx_op ok d. tx; try apply sw_refl.
  match goal with H : to_sql_integer _ _ = Ok _ |- _ => apply to_sql_Ok in H as [-> _] end.
  match goal with H : raw_event _ _ _ _ = Ok _ |- _ => apply raw_event_Ok in H as (Hj & _) end.
  apply tx_insert_event; [done..|]. intros r HA _. tx.
  assert (durable_completions d !! id = None) as Ho by apply HA.
  eapply sw_trans; [|eapply sw_trans].
  - apply sw_silent, (step_put id {| pr_kind := "module"; pr_source := source; pr_sha256 := sha256 source;
      pr_registered_at_ms := time |} d); simpl; try done; [|lia..].
    subst. by apply select_None.
  - apply (sw_append ok id r); done.
  - apply sw_silent, step_ready; done.
Qed.

Lemma claim_run_refines clock entropy id owner dur d :
  steps_with (op_emits (OpClaimRun clock entropy id owner dur)) d (claim_run clock entropy id owner dur d).2.
Proof.
  set (ok := op_emits _). unfold claim_run. destruct (owner_token entropy owner) as [token|] eqn:Et; [|apply sw_refl].
  assert (ok (Issued token)) as Hok by (by exists token). tx_op ok d. tx; try apply sw_refl.
  eapply sw_trans; [|apply sw_alter_wakeup, lease_wakeup_keeps]. eapply sw_labelled; [exact Hok|].
  apply step_run.
  - unfold not_completed in *. by destruct (durable_completions d !! id).
  - destruct (durable_executions d !! id) as [r|]; simpl in *; [|congruence].
    unfold checked_add_i64, ok_or in *. repeat case_match; simplify_eq. done.
Qed.

Lemma release_run_refines ok clock claim failed d : steps_with ok d (release_run clock claim failed d).2.
Proof.
  unfold release_run. tx_op ok d. tx.
  eapply sw_trans; [apply sw_alter_wakeup, unlease_wakeup_keeps|].
  match goal with H : scope_valid _ _ _ d |- _ => destruct H as (_ & _ & r & u & Hr & Hs & _) end.
  simpl. rewrite (alter_Some _ _ _ _ Hr). apply sw_silent.
  match goal with |- db_step _ ?x _ => apply (step_end _ r _ x) end; [done..|by destruct failed].
Qed.

(** ** Lifecycle *)

Lemma as_u64_nonneg z : 0 <= as_u64 z.
Proof. unfold as_u64. by apply Z.mod_pos_bound. Qed.

Lemma finish_refines ok clock scope id expected value at_ms until d :
  readable value -> 0 <= at_ms -> steps_with ok d (finish_task clock scope id expected value at_ms until d).2.
Proof.
  intros Hp Ha. unfold finish_task. destruct (json_to_string value) as [json|] eqn:Hs; [|apply sw_refl].
  apply Hp in Hs as Hj. simpl.
  destruct (_ <? _); [apply sw_refl|].
  tx_op ok d. unfold completion_time. tx; try apply sw_refl.
  all: repeat match goal with H : to_sql_integer _ _ = Ok _ |- _ => apply to_sql_Ok in H as [-> _] end.
  all: apply sw_silent; apply (step_complete id _ {| cr_next_sequence := next_sequence (task_events d id);
    cr_result_json := json; cr_completed_at_ms := _ |} d); simpl; try done; apply as_u64_nonneg.
Qed.

Lemma insert_ordered_perm {A} (key : A -> Z * Z) x l : insert_ordered key x l ≡ₚ x :: l.
Proof.
  induction l as [|y l IH]; simpl; [done|]. destruct (pair_le _ _); [done|]. rewrite IH. constructor.
Qed.

Lemma order_by_perm {A} (key : A -> Z * Z) l : order_by key l ≡ₚ l.
Proof. induction l as [|x l IH]; simpl; [done|]. by rewrite insert_ordered_perm, IH. Qed.

(** Candidates are distinct completed tasks. *)
Lemma candidates_nodup before limit d : NoDup (prune_candidates before limit d).*1.
Proof.
  unfold prune_candidates. rewrite takeZ_take, fmap_take. eapply sublist_NoDup; [|apply sublist_take].
  rewrite order_by_perm. eapply sublist_NoDup; [apply (NoDup_fst_map_to_list (durable_completions d))|].
  apply fmap_sublist, sublist_filter.
Qed.

Lemma candidates_completed before limit d id c :
  (id, c) ∈ prune_candidates before limit d ->
  durable_completions d !! id = Some c /\ cr_completed_at_ms c < before.
Proof.
  unfold prune_candidates. rewrite takeZ_take. intros H%(sublist_subseteq _ _ (sublist_take _ _)).
  rewrite order_by_perm in H. apply list_elem_of_filter in H as [H1 H2%elem_of_map_to_list]. simpl in H1.
  split; [done|lia].
Qed.

Lemma prune_loop_refines (ok : Label -> Prop) cs n b d :
  (forall id, ok (Pruned id)) -> NoDup cs.*1 ->
  (forall id, id ∈ cs.*1 -> is_Some (durable_completions d !! id)) ->
  steps_with ok d (prune_loop cs n b d).2.
Proof.
  intros Hok. revert n b d. induction cs as [|[id x] cs IH]; intros n b d HN HC; simpl in *; [apply sw_refl|].
  apply list.NoDup_cons in HN as [Hid HN]. destruct (_ && _); [apply sw_refl|].
  destruct (suspended d id) eqn:Es; [by apply IH; [|intros; apply HC; right]|].
  destruct (HC id ltac:(left)) as [c Hc]. eapply sw_trans; [eapply sw_labelled, step_prune; eauto|].
  apply IH; [done|]. intros i Hi. simpl. rewrite lookup_delete_ne by (by intros ->). apply HC. by right.
Qed.

Lemma prune_refines before limit d :
  steps_with (op_emits (OpPrune before limit)) d (prune_completed before limit d).2.
Proof.
  unfold prune_completed. destruct (limit =? 0); [apply sw_refl|].
  destruct (to_sql_integer before _) as [b|]; [|apply sw_refl]. set (cs := map _ _).
  assert (cs.*1 = (prune_candidates b limit d).*1) as E.
  { unfold cs. by induction (prune_candidates b limit d) as [|kv l IH]; simpl; [|f_equal]. }
  pose proof (prune_loop_refines (op_emits (OpPrune before limit)) cs 0 0 d) as S.
  destruct (prune_loop cs 0 0 d) as [n d']. apply S; [by eexists|rewrite E; apply candidates_nodup|].
  intros id Hid. rewrite E in Hid. apply list_elem_of_fmap in Hid as ([i c] & -> & Hc).
  apply candidates_completed in Hc as [Hc _]. by eexists.
Qed.

(** ** Every operation *)

Lemma run_op_refines op d :
  DInv d -> op_valid op -> steps_with (op_emits op) d (run_op op d).
Proof.
  intros HD Hv. destruct op; simpl.
  - by apply put_refines.
  - apply remove_refines.
  - by apply append_refines.
  - by apply append_json_refines.
  - by apply schedule_refines.
  - apply claim_due_refines.
  - apply claim_wakeup_refines.
  - apply complete_wakeup_refines.
  - apply renew_refines.
  - apply release_wakeup_refines.
  - destruct Hv. by apply send_refines.
  - apply poll_refines.
  - by apply admit_refines.
  - apply claim_run_refines.
  - apply release_run_refines.
  - destruct Hv. by apply finish_refines.
  - apply prune_refines.
Qed.

Lemma run_op_DInv op d : DInv d -> op_valid op -> DInv (run_op op d).
Proof. intros HD Hv. destruct (run_op_refines op d HD Hv) as (l & _ & S). by eapply steps_DInv. Qed.

Lemma run_ops_DInv ops d : DInv d -> Forall op_valid ops -> DInv (run_ops ops d).
Proof.
  revert d. induction ops as [|op ops IH]; intros d HD HV; [done|]. inversion HV. simpl.
  apply IH; [by apply run_op_DInv|done].
Qed.

(** A preorder that every transition with admissible labels respects holds
    between the databases before and after any run. *)
Lemma run_ops_kept (R : Db -> Db -> Prop) `{!PreOrder R} (ok : Label -> Prop) ops d :
  (forall l d d', DInv d -> Forall ok l -> db_step l d d' -> R d d') ->
  DInv d -> Forall op_valid ops -> Forall (fun op => forall l, op_emits op l -> ok l) ops ->
  R d (run_ops ops d).
Proof.
  intros HR. revert d. induction ops as [|op ops IH]; intros d HD HV HL; [done|].
  inversion HV as [|?? Hv HV']. inversion HL as [|?? Hl HL']. simpl.
  destruct (run_op_refines op d HD Hv) as (ls & Fl & S).
  etrans; [|apply IH; [by apply run_op_DInv|done|done]].
  refine (proj2 (steps_inv R DInv ok ls d _ _ S _ HD)).
  - intros l1 d1 d2 F HD1 S1. split; [by eapply step_DInv|by eapply HR].
  - eapply list.Forall_impl; [exact Fl|exact Hl].
Qed.

End Refine.
