(* ===== verification/DurableThms.v ===== *)
(** * Correctness of the durable store

    Consequences of the invariant and of the refinement, stated of runs of the
    store's operations: histories, fencing, signals, idempotence, retention. *)

From Stdlib Require Import ZArith Lia Ascii String Sorted.
From stdpp Require Import base tactics list gmap strings numbers.
From S2P Require Import Prelude Bytes TaskModel DurableTypes DurableDb DurableStore DurableWakeups DurableExec DurableLogic DurableSpec DurableInv DurableRefine.
Open Scope Z_scope.

Section Kept.
Context {SJ : SerdeJson} {SH : Sha256}.

Definition is_prune (op : StoreOp) : bool := match op with OpPrune _ _ => true | _ => false end.
Definition not_pruned (l : Label) : Prop := match l with Pruned _ => False | _ => True end.

Lemma no_prune_emits ops :
  Forall (fun op => is_prune op = false) ops ->
  Forall (fun op => forall l, op_emits op l -> not_pruned l) ops.
Proof.
  intros H. eapply list.Forall_impl; [exact H|]. intros [] Hp l; simpl; try done; destruct l; naive_solver.
Qed.

(** ** What is never taken back, except by retention *)

Record later (d d' : Db) : Prop := {
  later_events : forall id, task_events d id `prefix_of` task_events d' id;
  later_completed : forall id c, durable_completions d !! id = Some c ->
    durable_completions d' !! id = Some c /\ task_events d' id = task_events d id
    /\ durable_programs d' !! id = durable_programs d !! id;
  later_receipts : forall k r, durable_signal_receipts d !! k = Some r ->
    durable_signal_receipts d' !! k = Some r;
  later_admitted : forall id r, durable_executions d !! id = Some r ->
    exists r', durable_executions d' !! id = Some r' /\ ex_admission_key r' = ex_admission_key r
          /\ ex_request_hash r' = ex_request_hash r;
}.

#[global] Instance later_preorder : PreOrder later.
Proof.
  split.
  - intros d. split; eauto.
  - intros d1 d2 d3 [E1 C1 R1 A1] [E2 C2 R2 A2]. split; eauto.
    + intros id. etrans; eauto.
    + intros id c H. destruct (C1 id c H) as (H1 & T1 & P1).
      destruct (C2 id c H1) as (H2 & T2 & P2). repeat split; congruence.
    + intros id r H. destruct (A1 id r H) as (r1 & H1 & <- & <-). eauto.
Qed.

(** Transitions that only touch the row of [id] in one table. *)
Lemma later_at id d d' :
  durable_completions d !! id = None ->
  (forall i, i <> id -> view d' i = view d i) ->
  durable_completions d' !! id = durable_completions d !! id ->
  task_events d id `prefix_of` task_events d' id ->
  durable_signal_receipts d' = durable_signal_receipts d ->
  (forall r, durable_executions d !! id = Some r -> exists r', durable_executions d' !! id = Some r'
     /\ ex_admission_key r' = ex_admission_key r /\ ex_request_hash r' = ex_request_hash r) ->
  later d d'.
Proof.
  intros Ho Hf Hc He Hr Hx. unfold view in Hf. split.
  - intros i. destruct (decide (i = id)) as [->|n]; [done|]. by injection (Hf i n) as -> _.
  - intros i c H. destruct (decide (i = id)) as [->|n]; [congruence|].
    injection (Hf i n). intros. repeat split; congruence.
  - by rewrite Hr.
  - intros i r H. destruct (decide (i = id)) as [->|n]; [by apply Hx|].
    injection (Hf i n). intros. exists r. split; [congruence|done].
Qed.

(** Transitions that leave histories, completions, programs and admissions alone. *)
Lemma later_same d d' :
  durable_events d' = durable_events d -> durable_completions d' = durable_completions d ->
  durable_programs d' = durable_programs d -> durable_executions d' = durable_executions d ->
  (forall k r, durable_signal_receipts d !! k = Some r -> durable_signal_receipts d' !! k = Some r) ->
  later d d'.
Proof.
  intros He Hc Hp Hx Hr. split; unfold task_events; rewrite ?He, ?Hc, ?Hp, ?Hx; eauto.
Qed.

Lemma add_event_prefix id r d : task_events d id `prefix_of` task_events (add_event id r d) id.
Proof. unfold task_events, add_event. simpl. rewrite lookup_insert_eq. simpl. by apply prefix_app_r. Qed.

Lemma step_later l d d' : DInv d -> Forall not_pruned l -> db_step l d d' -> later d d'.
Proof.
  intros HD Hl S. destruct S as [id p d Hp Hc|id p d Hp Hc|id r d HA|id s r d Ho HA|id|id|id|id|id|k r d Hk|
    id r d Hr Hc|id t u g d Hc|id r st d Hr Hs|id p c d Hp Hc|id c d Hc];
    try by apply later_same.
  - apply (later_at id); try done; [solve_frame|eauto].
  - apply (later_at id); try done; [solve_frame|eauto].
  - apply (later_at id); try done; [apply HA|solve_frame|apply add_event_prefix|eauto].
  - apply (later_at id); try done; [apply HA|solve_frame|apply add_event_prefix|eauto].
  - apply later_same; try done. simpl. intros k' r' Hk'. rewrite lookup_insert_ne by congruence. done.
  - apply (later_at id); try done; [solve_frame|congruence].
  - apply (later_at id); try done; [solve_frame|]. simpl. intros r Hr. rewrite lookup_insert_eq, Hr. eauto.
  - assert (durable_completions d !! id = None) as Hc.
    { destruct (durable_completions d !! id) as [c|] eqn:Ec; [|done].
      destruct (ok_completion _ (inv_tasks _ HD id) c Ec) as (_ & _ & _ & HX & _). specialize (HX r Hr). congruence. }
    apply (later_at id); try done; [solve_frame|]. simpl. rewrite Hr, lookup_insert_eq.
    intros ? [= <-]. eauto.
  - split; simpl; try done.
    + intros i c' Hi. rewrite lookup_insert_ne by congruence. done.
    + intros i r Hi. destruct (decide (i = id)) as [->|n]; simplify_map_eq; eauto.
  - by inversion Hl.
Qed.

Lemma run_ops_later ops d :
  DInv d -> Forall op_valid ops -> Forall (fun op => is_prune op = false) ops -> later d (run_ops ops d).
Proof.
  intros HD HV HP. apply (run_ops_kept later not_pruned); [|done|done|by apply no_prune_emits].
  intros l d1 d2 HD1 Hl S. by eapply step_later.
Qed.

End Kept.

(** ** Histories *)

Section Histories.
Context {SJ : SerdeJson} {SH : Sha256}.

(** The event a stored row decodes to. *)
Definition row_event (id : TaskId) (r : EventRow) (e : TaskEvent) : Prop :=
  te_task_id e = id /\ te_sequence e = er_sequence r /\ EventKind_parse (er_kind r) = Ok (te_kind e)
  /\ te_key e = er_key r /\ json_from_str (er_payload r) = Some (te_payload e)
  /\ te_recorded_at_ms e = er_recorded_at_ms r /\ te_payload_json e = er_payload r.

Lemma row_event_inj id r e e' : row_event id r e -> row_event id r e' -> e = e'.
Proof.
  destruct e, e'. intros (? & ? & ? & ? & ? & ? & ?) (? & ? & ? & ? & ? & ? & ?). simpl in *. congruence.
Qed.

Lemma row_events_inj id rows a b : Forall2 (row_event id) rows a -> Forall2 (row_event id) rows b -> a = b.
Proof.
  intros Ha. revert b. induction Ha as [|r e rows a Hr Ha IH]; intros b Hb; inversion Hb; subst; [done|].
  f_equal; [by eapply row_event_inj|by apply IH].
Qed.

Lemma decode_history_ok id rows : forall evs bytes,
  Forall event_ok rows -> Forall (fun r => 0 <= er_sequence r) rows -> 0 <= bytes ->
  vec_len evs + vec_len rows <= MAX_HISTORY_EVENTS -> bytes + history_bytes rows <= MAX_HISTORY_BYTES ->
  exists evs', decode_history id rows evs bytes = Ok (evs ++ evs') /\ Forall2 (row_event id) rows evs'.
Proof.
  induction rows as [|r rows IH]; intros evs bytes HF HS Hb Hn HB; simpl.
  { exists []. by rewrite app_nil_r. }
  apply list.Forall_cons in HF as [(Hk & [v Hv] & Ht) HF]. apply list.Forall_cons in HS as [Hs HS].
  simpl in HB. pose proof (len_nonneg (er_key r)). pose proof (len_nonneg (er_payload r)).
  assert (0 <= history_bytes rows) as Hh.
  { clear. induction rows as [|x l IH]; simpl; [done|].
    pose proof (len_nonneg (er_key x)). pose proof (len_nonneg (er_payload x)). lia. }
  rewrite vec_len_cons in Hn.
  pose proof (vec_len_nonneg rows). unfold MAX_HISTORY_BYTES in *.
  destruct (Z.leb_spec MAX_HISTORY_EVENTS (vec_len evs)); [lia|]. unfold checked_add.
  destruct (Z.leb_spec (bytes + len (er_key r)) u64_max); [|unfold u64_max in *; lia]. simpl.
  destruct (Z.leb_spec (bytes + len (er_key r) + len (er_payload r)) u64_max); [|unfold u64_max in *; lia]. simpl.
  destruct (Z.ltb_spec (16 * 1048576) (bytes + len (er_key r) + len (er_payload r))); [lia|].
  rewrite (from_sql_total (er_sequence r)), (from_sql_total (er_recorded_at_ms r)), Hv by done. simpl.
  destruct (EventKind_parse (er_kind r)) as [k|] eqn:Ek; [|done]. simpl.
  edestruct IH as (evs' & -> & HF2); [done|done| | | |].
  4: { eexists. rewrite <-app_assoc. split; [reflexivity|]. constructor; [|exact HF2]. by repeat split. }
  all: rewrite ?vec_len_snoc; lia.
Qed.

Lemma order_events_id rows :
  er_sequence <$> rows = seqZ 0 (vec_len rows) -> order_events rows = rows.
Proof. intros H. apply (order_by_sorted er_sequence). rewrite H. apply seqZ_sorted, vec_len_nonneg. Qed.

Lemma load_history_ok d id :
  DInv d -> exists h, load_history id d = Ok h /\ h_task_id h = id
    /\ Forall2 (row_event id) (task_events d id) (h_events h).
Proof.
  intros HD. destruct (inv_tasks _ HD id) as [V1 V2 [V3 V3'] [V4 V4'] _ _ _ _ _]. simpl in *.
  unfold load_history. rewrite order_events_id, takeZ_take, take_ge by (done || unfold vec_len in *; lia).
  destruct (decode_history_ok id (task_events d id) [] 0) as (evs & -> & HF); try done; try lia.
  - apply list.Forall_forall. intros r Hr. assert (er_sequence r ∈ er_sequence <$> task_events d id) as Hi
      by (apply list_elem_of_fmap; eauto). rewrite V1 in Hi. apply elem_of_seqZ in Hi. lia.
  - unfold vec_len at 1. simpl. lia.
  - eexists. by split.
Qed.

Lemma row_events_sequences id rows evs :
  Forall2 (row_event id) rows evs -> te_sequence <$> evs = er_sequence <$> rows.
Proof. induction 1 as [|r e rows evs (_ & Hs & _) _ IH]; [done|]. by rewrite !fmap_cons, Hs, IH. Qed.

(** C17. Whatever operations ran on a fresh store, as long as the payloads they
    store are [readable], [load_history] succeeds on every task: within the event
    limit, with the sequences 0, 1, 2, .. in order and without a gap, and equal to
    the rows that were appended. *)
Theorem history_gap_free ops id :
  Forall op_valid ops ->
  let d := run_ops ops empty_db in
  exists h, load_history id d = Ok h /\ Forall2 (row_event id) (task_events d id) (h_events h)
    /\ te_sequence <$> h_events h = seqZ 0 (vec_len (h_events h))
    /\ vec_len (h_events h) <= MAX_HISTORY_EVENTS.
Proof.
  intros HV d. pose proof (run_ops_DInv ops empty_db empty_DInv HV) as HD. fold d in HD.
  destruct (load_history_ok d id HD) as (h & Hh & _ & HF). exists h. split; [done|]. split; [done|].
  destruct (inv_tasks _ HD id) as [V1 _ [V3 V3'] _ _ _ _ _ _]. simpl in *.
  assert (vec_len (h_events h) = vec_len (task_events d id)) as El
    by (unfold vec_len; by rewrite (list.Forall2_length _ _ _ HF)).
  rewrite (row_events_sequences _ _ _ HF), El. split; [done|lia].
Qed.

(** Outside retention nothing durable is taken back: along any run without
    [prune_completed], histories only grow at the end, a completed task keeps
    its result, its history and its program, and receipts stay. *)
Theorem durable_append_only ops d :
  DInv d -> Forall op_valid ops -> Forall (fun op => is_prune op = false) ops ->
  let d' := run_ops ops d in
  (forall id, task_events d id `prefix_of` task_events d' id)
  /\ (forall id c, durable_completions d !! id = Some c ->
        durable_completions d' !! id = Some c /\ task_events d' id = task_events d id
        /\ durable_programs d' !! id = durable_programs d !! id)
  /\ (forall k r, durable_signal_receipts d !! k = Some r -> durable_signal_receipts d' !! k = Some r).
Proof. intros HD HV HP d'. by destruct (run_ops_later ops d HD HV HP). Qed.

(** ** Appends *)

Lemma insert_event_conflict id expected kind key payload recorded d n :
  next_sequence (task_events d id) <> expected ->
  forall a s, insert_event id (Some expected) kind key payload recorded {| tx_db := d; tx_reads := n |} <> (Ok a, s).
Proof.
  intros Hne a s. assert (tx_ok (insert_event id (Some expected) kind key payload recorded) (fun _ _ => False) d) as H.
  { unfold insert_event. tx. split_bool. subst.
    match goal with H : from_sql_integer _ _ = Ok _ |- _ => apply from_sql_Ok in H as [? _] end. congruence. }
  intros E. exact (H _ _ _ E).
Qed.

(** An append at a stale position fails and writes nothing. *)
Lemma append_stale clock scope id expected kind key json recorded wake d :
  next_sequence (task_events d id) <> expected ->
  exists e, run_tx (append_tx clock scope id (Some expected) kind key json recorded wake) d = (Err e, d).
Proof.
  intros Hne. unfold run_tx.
  assert (tx_ok (append_tx clock scope id (Some expected) kind key json recorded wake) (fun _ _ => False) d) as H.
  { unfold append_tx. tx_step. tx_step. tx_step. intros n a s' E.
    by destruct (insert_event_conflict id expected kind key json recorded d n Hne a s'). }
  destruct (append_tx _ _ _ _ _ _ _ _ _ _) as [[x|e] s'] eqn:E; [|eauto]. by destruct (H _ _ _ E).
Qed.

(** What a committed append leaves behind. *)
Lemma append_committed clock scope id expected kind key json recorded wake d q d' :
  is_Some (json_from_str json) -> 0 <= recorded ->
  run_tx (append_tx clock scope id expected kind key json recorded wake) d = (Ok q, d') ->
  q = next_sequence (task_events d id) /\ scope_valid clock scope id d
  /\ (forall e, expected = Some e -> e = q)
  /\ task_events d' id = task_events d id ++ [{| er_sequence := q; er_kind := EventKind_as_str kind;
        er_key := key; er_payload := json; er_recorded_at_ms := recorded |}].
Proof.
  intros Hj Hr E.
  pose proof (run_tx_post (append_tx clock scope id expected kind key json recorded wake)
    (fun r d' => forall q, r = Ok q -> q = next_sequence (task_events d id) /\ scope_valid clock scope id d
      /\ (forall e, expected = Some e -> e = q)
      /\ task_events d' id = task_events d id ++ [{| er_sequence := q; er_kind := EventKind_as_str kind;
        er_key := key; er_payload := json; er_recorded_at_ms := recorded |}]) d) as H.
  rewrite E in H. apply H; [done| |done]. unfold append_tx. tx_step. tx_step. tx_step.
  apply tx_insert_event; [done..|]. intros r HA Hx.
  tx; intros q' [= <-]; (split; [done|]); (split; [done|]); (split; [done|]);
    unfold task_events; simpl; by rewrite lookup_insert_eq.
Qed.

Lemma append_json_inv clock scope id expected kind key json at_ms wake d e d' :
  append_event_json_inner clock scope id expected kind key json at_ms wake d = (Ok e, d') ->
  exists q v, is_Some (json_from_str json) /\
    raw_event kind key json at_ms = Ok v /\ stored_event id q v json = Ok e /\
    run_tx (append_tx clock scope id (Some expected) kind key json at_ms wake) d = (Ok q, d').
Proof.
  unfold append_event_json_inner. destruct (raw_event kind key json at_ms) as [v|] eqn:Ev; [|done].
  unfold mbind at 1, result_bind at 1. cbn beta iota.
  destruct (to_sql_integer at_ms _) as [t|] eqn:Et; [|done]. apply to_sql_Ok in Et as [-> _].
  unfold mbind at 1, result_bind at 1. cbn beta iota.
  destruct (match wake with None => _ | _ => _ end) as [w|] eqn:Ew; [|done]. apply wake_arg_ok in Ew as ->.
  unfold mbind at 1, result_bind at 1. cbn beta iota. unfold and_then.
  pose proof (raw_event_Ok _ _ _ _ _ Ev) as (Hj & -> & -> & _ & _).
  destruct (run_tx _ d) as [[q|er] d1]; [|done]. intros [= Hs <-]. eauto 10.
Qed.

(** An appended event is read back: after [append_event_json_at] (with or
    without a wakeup) answered with an event, [load_history] is the old history
    followed by exactly that event, at the position the caller expected. *)
Theorem append_then_load clock scope id expected kind key json at_ms wake d e d' h :
  DInv d -> op_valid (OpAppendJson clock scope id expected kind key json at_ms wake) ->
  load_history id d = Ok h ->
  append_event_json_inner clock scope id expected kind key json at_ms wake d = (Ok e, d') ->
  load_history id d' = Ok {| h_task_id := id; h_events := h_events h ++ [e] |}
  /\ te_sequence e = expected /\ expected = vec_len (h_events h).
Proof.
  intros HD HV Hh E.
  pose proof (append_json_refines clock scope id expected kind key json at_ms wake d HD HV) as (l & _ & S).
  rewrite E in S. pose proof (steps_DInv _ _ _ S HD) as HD'. simpl in HD'. destruct HV as [Ha _].
  destruct (append_json_inv _ _ _ _ _ _ _ _ _ _ _ _ E) as (q & v & Hj & Hv & Hs & R).
  destruct (append_committed _ _ _ _ _ _ _ _ _ _ _ _ Hj Ha R) as (Hq & _ & Hx & Ht).
  destruct (load_history_ok d id HD) as (h0 & Hh0 & _ & HF). assert (h0 = h) as -> by congruence.
  destruct (load_history_ok d' id HD') as (h' & -> & Hid & HF'). rewrite Ht in HF'.
  apply Forall2_app_inv_l in HF' as (evs1 & evs2 & H1 & H2 & E').
  apply Forall2_cons_inv_l in H2 as (e2 & tl & Hrow & Hnil%Forall2_nil_inv_l & ->). subst tl.
  rewrite (row_events_inj _ _ _ _ H1 HF) in E'.
  apply raw_event_Ok in Hv as (_ & Hk & Hkey & Hat & Hp).
  revert Hs. unfold stored_event, mbind, result_bind.
  pose proof (next_sequence_len _ (ok_sequences _ (inv_tasks _ HD id))) as Hl. simpl in Hl.
  pose proof (vec_len_nonneg (task_events d id)).
  rewrite from_sql_total by lia. intros [= <-].
  split; [|split].
  - destruct h' as [hid evs]. simpl in Hid, E'. rewrite Hid, E'. do 4 f_equal.
    eapply row_event_inj; [exact Hrow|]. rewrite Hk, Hkey, Hat. repeat split; simpl; try done. by destruct kind.
  - simpl. symmetry. by apply Hx.
  - rewrite (Hx expected eq_refl), Hq, Hl. unfold vec_len. by rewrite (list.Forall2_length _ _ _ HF).
Qed.

(** A history position is taken once: after an append expecting position
    [expected] succeeded, every later append expecting the same position fails
    and changes nothing, whatever ran in between short of retention. *)
Theorem expected_sequence_once clock scope id expected kind key json at_ms wake d e d' ops
    clock2 scope2 kind2 key2 json2 at2 wake2 ev :
  DInv d -> op_valid (OpAppendJson clock scope id expected kind key json at_ms wake) ->
  append_event_json_inner clock scope id expected kind key json at_ms wake d = (Ok e, d') ->
  Forall op_valid ops -> Forall (fun op => is_prune op = false) ops ->
  let d2 := run_ops ops d' in
  (exists er, append_event_json_inner clock2 scope2 id expected kind2 key2 json2 at2 wake2 d2 = (Err er, d2))
  /\ (exists er, append_event_inner clock2 scope2 id (Some expected) ev wake2 d2 = (Err er, d2)).
Proof.
  intros HD HV E HO HP d2.
  pose proof (append_json_refines clock scope id expected kind key json at_ms wake d HD HV) as (l & _ & S).
  rewrite E in S. pose proof (steps_DInv _ _ _ S HD) as HD'. simpl in HD'. destruct HV as [Ha _].
  destruct (append_json_inv _ _ _ _ _ _ _ _ _ _ _ _ E) as (q & v & Hj & Hv & Hs & R).
  destruct (append_committed _ _ _ _ _ _ _ _ _ _ _ _ Hj Ha R) as (Hq & _ & Hx & Ht).
  assert (next_sequence (task_events d2 id) <> expected) as Hne.
  { pose proof (run_ops_DInv ops d' HD' HO) as HD2. fold d2 in HD2.
    pose proof (later_events _ _ (run_ops_later ops d' HD' HO HP) id) as Hpre%prefix_length. fold d2 in Hpre.
    pose proof (next_sequence_len _ (ok_sequences _ (inv_tasks _ HD2 id))) as Hl2.
    pose proof (next_sequence_len _ (ok_sequences _ (inv_tasks _ HD id))) as Hl. simpl in Hl, Hl2.
    specialize (Hx expected eq_refl). rewrite Ht, length_app in Hpre. simpl in Hpre. unfold vec_len in *. lia. }
  split.
  - unfold append_event_json_inner. destruct (e' ← raw_event _ _ _ _; _) as [[[v' r'] w']|er]; [|eauto].
    unfold and_then. destruct (append_stale clock2 scope2 id expected (ne_kind v') (ne_key v') json2 r' w' d2 Hne) as [er ->].
    by exists er.
  - unfold append_event_inner. destruct (validate_event ev) as [[j r]|er]; [|eauto].
    destruct (match wake2 with None => _ | _ => _ end) as [w'|er]; [|eauto].
    unfold and_then. destruct (append_stale clock2 scope2 id expected (ne_kind ev) (ne_key ev) j r w' d2 Hne) as [er ->].
    by exists er.
Qed.

End Histories.

(** ** Instances *)

#[local] Existing Instance sample_json.
#[local] Existing Instance sample_sha.

Definition sample_value (s : string) : @Value sample_json := s.
Definition sample_clock : nat -> Z := fun _ => 10.

Definition sample_ops : list StoreOp :=
  [OpPutProgram 7 Script "source" 1;
   OpAppend sample_clock None 7 None {| ne_kind := Step; ne_key := "a"; ne_payload := sample_value "v"; ne_recorded_at_ms := 2 |} None;
   OpSendSignal 7 "go" (sample_value "x") 3 None;
   OpPollSignal sample_clock None 7 1 "go" 4 None].

Lemma sample_ops_valid : Forall op_valid sample_ops.
Proof. repeat constructor; simpl; done || by apply sample_readable. Qed.

(** A fresh store after one append that expected position 0. *)
Definition sample_append : result DurableError TaskEvent * Db :=
  append_event_json_inner sample_clock None 7 0 Step "a" "jx" 2 None empty_db.

Lemma history_gap_free_witness :
  let d := run_ops sample_ops empty_db in
  exists h, load_history 7 d = Ok h /\ te_sequence <$> h_events h = seqZ 0 (vec_len (h_events h))
    /\ vec_len (task_events d 7) = 2.
Proof.
  intros d. destruct (history_gap_free sample_ops 7 sample_ops_valid) as (h & Hh & _ & Hs & _).
  exists h. split; [exact Hh|]. split; [exact Hs|]. vm_compute. reflexivity.
Defined.

Lemma durable_append_only_witness :
  task_events empty_db 7 `prefix_of` task_events (run_ops sample_ops empty_db) 7.
Proof.
  apply (durable_append_only sample_ops empty_db empty_DInv sample_ops_valid).
  repeat constructor.
Defined.

Lemma append_then_load_witness :
  exists e, sample_append.1 = Ok e /\
    load_history 7 sample_append.2 = Ok {| h_task_id := 7; h_events := [e] |} /\ te_sequence e = 0.
Proof.
  eexists. split; [vm_compute; reflexivity|].
  destruct (append_then_load sample_clock None 7 0 Step "a" "jx" 2 None empty_db
    (match sample_append.1 with Ok e => e | Err _ => {| te_task_id := 0; te_sequence := 0; te_kind := Step;
       te_key := ""; te_payload := sample_value "x"; te_recorded_at_ms := 0; te_payload_json := "" |} end)
    sample_append.2 {| h_task_id := 7; h_events := [] |}) as (H & Hs & _).
  - apply empty_DInv.
  - by split.
  - vm_compute. reflexivity.
  - vm_compute. reflexivity.
  - split; [exact H|exact Hs].
Defined.

Lemma expected_sequence_once_witness :
  exists er, append_event_json_inner sample_clock None 7 0 Effect "b" "jy" 3 None sample_append.2 = (Err er, sample_append.2).
Proof.
  apply (expected_sequence_once sample_clock None 7 0 Step "a" "jx" 2 None empty_db
    {| te_task_id := 7; te_sequence := 0; te_kind := Step; te_key := "a"; te_payload := sample_value "x";
       te_recorded_at_ms := 2; te_payload_json := "jx" |} sample_append.2 []
    sample_clock None Effect "b" "jy" 3 None
    {| ne_kind := Step; ne_key := "a"; ne_payload := sample_value "v"; ne_recorded_at_ms := 2 |}).
  - apply empty_DInv.
  - by split.
  - vm_compute. reflexivity.
  - constructor.
  - constructor.
Defined.
