(* ===== verification/DurableFencing.v ===== *)
(** * Leases and retention of the durable store

    Execution leases fence every write of an execution that lost its lease,
    wakeup leases exclude other runners, and retention removes completed tasks
    only, whole, within its budget. *)

From Stdlib Require Import ZArith Lia Ascii String.
From stdpp Require Import base tactics list gmap strings numbers.
From S2P Require Import Prelude Bytes TaskModel DurableTypes DurableDb DurableStore DurableWakeups DurableExec DurableLogic DurableSpec DurableInv DurableRefine DurableThms.
Open Scope Z_scope.

Section Fencing.
Context {SJ : SerdeJson} {SH : Sha256}.

(** ** Executions *)

(** The row no longer carries the owner token of [c]. *)
Definition lost (c : ExecutionClaim) (d : Db) : Prop :=
  forall r, durable_executions d !! xc_task_id c = Some r -> ex_owner r <> Some (xc_owner c).

(** The operations that check the execution their handle is scoped to. The
    others of the [DurableStore] trait (programs, signals sent, leases of
    wakeups, admission, claims, retention) are the same on every handle. *)
Definition guarded (op : StoreOp) : bool :=
  match op with
  | OpAppend _ _ _ _ _ _ | OpAppendJson _ _ _ _ _ _ _ _ _ | OpCompleteWakeup _ _ _ _ _ _
  | OpPollSignal _ _ _ _ _ _ _ | OpFinish _ _ _ _ _ _ _ | OpReleaseRun _ _ _ => true
  | _ => false
  end.

(** Calls made through the handle [execution_store] gives for [c]. *)
Definition scoped_by (c : ExecutionClaim) (op : StoreOp) : Prop :=
  match op with
  | OpAppend _ s _ _ _ _ | OpAppendJson _ s _ _ _ _ _ _ _ | OpCompleteWakeup _ s _ _ _ _
  | OpPollSignal _ s _ _ _ _ _ | OpFinish _ s _ _ _ _ _ => s = Some c
  | OpReleaseRun _ c' _ => c' = c
  | _ => True
  end.

(** Admission, which writes the input of a new task as its first event, and
    retention, which deletes completed tasks. *)
Definition admits_or_prunes (op : StoreOp) : bool :=
  match op with OpAdmit _ _ _ _ _ | OpPrune _ _ => true | _ => false end.

(** The histories and the completions of all tasks. *)
Definition same_records (d d' : Db) : Prop :=
  durable_events d' = durable_events d /\ durable_completions d' = durable_completions d.

Lemma tx_guard_lost clock c id (Q : () -> Db -> Prop) d :
  lost c d -> tx_ok (guard_execution clock (Some c) id) Q d.
Proof.
  intros HL. apply tx_guard. intros (_ & n & r & u & Hr & _ & Ho & _). by destruct (HL r Hr).
Qed.

Lemma run_tx_unchanged {A} (body : Tx (Ending A)) d :
  tx_ok body (fun e d' => match e with Committed_ _ => d' = d | RolledBack _ => True end) d ->
  (run_tx body d).2 = d.
Proof.
  intros H. apply (run_tx_post body (fun _ d' => d' = d)); [done|].
  eapply tx_mono; [exact H|]. by intros [].
Qed.

Lemma lost_blocks c op d : guarded op = true -> scoped_by c op -> lost c d -> run_op op d = d.
Proof.
  intros HG HS HL. destruct op; simpl in HS; try done; subst; simpl.
  - unfold append_event_inner. destruct (validate_event e) as [[j r]|]; [|done].
    destruct (match wake_at_ms with None => _ | _ => _ end); [|done].
    apply run_tx_unchanged. unfold append_tx. tx_step. by apply tx_guard_lost.
  - unfold append_event_json_inner. destruct (e ← _; _) as [[[e r] w]|]; [|done]. apply run_tx_unchanged.
    unfold append_tx. tx_step. by apply tx_guard_lost.
  - unfold complete_wakeup. apply run_tx_unchanged. tx_step. by apply tx_guard_lost.
  - unfold poll_signal. destruct (validate_signal_name _;; _); [|done]. apply run_tx_unchanged.
    tx_step. by apply tx_guard_lost.
  - unfold release_run. apply run_tx_unchanged. tx_step. by apply tx_guard_lost.
  - unfold finish_task. destruct (json ← _; _); [|done]. apply run_tx_unchanged. tx_step. tx_step. tx_step.
    + tx; done.
    + tx_step. by apply tx_guard_lost.
Qed.

Lemma claim_candidates_records now until until_sql owner cs claims d0 d :
  same_records d0 d -> tx_ok (claim_candidates now until until_sql owner cs claims) (fun _ => same_records d0) d.
Proof.
  revert d claims. induction cs as [|[id c] cs IH]; intros d claims H; simpl; [by tx|]. tx; by apply IH.
Qed.

Ltac tx_records d := apply (run_tx_post _ (fun _ => same_records d)); [done|]; tx; done.

(** The operations without a guard write no event and no completion. *)
Lemma unguarded_records op d :
  guarded op = false -> admits_or_prunes op = false -> same_records d (run_op op d).
Proof.
  intros HG HA. destruct op; try done; simpl.
  - unfold put_program_inner. repeat case_match; try done. tx_records d.
  - unfold remove_program. tx_records d.
  - unfold schedule_wakeup. tx_records d.
  - unfold claim_due_wakeups. repeat case_match; try done.
    apply (run_tx_post _ (fun _ => same_records d)); [done|]. tx.
    eapply tx_mono; [by apply (claim_candidates_records _ _ _ _ _ _ d)|]. intros ? ? ?. by tx.
  - unfold claim_wakeup. repeat case_match; done.
  - unfold renew_wakeup_claim. repeat case_match; done.
  - unfold release_wakeup_claim. repeat case_match; done.
  - unfold send_signal_inner. destruct (validate_signal_name name;; _) as [[json t]|]; [|done]. simpl.
    unfold check_receipt, enqueue_signal. tx_records d.
  - unfold claim_run. destruct (owner_token entropy owner); [|done]. tx_records d.
Qed.

Definition not_issued (t : string) (l : Label) : Prop := l <> Issued t.

Lemma step_lost c l d d' :
  Forall (not_issued (xc_owner c)) l -> db_step l d d' -> lost c d -> lost c d'.
Proof.
  intros HI S HL. destruct S as [| | | | | | | | | |id r d Hr Hc Hs Hg Ho|id t u g d Hc|id r st d Hr Hs|id p k d|id];
    try exact HL; intros r'; simpl.
  - destruct (decide (id = xc_task_id c)) as [->|n]; [rewrite lookup_insert_eq|rewrite lookup_insert_ne by done; apply HL].
    intros [= <-]. by rewrite Ho.
  - destruct (decide (id = xc_task_id c)) as [->|n]; [rewrite lookup_insert_eq|rewrite lookup_insert_ne by done; apply HL].
    intros [= <-]. simpl. intros [= ->]. by inversion HI.
  - destruct (decide (id = xc_task_id c)) as [->|n]; [rewrite lookup_insert_eq|rewrite lookup_insert_ne by done; apply HL].
    intros [= <-]. done.
  - destruct (decide (id = xc_task_id c)) as [->|n]; [rewrite lookup_alter_eq|rewrite lookup_alter_ne by done; apply HL].
    destruct (durable_executions d !! xc_task_id c); [|done]. by intros [= <-].
  - destruct (decide (id = xc_task_id c)) as [->|n]; [by rewrite lookup_delete_eq|rewrite lookup_delete_ne by done; apply HL].
Qed.

#[local] Instance lost_preorder c : PreOrder (fun d d' => lost c d -> lost c d').
Proof. split; [by intros d|]. intros d1 d2 d3 H1 H2 H. auto. Qed.

(** Does [op] issue the execution token [t]? *)
Definition issues (t : string) (op : StoreOp) : Prop :=
  match op with OpClaimRun _ entropy _ owner _ => owner_token entropy owner = Ok t | _ => False end.

Lemma run_ops_lost c ops d :
  DInv d -> Forall op_valid ops -> Forall (fun op => ~ issues (xc_owner c) op) ops ->
  lost c d -> lost c (run_ops ops d).
Proof.
  intros HD HV HI. apply (run_ops_kept (fun d d' => lost c d -> lost c d') (not_issued (xc_owner c))); [|done|done|].
  - intros l d1 d2 _ Hl S. by eapply step_lost.
  - eapply list.Forall_impl; [exact HI|]. intros op Hi l Hl ->.
    destruct op; simpl in *; try naive_solver.
Qed.

(** What a successful [claim_run] found in [d] and wrote to [d']. *)
Record run_claimed (id : TaskId) (token : string) (d : Db) (c : ExecutionClaim) (d' : Db) : Prop := {
  claimed_task : xc_task_id c = id;
  claimed_owner : xc_owner c = token;
  claimed_open : durable_completions d !! id = None;
  claimed_program : is_Some (durable_programs d !! id);
  claimed_until : xc_lease_until_ms c <= i64_max;
  claimed_row : exists generation,
    generation = from_option (fun r => ex_generation r + 1) 1 (durable_executions d !! id)
    /\ generation <= i64_max /\ xc_generation c = as_u64 generation
    /\ durable_executions d' !! id
         = Some (running_row (durable_executions d !! id) generation token (xc_lease_until_ms c));
}.

Lemma claim_run_Some clock entropy id owner dur d c d' :
  claim_run clock entropy id owner dur d = (Ok (Some c), d') ->
  exists token, owner_token entropy owner = Ok token /\ run_claimed id token d c d'.
Proof.
  unfold claim_run. destruct (owner_token entropy owner) as [token|] eqn:Et; [|done].
  match goal with |- run_tx ?b d = _ -> _ => set (body := b) end. intros E.
  pose proof (run_tx_post body (fun r d' => forall c, r = Ok (Some c) -> run_claimed id token d c d') d) as H.
  rewrite E in H. exists token. split; [done|]. apply H; [done| |done].
  clear E H. subst body. tx; intros c' [= <-].
  match goal with H : to_sql_integer _ "lease" = Ok _ |- _ => apply to_sql_Ok in H as [-> ?] end.
  split; simpl; try done.
  - unfold not_completed in *. by destruct (durable_completions d !! id).
  - rewrite lookup_insert_eq. eexists. split; [|split; [|split; [done|done]]];
      destruct (durable_executions d !! id) as [r|]; simpl in *; simplify_eq; try done;
      unfold checked_add_i64, ok_or in *; repeat case_match; simplify_eq; try done.
    unfold is_i64 in *. match goal with H : in_range _ _ _ = true |- _ => apply in_range_spec in H end. lia.
Qed.

Lemma as_u64_small z : 0 <= z <= i64_max -> as_u64 z = z.
Proof. intros H. unfold as_u64, i64_max in *. apply Z.mod_small. lia. Qed.
Lemma as_i64_small z : 0 <= z <= i64_max -> as_i64 z = z.
Proof. intros H. unfold as_i64, i64_max in *. rewrite Z.mod_small; lia. Qed.

(** A live execution lease blocks [claim_run]. *)
Lemma claim_run_blocked clock entropy id owner dur d r u :
  durable_executions d !! id = Some r -> ex_lease_until_ms r = Some u -> u <= i64_max ->
  (forall n, 0 <= clock n < u) ->
  (claim_run clock entropy id owner dur d).2 = d
  /\ forall c, (claim_run clock entropy id owner dur d).1 <> Ok (Some c).
Proof.
  intros Hr Hu Hm Hc. unfold claim_run. destruct (owner_token entropy owner) as [token|]; [|done].
  apply (run_tx_post _ (fun r d' => d' = d /\ forall c, r <> Ok (Some c))); [done|].
  assert (forall n, run_blocked d id (clock n) = true) as Hb.
  { intros n. specialize (Hc n). unfold run_blocked, lease_over. rewrite Hr, Hu, as_i64_small by lia.
    destruct (Z.ltb_spec (clock n) u); [by rewrite !orb_true_r|lia]. }
  tx; try done. by rewrite Hb in *.
Qed.

(** Execution leases are exclusive: when [claim_run] answers with a claim,
    that claim passes the execution guard at any time before its deadline, the
    task was open and registered, and no other [claim_run] whose clock reads
    before that deadline gets a claim or changes the store. *)
Theorem execution_lease_exclusive clock entropy id owner dur d c d' clock2 entropy2 owner2 dur2 :
  DInv d -> claim_run clock entropy id owner dur d = (Ok (Some c), d') ->
  (forall n, 0 <= clock2 n < xc_lease_until_ms c) ->
  (forall n, execution_valid c (clock2 n) d')
  /\ durable_completions d !! id = None /\ is_Some (durable_programs d !! id)
  /\ (claim_run clock2 entropy2 id owner2 dur2 d').2 = d'
  /\ forall c2, (claim_run clock2 entropy2 id owner2 dur2 d').1 <> Ok (Some c2).
Proof.
  intros HD E Hc. destruct (claim_run_Some _ _ _ _ _ _ _ _ E) as (token & _ & [Ht Ho Hop Hp Hu (g & Hg & Hm & Hx & Hr)]).
  assert (0 <= g).
  { subst g. destruct (durable_executions d !! id) as [r|] eqn:Er; simpl; [|done].
    destruct (ok_execution _ (inv_tasks _ HD id) r Er). lia. }
  split; [|split; [done|split; [done|by eapply claim_run_blocked]]].
  intros n. eexists _, _. rewrite Ht. split; [exact Hr|]. simpl. rewrite as_u64_small in Hx by lia.
  specialize (Hc n). repeat split; (congruence || lia).
Qed.

(** C16. A superseded execution is fenced: once [claim_run] gave the task to
    another owner token, and after any operations (with [readable] payloads) that
    do not issue the old token again, the guarded operations of the handle
    scoped to the old execution (append, poll a signal, complete a wakeup, finish, release) leave
    the store as it is. The handle's other operations are not guarded: what they
    may still change (programs, signals sent, leases) includes no history and no
    completion, of any task, unless they are an admission or retention. *)
Theorem stale_execution_fenced clock entropy id owner dur d c' d' c ops op :
  DInv d -> claim_run clock entropy id owner dur d = (Ok (Some c'), d') ->
  xc_task_id c = id -> xc_owner c <> xc_owner c' ->
  Forall op_valid ops -> Forall (fun op => ~ issues (xc_owner c) op) ops -> scoped_by c op ->
  let now := run_ops ops d' in
  (guarded op = true -> run_op op now = now)
  /\ (admits_or_prunes op = false -> same_records now (run_op op now)).
Proof.
  intros HD E Ht Ho HV HI HS now.
  assert (guarded op = true -> run_op op now = now) as HG;
    [|split; [done|]; destruct (guarded op) eqn:G; [by rewrite HG|by apply unguarded_records]].
  intros G. apply (lost_blocks c); [done..|]. subst now.
  destruct (claim_run_Some _ _ _ _ _ _ _ _ E) as (token & _ & [_ Ho' _ _ _ (g & _ & _ & _ & Hr)]).
  apply run_ops_lost; [|done|done|].
  - destruct (claim_run_refines clock entropy id owner dur d) as (l & _ & S). rewrite E in S.
    by eapply steps_DInv.
  - intros r. rewrite Ht, Hr. intros [= <-]. simpl. congruence.
Qed.

(** ** Wakeups *)

Lemma claim_candidates_skip id w now until until_sql owner cs d claims :
  durable_wakeups d !! id = Some w -> wakeup_claimable now w = false ->
  (forall c, c ∈ claims -> wc_task_id c <> id) ->
  tx_ok (claim_candidates now until until_sql owner cs claims)
    (fun claims' d' => durable_wakeups d' !! id = Some w /\ forall c, c ∈ claims' -> wc_task_id c <> id) d.
Proof.
  intros Hw Hn. revert d Hw claims. induction cs as [|[i c] cs IH]; intros d Hw claims Hc; simpl; [by tx|].
  tx; try by apply IH. apply IH; simpl.
  - destruct (decide (i = id)) as [->|n]; [|by rewrite lookup_insert_ne]. split_bool. congruence.
  - intros c' [?|Hx%list_elem_of_singleton]%elem_of_app; [by apply Hc|]. subst c'. simpl. intros ->. split_bool. congruence.
Qed.

Lemma claim_wakeup_Some id now owner dur d c d' :
  claim_wakeup id now owner dur d = (Ok (Some c), d') ->
  exists w, durable_wakeups d !! id = Some w /\ wakeup_claimable now w = true
    /\ wc_task_id c = id /\ wc_sequence c = wr_sequence w /\ wc_wake_at_ms c = wr_wake_at_ms w
    /\ wc_lease_owner c = owner /\ wc_lease_until_ms c <= i64_max /\ 0 <= wc_sequence c /\ 0 <= wc_wake_at_ms c
    /\ d' = set_wakeups (<[id := lease_wakeup owner (wc_lease_until_ms c) w]> (durable_wakeups d)) d.
Proof.
  unfold claim_wakeup. destruct (durable_validate_lease_owner owner) as [[]|]; [|done].
  unfold wakeup_lease_until, mbind, result_bind.
  destruct (to_sql_integer now _) as [now'|] eqn:En; [|done]. apply to_sql_Ok in En as [-> _].
  destruct (checked_add _ _ _) as [u|]; simpl; [|done].
  destruct (to_sql_integer u _) as [u'|] eqn:Eu; [|done]. apply to_sql_Ok in Eu as [-> Hu].
  destruct (durable_wakeups d !! id) as [w|]; [|done]. destruct (wakeup_claimable now w) eqn:Ew; [|done].
  unfold decode_wakeup, mbind, result_bind.
  destruct (from_sql_integer (wr_sequence w) _) eqn:E1; [|done]. apply from_sql_Ok in E1 as [-> ?].
  destruct (from_sql_integer (wr_wake_at_ms w) _) eqn:E2; [|done]. apply from_sql_Ok in E2 as [-> ?].
  intros [= <- <-]. exists w. simpl. by repeat split.
Qed.

Lemma lease_times_now now dur (n : Z) (u : Z * Z) :
  (now' ← to_sql_integer now "now_ms"; u ← wakeup_lease_until now dur; Ok (now', u)) = Ok (n, u) -> n = now.
Proof.
  unfold mbind, result_bind. destruct (to_sql_integer now _) eqn:E; [|done]. apply to_sql_Ok in E as [-> _].
  destruct (wakeup_lease_until now dur); [|done]. by intros [= -> _].
Qed.

Lemma claim_wakeup_blocked id now owner dur d w :
  durable_wakeups d !! id = Some w -> wakeup_claimable now w = false ->
  (claim_wakeup id now owner dur d).2 = d /\ forall c, (claim_wakeup id now owner dur d).1 <> Ok (Some c).
Proof.
  intros Hw Hc. unfold claim_wakeup. destruct (durable_validate_lease_owner owner); [|done].
  unfold mbind at 1 4, result_bind at 1 4.
  destruct (now' ← _; _) as [[n [? ?]]|] eqn:E; [|done]. apply lease_times_now in E as ->. by rewrite Hw, Hc.
Qed.

Lemma claim_due_blocked id now limit owner dur d w :
  durable_wakeups d !! id = Some w -> wakeup_claimable now w = false ->
  durable_wakeups (claim_due_wakeups now limit owner dur d).2 !! id = Some w
  /\ forall cs, (claim_due_wakeups now limit owner dur d).1 = Ok cs -> forall c, c ∈ cs -> wc_task_id c <> id.
Proof.
  intros Hw Hc. unfold claim_due_wakeups. destruct (durable_validate_lease_owner owner); [|done].
  destruct (limit =? 0); [split; [done|]; by intros ? [= <-] ? ?%elem_of_nil|].
  destruct (now' ← _; _) as [[n [u us]]|] eqn:E; [|done]. apply lease_times_now in E as ->.
  apply (run_tx_post _ (fun r d' => durable_wakeups d' !! id = Some w /\
    forall cs, r = Ok cs -> forall c, c ∈ cs -> wc_task_id c <> id)); [done|].
  tx_step. tx_step. tx_step. eapply tx_mono; [apply (claim_candidates_skip id w); [done|done|]|].
  - by intros c ?%elem_of_nil.
  - intros cs d' [H1 H2]. tx. split; [done|]. by intros ? [= <-].
Qed.

(** Wakeup leases are exclusive: while the deadline of a claim has not
    passed, the claim is active, the same wakeup cannot be claimed by name, and
    a batch claim leaves it alone and does not hand it out. *)
Theorem wakeup_lease_exclusive id now owner dur d c d' now2 owner2 dur2 limit :
  claim_wakeup id now owner dur d = (Ok (Some c), d') -> now2 < wc_lease_until_ms c ->
  wc_sequence c <= i64_max -> wc_wake_at_ms c <= i64_max ->
  claim_is_active c now2 d' = Ok true
  /\ ((claim_wakeup id now2 owner2 dur2 d').2 = d'
      /\ forall c2, (claim_wakeup id now2 owner2 dur2 d').1 <> Ok (Some c2))
  /\ durable_wakeups (claim_due_wakeups now2 limit owner2 dur2 d').2 !! id = durable_wakeups d' !! id
  /\ (forall cs, (claim_due_wakeups now2 limit owner2 dur2 d').1 = Ok cs -> forall c2, c2 ∈ cs -> wc_task_id c2 <> id).
Proof.
  intros E Hn Hs Ha. destruct (claim_wakeup_Some _ _ _ _ _ _ _ E) as (w & Hw & _ & Ht & Es & Ea & Eo & Hu & _ & _ & ->).
  set (d' := set_wakeups _ _).
  assert (durable_wakeups d' !! id = Some (lease_wakeup owner (wc_lease_until_ms c) w)) as Hl
    by (simpl; apply lookup_insert_eq).
  assert (wakeup_claimable now2 (lease_wakeup owner (wc_lease_until_ms c) w) = false) as Hc.
  { unfold wakeup_claimable. simpl. destruct (Z.leb_spec (wc_lease_until_ms c) now2); [lia|]. apply andb_false_r. }
  split; [|split; [by eapply claim_wakeup_blocked|rewrite Hl; by apply claim_due_blocked]].
  unfold claim_is_active, claim_params, mbind, result_bind. rewrite !to_sql_total by lia. simpl.
  unfold claim_matches, exact_claim. rewrite Ht. simpl. rewrite lookup_insert_eq. simpl. rewrite Es, Ea, Eo, !Z.eqb_refl, !bool_decide_true by done.
  by destruct (Z.ltb_spec now2 (wc_lease_until_ms c)); [|lia].
Qed.

(** ** Retention *)

(** Everything stored about [id]: its view, its signals, its receipts. *)
Definition task_data (d : Db) (id : TaskId) : TaskView * list SignalRow * gmap (TaskId * string) ReceiptRow :=
  (view d id, task_signals d id, filter (fun kv => kv.1.1 = id) (durable_signal_receipts d)).

Lemma delete_task_other id i d : i <> id -> task_data (delete_task id d) i = task_data d i.
Proof.
  intros n. unfold task_data, task_signals. f_equal; [f_equal|]; simpl.
  - revert i n. solve_frame.
  - apply list_filter_filter_l. congruence.
  - rewrite map_filter_filter. apply map_filter_ext. intros [j k] x _. simpl. naive_solver.
Qed.

Lemma delete_task_gone id d :
  suspended d id = false -> task_data (delete_task id d) id = task_data empty_db id.
Proof.
  intros [Hw Hs]%suspended_false. unfold task_data, task_signals, view, task_events, delete_task. simpl.
  rewrite !lookup_delete_eq, Hw, Hs, !lookup_empty. f_equal; [f_equal|].
  - rewrite list_filter_filter. induction (durable_signal_inbox d) as [|r l IH]; [done|].
    rewrite list.filter_cons. case_decide; [naive_solver|done].
  - rewrite map_filter_filter, map_filter_empty. apply map_eq. intros k.
    rewrite lookup_empty. apply map_lookup_filter_None. right. intros x _. simpl. naive_solver.
Qed.

Definition sum_bytes (l : list (TaskId * Z)) : Z := foldr (fun x acc => x.2 + acc) 0 l.

(** The loop removes a sublist of the candidates, whole, within the budget. *)
Lemma prune_loop_spec cs : forall n b d n' d',
  NoDup cs.*1 -> Forall (fun x => 0 <= x.2 < 2 ^ 64) cs -> 0 <= n -> 0 <= b ->
  prune_loop cs n b d = (n', d') ->
  exists gone, gone `sublist_of` cs /\ n' = n + vec_len gone
    /\ (forall id, id ∈ gone.*1 -> task_data d' id = task_data empty_db id)
    /\ (forall id, id ∉ gone.*1 -> task_data d' id = task_data d id)
    /\ (b + sum_bytes gone <= MAX_HISTORY_BYTES \/ vec_len gone <= (if 0 <? n then 0 else 1)).
Proof.
  induction cs as [|[id x] cs IH]; intros n b d n' d' HN HF Hn Hb E; simpl in *.
  { injection E as <- <-. exists []. repeat split; try (set_solver || done); [unfold vec_len; simpl; lia|].
    right. unfold vec_len. simpl. by destruct (0 <? n). }
  apply list.NoDup_cons in HN as [Hid HN]. apply list.Forall_cons in HF as [Hx HF]. simpl in Hx.
  unfold as_u64 in E. rewrite Z.mod_small in E by done.
  destruct ((0 <? n) && (MAX_HISTORY_BYTES <? b + x)) eqn:Eb.
  { injection E as <- <-. exists []. repeat split; try (set_solver || done); [apply sublist_nil_l|unfold vec_len; simpl; lia|].
    right. unfold vec_len. simpl. by destruct (0 <? n). }
  destruct (suspended d id) eqn:Es.
  { destruct (IH _ _ _ _ _ HN HF Hn Hb E) as (gone & HS & ?). exists gone. split; [by constructor|done]. }
  destruct (IH (n + 1) (b + x) (delete_task id d) n' d' HN HF ltac:(lia) ltac:(lia) E) as (gone & HS & -> & HG & HK & HB).
  exists ((id, x) :: gone). split; [by constructor|].
  assert (id ∉ gone.*1) as Hg.
  { intros H. apply Hid. by eapply (sublist_subseteq _ _ (fmap_sublist fst _ _ HS)). }
  split; [rewrite vec_len_cons; lia|]. split; [|split].
  - intros i [->|Hi]%elem_of_cons; [|by apply HG]. rewrite HK by done. by apply delete_task_gone.
  - intros i [Hne Hi]%not_elem_of_cons. rewrite HK by done. by apply delete_task_other.
  - destruct (Z.ltb_spec 0 (n + 1)); [|lia]. simpl.
    rewrite vec_len_cons.
    destruct HB as [HB|HB]; [left; lia|].
    destruct gone as [|g gone]; [|rewrite vec_len_cons in HB; pose proof (vec_len_nonneg gone); lia]. simpl in *.
    destruct (Z.ltb_spec 0 n); [|right; unfold vec_len; simpl; lia]. simpl in Eb. left. lia.
Qed.

Lemma history_bytes_nonneg rows : 0 <= history_bytes rows.
Proof.
  induction rows as [|r l IH]; simpl; [done|].
  pose proof (len_nonneg (er_key r)). pose proof (len_nonneg (er_payload r)). lia.
Qed.

Lemma retained_nonneg d id c : DInv d -> 0 <= retained_bytes d id c.
Proof.
  intros HD. unfold retained_bytes.
  assert (0 <= from_option hs_payload_bytes 0 (durable_history_stats d !! id)).
  { destruct (inv_tasks _ HD id) as [_ _ _ [Hb _] _ _ _ _ _]. simpl in Hb.
    pose proof (history_bytes_nonneg (task_events d id)).
    destruct (durable_history_stats d !! id); simpl in *; lia. }
  assert (forall p, 0 <= from_option (fun p => len (pr_source p)) 0 p) as Hp
    by (intros [p|]; simpl; [apply len_nonneg|done]).
  specialize (Hp (durable_programs d !! id)). pose proof (len_nonneg (cr_result_json c)).
  pose proof (signal_bytes_sublist [] (task_signals d id) ltac:(apply sublist_nil_l)). simpl in *.
  assert (0 <= receipt_bytes (task_receipts d id)).
  { induction (task_receipts d id) as [|[[i k] r] l IH]; simpl in *; [done|].
    pose proof (len_nonneg k). pose proof (len_nonneg (rr_name r)). pose proof (len_nonneg (rr_payload r)). lia. }
  lia.
Qed.

(** Retention removes whole completed tasks and nothing else:
    [prune_completed] drops at most [min limit 100] tasks, all completed before
    [before], with every row they had; every other task keeps everything; and
    when more than one task goes, what they retained is within the byte budget. *)
Theorem prune_completed_spec before limit d n d' :
  DInv d -> 0 <= limit ->
  (forall id c, durable_completions d !! id = Some c -> retained_bytes d id c < 2 ^ 63) ->
  prune_completed before limit d = (Ok n, d') ->
  exists gone : list (TaskId * Z), NoDup gone.*1 /\ n = vec_len gone /\ n <= Z.min limit 100
    /\ (forall id b, (id, b) ∈ gone -> exists c, durable_completions d !! id = Some c
          /\ cr_completed_at_ms c < before /\ b = retained_bytes d id c
          /\ task_data d' id = task_data empty_db id)
    /\ (forall id, id ∉ gone.*1 -> task_data d' id = task_data d id)
    /\ (1 < n -> sum_bytes gone <= MAX_HISTORY_BYTES).
Proof.
  intros HD Hlim Hsmall. unfold prune_completed. destruct (Z.eqb_spec limit 0) as [->|Hl].
  { intros [= <- <-]. exists []. repeat split; try done; [constructor|intros id b H; by apply elem_of_nil in H]. }
  destruct (to_sql_integer before _) as [b|] eqn:Eb; [apply to_sql_Ok in Eb as [-> _]|done].
  destruct (prune_loop _ 0 0 d) as [n' dn] eqn:E. intros [= -> ->].
  set (cs := map _ _) in E.
  assert (forall id x, (id, x) ∈ cs -> exists c, (id, c) ∈ prune_candidates before limit d /\ x = retained_bytes d id c) as Hcs.
  { intros id x H. apply list_elem_of_fmap in H as ([i c] & [= -> ->] & Hc). eauto. }
  assert (cs.*1 = (prune_candidates before limit d).*1) as E1
    by (unfold cs; clear; by induction (prune_candidates before limit d) as [|kv l IH]; simpl; [|f_equal]).
  assert (NoDup cs.*1) as HN by (rewrite E1; apply candidates_nodup).
  destruct (prune_loop_spec cs 0 0 d n d') as (gone & HS & -> & HG & HK & HB); try done.
  { apply list.Forall_forall. intros [id x] (c & Hc & ->)%Hcs. apply candidates_completed in Hc as [Hc _].
    specialize (Hsmall id c Hc). pose proof (retained_nonneg d id c HD). simpl. lia. }
  exists gone. rewrite Z.add_0_l in *. split; [by eapply sublist_NoDup; [|by apply fmap_sublist]|]. split; [done|].
  split; [|split; [|split; [done|]]].
  - apply sublist_length in HS. unfold cs, vec_len in *. rewrite length_map in HS. unfold prune_candidates in HS.
    rewrite takeZ_take, length_take in HS. lia.
  - intros id x Hx. destruct (Hcs id x) as (c & Hc & ->); [by eapply sublist_subseteq|].
    apply candidates_completed in Hc as [Hc Ht]. exists c. repeat split; try done.
    apply HG, list_elem_of_fmap. by exists (id, retained_bytes d id c).
  - simpl in HB. intros H1. destruct HB; lia.
Qed.

End Fencing.

(** ** Instances *)

#[local] Existing Instance sample_json.
#[local] Existing Instance sample_sha.

(** A registered task, claimed at time 10 by a first runner until 15, and at
    time 20 by a second one until 120. *)
Definition sample_registered : Db := run_ops [OpPutProgram 7 Script "source" 1] empty_db.

Definition sample_claim (entropy : string) (generation until : Z) : ExecutionClaim :=
  {| xc_task_id := 7; xc_owner := to_hex (sha256 ("runner" ++ entropy)%string); xc_generation := generation;
     xc_lease_until_ms := until; xc_wakeup := None |}.

Definition sample_first : Db := (claim_run (fun _ => 10) "a" 7 "runner" 5 sample_registered).2.
Definition sample_second : Db := (claim_run (fun _ => 20) "longer" 7 "runner" 100 sample_first).2.

Lemma sample_registered_inv : DInv sample_registered.
Proof. apply run_ops_DInv; [apply empty_DInv|]. by repeat constructor. Qed.

Lemma sample_first_inv : DInv sample_first.
Proof. apply (run_op_DInv (OpClaimRun (fun _ => 10) "a" 7 "runner" 5) sample_registered sample_registered_inv I). Qed.

Lemma execution_lease_exclusive_witness :
  execution_valid (sample_claim "a" 1 15) 12 sample_first
  /\ (claim_run (fun _ => 12) "longer" 7 "runner" 100 sample_first).2 = sample_first.
Proof.
  destruct (execution_lease_exclusive (fun _ => 10) "a" 7 "runner" 5 sample_registered (sample_claim "a" 1 15)
    sample_first (fun _ => 12) "longer" "runner" 100) as (H1 & _ & _ & H2 & _).
  - apply sample_registered_inv.
  - vm_compute. reflexivity.
  - intros n. simpl. lia.
  - split; [exact (H1 0%nat)|exact H2].
Defined.

Lemma stale_execution_fenced_witness :
  run_op (OpReleaseRun (fun _ => 12) (sample_claim "a" 1 15) true) sample_second = sample_second.
Proof.
  apply (stale_execution_fenced (fun _ => 20) "longer" 7 "runner" 100 sample_first (sample_claim "longer" 2 120)
    sample_second (sample_claim "a" 1 15) [] (OpReleaseRun (fun _ => 12) (sample_claim "a" 1 15) true)).
  - apply sample_first_inv.
  - vm_compute. reflexivity.
  - reflexivity.
  - vm_compute. discriminate.
  - constructor.
  - constructor.
  - reflexivity.
  - reflexivity.
Defined.

Definition sample_sleeping : Db :=
  run_ops [OpScheduleWakeup {| wk_task_id := 7; wk_sequence := 0; wk_wake_at_ms := 5 |}] empty_db.

Lemma wakeup_lease_exclusive_witness :
  let c := {| wc_task_id := 7; wc_sequence := 0; wc_wake_at_ms := 5; wc_lease_owner := "r"; wc_lease_until_ms := 30 |} in
  claim_is_active c 20 (claim_wakeup 7 10 "r" 20 sample_sleeping).2 = Ok true.
Proof.
  intros c. apply (wakeup_lease_exclusive 7 10 "r" 20 sample_sleeping c
    (claim_wakeup 7 10 "r" 20 sample_sleeping).2 20 "s" 20 10).
  - vm_compute. reflexivity.
  - vm_compute. reflexivity.
  - vm_compute. discriminate.
  - vm_compute. discriminate.
Defined.

Definition sample_completed : Db :=
  run_ops [OpPutProgram 7 Script "source" 1; OpFinish (fun _ => 5) None 7 0 (sample_value "done") 9 None] empty_db.

Lemma sample_completed_inv : DInv sample_completed.
Proof.
  apply run_ops_DInv; [apply empty_DInv|]. repeat constructor; simpl; done || by apply sample_readable.
Qed.

Lemma sample_completed_small id c :
  durable_completions sample_completed !! id = Some c -> retained_bytes sample_completed id c < 2 ^ 63.
Proof.
  assert (durable_completions sample_completed
    = <[7 := {| cr_next_sequence := 0; cr_result_json := "jdone"; cr_completed_at_ms := 9 |}]> ∅) as -> by (vm_compute; reflexivity).
  intros [[<- <-]|[_ H]]%lookup_insert_Some; [vm_compute; reflexivity|]. by rewrite lookup_empty in H.
Qed.

Lemma prune_completed_spec_witness :
  exists gone : list (TaskId * Z), 1 = vec_len gone /\ 1 <= Z.min 5 100
    /\ task_data (prune_completed 100 5 sample_completed).2 7 = task_data empty_db 7.
Proof.
  destruct (prune_completed_spec 100 5 sample_completed 1 (prune_completed 100 5 sample_completed).2)
    as (gone & _ & H1 & H2 & _).
  - apply sample_completed_inv.
  - vm_compute. discriminate.
  - apply sample_completed_small.
  - vm_compute. reflexivity.
  - exists gone. split; [exact H1|]. split; [exact H2|]. vm_compute. reflexivity.
Defined.
