(* ===== verification/DurableSignals.v ===== *)
(** * Signals, idempotence and replay of the durable store

    Signals are delivered once each, in the order they were accepted; repeated
    requests (keyed signals, admission, completion) answer as the first one
    did; replay returns the recorded events in order. *)

From Stdlib Require Import ZArith Lia Ascii String Sorted.
From stdpp Require Import base tactics list gmap strings numbers.
From S2P Require Import Prelude Bytes TaskModel DurableTypes DurableDb DurableStore DurableWakeups DurableExec DurableLogic DurableSpec DurableInv DurableRefine DurableThms.
Open Scope Z_scope.

(** Removing the row with the least id from a list sorted by id. *)
Lemma filter_ne_head {A} (f : A -> Z) x l :
  StronglySorted Z.lt (f <$> x :: l) -> filter (fun y => f y <> f x) (x :: l) = l.
Proof.
  simpl. intros [_ HF]%StronglySorted_inv. rewrite list.filter_cons. case_decide; [done|].
  rewrite list.Forall_fmap in HF. clear H. induction HF as [|y l Hy _ IH]; [done|].
  rewrite list.filter_cons. simpl in Hy. case_decide; [by rewrite IH|lia].
Qed.

Lemma sorted_inj {A} (f : A -> Z) l x y :
  StronglySorted Z.lt (f <$> l) -> x ∈ l -> y ∈ l -> f x = f y -> x = y.
Proof.
  induction l as [|z l IH]; [set_solver|]. simpl. intros [HS HF]%StronglySorted_inv.
  rewrite list.Forall_fmap, list.Forall_forall in HF. simpl in HF.
  intros [->|Hx]%elem_of_cons [->|Hy]%elem_of_cons E; try done; [specialize (HF y Hy); lia|specialize (HF x Hx); lia|].
  by apply IH.
Qed.

Section Signals.
Context {SJ : SerdeJson} {SH : Sha256}.

(** The payloads task [id] has received for [name], and those still queued. *)
Definition delivered (d : Db) (id : TaskId) (name : string) : list string :=
  er_payload <$> filter (fun r => er_kind r = "signal"%string /\ er_key r = name) (task_events d id).
Definition queued (d : Db) (id : TaskId) (name : string) : list SignalRow :=
  filter (fun r => sr_name r = name) (task_signals d id).
Definition signal_log (d : Db) (id : TaskId) (name : string) : list string :=
  delivered d id name ++ (sr_payload <$> queued d id name).

Definition accepted (l : list Label) (id : TaskId) (name : string) : list string :=
  omap (fun x => match x with
    | Accepted i n p => if decide (i = id /\ n = name) then Some p else None
    | _ => None
    end) l.

(** Signal events come from [poll_signal] only, and no task is pruned. *)
Definition log_ok (l : Label) : Prop :=
  match l with WroteSignal _ _ _ | Pruned _ => False | _ => True end.

Lemma queued_sorted d id name : InboxOk d -> StronglySorted Z.lt (sr_id <$> queued d id name).
Proof. intros [_ HS _ _ _]. by do 2 apply sorted_filter. Qed.

(** The oldest signal is the head of the queue. *)
Lemma oldest_queued d id name s :
  InboxOk d -> oldest_signal d id name = Some s -> exists rest, queued d id name = s :: rest.
Proof.
  intros HI. unfold oldest_signal. fold (queued d id name).
  rewrite (order_by_sorted sr_id) by by apply queued_sorted. destruct (queued d id name); [done|].
  intros [= ->]. eauto.
Qed.

Lemma queued_drop d d0 id name s rest i nm :
  InboxOk d -> durable_signal_inbox d0 = durable_signal_inbox d ->
  queued d id name = s :: rest ->
  queued (drop_signal s d0) i nm = if decide (i = id /\ nm = name) then rest else queued d i nm.
Proof.
  intros HI E Hq. pose proof (queued_sorted d id name HI) as HS. rewrite Hq in HS.
  assert (s ∈ queued d id name) as [Hn [Ht Hs]%list_elem_of_filter]%list_elem_of_filter by (rewrite Hq; left).
  unfold queued, task_signals, drop_signal. simpl. rewrite E.
  rewrite (filter_swap (fun r => sr_task_id r = i)), (filter_swap (fun r => sr_name r = nm)).
  case_decide as Hd; [destruct Hd as [-> ->]|].
  - fold (task_signals d id). fold (queued d id name). rewrite Hq. by apply (filter_ne_head sr_id).
  - apply filter_keeps. intros x [Hxn [Hxt Hx]%list_elem_of_filter]%list_elem_of_filter Hid.
    apply Hd. rewrite (sorted_inj sr_id (durable_signal_inbox d) x s) in Hxn, Hxt by (done || apply HI). naive_solver.
Qed.

Lemma delivered_add d i r id name :
  delivered (add_event i r d) id name =
  delivered d id name ++ (if decide (i = id /\ er_kind r = "signal"%string /\ er_key r = name) then [er_payload r] else []).
Proof.
  unfold delivered, task_events, add_event. simpl. destruct (decide (i = id)) as [->|n].
  - rewrite lookup_insert_eq. simpl. rewrite list.filter_app, fmap_app. f_equal. rewrite list.filter_cons.
    repeat case_decide; naive_solver.
  - rewrite lookup_insert_ne by done. case_decide; [naive_solver|]. by rewrite app_nil_r.
Qed.

Lemma log_same d d' id name :
  durable_events d' = durable_events d -> durable_signal_inbox d' = durable_signal_inbox d ->
  signal_log d' id name = signal_log d id name ++ [].
Proof.
  intros He Hi. unfold signal_log, delivered, queued, task_signals, task_events. by rewrite He, Hi, app_nil_r.
Qed.

Lemma step_log l d d' id name :
  DInv d -> Forall log_ok l -> db_step l d d' ->
  signal_log d' id name = signal_log d id name ++ accepted l id name.
Proof.
  intros HD Hl S. destruct S as [| |i r d HA|i s r d HO HA Hk Hp| | | | |i s d Hc Hi| | | | | |i];
    try by apply log_same.
  - destruct (String.eqb_spec (er_kind r) "signal") as [|Hk]; [by inversion Hl|].
    unfold signal_log. rewrite delivered_add. case_decide; [naive_solver|]. by rewrite !app_nil_r.
  - destruct (oldest_queued d i (er_key r) s (inv_inbox _ HD) HO) as [rest Hq].
    unfold signal_log. change (delivered (drop_wait _ _ _ _)) with (delivered (add_event i r d)).
    change (queued (drop_wait ?a ?b ?c ?x)) with (queued x).
    rewrite (queued_drop d _ i (er_key r) s rest) by (done || apply HD). rewrite delivered_add. simpl.
    rewrite app_nil_r. repeat case_decide; destruct_and?; subst; try naive_solver.
    + rewrite Hq. simpl. by rewrite Hp, <-app_assoc.
    + by rewrite app_nil_r.
  - unfold signal_log. change (delivered (set_inbox _ _ d)) with (delivered d). rewrite <-app_assoc. f_equal.
    unfold queued, task_signals. simpl. rewrite !list.filter_app, fmap_app. f_equal.
    subst i. rewrite !list.filter_cons, list.filter_nil. destruct (decide (sr_task_id s = id)) as [<-|n].
    + rewrite list.filter_cons, list.filter_nil. case_decide; case_decide; naive_solver.
    + rewrite list.filter_nil. case_decide; naive_solver.
  - by inversion Hl.
Qed.

Definition is_accepted (l : Label) : bool := match l with Accepted _ _ _ => true | _ => false end.
Definition count_accepted (l : list Label) : Z := vec_len (filter (fun x => is_accepted x = true) l).

Lemma step_next l d d' :
  db_step l d d' -> signal_inbox_next_id d' = signal_inbox_next_id d + count_accepted l.
Proof. destruct 1; try (case_match); unfold count_accepted; simpl; unfold vec_len; simpl; lia. Qed.

Lemma steps_log l d d' id name :
  DInv d -> Forall log_ok l -> db_steps l d d' ->
  signal_log d' id name = signal_log d id name ++ accepted l id name
  /\ signal_inbox_next_id d' = signal_inbox_next_id d + count_accepted l.
Proof.
  intros HD HF S. induction S as [d|l l' d d1 d' S1 S2 IH]; [rewrite app_nil_r; split; [done|unfold count_accepted, vec_len; simpl; lia]|].
  apply list.Forall_app in HF as [F1 F2]. destruct IH as [IHl IHn]; [by eapply step_DInv|done|].
  rewrite IHl, IHn, (step_log _ _ _ id name HD F1 S1), (step_next _ _ _ S1).
  unfold accepted, count_accepted, vec_len. rewrite omap_app, app_assoc, list.filter_app, length_app. split; [done|lia].
Qed.

(** The receipt an earlier send with the same idempotency key left. *)
Definition earlier (d : Db) (id : TaskId) (key : option string) : option ReceiptRow :=
  k ← key; durable_signal_receipts d !! (id, k).

(** A send adds one signal when it answers [Ok] and its key is not known yet,
    and none otherwise. *)
Lemma send_next id name payload at_ms key d :
  DInv d ->
  let (r, d') := send_signal_inner id name payload at_ms key d in
  signal_inbox_next_id d' = signal_inbox_next_id d
    + match r, earlier d id key with Ok _, None => 1 | _, _ => 0 end.
Proof.
  intros HD. unfold send_signal_inner. destruct (validate_signal_name name;; _) as [[json t]|]; [|lia]. unfold and_then.
  match goal with |- context [run_tx ?b d] => set (body := b) end.
  pose proof (run_tx_post body (fun r d' => signal_inbox_next_id d' = signal_inbox_next_id d
    + match mbind (fun s => from_sql_integer s "signal_id") r, earlier d id key with Ok _, None => 1 | _, _ => 0 end) d) as H.
  apply H; clear H; [simpl; lia|].
  pose proof (inbox_next _ (inv_inbox _ HD)) as Hn.
  subst body. unfold check_receipt, enqueue_signal, earlier. tx; simpl.
  all: rewrite ?(from_sql_total (signal_inbox_next_id d)) by lia.
  all: repeat match goal with H : durable_signal_receipts _ !! _ = _ |- _ => rewrite H end; simpl; try case_match; lia.
Qed.

(** What [op] adds to the signals sent to task [id] under [name]: the payload of
    a send that answers [Ok], unless an earlier send with its key already did. *)
Definition sent_by (op : StoreOp) (d : Db) (id : TaskId) (name : string) : list string :=
  match op with
  | OpSendSignal i n payload at_ms key =>
      match (send_signal_inner i n payload at_ms key d).1, earlier d i key with
      | Ok _, None =>
          if decide (i = id /\ n = name)
          then from_option (fun json => [json]) [] (json_to_string payload)
          else []
      | _, _ => []
      end
  | _ => []
  end.

Fixpoint sent (ops : list StoreOp) (d : Db) (id : TaskId) (name : string) : list string :=
  match ops with
  | [] => []
  | op :: ops' => sent_by op d id name ++ sent ops' (run_op op d) id name
  end.

(** Appends of signal events that bypass [poll_signal], and retention. *)
Definition bypasses (op : StoreOp) : bool :=
  match op with
  | OpAppend _ _ _ _ e _ => bool_decide (ne_kind e = Signal)
  | OpAppendJson _ _ _ _ kind _ _ _ _ => bool_decide (kind = Signal)
  | OpPrune _ _ => true
  | _ => false
  end.

Lemma bypasses_emits op l : bypasses op = false -> op_emits op l -> log_ok l.
Proof. destruct op; simpl; try done; intros H%bool_decide_eq_false || intros H; destruct l; naive_solver. Qed.

Lemma accepted_repeat id name json l i nm :
  Forall (fun x => x = Accepted id name json) l ->
  accepted l i nm = (if decide (id = i /\ name = nm) then replicate (length l) json else [])
  /\ count_accepted l = vec_len l.
Proof.
  induction 1 as [|x l -> _ [IH1 IH2]]; [by case_decide|]. split.
  - simpl. rewrite IH1. case_decide; done.
  - unfold count_accepted in *. rewrite list.filter_cons, decide_True, !vec_len_cons by done. lia.
Qed.

Lemma accepted_none (l : list Label) i nm :
  Forall (fun x => match x with Accepted _ _ _ => False | _ => True end) l -> accepted l i nm = [].
Proof. induction 1 as [|[] l]; try done. Qed.

Lemma send_unprinted id name payload at_ms key d r d' :
  json_to_string payload = None -> send_signal_inner id name payload at_ms key d = (r, d') ->
  (exists e, r = Err e) /\ d' = d.
Proof.
  intros Hj. unfold send_signal_inner, mbind, result_bind. rewrite Hj. destruct (validate_signal_name name); simpl;
    intros [= <- <-]; eauto.
Qed.

Lemma run_op_log op d id name :
  DInv d -> op_valid op -> bypasses op = false ->
  signal_log (run_op op d) id name = signal_log d id name ++ sent_by op d id name.
Proof.
  intros HD HV HB. destruct (run_op_refines op d HD HV) as (l & Fl & S).
  assert (Forall log_ok l) as Fo.
  { eapply list.Forall_impl; [exact Fl|]. intros x. by apply bypasses_emits. }
  destruct (steps_log l d _ id name HD Fo S) as [-> Hn]. f_equal.
  destruct op; try (apply accepted_none; eapply list.Forall_impl; [exact Fl|]; intros []; simpl; naive_solver).
  pose proof (send_next id0 name0 payload sent_at_ms key d HD) as Hs. simpl in Hn. unfold sent_by.
  destruct (send_signal_inner id0 name0 payload sent_at_ms key d) as [r d'] eqn:E. cbn [fst snd] in *.
  destruct (json_to_string payload) as [json|] eqn:Hj; 
    [|destruct (send_unprinted _ _ _ _ _ _ _ _ Hj E) as [[e ->] ->]; destruct l; [done|inversion Fl; naive_solver]].
  destruct (accepted_repeat id0 name0 json l id name) as [-> Hc].
  { eapply list.Forall_impl; [exact Fl|]. intros x (j & ? & ->). congruence. }
  rewrite Hn, Hc in Hs. clear Hn Hc E Fl Fo S. unfold vec_len in Hs.
  destruct r; [destruct (earlier d id0 key)|]; case_decide; try done; destruct l as [|x [|y l]]; simpl in *; done || lia.
Qed.

(** C18. Signals are delivered exactly once and in order: for every task and
    signal name, what [poll_signal] wrote into the history followed by what is
    still queued is exactly what was there before, followed by the payload of
    each send of the run that answered [Ok], in the order they were sent; a
    send whose idempotency key an earlier send used counts once, and a send
    that answered an error not at all. The run may be any sequence of store
    operations except retention ([prune_completed], which deletes histories) and
    direct appends of [Signal] events (which write a delivery without a send);
    the payloads it stores are [readable]. *)
Theorem signals_fifo_exactly_once ops d id name :
  DInv d -> Forall op_valid ops -> Forall (fun op => bypasses op = false) ops ->
  signal_log (run_ops ops d) id name = signal_log d id name ++ sent ops d id name.
Proof.
  revert d. induction ops as [|op ops IH]; intros d HD HV HB; [by rewrite app_nil_r|].
  inversion HV. inversion HB. simpl. change (run_ops (op :: ops) d) with (run_ops ops (run_op op d)).
  rewrite IH by (done || by apply run_op_DInv). by rewrite run_op_log, app_assoc.
Qed.
End Signals.

(** ** Repeated requests *)

Section Idempotence.
Context {SJ : SerdeJson} {SH : Sha256}.

(** The arguments of a send, as stored. *)
Definition send_args (name : string) (payload : Value) (at_ms : Z) : result DurableError (string * Z) :=
  validate_signal_name name;;
  json ← ok_or (json_to_string payload) DurableJson;
  if MAX_EVENT_PAYLOAD_BYTES <? len json then Err EventPayloadTooLarge
  else sent_at ← to_sql_integer at_ms "sent_at_ms"; Ok (json, sent_at).

Lemma send_args_at name payload at_ms at2 json t :
  send_args name payload at_ms = Ok (json, t) -> at2 <= i64_max -> send_args name payload at2 = Ok (json, at2).
Proof.
  unfold send_args, mbind, result_bind. intros H H2. destruct (validate_signal_name name); [|done].
  destruct (json_to_string payload); simpl in *; [|done]. destruct (_ <? _); [done|].
  rewrite (to_sql_total at2) by done. destruct (to_sql_integer at_ms _); [|done]. by injection H as -> _.
Qed.

Lemma send_once_receipt id name payload key at_ms d n d' :
  send_signal_once id name payload key at_ms d = (Ok n, d') ->
  exists json t, send_args name payload at_ms = Ok (json, t) /\ validate_key key = Ok ()
    /\ durable_signal_receipts d' !! (id, key) = Some {| rr_name := name;
         rr_payload := to_hex (sha256 json); rr_signal_id := n |}.
Proof.
  unfold send_signal_once, send_signal_inner. fold (send_args name payload at_ms).
  destruct (send_args name payload at_ms) as [[json t]|]; [|done]. unfold and_then.
  match goal with |- context [run_tx ?b d] => set (body := b) end.
  pose proof (run_tx_post body (fun r d' => forall n, r = Ok n -> validate_key key = Ok ()
    /\ durable_signal_receipts d' !! (id, key) = Some {| rr_name := name;
         rr_payload := to_hex (sha256 json); rr_signal_id := n |}) d) as H.
  destruct (run_tx body d) as [[m|e] d1] eqn:E; simpl in *; [|done].
  intros [= [-> _]%from_sql_Ok <-]. exists json, t. split; [done|]. apply H; [done| |done].
  clear E H. subst body. unfold check_receipt, enqueue_signal. tx; intros n' [= <-].
  all: match goal with H : validate_key _ = Ok ?a |- _ => destruct a; (split; [done|]) end.
  all: simpl; rewrite ?lookup_insert_eq; try done.
  match goal with H : from_sql_integer _ _ = Ok _ |- _ => apply from_sql_Ok in H as [-> _] end.
  match goal with H : _ || _ = false |- _ => apply orb_false_iff in H as [H1%negb_false_iff%String.eqb_eq H2%negb_false_iff%String.eqb_eq] end.
  match goal with H : _ !! _ = Some ?r |- _ => destruct r; simpl in *; by subst end.
Qed.

(** A keyed signal is sent once: after [send_signal_once] answered [n],
    repeating the request at any later time short of retention answers [n]
    again and writes nothing, and reusing the key for another name or payload
    is refused and writes nothing. *)
Theorem send_signal_once_idempotent id name payload key at_ms d n d' ops at2 name2 payload2 json2 :
  DInv d -> readable payload -> 0 <= at_ms -> at2 <= i64_max ->
  send_signal_once id name payload key at_ms d = (Ok n, d') ->
  Forall op_valid ops -> Forall (fun op => is_prune op = false) ops ->
  let d2 := run_ops ops d' in
  send_signal_once id name payload key at2 d2 = (Ok n, d2)
  /\ (send_args name2 payload2 at2 = Ok (json2, at2) ->
      (forall json, json_to_string payload = Some json ->
         name2 <> name \/ to_hex (sha256 json2) <> to_hex (sha256 json)) ->
      send_signal_once id name2 payload2 key at2 d2 = (Err AdmissionConflict, d2)).
Proof.
  intros HD Hp Ha H2 E HV HP d2.
  destruct (send_once_receipt _ _ _ _ _ _ _ _ E) as (json & t & Hargs & Hk & Hr).
  pose proof (run_op_DInv (OpSendSignal id name payload at_ms (Some key)) d HD (conj Hp Ha)) as HD'.
  change (run_op _ d) with (send_signal_once id name payload key at_ms d).2 in HD'. rewrite E in HD'.
  pose proof (later_receipts _ _ (run_ops_later ops d' HD' HV HP) _ _ Hr) as Hr2. fold d2 in Hr2.
  assert (0 <= n) as Hn.
  { pose proof (inbox_receipts _ (inv_inbox _ HD') _ _ Hr) as Hn. simpl in Hn. lia. }
  assert (json_to_string payload = Some json) as Hj.
  { revert Hargs. unfold send_args, mbind, result_bind. destruct (validate_signal_name name); [|done].
    destruct (json_to_string payload); simpl; [|done]. repeat case_match; try done. by intros [= -> _]. }
  split.
  - unfold send_signal_once, send_signal_inner. fold (send_args name payload at2).
    rewrite (send_args_at _ _ _ _ _ _ Hargs H2). unfold and_then, run_tx, check_receipt.
    unfold_monad. rewrite Hk. unfold get_db. simpl. rewrite Hr2. simpl. rewrite !String.eqb_refl. simpl.
    rewrite from_sql_total by done. simpl. by rewrite from_sql_total.
  - intros Hargs2 Hdiff. unfold send_signal_once, send_signal_inner. fold (send_args name2 payload2 at2).
    rewrite Hargs2. unfold and_then, run_tx, check_receipt.
    unfold_monad. rewrite Hk. unfold get_db. simpl. rewrite Hr2. simpl.
    destruct (String.eqb_spec name name2) as [<-|]; simpl; [|done].
    destruct (String.eqb_spec (to_hex (sha256 json)) (to_hex (sha256 json2))) as [e|]; simpl; [|done].
    destruct (Hdiff json Hj); congruence.
Qed.

(** ** Admission *)

Lemma admit_recorded id key source input time d d' :
  admit_task id key source input time d = (Ok (), d') ->
  exists hash json r, (validate_key key;; fingerprint source input) = Ok (hash, json)
    /\ durable_executions d' !! id = Some r
    /\ ex_admission_key r = Some key /\ ex_request_hash r = Some hash.
Proof.
  unfold admit_task. destruct (validate_key key;; _) as [[hash json]|] eqn:Ef; [|done].
  match goal with |- run_tx ?b d = _ -> _ => set (body := b) end. intros E. exists hash, json.
  pose proof (run_tx_post body (fun x d' => x = Ok () -> exists r, durable_executions d' !! id = Some r
    /\ ex_admission_key r = Some key /\ ex_request_hash r = Some hash) d) as H. rewrite E in H.
  destruct H as (r & ?); [done| |done|by exists r].
  clear E. subst body. tx; [intros _|].
  - match goal with H : _ || _ = false |- _ => apply orb_false_iff in H as [H1%negb_false_iff%bool_decide_eq_true H2%negb_false_iff%bool_decide_eq_true] end.
    eauto.
  - apply tx_any. intros q d1. tx. intros _. simpl. rewrite lookup_insert_eq. eauto.
Qed.

Lemma fingerprint_at id key source input time d hash json r :
  (validate_key key;; fingerprint source input) = Ok (hash, json) ->
  durable_executions d !! id = Some r ->
  admit_task id key source input time d
  = (if bool_decide (ex_admission_key r = Some key) && bool_decide (ex_request_hash r = Some hash)
     then Ok () else Err AdmissionConflict, d).
Proof.
  intros Hf Hr. unfold admit_task. rewrite Hf. unfold run_tx. unfold_monad. unfold get_db. simpl. rewrite Hr.
  do 2 case_bool_decide; done.
Qed.

(** Admission is idempotent: after a task was admitted under a key, the
    same request succeeds again and writes nothing at any later time short of
    retention, and a request for the same task under another key or with
    another source or input is refused and writes nothing. *)
Theorem admission_idempotent id key source input time d d' ops time2 key2 source2 input2 :
  DInv d -> 0 <= time -> admit_task id key source input time d = (Ok (), d') ->
  Forall op_valid ops -> Forall (fun op => is_prune op = false) ops ->
  let d2 := run_ops ops d' in
  admit_task id key source input time2 d2 = (Ok (), d2)
  /\ (forall hash json hash2 json2,
        fingerprint source input = Ok (hash, json) ->
        (validate_key key2;; fingerprint source2 input2) = Ok (hash2, json2) ->
        key2 <> key \/ hash2 <> hash ->
        admit_task id key2 source2 input2 time2 d2 = (Err AdmissionConflict, d2)).
Proof.
  intros HD Ht E HV HP d2. destruct (admit_recorded _ _ _ _ _ _ _ E) as (hash & json & r & Hf & Hr & Hk & Hh).
  pose proof (run_op_DInv (OpAdmit id key source input time) d HD Ht) as HD'. simpl in HD'. rewrite E in HD'.
  destruct (later_admitted _ _ (run_ops_later ops d' HD' HV HP) id r Hr) as (r2 & Hr2 & Hk2 & Hh2). fold d2 in Hr2.
  rewrite Hk in Hk2. rewrite Hh in Hh2. split.
  - rewrite (fingerprint_at _ _ _ _ _ _ _ _ _ Hf Hr2), Hk2, Hh2, !bool_decide_true by done. done.
  - intros hash' json' hash2 json2 Hf1 Hf2 Hne.
    assert (hash' = hash) as ->.
    { revert Hf. unfold mbind, result_bind. destruct (validate_key key); [|done]. rewrite Hf1. by intros [= -> _]. }
    rewrite (fingerprint_at _ _ _ _ _ _ _ _ _ Hf2 Hr2), Hk2, Hh2.
    do 2 case_bool_decide; try done. naive_solver.
Qed.

(** ** Completion *)

Lemma finish_recorded clock scope id expected value at_ms until d d' :
  finish_task clock scope id expected value at_ms until d = (Ok true, d') ->
  exists c json v, json_to_string value = Some json /\ len json <= MAX_EVENT_PAYLOAD_BYTES
    /\ durable_completions d' !! id = Some c /\ cr_next_sequence c = expected
    /\ ((durable_completions d !! id = Some c /\ json_from_str (cr_result_json c) = Some v /\ v = value)
        \/ cr_result_json c = json).
Proof.
  unfold finish_task. destruct (json_to_string value) as [json|]; simpl; [|done].
  destruct (Z.ltb_spec MAX_EVENT_PAYLOAD_BYTES (len json)); [done|].
  match goal with |- run_tx ?b d = _ -> _ => set (body := b) end. intros E.
  pose proof (run_tx_post body (fun x d' => x = Ok true -> exists c v,
    durable_completions d' !! id = Some c /\ cr_next_sequence c = expected
    /\ ((durable_completions d !! id = Some c /\ json_from_str (cr_result_json c) = Some v /\ v = value)
        \/ cr_result_json c = json)) d) as H'. rewrite E in H'.
  destruct H' as (c & v & ?); [done| |done|by exists c, json, v].
  clear E. subst body. unfold completion_time. tx; intros [=].
  1: { repeat match goal with H : to_sql_integer _ _ = Ok _ |- _ => apply to_sql_Ok in H as [-> _] end.
    unfold ok_or in *. case_match; [|done]. simplify_eq. split_bool. subst. eauto 10. }
  all: eexists _, value; simpl; rewrite lookup_insert_eq; split; [reflexivity|]; simpl; split_bool.
  all: match goal with H : from_sql_integer (next_sequence _) _ = Ok _ |- _ => apply from_sql_Ok in H as [? _] end.
  all: subst; auto.
Qed.

(** [finish_task] on a task that is completed. *)
Lemma finish_again clock scope id expected value at_ms until d c json v :
  json_to_string value = Some json -> len json <= MAX_EVENT_PAYLOAD_BYTES -> expected <= i64_max ->
  durable_completions d !! id = Some c -> json_from_str (cr_result_json c) = Some v ->
  finish_task clock scope id expected value at_ms until d
  = (if (cr_next_sequence c =? expected) && bool_decide (v = value) then Ok true else Err (TaskCompleted id), d).
Proof.
  intros Hj Hl He Hc Hv. unfold finish_task. rewrite Hj. simpl.
  destruct (Z.ltb_spec MAX_EVENT_PAYLOAD_BYTES (len json)); [lia|]. unfold run_tx. unfold_monad. unfold get_db. simpl.
  rewrite Hc, to_sql_total by done. destruct (cr_next_sequence c =? expected); simpl; [|done].
  rewrite Hv. simpl. by case_bool_decide.
Qed.

(** Completion is final and idempotent: after [complete_task] succeeded,
    the history of the task is frozen and, at any later time short of
    retention, completing again with the same sequence and value succeeds
    without writing, and completing with another sequence or value is refused
    without writing. The value is assumed to survive printing and parsing,
    and the other one to print within the payload limit. *)
Theorem completion_final clock scope id expected value at_ms until d d' ops
    clock2 scope2 at2 until2 expected2 value2 :
  DInv d -> 0 <= at_ms -> expected <= i64_max -> expected2 <= i64_max ->
  (forall json, json_to_string value = Some json -> json_from_str json = Some value) ->
  (exists json, json_to_string value2 = Some json /\ len json <= MAX_EVENT_PAYLOAD_BYTES) ->
  finish_task clock scope id expected value at_ms until d = (Ok true, d') ->
  Forall op_valid ops -> Forall (fun op => is_prune op = false) ops ->
  let d2 := run_ops ops d' in
  task_events d2 id = task_events d' id
  /\ finish_task clock2 scope2 id expected value at2 until2 d2 = (Ok true, d2)
  /\ (expected2 <> expected \/ value2 <> value ->
      finish_task clock2 scope2 id expected2 value2 at2 until2 d2 = (Err (TaskCompleted id), d2)).
Proof.
  intros HD Ha He He2 Hrt (json2 & Hj2 & Hl2) E HV HP d2.
  destruct (finish_recorded _ _ _ _ _ _ _ _ _ E) as (c & json & v & Hj & Hl & Hc & Hn & Hcase).
  assert (json_from_str (cr_result_json c) = Some value) as Hv.
  { destruct Hcase as [(_ & Hv & E1)|E1]; [by rewrite Hv, E1|]. rewrite E1. by apply Hrt. }
  pose proof (run_op_DInv (OpFinish clock scope id expected value at_ms until) d HD) as HD'. simpl in HD'. rewrite E in HD'.
  specialize (HD' (conj (fun s Hs => ex_intro _ value (Hrt s Hs)) Ha)).
  destruct (later_completed _ _ (run_ops_later ops d' HD' HV HP) id c Hc) as (Hc2 & Ht & _). fold d2 in Hc2, Ht.
  split; [done|]. split.
  - rewrite (finish_again _ _ _ _ _ _ _ _ _ _ _ Hj Hl He Hc2 Hv), Hn, Z.eqb_refl, bool_decide_true by done. done.
  - intros Hne. rewrite (finish_again _ _ _ _ _ _ _ _ _ _ _ Hj2 Hl2 He2 Hc2 Hv), Hn.
    destruct (Z.eqb_spec expected expected2); [|done]. case_bool_decide; [naive_solver|done].
Qed.

(** ** A failed execution outlives its program *)

Lemma failed_blocked clock entropy id owner dur d :
  execution_failed id d = true ->
  (claim_run clock entropy id owner dur d).2 = d
  /\ forall c, (claim_run clock entropy id owner dur d).1 <> Ok (Some c).
Proof.
  unfold execution_failed. destruct (durable_executions d !! id) as [r|] eqn:Hr; [|done]. intros Hs%bool_decide_eq_true.
  unfold claim_run. destruct (owner_token entropy owner) as [token|]; [|done].
  apply (run_tx_post _ (fun r d' => d' = d /\ forall c, r <> Ok (Some c))); [done|].
  assert (forall t, run_blocked d id t = true) as Hb.
  { intros t. unfold run_blocked. rewrite Hr, Hs. by rewrite (bool_decide_true (ExFailed = ExFailed)), !orb_true_r. }
  tx; try done. by rewrite Hb in *.
Qed.

End Idempotence.

#[local] Existing Instance sample_json.
#[local] Existing Instance sample_sha.

(** C27. [remove_program] leaves the execution row behind: a task that failed
    before its program was removed can be registered again, successfully, but
    is never claimed again, by any runner at any time. *)
Theorem remove_program_strands_execution :
  exists ops p, Forall op_valid ops /\
    let d := run_ops ops empty_db in
    let d1 := (remove_program 7 d).2 in
    let d2 := (put_program_inner 7 Script "new source" 5 d1).2 in
    remove_program 7 d = (Ok (Some p), d1)
    /\ put_program_inner 7 Script "new source" 5 d1 = (Ok None, d2)
    /\ forall clock entropy owner dur,
         (claim_run clock entropy 7 owner dur d2).2 = d2
         /\ forall c, (claim_run clock entropy 7 owner dur d2).1 <> Ok (Some c).
Proof.
  pose (clock := fun _ : nat => 10).
  exists [OpPutProgram 7 Script "old source" 0; OpClaimRun clock "entropy" 7 "runner" 100;
    OpReleaseRun clock {| xc_task_id := 7; xc_owner := to_hex (sha256 "runnerentropy"); xc_generation := 1;
      xc_lease_until_ms := 110; xc_wakeup := None |} true].
  eexists. split; [repeat constructor; done|]. split; [vm_compute; reflexivity|].
  split; [vm_compute; reflexivity|]. intros. apply failed_blocked. vm_compute. reflexivity.
Qed.

(** ** Replay *)

Section Replay.
Context {SJ : SerdeJson}.

(** A program's boundaries, consumed one after the other. *)
Fixpoint consume_all (boundaries : list (EventKind * string)) : M ReplayCursor ReplayError (list (option TaskEvent)) :=
  match boundaries with
  | [] => mret []
  | (kind, key) :: rest =>
      e ← consume_event kind key;
      es ← consume_all rest;
      mret (e :: es)
  end.

Definition cursor (h : History) (n : Z) : ReplayCursor := {| rc_events := h_events h; rc_position := n |}.

(** Do the boundaries agree with the recorded events from position [n] on? *)
Definition agrees (h : History) (n : Z) (boundaries : list (EventKind * string)) : Prop :=
  forall i e b, h_events h !! (Z.to_nat n + i)%nat = Some e -> boundaries !! i = Some b ->
    te_kind e = b.1 /\ te_key e = b.2.

Lemma agrees_cons h n b bs :
  0 <= n -> agrees h n (b :: bs) <->
  (forall e, h_events h !! Z.to_nat n = Some e -> te_kind e = b.1 /\ te_key e = b.2) /\ agrees h (n + 1) bs.
Proof.
  intros Hn. split.
  - intros H. split.
    + intros e He. by apply (H 0%nat); rewrite ?Nat.add_0_r.
    + intros i e b' He Hb. apply (H (S i)); [|done]. rewrite <-He. f_equal. lia.
  - intros [H1 H2] [|i] e b' He Hb.
    + rewrite Nat.add_0_r in He. injection Hb as <-. by apply H1.
    + apply (H2 i); [|done]. rewrite <-He. f_equal. lia.
Qed.

(** What consuming one boundary does at position [n]. *)
Lemma consume_event_at h n kind key :
  consume_event kind key (cursor h n) =
  match h_events h !! Z.to_nat n with
  | None => (Ok None, cursor h n)
  | Some e => if bool_decide (te_kind e = kind) && String.eqb (te_key e) key
              then (Ok (Some e), cursor h (n + 1))
              else (Err (Mismatch (te_sequence e) (te_kind e) (te_key e) kind key), cursor h n)
  end.
Proof.
  unfold consume_event, event_at. simpl. destruct (h_events h !! Z.to_nat n); [|done].
  destruct (bool_decide _), (String.eqb _ _); done.
Qed.

Lemma agrees_end h n bs : vec_len (h_events h) <= n -> agrees h n bs.
Proof.
  intros Hn i e b He _. exfalso. apply lookup_lt_Some in He. unfold vec_len in Hn. lia.
Qed.

(** Recorded answers from position [n]: nothing past the end of the history. *)
Definition recorded (h : History) (n : Z) (k : nat) : list (option TaskEvent) :=
  map (fun i => h_events h !! (Z.to_nat n + i)%nat) (seq 0 k).

Lemma recorded_S h n k : 0 <= n -> recorded h n (S k) = h_events h !! Z.to_nat n :: recorded h (n + 1) k.
Proof.
  intros Hn. unfold recorded. cbn [seq map]. rewrite Nat.add_0_r, <-seq_shift, map_map. f_equal.
  apply map_ext. intros i. f_equal. lia.
Qed.

Lemma recorded_end h n m k : vec_len (h_events h) <= n -> vec_len (h_events h) <= m -> recorded h n k = recorded h m k.
Proof.
  intros Hn Hm. apply map_ext. intros i. unfold vec_len in *. rewrite !lookup_ge_None_2 by lia. done.
Qed.

Lemma consume_all_spec h bs : forall n answers c, 0 <= n <= vec_len (h_events h) ->
  consume_all bs (cursor h n) = (Ok answers, c) <->
  agrees h n bs /\ c = cursor h (Z.min (n + vec_len bs) (vec_len (h_events h)))
  /\ answers = recorded h n (length bs).
Proof.
  induction bs as [|[kind key] bs IH]; intros n answers c Hn.
  { simpl. unfold_monad. rewrite Z.add_0_r, Z.min_l by lia. split; [intros [= <- <-]|by intros (_ & -> & ->)].
    split; [|done]. intros i e b _ Hb. by rewrite lookup_nil in Hb. }
  rewrite agrees_cons, vec_len_cons by lia. cbn [consume_all length]. rewrite recorded_S by lia.
  pose proof (vec_len_nonneg bs). unfold mbind, M_bind. rewrite consume_event_at.
  destruct (h_events h !! Z.to_nat n) as [e|] eqn:He.
  - assert (n + 1 <= vec_len (h_events h)) as Hlt by (apply lookup_lt_Some in He; unfold vec_len; lia).
    destruct (bool_decide (te_kind e = kind) && String.eqb (te_key e) key) eqn:Em.
    + apply andb_true_iff in Em as [Ek%bool_decide_eq_true Ey%String.eqb_eq].
      destruct (consume_all bs (cursor h (n + 1))) as [[es|er] c'] eqn:Ec.
      * apply IH in Ec as (HA & -> & ->); [|lia]. replace (n + 1 + vec_len bs) with (n + (vec_len bs + 1)) by lia.
        split; [intros [= <- <-]|intros (_ & -> & ->); done]. split; [split; [by intros ? [= <-]|done]|done].
      * split; [done|]. intros ((_ & HA) & _ & _). exfalso.
        assert (consume_all bs (cursor h (n + 1)) = (Ok (recorded h (n + 1) (length bs)),
          cursor h (Z.min (n + 1 + vec_len bs) (vec_len (h_events h))))) as E2 by (apply IH; [lia|done]).
        congruence.
    + split; [done|]. intros ((HA & _) & _ & _). exfalso. destruct (HA e eq_refl) as [Ek Ey]. simpl in Ek, Ey.
      by rewrite Ek, Ey, bool_decide_true, String.eqb_refl in Em.
  - assert (n = vec_len (h_events h)) as -> by (apply lookup_ge_None in He; unfold vec_len in *; lia).
    assert (consume_all bs (cursor h (vec_len (h_events h))) = (Ok (recorded h (vec_len (h_events h)) (length bs)),
      cursor h (Z.min (vec_len (h_events h) + vec_len bs) (vec_len (h_events h))))) as ->
      by (apply IH; [lia|split; [apply agrees_end; lia|done]]).
    rewrite !Z.min_r by lia. rewrite (recorded_end h _ (vec_len (h_events h) + 1)) by lia.
    split; [intros [= <- <-]|intros (_ & -> & ->); done].
    split; [split; [done|apply agrees_end; lia]|done].
Qed.

(** Replay is deterministic: a program whose boundaries are [bs] replays
    against history [h] without divergence exactly when each boundary agrees
    with the event recorded at its position; it is then answered with exactly
    the recorded events in order and nothing past them, and [ensure_consumed]
    passes exactly when the program reached the end of the history. *)
Theorem replay_deterministic h bs answers c :
  (consume_all bs (replay h) = (Ok answers, c) <->
   agrees h 0 bs /\ c = cursor h (Z.min (vec_len bs) (vec_len (h_events h)))
   /\ answers = recorded h 0 (length bs))
  /\ (consume_all bs (replay h) = (Ok answers, c) ->
      ensure_consumed c = Ok () <-> vec_len (h_events h) <= vec_len bs).
Proof.
  pose proof (vec_len_nonneg (h_events h)). pose proof (vec_len_nonneg bs).
  assert (consume_all bs (replay h) = (Ok answers, c) <->
   agrees h 0 bs /\ c = cursor h (Z.min (vec_len bs) (vec_len (h_events h)))
   /\ answers = recorded h 0 (length bs)) as HE by (apply (consume_all_spec h bs 0); lia).
  split; [done|]. intros (_ & -> & _)%HE. unfold ensure_consumed, event_at. simpl.
  destruct (h_events h !! _) as [e|] eqn:El.
  - apply lookup_lt_Some in El. unfold vec_len in *. split; [done|lia].
  - apply lookup_ge_None in El. unfold vec_len in *. split; [lia|done].
Qed.

End Replay.

(** ** Instances *)


Lemma signals_fifo_exactly_once_witness :
  let d := run_ops sample_ops empty_db in
  signal_log d 7 "go" = ["jx"%string] /\ delivered d 7 "go" = ["jx"%string].
Proof.
  intros d. split; [|vm_compute; reflexivity].
  pose proof (signals_fifo_exactly_once sample_ops empty_db 7 "go" empty_DInv sample_ops_valid
    ltac:(repeat constructor)) as H. fold d in H. rewrite H. vm_compute. reflexivity.
Defined.

Definition sample_program : Db := run_ops [OpPutProgram 7 Script "source" 1] empty_db.

Lemma sample_program_inv : DInv sample_program.
Proof. apply run_ops_DInv; [apply empty_DInv|]. by repeat constructor. Qed.

Lemma send_signal_once_idempotent_witness :
  let d' := (send_signal_once 7 "go" (sample_value "x") "key" 3 sample_program).2 in
  send_signal_once 7 "go" (sample_value "x") "key" 9 d' = (Ok 1, d').
Proof.
  intros d'. destruct (send_signal_once_idempotent 7 "go" (sample_value "x") "key" 3 sample_program 1 d' [] 9
    "stop" (sample_value "x") "jx") as [H _].
  - apply sample_program_inv.
  - apply sample_readable.
  - lia.
  - vm_compute. discriminate.
  - vm_compute. reflexivity.
  - constructor.
  - constructor.
  - exact H.
Defined.

Lemma admission_idempotent_witness :
  let d' := (admit_task 7 "key" "source" "jx" 3 empty_db).2 in
  admit_task 7 "key" "source" "jx" 9 d' = (Ok (), d')
  /\ admit_task 7 "key" "source" "jlonger" 9 d' = (Err AdmissionConflict, d').
Proof.
  intros d'. destruct (admission_idempotent 7 "key" "source" "jx" 3 empty_db d' [] 9 "key" "source" "jlonger")
    as [H1 H2].
  - apply empty_DInv.
  - lia.
  - vm_compute. reflexivity.
  - constructor.
  - constructor.
  - split; [exact H1|]. eapply H2; [vm_compute; reflexivity|vm_compute; reflexivity|]. right. discriminate.
Defined.

Lemma completion_final_witness :
  let d' := (finish_task sample_clock None 7 0 (sample_value "v") 9 None sample_program).2 in
  finish_task sample_clock None 7 0 (sample_value "v") 12 None d' = (Ok true, d')
  /\ finish_task sample_clock None 7 0 (sample_value "w") 12 None d' = (Err (TaskCompleted 7), d').
Proof.
  intros d'. destruct (completion_final sample_clock None 7 0 (sample_value "v") 9 None sample_program d' []
    sample_clock None 12 None 0 (sample_value "w")) as (_ & H1 & H2).
  - apply sample_program_inv.
  - lia.
  - vm_compute. discriminate.
  - vm_compute. discriminate.
  - intros json [= <-]. reflexivity.
  - eexists. split; [reflexivity|]. vm_compute. discriminate.
  - vm_compute. reflexivity.
  - constructor.
  - constructor.
  - split; [exact H1|]. apply H2. right. vm_compute. discriminate.
Defined.
