(* ===== verification/DurableSession.v ===== *)
(** * The durable session of one execution ([crates/tysel-engine-qjs/src/durable.rs])

    What a running script sees of the store: a replay cursor over the history it
    was loaded with, the next sequence it may write, and the suspension it is
    in. A session operation works on the session and on the database behind it
    ([Host]); the session's mutex is held for the whole call, so a call is one
    step. The source turns errors into text; here an error carries the value
    whose text it is. Lookups answer with a JSON object; here with its fields. *)

From Stdlib Require Import ZArith Lia Ascii String.
From stdpp Require Import base tactics list gmap strings.
From S2P Require Import Prelude Bytes TaskModel DurableTypes DurableDb DurableStore DurableWakeups DurableExec.
Open Scope Z_scope.

Inductive WakeupKind := WkSleep | WkSignal.

#[global] Instance WakeupKind_eq_dec : EqDecision WakeupKind.
Proof. solve_decision. Defined.

Record WakeupToken := {
  tok_sequence : Z;
  tok_kind : WakeupKind;
  tok_claim : option WakeupClaim;
}.

Section Session.
Context {SJ : SerdeJson} {SH : Sha256}.

(** The source's errors are texts; [SeWaiting] is the text `durable task is
    suspended waiting for signal` followed by the quoted name. *)
Inductive SessionError :=
| SeStorage (e : DurableError)
| SeReplay (e : ReplayError)
| SeWaiting (signal_name : string)
| SeText (message : string).

(** [SessionInner]; the store it holds is the database of the host, under the
    execution claim it is scoped to. *)
Record Session := {
  ss_scope : option ExecutionClaim;
  ss_task_id : TaskId;
  ss_replay : ReplayCursor;
  ss_next_sequence : Z;
  ss_active_wakeup : option WakeupToken;
  ss_suspended : bool;
  ss_lease_until_ms : option Z;
  ss_result_json : option Value;
  ss_replayed_sleep : option Z;
  ss_storage_error : option DurableError;
}.

Record Host := { host_session : Session; host_db : Db }.
Definition Hm (A : Type) : Type := M Host SessionError A.

Definition get_session : Hm Session := fun h => (Ok (host_session h), h).
Definition put_session (f : Session -> Session) : Hm () := fun h =>
  (Ok (), {| host_session := f (host_session h); host_db := host_db h |}).

Definition set_replay (c : ReplayCursor) (s : Session) : Session := {|
  ss_scope := ss_scope s; ss_task_id := ss_task_id s; ss_replay := c;
  ss_next_sequence := ss_next_sequence s; ss_active_wakeup := ss_active_wakeup s;
  ss_suspended := ss_suspended s; ss_lease_until_ms := ss_lease_until_ms s;
  ss_result_json := ss_result_json s; ss_replayed_sleep := ss_replayed_sleep s;
  ss_storage_error := ss_storage_error s |}.
Definition set_next_sequence (n : Z) (s : Session) : Session := {|
  ss_scope := ss_scope s; ss_task_id := ss_task_id s; ss_replay := ss_replay s;
  ss_next_sequence := n; ss_active_wakeup := ss_active_wakeup s;
  ss_suspended := ss_suspended s; ss_lease_until_ms := ss_lease_until_ms s;
  ss_result_json := ss_result_json s; ss_replayed_sleep := ss_replayed_sleep s;
  ss_storage_error := ss_storage_error s |}.
Definition set_suspension (t : option WakeupToken) (b : bool) (s : Session) : Session := {|
  ss_scope := ss_scope s; ss_task_id := ss_task_id s; ss_replay := ss_replay s;
  ss_next_sequence := ss_next_sequence s; ss_active_wakeup := t;
  ss_suspended := b; ss_lease_until_ms := ss_lease_until_ms s;
  ss_result_json := ss_result_json s; ss_replayed_sleep := ss_replayed_sleep s;
  ss_storage_error := ss_storage_error s |}.
Definition set_lease (u : option Z) (s : Session) : Session := {|
  ss_scope := ss_scope s; ss_task_id := ss_task_id s; ss_replay := ss_replay s;
  ss_next_sequence := ss_next_sequence s; ss_active_wakeup := ss_active_wakeup s;
  ss_suspended := ss_suspended s; ss_lease_until_ms := u;
  ss_result_json := ss_result_json s; ss_replayed_sleep := ss_replayed_sleep s;
  ss_storage_error := ss_storage_error s |}.
Definition set_result (r : option Value) (s : Session) : Session := {|
  ss_scope := ss_scope s; ss_task_id := ss_task_id s; ss_replay := ss_replay s;
  ss_next_sequence := ss_next_sequence s; ss_active_wakeup := ss_active_wakeup s;
  ss_suspended := ss_suspended s; ss_lease_until_ms := ss_lease_until_ms s;
  ss_result_json := r; ss_replayed_sleep := ss_replayed_sleep s;
  ss_storage_error := ss_storage_error s |}.
Definition set_replayed_sleep (r : option Z) (s : Session) : Session := {|
  ss_scope := ss_scope s; ss_task_id := ss_task_id s; ss_replay := ss_replay s;
  ss_next_sequence := ss_next_sequence s; ss_active_wakeup := ss_active_wakeup s;
  ss_suspended := ss_suspended s; ss_lease_until_ms := ss_lease_until_ms s;
  ss_result_json := ss_result_json s; ss_replayed_sleep := r;
  ss_storage_error := ss_storage_error s |}.
Definition set_storage_error (e : option DurableError) (s : Session) : Session := {|
  ss_scope := ss_scope s; ss_task_id := ss_task_id s; ss_replay := ss_replay s;
  ss_next_sequence := ss_next_sequence s; ss_active_wakeup := ss_active_wakeup s;
  ss_suspended := ss_suspended s; ss_lease_until_ms := ss_lease_until_ms s;
  ss_result_json := ss_result_json s; ss_replayed_sleep := ss_replayed_sleep s;
  ss_storage_error := e |}.

(** [SessionInner::check_storage] *)
Definition check_storage : Hm () :=
  s ← get_session;
  match ss_storage_error s with Some e => throw (SeStorage e) | None => mret () end.

(** [SessionInner::capture_storage]: the first error stays. *)
Definition capture_storage (e : DurableError) (s : Session) : Session :=
  match ss_storage_error s with None => set_storage_error (Some e) s | Some _ => s end.

(** A store call of a session operation: [.map_err(|err| inner.capture_storage(err))]. *)
Definition call_store {A} (f : Db -> result DurableError A * Db) : Hm A := fun h =>
  match f (host_db h) with
  | (Ok a, d) => (Ok a, {| host_session := host_session h; host_db := d |})
  | (Err e, d) => (Err (SeStorage e), {| host_session := capture_storage e (host_session h); host_db := d |})
  end.

(** The replay cursor's own operations, inside the session. *)
Definition replaying {A} (m : M ReplayCursor ReplayError A) : Hm A :=
  s ← get_session;
  match m (ss_replay s) with
  | (Ok a, c) => put_session (set_replay c);; mret a
  | (Err e, c) => put_session (set_replay c);; throw (SeReplay e)
  end.

(** ** Opening a session *)

Definition store_error {A} (r : result DurableError A) : result SessionError A := map_err SeStorage r.

(** [DurableSession::load] *)
Definition load (scope : option ExecutionClaim) (id : TaskId) (claim : option WakeupClaim) (d : Db)
    : result SessionError Session :=
  history ← store_error (load_history id d);
  next ← (match last (h_events history) with
          | Some e => ok_or (checked_add u64_max (te_sequence e) 1) (SeText "durable history is too large")
          | None => Ok 0
          end);
  token ← (match claim with
    | None => Ok None
    | Some c =>
        if (next =? saturating_add u64_max (wc_sequence c) 1)
           && match last (h_events history) with
              | Some e => (te_sequence e =? wc_sequence c) && bool_decide (te_kind e = Sleep)
              | None => false
              end
        then Ok (Some {| tok_sequence := wc_sequence c; tok_kind := WkSleep; tok_claim := Some c |})
        else if next =? wc_sequence c
        then
          wait ← store_error (signal_wait id d);
          if match wait with Some w => swt_sequence w =? wc_sequence c | None => false end
          then Ok (Some {| tok_sequence := wc_sequence c; tok_kind := WkSignal; tok_claim := Some c |})
          else Err (SeText "durable wakeup does not reference a suspended boundary")
        else Err (SeText "durable wakeup does not reference a suspended boundary")
    end);
  Ok {| ss_scope := scope; ss_task_id := id; ss_replay := replay history; ss_next_sequence := next;
        ss_active_wakeup := token; ss_suspended := false; ss_lease_until_ms := wc_lease_until_ms <$> claim;
        ss_result_json := None; ss_replayed_sleep := None; ss_storage_error := None |}.

(** [DurableSession::new] *)
Definition session_new (id : TaskId) (d : Db) : result SessionError Session :=
  done_ ← store_error (completion id d);
  match done_ with
  | Some _ => Err (SeText "durable task is already completed")
  | None =>
      w ← store_error (wakeup id d);
      match w with
      | Some w => Err (SeText ("durable task is suspended until " ++ dec_string (wk_wake_at_ms w)
                               ++ " and must be resumed from a wakeup claim"))
      | None =>
          wait ← store_error (signal_wait id d);
          match wait with
          | Some wait => Err (SeWaiting (swt_name wait))
          | None => load None id None d
          end
      end
  end.

(** [DurableSession::from_claim], on the store of the scope *)
Definition from_claim (scope : option ExecutionClaim) (now_ms : Z) (c : WakeupClaim) (d : Db)
    : result SessionError Session :=
  if now_ms <? wc_wake_at_ms c
  then Err (SeText ("durable wakeup is not due until " ++ dec_string (wc_wake_at_ms c)))
  else
    active ← store_error (claim_is_active c now_ms d);
    if negb active then Err (SeText "durable wakeup claim is missing or expired")
    else load scope (wc_task_id c) (Some c) d.

(** [DurableSession::from_execution] *)
Definition from_execution (now_ms : Z) (c : ExecutionClaim) (d : Db) : result SessionError Session :=
  s ← (match xc_wakeup c with
       | Some w => from_claim (Some c) now_ms w d
       | None => load (Some c) (xc_task_id c) None d
       end);
  Ok (set_lease (Some (xc_lease_until_ms c)) s).

(** ** Boundaries *)

(** [parse_kind] *)
Definition parse_kind (raw : string) : result SessionError EventKind :=
  match EventKind_parse raw with
  | Ok k => Ok k
  | Err _ => Err (SeText ("unknown durable event kind " ++ raw))
  end.

(** [DurableSession::lookup_json] *)
Definition lookup_json (kind : EventKind) (key : string) : Hm (option TaskEvent) :=
  check_storage;;
  e ← replaying (consume_event kind key);
  put_session (set_replayed_sleep (if bool_decide (kind = Sleep) then te_sequence <$> e else None));;
  mret e.

(** [DurableSession::find_retry_outcome_json] *)
Definition find_retry_outcome_json (key : string) : Hm (option TaskEvent) :=
  check_storage;;
  replaying (fun c => let '(e, c') := consume_through Retry key c in (Ok e, c')).

(** The write every recording operation makes, and the sequence after it. *)
Definition append_at (clock : nat -> Z) (kind : EventKind) (key payload_json : string)
    (recorded_at_ms : Z) (wake_at_ms : option Z) : Hm TaskEvent :=
  s ← get_session;
  e ← call_store (append_event_json_inner clock (ss_scope s) (ss_task_id s) (ss_next_sequence s) kind key
                    payload_json recorded_at_ms wake_at_ms);
  put_session (set_next_sequence (saturating_add u64_max (te_sequence e) 1));;
  mret e.

(** [DurableSession::record] *)
Definition record (clock : nat -> Z) (kind : EventKind) (key payload_json : string) (recorded_at_ms : Z)
    : Hm () :=
  check_storage;;
  append_at clock kind key payload_json recorded_at_ms None;;
  mret ().

(** [DurableSession::record_input_json] *)
Definition record_input_json (clock : nat -> Z) (now_ms : Z) (input_json : string) : Hm string :=
  check_storage;;
  e ← replaying (consume_event Step TASK_INPUT_KEY);
  match e with
  | Some e => mret (te_payload_json e)
  | None => e ← append_at clock Step TASK_INPUT_KEY input_json now_ms None; mret (te_payload_json e)
  end.

(** [DurableSession::record_sleep] *)
Definition record_sleep (clock : nat -> Z) (key payload_json : string) (recorded_at_ms wake_at_ms : Z) : Hm () :=
  check_storage;;
  e ← append_at clock Sleep key payload_json recorded_at_ms (Some wake_at_ms);
  put_session (set_suspension
    (Some {| tok_sequence := te_sequence e; tok_kind := WkSleep; tok_claim := None |}) true).

(** [DurableSession::complete_sleep] *)
Definition complete_sleep (clock : nat -> Z) (now_ms : Z) : Hm () :=
  check_storage;;
  s ← get_session;
  put_session (set_replayed_sleep None);;
  if match ss_replayed_sleep s with
     | Some sequence =>
         negb match ss_active_wakeup s with
              | Some t => bool_decide (tok_kind t = WkSleep) && (tok_sequence t =? sequence)
              | None => false
              end
     | None => false
     end
  then mret ()
  else
    match ss_active_wakeup s with
    | None => throw (SeText "durable sleep has no active wakeup claim")
    | Some t =>
        if negb (bool_decide (tok_kind t = WkSleep))
        then throw (SeText "active durable wakeup belongs to a signal wait")
        else
          completed ← call_store (complete_wakeup clock (ss_scope s) (ss_task_id s) (tok_sequence t)
                                    (wc_lease_owner <$> tok_claim t) now_ms);
          if negb completed then throw (SeText "durable wakeup ownership was lost")
          else put_session (set_suspension None false)
    end.

(** [DurableSession::poll_signal_json] *)
Definition poll_signal_json (clock : nat -> Z) (now_ms : Z) (name : string) : Hm (option TaskEvent) :=
  check_storage;;
  s ← get_session;
  let claim :=
    match ss_active_wakeup s with
    | Some t => if bool_decide (tok_kind t = WkSignal) then tok_claim t else None
    | None => None
    end in
  e ← call_store (poll_signal clock (ss_scope s) (ss_task_id s) (ss_next_sequence s) name now_ms claim);
  match e with
  | Some e =>
      put_session (set_next_sequence (saturating_add u64_max (te_sequence e) 1));;
      put_session (set_suspension
        (match ss_active_wakeup s with
         | Some t => if bool_decide (tok_kind t = WkSignal) && (tok_sequence t =? te_sequence e)
                     then None else Some t
         | None => None
         end) false);;
      mret (Some e)
  | None =>
      put_session (set_suspension (ss_active_wakeup s) true);;
      mret None
  end.

(** ** Ending *)

(** [DurableSession::ensure_consumed] *)
Definition session_ensure_consumed : Hm () :=
  check_storage;;
  s ← get_session;
  lift (map_err SeReplay (ensure_consumed (ss_replay s)));;
  if match ss_active_wakeup s with Some _ => true | None => false end || ss_suspended s
  then throw (SeText "durable execution returned with a persisted suspension")
  else mret ().

(** [DurableSession::take_storage_error] *)
Definition take_storage_error (s : Session) : option DurableError * Session :=
  (ss_storage_error s, set_storage_error None s).

(** [DurableSession::retain_result], [DurableSession::take_result] *)
Definition retain_result (v : Value) (s : Session) : Session := set_result (Some v) s.
Definition take_result (s : Session) : option Value * Session := (ss_result_json s, set_result None s).

Record DurableCompletion := {
  dc_scope : option ExecutionClaim;
  dc_task_id : TaskId;
  dc_next_sequence : Z;
  dc_lease_until_ms : option Z;
}.

(** [DurableSession::completion_handle] *)
Definition completion_handle (s : Session) : result DurableError DurableCompletion :=
  if match ss_storage_error s with Some _ => true | None => false end
     || negb (is_ok (ensure_consumed (ss_replay s)))
     || match ss_active_wakeup s with Some _ => true | None => false end
     || ss_suspended s
  then Err (TaskSuspended (ss_task_id s))
  else Ok {| dc_scope := ss_scope s; dc_task_id := ss_task_id s; dc_next_sequence := ss_next_sequence s;
             dc_lease_until_ms := ss_lease_until_ms s |}.

(** [DurableCompletion::complete]; [now_ms] is the reading after the transaction
    when there is a lease, the time of completion when there is none. *)
Definition completion_complete (clock : nat -> Z) (now_ms : Z) (c : DurableCompletion) (v : Value) (d : Db)
    : result DurableError bool * Db :=
  match dc_lease_until_ms c with
  | Some until =>
      let '(r, d') := complete_task_before clock (dc_scope c) (dc_task_id c) (dc_next_sequence c) v until d in
      match r with
      | Err (TaskSuspended _) => if until <=? now_ms then (Err ExecutionLeaseLost, d') else (r, d')
      | _ => (r, d')
      end
  | None => complete_task clock (dc_scope c) (dc_task_id c) (dc_next_sequence c) v (as_u64 now_ms) d
  end.

(** [DurableSession::complete] *)
Definition session_complete (clock : nat -> Z) (now_ms : Z) (s : Session) (v : Value) (d : Db)
    : result DurableError bool * Db :=
  match completion_handle s with
  | Err e => (Err e, d)
  | Ok c => completion_complete clock now_ms c v d
  end.

End Session.
