(* ===== verification/DurableRuntime.v ===== *)
(** * Running a durable script ([runtime-js/durable/source/*.part.js],
      [crates/tysel-engine-qjs/src/isolate.rs])

    The boundaries of [tysel.durable] over a session, and the evaluation of a
    script that awaits them one after the other. A script is what it does
    between its boundaries: a tree whose branches are the values the boundaries
    answer. The JavaScript engine, the callbacks and the world they act on are
    parameters. A process may die at any call into the host: [mc_budget] counts
    the calls it still makes. *)

From Stdlib Require Import ZArith Lia Ascii String.
From stdpp Require Import base tactics list gmap strings.
From S2P Require Import Prelude Bytes TaskModel DurableTypes DurableDb DurableStore DurableWakeups DurableExec DurableSession.
Open Scope Z_scope.

(** JavaScript values with [JSON.stringify] ([None] is [undefined]), [JSON.parse] and
    [new Date]. *)
Class JsEngine := {
  js : Type;
  js_undefined : js;
  js_number : Z -> js;
  js_date : js -> js;
  js_stringify : js -> option string;
  js_parse : string -> js;
}.

(** What scripts act on: [Date.now()] and the clock transactions read. *)
Class World := {
  world : Type;
  date_now : world -> Z;
  tx_clock : world -> nat -> Z;
}.

Section Runtime.
Context {SJ : SerdeJson} {SH : Sha256} {JE : JsEngine} {WD : World}.

(** The awaitable boundaries; a callback throws with [Err]. *)
Inductive Boundary :=
| BStep (name : string) (fn : world -> result js js * world)
| BEffect (name : string) (fn : world -> result js js * world)
| BNow
| BRandom (fn : world -> js * world)
| BSleep (millis : Z)
| BSignal (name : string).

Definition b_kind (b : Boundary) : EventKind :=
  match b with
  | BStep _ _ => Step | BEffect _ _ => Effect | BNow => Now | BRandom _ => Random
  | BSleep _ => Sleep | BSignal _ => Signal
  end.
Definition b_key (b : Boundary) : string :=
  match b with
  | BStep n _ | BEffect n _ | BSignal n => n
  | BNow => "now" | BRandom _ => "random"
  | BSleep millis => "sleep:" ++ dec_string millis
  end.

(** A script that does not catch the failure of a boundary. *)
Inductive Prog :=
| Return (v : js)
| Fail_ (v : js)
| Await (b : Boundary) (k : js -> Prog).

(** Why an evaluation stopped short of a value. *)
Inductive Stop :=
| Crashed
| Suspended
| Threw (v : js)
| ThrewType (message : string)
| ThrewHost (e : SessionError).

Record Machine := {
  mc_budget : nat;
  mc_host : Host;
  mc_world : world;
  mc_calls : list (Z * string);
}.
Definition Mm (A : Type) : Type := M Machine Stop A.

(** A call of a host function; the process may die instead of making it. *)
Definition host_call {A} (f : world -> Hm A) : Mm A := fun m =>
  match mc_budget m with
  | O => (Err Crashed, m)
  | S n =>
      let '(r, h) := f (mc_world m) (mc_host m) in
      (map_err ThrewHost r,
       {| mc_budget := n; mc_host := h; mc_world := mc_world m; mc_calls := mc_calls m |})
  end.

(** Run a callback, noting the position it will be recorded at. *)
Definition run_callback (key : string) (fn : world -> result js js * world) : Mm js := fun m =>
  let '(r, w) := fn (mc_world m) in
  (map_err Threw r,
   {| mc_budget := mc_budget m; mc_host := mc_host m; mc_world := w;
      mc_calls := mc_calls m ++ [(ss_next_sequence (host_session (mc_host m)), key)] |}).

Definition get_now : Mm Z := fun m => (Ok (date_now (mc_world m)), m).

(** [durable_millis] of host.rs, on the integers [Date.now()] yields. *)
Definition durable_millis (value : Z) (label : string) : Mm Z :=
  if (value <? 0) || (i64_max <? value) then throw (ThrewType ("invalid durable " ++ label)) else mret value.

(** [encode] *)
Definition encode_js (v : js) : Mm string :=
  match js_stringify v with
  | Some s => mret s
  | None => throw (ThrewType "durable values must be JSON serializable")
  end.

Definition found (e : TaskEvent) : js := js_parse (te_payload_json e).

(** [boundary], [random] and the body of [now]: look the boundary up; when it is not recorded
    yet, make the value and record it. *)
Definition record_boundary (kind : EventKind) (key : string) (make : Mm js) (at_ms : js -> Mm Z) : Mm js :=
  replayed ← host_call (fun _ => lookup_json kind key);
  match replayed with
  | Some e => mret (found e)
  | None =>
      v ← make;
      encoded ← encode_js v;
      at_ms ← at_ms v;
      at_ms ← durable_millis at_ms "recorded time";
      host_call (fun w => record (tx_clock w) kind key encoded at_ms);;
      mret v
  end.

Definition max_safe_integer : Z := 2 ^ 53 - 1.
Definition quote : string := String (byte_of 34) EmptyString.

(** [encode({ durationMs: millis })] *)
Definition sleep_payload (millis : Z) : string :=
  "{" ++ quote ++ "durationMs" ++ quote ++ ":" ++ dec_string millis ++ "}".

(** [sleep]: recording a sleep suspends the session, and the isolate stops
    waiting on a suspended session. *)
Definition sleep_boundary (millis : Z) : Mm js :=
  let key := b_key (BSleep millis) in
  replayed ← host_call (fun _ => lookup_json Sleep key);
  match replayed with
  | Some _ =>
      host_call (fun w => complete_sleep (tx_clock w) (date_now w));;
      mret js_undefined
  | None =>
      now ← get_now;
      if max_safe_integer <? now + millis then throw (ThrewType "durable wakeup is too large")
      else
        at_ms ← durable_millis now "recorded time";
        wake ← durable_millis (now + millis) "wakeup time";
        host_call (fun w => record_sleep (tx_clock w) key (sleep_payload millis) at_ms wake);;
        throw Suspended
  end.

(** [waitForSignal]; without a signal the promise never settles. *)
Definition signal_boundary (name : string) : Mm js :=
  if str_is_empty name then throw (ThrewType "durable signal name cannot be empty")
  else
    replayed ← host_call (fun _ => lookup_json Signal name);
    match replayed with
    | Some e => mret (found e)
    | None =>
        polled ← host_call (fun w => poll_signal_json (tx_clock w) (date_now w) name);
        match polled with
        | Some e =>
            match json_to_string (te_payload e) with
            | Some text => mret (js_parse text)
            | None => throw (ThrewHost (SeText "json"))
            end
        | None => throw Suspended
        end
    end.

Definition await (b : Boundary) : Mm js :=
  match b with
  | BStep name fn => record_boundary Step name (run_callback name fn) (fun _ => get_now)
  | BEffect name fn => record_boundary Effect name (run_callback name fn) (fun _ => get_now)
  | BNow =>
      value ← record_boundary Now "now" (n ← get_now; mret (js_number n)) (fun _ => get_now);
      mret (js_date value)
  | BRandom fn =>
      record_boundary Random "random"
        (run_callback "random" (fun w => let '(v, w') := fn w in (Ok v, w'))) (fun _ => get_now)
  | BSleep millis => sleep_boundary millis
  | BSignal name => signal_boundary name
  end.

(** Evaluation: a value counts once the whole history was replayed and no
    suspension is left ([DurableSession::ensure_consumed]). *)
Fixpoint run (p : Prog) : Mm js :=
  match p with
  | Return v => host_call (fun _ => session_ensure_consumed);; mret v
  | Fail_ v => throw (Threw v)
  | Await b k => v ← await b; run (k v)
  end.

(** How a dispatcher opens the session of a task. *)
Inductive Opening :=
| OpenNew (id : TaskId)
| OpenClaim (now_ms : Z) (c : WakeupClaim)
| OpenExecution (now_ms : Z) (c : ExecutionClaim).

Definition open_session (o : Opening) (d : Db) : result SessionError Session :=
  match o with
  | OpenNew id => session_new id d
  | OpenClaim now c => from_claim None now c d
  | OpenExecution now c => from_execution now c d
  end.

Definition opened_task (o : Opening) : TaskId :=
  match o with
  | OpenNew id => id
  | OpenClaim _ c => wc_task_id c
  | OpenExecution _ c => match xc_wakeup c with Some w => wc_task_id w | None => xc_task_id c end
  end.

(** One attempt at a task: open, evaluate, perhaps die on the way. [None] when
    the session does not open. *)
Definition attempt (o : Opening) (budget : nat) (p : Prog) (d : Db) (w : world)
    : option (result Stop js * Machine) :=
  match open_session o d with
  | Err _ => None
  | Ok s => Some (run p {| mc_budget := budget; mc_host := {| host_session := s; host_db := d |};
                          mc_world := w; mc_calls := [] |})
  end.

End Runtime.
