(* ===== verification/DurableReplay.v ===== *)
(** * Replay of durable scripts

    Whatever kills the processes that run it, a durable script follows one
    path: every attempt answers its boundaries with what the history already
    holds, runs only the callbacks of boundaries that are not recorded yet, and
    extends the history along the script. *)

From Stdlib Require Import ZArith Lia Ascii String Sorted.
From stdpp Require Import numbers base tactics gmap strings list.
From S2P Require Import Prelude Bytes TaskModel DurableTypes DurableDb DurableStore DurableWakeups DurableExec DurableLogic DurableSpec DurableInv DurableRefine DurableThms DurableSession DurableRuntime.
Open Scope Z_scope.

Section Replay.
Context {SJ : SerdeJson} {SH : Sha256} {JE : JsEngine} {WD : World}.

(** ** The path of a script *)

(** The row boundary [b] leaves in the history, and what it answers. *)
Definition row_for (b : Boundary) (r : EventRow) : Prop :=
  er_kind r = EventKind_as_str (b_kind b) /\ er_key r = b_key b.
Definition answer (b : Boundary) (r : EventRow) : js :=
  match b with
  | BSleep _ => js_undefined
  | BNow => js_date (js_parse (er_payload r))
  | _ => js_parse (er_payload r)
  end.

(** The rows are the boundaries of [p], in order, each branch chosen by the rows before it. *)
Fixpoint follows (p : Prog) (rows : list EventRow) {struct rows} : Prop :=
  match rows with
  | [] => True
  | r :: rows' =>
      match p with
      | Await b k => row_for b r /\ follows (k (answer b r)) rows'
      | _ => False
      end
  end.

(** The value of [p] along the rows, when they lead to one. *)
Fixpoint value_of (p : Prog) (rows : list EventRow) : option js :=
  match p, rows with
  | Return v, [] => Some v
  | Await b k, r :: rows' => value_of (k (answer b r)) rows'
  | _, _ => None
  end.

(** [p'] is what is left of [p] after the rows. *)
Fixpoint leads_to (p : Prog) (rows : list EventRow) (p' : Prog) {struct rows} : Prop :=
  match rows with
  | [] => p = p'
  | r :: rows' =>
      match p with
      | Await b k => row_for b r /\ leads_to (k (answer b r)) rows' p'
      | _ => False
      end
  end.

Lemma leads_follows p done p' rest : leads_to p done p' -> follows p' rest -> follows p (done ++ rest).
Proof.
  revert p. induction done as [|r done IH]; intros p; simpl; [by intros ->|].
  destruct p as [| |b k]; [done..|]. intros [Hr Hl] Hf. split; [done|by apply IH].
Qed.
Lemma leads_snoc p done b k r :
  leads_to p done (Await b k) -> row_for b r -> leads_to p (done ++ [r]) (k (answer b r)).
Proof.
  revert p. induction done as [|x done IH]; intros p; simpl; [by intros ->|].
  destruct p as [| |b' k']; [done..|]. intros [Hx Hl] Hr. split; [done|by apply IH].
Qed.
Lemma leads_value p done v : leads_to p done (Return v) -> value_of p done = Some v.
Proof.
  revert p. induction done as [|r done IH]; intros p; simpl; [by intros ->|].
  destruct p as [| |b k]; [done..|]. intros [_ Hl]. by apply IH.
Qed.
(** A value ends the path. *)
Lemma value_final p rows rows' v :
  value_of p rows = Some v -> rows `prefix_of` rows' -> follows p rows' -> rows' = rows.
Proof.
  intros Hv [ext ->]. revert p Hv. induction rows as [|r rows IH]; intros p; destruct p as [| |b k]; simpl; try done.
  - intros _. by destruct ext.
  - intros Hv [_ Hf]. f_equal. by eapply IH.
Qed.

(** ** What is asked of values

    [plain p]: the callbacks of [p] return values that survive
    [JSON.stringify] and [JSON.parse], and so do the numbers of [Date.now()].
    (The source hands a first run the value itself and a replay the parsed
    text, so a callback that returns a [Date] or a [Map] is not plain.) *)
Definition survives (v : js) : Prop := forall s, js_stringify v = Some s -> js_parse s = v.

Definition plain_boundary (b : Boundary) : Prop :=
  match b with
  | BStep _ fn | BEffect _ fn => forall w v w', fn w = (Ok v, w') -> survives v
  | BRandom fn => forall w, survives (fn w).1
  | BNow => forall n, survives (js_number n)
  | BSleep _ | BSignal _ => True
  end.
Fixpoint plain (p : Prog) : Prop :=
  match p with
  | Await b k => plain_boundary b /\ forall v, plain (k v)
  | _ => True
  end.

(** The text is the same JavaScript value as what [serde_json] prints of the
    parsed text. (It is not for every text: a float may lose its last digit.) *)
Definition stable_text (text : string) : Prop := forall v s,
  json_from_str text = Some v -> json_to_string v = Some s -> js_parse s = js_parse text.

(** A well-formed store in which the signals queued for task [id] are stable. *)
Record Fit (id : TaskId) (d : Db) : Prop := {
  fit_inv :> DInv d;
  fit_signals : Forall (fun s => stable_text (sr_payload s)) (task_signals d id);
}.

(** Only a send adds to the inbox. *)
Lemma step_signals l d d' id :
  Forall (fun x => match x with Accepted _ _ _ => False | _ => True end) l -> db_step l d d' ->
  forall s, s ∈ task_signals d' id -> s ∈ task_signals d id.
Proof.
  intros HF S s. unfold task_signals. destruct S; try done; simpl; try by inversion HF.
  all: by intros [? [_ ?]%list_elem_of_filter]%list_elem_of_filter; apply list_elem_of_filter.
Qed.

Lemma run_op_Fit op id d :
  Fit id d -> op_valid op -> (forall i n p, ~ op_emits op (Accepted i n p)) -> Fit id (run_op op d).
Proof.
  intros [HD HF] HV HN. split; [by apply run_op_DInv|].
  destruct (run_op_refines op d HD HV) as (l & Fl & S).
  assert (Forall (fun x => match x with Accepted _ _ _ => False | _ => True end) l) as Fa.
  { eapply list.Forall_impl; [exact Fl|]. intros []; simpl; try done. apply HN. }
  rewrite list.Forall_forall in HF |- *. intros s Hs. apply HF. revert s Hs. clear Fl HV HN HF HD.
  induction S as [d|l l' d d1 d' S1 _ IH]; [done|]. apply list.Forall_app in Fa as [F1 F2]. intros s Hs.
  eapply step_signals; [exact F1|exact S1|by apply IH].
Qed.

(** ** The session follows the history *)

(** [H0] is the history the session was loaded with; [done] what the script has
    passed; what is left of [H0] lies ahead. *)
Definition position (h : Host) : nat := Z.to_nat (rc_position (ss_replay (host_session h))).

Record Sync (id : TaskId) (H0 done : list EventRow) (h : Host) : Prop := {
  sync_inv : Fit id (host_db h);
  sync_task : ss_task_id (host_session h) = id;
  sync_position : 0 <= rc_position (ss_replay (host_session h)) <= vec_len H0;
  sync_cursor : Forall2 (row_event id) H0 (rc_events (ss_replay (host_session h)));
  sync_rows : task_events (host_db h) id = done ++ drop (position h) H0;
  sync_next : ss_next_sequence (host_session h) = vec_len (task_events (host_db h) id);
  sync_grown : H0 `prefix_of` task_events (host_db h) id;
}.

Lemma kind_str k r : er_kind r = EventKind_as_str k -> EventKind_parse (er_kind r) = Ok k.
Proof. intros ->. by destruct k. Qed.

(** What lies ahead, seen through the cursor. *)
Lemma event_ahead id H0 done h :
  Sync id H0 done h ->
  match event_at (ss_replay (host_session h)) with
  | Some e => exists r, drop (position h) H0 = r :: drop (S (position h)) H0 /\ row_event id r e
      /\ rc_position (ss_replay (host_session h)) < vec_len H0
  | None => drop (position h) H0 = [] /\ task_events (host_db h) id = done
  end.
Proof.
  intros [_ _ Hp HF Hr _ _]. unfold event_at. fold (position h).
  destruct (rc_events _ !! position h) as [e|] eqn:E.
  - destruct (Forall2_lookup_r _ _ _ _ _ HF E) as (r & Hr' & He). exists r. split_and!; [|done|].
    + by apply drop_S.
    + apply lookup_lt_Some in Hr'. unfold position, vec_len in *. lia.
  - apply lookup_ge_None in E. rewrite <-(list.Forall2_length _ _ _ HF) in E.
    assert (drop (position h) H0 = []) as Hd by (by apply drop_ge). split; [done|].
    by rewrite Hr, Hd, app_nil_r.
Qed.

(** [check_storage] passes or stops the call. *)
Lemma check_storage_cases h : check_storage h = (Ok (), h) \/ exists e, check_storage h = (Err e, h).
Proof. unfold check_storage. unfold_monad. cbn. destruct (ss_storage_error _); eauto. Qed.

(** *** Lookups *)

(** A lookup of the script's next boundary answers with the next row, or finds
    that nothing lies ahead. *)
Lemma lookup_sync id H0 done b k h r h' :
  Sync id H0 done h -> follows (Await b k) (drop (position h) H0) ->
  lookup_json (b_kind b) (b_key b) h = (r, h') ->
  match r with
  | Ok (Some e) => exists row, row_for b row /\ te_payload_json e = er_payload row
      /\ Sync id H0 (done ++ [row]) h' /\ follows (k (answer b row)) (drop (position h') H0)
      /\ task_events (host_db h') id = task_events (host_db h) id
  | Ok None => Sync id H0 done h' /\ drop (position h') H0 = [] /\ host_db h' = host_db h
  | Err _ => host_db h' = host_db h
  end.
Proof.
  intros HS Hf. pose proof (event_ahead _ _ _ _ HS) as HA. destruct HS as [HD HT Hp HF Hr Hn Hg].
  unfold lookup_json. unfold_monad.
  destruct (check_storage_cases h) as [->|[e ->]]; [|by intros [= <- <-]].
  unfold replaying. unfold_monad. cbn [get_session]. unfold consume_event.
  destruct (event_at (ss_replay (host_session h))) as [e|].
  - destruct HA as (row & Hd & He & Hlt). rewrite Hd in Hf. destruct Hf as [[Hk Hkey] Hf].
    destruct He as (_ & _ & Hkind & Hek & _ & _ & Hpj). rewrite (kind_str _ _ Hk) in Hkind. injection Hkind as Hkind.
    rewrite bool_decide_eq_true_2 by done. rewrite Hek, Hkey, String.eqb_refl. cbn.
    intros [= <- <-]. exists row. cbn [host_db host_session].
    assert (Z.to_nat (rc_position (ss_replay (host_session h)) + 1) = S (position h)) as Hpos
      by (unfold position; lia).
    split_and!; [done|done| | |done].
    + split; cbn; try done; [lia|]. unfold position. cbn. rewrite Hpos, Hr, Hd, <-app_assoc. done.
    + unfold position. cbn. by rewrite Hpos.
  - destruct HA as [Hd Hdone]. cbn. intros [= <- <-]. cbn. split_and!; [by split|done|done].
Qed.

(** *** Writes *)

Lemma append_json_fails clock scope id expected kind key json at_ms wake d er d' :
  DInv d -> 0 <= at_ms ->
  append_event_json_inner clock scope id expected kind key json at_ms wake d = (Err er, d') -> d' = d.
Proof.
  intros HD Ha. unfold append_event_json_inner.
  destruct (e' ← raw_event _ _ _ _; _) as [[[v r] w]|] eqn:E; [|by intros [= _ <-]]. unfold and_then.
  destruct (run_tx _ d) as [[q|e] d1] eqn:R.
  - revert E. unfold mbind, result_bind. destruct (raw_event kind key json at_ms) as [v'|] eqn:Ev; [|done].
    destruct (to_sql_integer at_ms _) as [t|] eqn:Et; [|done]. apply to_sql_Ok in Et as [-> _].
    destruct (match wake with None => _ | _ => _ end) as [w'|]; [|done]. intros [= -> -> ->].
    pose proof (raw_event_Ok _ _ _ _ _ Ev) as (Hj & _).
    destruct (append_committed _ _ _ _ _ _ _ _ _ _ _ _ Hj Ha R) as (-> & _).
    pose proof (next_sequence_len _ (ok_sequences _ (inv_tasks _ HD id))) as Hl. simpl in Hl.
    cbn [fst snd]. unfold mbind, result_bind, stored_event, mbind, result_bind.
    by rewrite from_sql_total by (rewrite Hl; apply vec_len_nonneg).
  - revert R. unfold run_tx. destruct (append_tx _ _ _ _ _ _ _ _ _ _) as [[[a|a]|x] sx]; [done|done|]. intros [= _ <-].
    by intros [= _ <-].
Qed.

Lemma vec_len_next d id q :
  DInv d -> q = vec_len (task_events d id) -> saturating_add u64_max q 1 = q + 1.
Proof.
  intros HD ->. destruct (ok_count _ (inv_tasks _ HD id)) as [Hc Hm]. simpl in *. rewrite Hc in Hm.
  unfold saturating_add, MAX_HISTORY_EVENTS, u64_max in *. lia.
Qed.

Lemma append_sync id H0 done clock kind key json at_ms wake h r h' :
  Sync id H0 done h -> drop (position h) H0 = [] -> 0 <= at_ms -> (forall w, wake = Some w -> 0 <= w) ->
  append_at clock kind key json at_ms wake h = (r, h') ->
  match r with
  | Ok e => exists row, er_kind row = EventKind_as_str kind /\ er_key row = key /\ er_payload row = json
      /\ Sync id H0 (done ++ [row]) h' /\ drop (position h') H0 = []
      /\ task_events (host_db h') id = task_events (host_db h) id ++ [row]
  | Err _ => host_db h' = host_db h
  end.
Proof.
  intros [HD HT Hp HF Hr Hn Hg] Hd Ha Hw. unfold append_at. unfold_monad. cbn [get_session]. unfold call_store.
  rewrite HT, Hn. rewrite Hd, app_nil_r in Hr.
  destruct (append_event_json_inner _ _ _ _ _ _ _ _ _ _) as [[e|er] d'] eqn:E.
  - assert (op_valid (OpAppendJson clock (ss_scope (host_session h)) id (vec_len (task_events (host_db h) id)) kind key json at_ms wake)) as HV by (by split).
    pose proof (run_op_Fit _ id (host_db h) HD HV ltac:(naive_solver)) as HD'. simpl in HD'. rewrite E in HD'. simpl in HD'.
    destruct (append_json_inv _ _ _ _ _ _ _ _ _ _ _ _ E) as (q & v & Hj & Hv & Hs & R).
    destruct (append_committed _ _ _ _ _ _ _ _ _ _ _ _ Hj Ha R) as (Hq & _ & Hx & Ht).
    specialize (Hx _ eq_refl). revert Hs. unfold stored_event, mbind, result_bind.
    rewrite from_sql_total by (rewrite <-Hx; apply vec_len_nonneg). intros [= <-]. cbn [te_sequence].
    rewrite (vec_len_next (host_db h) id q HD ltac:(done)).
    cbn. intros [= <- <-]. eexists {| er_sequence := q; er_kind := _; er_key := _; er_payload := _; er_recorded_at_ms := _ |}.
    cbn [er_kind er_key er_payload host_db]. split_and!; [done|done|done| |exact Hd|exact Ht].
    split; cbn; try done.
    + rewrite Ht, Hr. unfold position in *. cbn. by rewrite Hd, app_nil_r.
    + rewrite Ht, vec_len_snoc. lia.
    + rewrite Ht. by apply prefix_app_r.
  - apply append_json_fails in E; [|apply HD|done]. subst d'. by intros [= <- <-].
Qed.

(** *** Suspensions *)

Lemma complete_wakeup_events clock scope i sequence owner now d id :
  task_events (complete_wakeup clock scope i sequence owner now d).2 id = task_events d id.
Proof.
  unfold complete_wakeup. apply (run_tx_post _ (fun _ d' => task_events d' id = task_events d id)); [done|].
  tx; done.
Qed.

Lemma sync_db id H0 done h d :
  Sync id H0 done h -> Fit id d -> task_events d id = task_events (host_db h) id ->
  Sync id H0 done {| host_session := host_session h; host_db := d |}.
Proof. intros [HD HT Hp HF Hr Hn Hg] HD' He. split; cbn; try done; by rewrite He. Qed.

Lemma sync_session id H0 done h s :
  Sync id H0 done h -> ss_task_id s = ss_task_id (host_session h) -> ss_replay s = ss_replay (host_session h) ->
  ss_next_sequence s = ss_next_sequence (host_session h) ->
  Sync id H0 done {| host_session := s; host_db := host_db h |}.
Proof. intros [HD HT Hp HF Hr Hn Hg] H1 H2 H3. split; cbn; rewrite ?H1, ?H2, ?H3; try done. unfold position in *. cbn. by rewrite H2. Qed.

Lemma complete_sleep_sync id H0 done clock now h r h' :
  Sync id H0 done h -> complete_sleep clock now h = (r, h') ->
  match r with
  | Ok _ => Sync id H0 done h' /\ position h' = position h /\ task_events (host_db h') id = task_events (host_db h) id
  | Err _ => Fit id (host_db h') /\ task_events (host_db h') id = task_events (host_db h) id
  end.
Proof.
  intros HS. pose proof HS as [HD _ _ _ _ _ _]. unfold complete_sleep. unfold_monad.
  destruct (check_storage_cases h) as [->|[e ->]]; [|by intros [= <- <-]]. cbn [get_session put_session].
  set (s1 := set_replayed_sleep None (host_session h)).
  assert (Sync id H0 done {| host_session := s1; host_db := host_db h |}) as HS1 by (by apply sync_session).
  match goal with |- context [if ?c then _ else _] => destruct c end; [by intros [= <- <-]|].
  destruct (ss_active_wakeup (host_session h)) as [t|]; [|by intros [= <- <-]].
  destruct (negb _); [by intros [= <- <-]|]. unfold call_store. cbn [host_db host_session].
  pose proof (complete_wakeup_events clock (ss_scope (host_session h)) (ss_task_id (host_session h))
    (tok_sequence t) (wc_lease_owner <$> tok_claim t) now (host_db h) id) as He.
  pose proof (run_op_Fit (OpCompleteWakeup clock (ss_scope (host_session h)) (ss_task_id (host_session h))
    (tok_sequence t) (wc_lease_owner <$> tok_claim t) now) id (host_db h) HD I ltac:(naive_solver)) as HD'. simpl in HD'.
  destruct (complete_wakeup _ _ _ _ _ _ _) as [[c|e] d'] eqn:E; simpl in He, HD'.
  - destruct c; cbn; [|by intros [= <- <-]]. intros [= <- <-]. split_and!; [|done|done].
    pose proof (sync_db _ _ _ _ _ HS1 HD' He) as HS2. by apply (sync_session _ _ _ _ _ HS2).
  - by intros [= <- <-].
Qed.

(** *** Signals *)

Lemma tx_insert_rows id expected kind key payload recorded (Q : Z -> Db -> Prop) d :
  (forall d', let q := next_sequence (task_events d id) in
     (forall e, expected = Some e -> e = q) ->
     task_events d' id = task_events d id ++ [{| er_sequence := q; er_kind := EventKind_as_str kind;
       er_key := key; er_payload := payload; er_recorded_at_ms := recorded |}] -> Q q d') ->
  tx_ok (insert_event id expected kind key payload recorded) Q d.
Proof.
  intros HQ. unfold insert_event. tx; (apply HQ; [|unfold task_events at 1; simpl; by rewrite lookup_insert_eq]).
  - intros e [= ->]. split_bool.
    match goal with H : from_sql_integer _ _ = Ok _ |- _ => apply from_sql_Ok in H as [? _] end. congruence.
  - done.
Qed.

(** What a poll leaves: a queued signal as the next row, or the history as it was. *)
Definition polled (id : TaskId) (expected : Z) (name : string) (d : Db)
    (x : option (NewEvent * Z * string)) (d' : Db) : Prop :=
  match x with
  | None => task_events d' id = task_events d id
  | Some (e, q, json) =>
      q = next_sequence (task_events d id) /\ q = expected /\ json_from_str json = Some (ne_payload e)
      /\ exists at_ms, task_events d' id = task_events d id ++ [{| er_sequence := q; er_kind := "signal";
           er_key := name; er_payload := json; er_recorded_at_ms := at_ms |}]
  end.

Lemma consume_rows id expected name s (Q : NewEvent * Z -> Db -> Prop) d :
  (forall e q d', polled id expected name d (Some (e, q, sr_payload s)) d' -> Q (e, q) d') ->
  tx_ok (consume_signal id expected name s) Q d.
Proof.
  intros HQ. unfold consume_signal. tx_step. tx_step. tx_step. tx_step. tx_step. apply tx_insert_rows.
  intros d1 q Hx Hr. tx. apply HQ. split_and!; [done|by rewrite (Hx _ eq_refl)| |eexists; exact Hr].
  unfold ok_or in *. repeat case_match; by simplify_eq.
Qed.

Lemma oldest_queued_task d id name s : oldest_signal d id name = Some s -> s ∈ task_signals d id.
Proof.
  unfold oldest_signal. intros Hs. apply head_Some_elem_of in Hs. rewrite order_by_perm in Hs.
  by apply list_elem_of_filter in Hs as [_ ?].
Qed.

(** The payload a poll delivers was queued. *)
Definition was_queued (id : TaskId) (d : Db) (x : option (NewEvent * Z * string)) : Prop :=
  match x with Some (_, json) => exists s, s ∈ task_signals d id /\ json = sr_payload s | None => True end.

Lemma poll_rows clock scope id expected name now claim d r d' :
  DInv d -> poll_signal clock scope id expected name now claim d = (r, d') ->
  match r with
  | Ok (Some e) => exists row, er_kind row = "signal"%string /\ er_key row = name
      /\ json_from_str (er_payload row) = Some (te_payload e)
      /\ (exists s, s ∈ task_signals d id /\ er_payload row = sr_payload s) /\ te_sequence e = expected
      /\ expected = vec_len (task_events d id) /\ task_events d' id = task_events d id ++ [row]
  | _ => task_events d' id = task_events d id
  end.
Proof.
  intros HD. unfold poll_signal. destruct (validate_signal_name name;; _) as [n|]; [|by intros [= <- <-]].
  set (body := _ ;; _). unfold and_then.
  assert (match (run_tx body d).1 with
    | Ok x => polled id expected name d x (run_tx body d).2 /\ was_queued id d x | Err _ => (run_tx body d).2 = d end) as HP.
  { apply (run_tx_post body (fun r d' => match r with
      | Ok x => polled id expected name d x d' /\ was_queued id d x | Err _ => d' = d end));
      [done|]. unfold body, register_signal_wait, take_wakeup. tx; try done.
    all: apply consume_rows; intros e q d1 HP; tx; (split; [exact HP|]); cbn; eauto using oldest_queued_task. }
  destruct (run_tx body d) as [[[[[e q] json]|]|e] d1]; cbn [fst snd] in *;
    [|destruct HP; by intros [= <- <-]|by intros [= <- <-]; subst].
  destruct HP as [(Hq & Hx & Hj & at_ms & Hr) Hw]. unfold mbind, result_bind, stored_event, mbind, result_bind.
  pose proof (next_sequence_len _ (ok_sequences _ (inv_tasks _ HD id))) as Hl. simpl in Hl.
  rewrite from_sql_total by (rewrite Hq, Hl; apply vec_len_nonneg). intros [= <- <-].
  eexists {| er_sequence := q; er_kind := _; er_key := _; er_payload := json; er_recorded_at_ms := at_ms |}.
  cbn. split_and!; try done. by rewrite <-Hx, Hq, Hl.
Qed.

Lemma poll_sync id H0 done clock now name h r h' :
  Sync id H0 done h -> drop (position h) H0 = [] ->
  poll_signal_json clock now name h = (r, h') ->
  match r with
  | Ok (Some e) => exists row, er_kind row = "signal"%string /\ er_key row = name
      /\ json_from_str (er_payload row) = Some (te_payload e) /\ stable_text (er_payload row)
      /\ Sync id H0 (done ++ [row]) h' /\ drop (position h') H0 = []
  | _ => Fit id (host_db h') /\ task_events (host_db h') id = task_events (host_db h) id
  end.
Proof.
  intros HS Hd. pose proof HS as [HD HT Hp HF Hr Hn Hg]. unfold poll_signal_json. unfold_monad.
  destruct (check_storage_cases h) as [->|[e ->]]; [|by intros [= <- <-]]. cbn [get_session]. unfold call_store.
  set (claim := match ss_active_wakeup (host_session h) with Some _ => _ | None => _ end).
  pose proof (run_op_Fit (OpPollSignal clock (ss_scope (host_session h)) (ss_task_id (host_session h))
    (ss_next_sequence (host_session h)) name now claim) id (host_db h) HD I ltac:(naive_solver)) as HD'. simpl in HD'. rewrite HT in *.
  destruct (poll_signal _ _ _ _ _ _ _ _) as [[[e|]|er] d'] eqn:E; apply poll_rows in E; try (apply HD); simpl in HD'.
  - destruct E as (row & Hk & Hkey & Hj & (sg & Hsg & Hpay) & Hs & Hx & Ht). cbn. intros [= <- <-]. exists row.
    assert (stable_text (er_payload row)) by (rewrite Hpay; exact (proj1 (list.Forall_forall _ _) (fit_signals _ _ HD) sg Hsg)).
    split_and!; try done. rewrite Hd, app_nil_r in Hr.
    split; cbn; try done.
    + unfold position in *. cbn. by rewrite Hd, app_nil_r, Ht, Hr.
    + rewrite Hs, Hx, (vec_len_next (host_db h) id) by (done || apply HD). by rewrite Ht, vec_len_snoc.
    + rewrite Ht. by apply prefix_app_r.
  - cbn. by intros [= <- <-].
  - cbn. by intros [= <- <-].
Qed.

Lemma nothing_ahead id H0 done h h1 :
  Sync id H0 done h -> Sync id H0 done h1 -> host_db h1 = host_db h -> drop (position h1) H0 = [] ->
  drop (position h) H0 = [] /\ task_events (host_db h) id = done.
Proof.
  intros [_ _ _ _ Hr _ _] [_ _ _ _ Hr1 _ _] Hdb Hd1. rewrite Hd1, app_nil_r, Hdb in Hr1.
  split; [|done]. rewrite Hr in Hr1. apply (app_inv_head done). by rewrite app_nil_r.
Qed.

(** ** One boundary *)

(** What awaiting [b] may do to a machine in step with the history; [g] is what
    the script still applies to the value. *)
Definition awaited_by (g : js -> js) (id : TaskId) (H0 done : list EventRow) (b : Boundary) (k : js -> Prog)
    (m : Machine) (r : result Stop js) (m' : Machine) : Prop :=
  (exists cs, mc_calls m' = mc_calls m ++ cs
     /\ (cs = [] \/ exists key, cs = [(vec_len done, key)] /\ drop (position (mc_host m)) H0 = []))
  /\ match r with
     | Ok v => exists row, row_for b row /\ g v = answer b row /\ Sync id H0 (done ++ [row]) (mc_host m')
         /\ follows (k (g v)) (drop (position (mc_host m')) H0)
     | Err _ => Fit id (host_db (mc_host m')) /\ exists ext,
         task_events (host_db (mc_host m')) id = task_events (host_db (mc_host m)) id ++ ext
         /\ (ext = [] \/ exists row, ext = [row] /\ row_for b row /\ drop (position (mc_host m)) H0 = [])
     end.

Definition awaited := awaited_by (fun v => v).

Lemma awaited_stop g id H0 done b k m e m' :
  Sync id H0 done (mc_host m) -> mc_calls m' = mc_calls m -> host_db (mc_host m') = host_db (mc_host m) ->
  awaited_by g id H0 done b k m (Err e) m'.
Proof.
  intros [HD _ _ _ _ _ _] Hc Hd. split; [exists []; rewrite app_nil_r; eauto|]. rewrite Hd.
  split; [done|]. exists []. rewrite app_nil_r. eauto.
Qed.

(** A value made outside the host: at most one callback, noted at the next position. *)
Definition makes (make : Mm js) : Prop := forall m r m',
  make m = (r, m') -> mc_host m' = mc_host m
  /\ (exists cs, mc_calls m' = mc_calls m ++ cs
        /\ (cs = [] \/ exists key, cs = [(ss_next_sequence (host_session (mc_host m)), key)]))
  /\ forall v, r = Ok v -> survives v.

Lemma record_awaited g id H0 done b k make m r m' :
  Sync id H0 done (mc_host m) -> follows (Await b k) (drop (position (mc_host m)) H0) ->
  (forall row, answer b row = g (js_parse (er_payload row))) -> makes make ->
  record_boundary (b_kind b) (b_key b) make (fun _ => get_now) m = (r, m') ->
  awaited_by g id H0 done b k m r m'.
Proof.
  intros HS Hf Hans Hmake. unfold record_boundary. unfold mbind at 1, M_bind at 1. unfold host_call at 1.
  destruct (mc_budget m) as [|n]; [intros [= <- <-]; by apply awaited_stop|].
  destruct (lookup_json (b_kind b) (b_key b) (mc_host m)) as [r1 h1] eqn:E.
  pose proof (lookup_sync _ _ _ _ _ _ _ _ HS Hf E) as HL. destruct r1 as [[e|]|e]; cbn [map_err].
  - destruct HL as (row & Hrow & Hpj & HS1 & Hf1 & _). intros [= <- <-]. split; [exists []; rewrite app_nil_r; eauto|].
    exists row. split_and!; [done| |done|].
    + unfold found. by rewrite Hans, Hpj.
    + unfold found. by rewrite Hpj, <-Hans.
  - destruct HL as (HS1 & Hd1 & Hdb1). unfold mbind at 1, M_bind at 1.
    set (m1 := {| mc_budget := n; mc_host := h1; mc_world := mc_world m; mc_calls := mc_calls m |}).
    destruct (make m1) as [r2 m2] eqn:E2. destruct (Hmake _ _ _ E2) as (Hh2 & (cs & Hc2 & Hcs) & Hv).
    assert (exists cs, mc_calls m2 = mc_calls m ++ cs /\ (cs = [] \/ exists key, cs = [(vec_len done, key)]
      /\ drop (position (mc_host m)) H0 = [])) as HC.
    { exists cs. split; [done|]. destruct Hcs as [->|[key ->]]; [by left|]. right. exists key.
      destruct (nothing_ahead _ _ _ _ _ HS HS1 Hdb1 Hd1) as [Ha He]. destruct HS1 as [_ _ _ _ _ Hn1 _].
      unfold m1. cbn [mc_host]. by rewrite Hn1, Hdb1, He. }
    assert (forall e m3, mc_calls m3 = mc_calls m2 -> host_db (mc_host m3) = host_db (mc_host m) ->
      awaited_by g id H0 done b k m (Err e) m3) as Hstop.
    { intros e m3 H1 H2. split; [by rewrite H1|]. rewrite H2. destruct HS as [HD _ _ _ _ _ _]. split; [done|].
      exists []. rewrite app_nil_r. eauto. }
    destruct r2 as [v|e2]; [|intros [= <- <-]; apply Hstop; [done|by rewrite Hh2]].
    unfold mbind at 1, M_bind at 1, encode_js.
    destruct (js_stringify v) as [enc|] eqn:Ee; [|intros [= <- <-]; apply Hstop; [done|by rewrite Hh2]].
    unfold mret, M_ret, mbind, M_bind, get_now, durable_millis. 
    destruct ((date_now (mc_world m2) <? 0) || (i64_max <? date_now (mc_world m2))) eqn:Et;
      [intros [= <- <-]; apply Hstop; [done|by rewrite Hh2]|]. unfold mret, M_ret. split_bool.
    unfold host_call. destruct (mc_budget m2) as [|n2]; [intros [= <- <-]; apply Hstop; [done|by rewrite Hh2]|].
    rewrite Hh2. unfold m1. cbn [mc_host]. unfold record, mbind, M_bind.
    destruct (check_storage_cases h1) as [->|[e ->]]; [|intros [= <- <-]; by apply Hstop].
    destruct (append_at _ _ _ _ _ _ h1) as [r3 h3] eqn:E3.
    apply (append_sync id H0 done) in E3; [|done|done|done|done]. destruct r3 as [e3|e3]; cbn [map_err mret M_ret].
    + destruct E3 as (row & Hk & Hkey & Hp & HS3 & Hd3 & _). intros [= <- <-]. split; [done|].
      exists row. cbn [mc_host]. split_and!; [done| |done|by rewrite Hd3].
      rewrite Hans, Hp. by rewrite (Hv v eq_refl enc Ee).
    + intros [= <- <-]. apply Hstop; [done|]. cbn. by rewrite E3.
  - intros [= <- <-]. by apply awaited_stop.
Qed.

(** ** Sleeps and signals *)

Lemma sleep_awaited id H0 done millis k m r m' :
  Sync id H0 done (mc_host m) -> follows (Await (BSleep millis) k) (drop (position (mc_host m)) H0) ->
  sleep_boundary millis m = (r, m') -> awaited id H0 done (BSleep millis) k m r m'.
Proof.
  intros HS Hf. unfold sleep_boundary. unfold mbind at 1, M_bind at 1. unfold host_call at 1.
  destruct (mc_budget m) as [|n]; [intros [= <- <-]; by apply awaited_stop|].
  destruct (lookup_json Sleep (b_key (BSleep millis)) (mc_host m)) as [r1 h1] eqn:E.
  pose proof (lookup_sync _ _ _ (BSleep millis) k _ _ _ HS Hf E) as HL. destruct r1 as [[e|]|e]; cbn [map_err].
  - destruct HL as (row & Hrow & Hpj & HS1 & Hf1 & He1). unfold_monad. unfold host_call. cbn [mc_budget].
    destruct n as [|n].
    { intros [= <- <-]. split; [exists []; rewrite app_nil_r; eauto|]. cbn. destruct HS1 as [HD1 _ _ _ _ _ _].
      split; [done|]. exists []. rewrite app_nil_r. eauto. }
    cbn [mc_world mc_host]. destruct (complete_sleep _ _ h1) as [r2 h2] eqn:E2.
    apply (complete_sleep_sync id H0 (done ++ [row])) in E2; [|done]. destruct r2 as [u|e2]; cbn [map_err].
    + destruct E2 as (HS2 & Hpos & _). intros [= <- <-]. split; [exists []; rewrite app_nil_r; eauto|].
      exists row. cbn [mc_host]. rewrite Hpos. by split_and!.
    + intros [= <- <-]. split; [exists []; rewrite app_nil_r; eauto|]. cbn. destruct E2 as [HD2 He2]. split; [done|].
      exists []. rewrite app_nil_r, He2. eauto.
  - destruct HL as (HS1 & Hd1 & Hdb1). unfold_monad. unfold get_now, durable_millis. cbn [mc_world].
    set (now := date_now (mc_world m)).
    assert (forall e m3, mc_calls m3 = mc_calls m -> host_db (mc_host m3) = host_db (mc_host m) ->
      awaited id H0 done (BSleep millis) k m (Err e) m3) as Hstop by (intros; by apply awaited_stop).
    destruct (max_safe_integer <? now + millis); [intros [= <- <-]; by apply Hstop|].
    destruct ((now <? 0) || (i64_max <? now)) eqn:E1; [intros [= <- <-]; by apply Hstop|].
    unfold mret, M_ret. destruct ((now + millis <? 0) || (i64_max <? now + millis)) eqn:E2; [intros [= <- <-]; by apply Hstop|].
    split_bool. unfold mret, M_ret, host_call. cbn [mc_budget mc_host mc_world].
    destruct n as [|n]; [intros [= <- <-]; by apply Hstop|]. unfold record_sleep. unfold_monad.
    destruct (check_storage_cases h1) as [->|[e ->]]; [|intros [= <- <-]; by apply Hstop].
    destruct (append_at _ _ _ _ _ _ h1) as [r3 h3] eqn:E3.
    apply (append_sync id H0 done) in E3; [|done|done|done|intros w [= <-]; done].
    destruct r3 as [e3|e3]; cbn [map_err put_session].
    + destruct E3 as (row & Hk & Hkey & Hp & HS3 & Hd3 & He3). intros [= <- <-].
      split; [exists []; rewrite app_nil_r; eauto|]. cbn. destruct HS3 as [HD3 _ _ _ _ _ _]. split; [done|].
      exists [row]. rewrite He3, Hdb1. split; [done|]. right. exists row. split_and!; try done.
      by destruct (nothing_ahead _ _ _ _ _ HS HS1 Hdb1 Hd1).
    + intros [= <- <-]. apply Hstop; [done|]. cbn. by rewrite E3.
  - intros [= <- <-]. by apply awaited_stop.
Qed.

Lemma signal_awaited id H0 done name k m r m' :
  Sync id H0 done (mc_host m) -> follows (Await (BSignal name) k) (drop (position (mc_host m)) H0) ->
  signal_boundary name m = (r, m') -> awaited id H0 done (BSignal name) k m r m'.
Proof.
  intros HS Hf. unfold signal_boundary. destruct (str_is_empty name); [intros [= <- <-]; by apply awaited_stop|].
  unfold mbind at 1, M_bind at 1. unfold host_call at 1.
  destruct (mc_budget m) as [|n]; [intros [= <- <-]; by apply awaited_stop|].
  destruct (lookup_json Signal name (mc_host m)) as [r1 h1] eqn:E.
  pose proof (lookup_sync _ _ _ (BSignal name) k _ _ _ HS Hf E) as HL. destruct r1 as [[e|]|e]; cbn [map_err].
  - destruct HL as (row & Hrow & Hpj & HS1 & Hf1 & _). intros [= <- <-]. split; [exists []; rewrite app_nil_r; eauto|].
    exists row. unfold found. rewrite Hpj. by split_and!.
  - destruct HL as (HS1 & Hd1 & Hdb1). unfold_monad. unfold host_call. cbn [mc_budget mc_host mc_world].
    destruct n as [|n]; [intros [= <- <-]; by apply awaited_stop|].
    destruct (poll_signal_json _ _ _ h1) as [r2 h2] eqn:E2. apply (poll_sync id H0 done) in E2; [|done|done].
    assert (forall e m3, mc_calls m3 = mc_calls m -> Fit id (host_db (mc_host m3)) ->
      task_events (host_db (mc_host m3)) id = task_events (host_db h1) id ->
      awaited id H0 done (BSignal name) k m (Err e) m3) as Hstop.
    { intros e m3 Hc HD3 He3. split; [exists []; rewrite app_nil_r; eauto|]. split; [done|].
      exists []. rewrite app_nil_r, He3, Hdb1. eauto. }
    destruct r2 as [[e|]|e]; cbn [map_err]; [|destruct E2; intros [= <- <-]; by apply Hstop..].
    destruct E2 as (row & Hk & Hkey & Hj & Hstable & HS2 & Hd2).
    destruct (json_to_string (te_payload e)) as [text|] eqn:Ht; intros [= <- <-];
      (split; [exists []; rewrite app_nil_r; eauto|]).
    + exists row. cbn [mc_host]. split_and!; [done| |done|by rewrite Hd2]. by apply (Hstable _ _ Hj).
    + pose proof HS2 as [HD2 _ _ _ Hr2 _ _]. cbn [mc_host]. split; [done|].
      destruct (nothing_ahead _ _ _ _ _ HS HS1 Hdb1 Hd1) as [Ha He].
      exists [row]. rewrite Hr2, Hd2, app_nil_r, He. split; [done|]. right. exists row. by split_and!.
  - intros [= <- <-]. by apply awaited_stop.
Qed.

Lemma callback_makes key fn : (forall w v w', fn w = (Ok v, w') -> survives v) -> makes (run_callback key fn).
Proof.
  intros Hp m r m'. unfold run_callback. destruct (fn (mc_world m)) as [r1 w1] eqn:E. intros [= <- <-]. cbn.
  split_and!; [done|eexists; split; [done|]; eauto|]. intros v. destruct r1; intros [= <-]. by eapply Hp.
Qed.

Lemma await_awaited id H0 done b k m r m' :
  plain_boundary b ->
  Sync id H0 done (mc_host m) -> follows (Await b k) (drop (position (mc_host m)) H0) ->
  await b m = (r, m') -> awaited id H0 done b k m r m'.
Proof.
  intros Hp HS Hf. destruct b as [name fn|name fn| |fn|millis|name]; cbn [await].
  - apply (record_awaited _ _ _ _ (BStep name fn)); try done. by apply callback_makes.
  - apply (record_awaited _ _ _ _ (BEffect name fn)); try done. by apply callback_makes.
  - unfold mbind at 1, M_bind at 1. destruct (record_boundary Now _ _ _ m) as [r0 m0] eqn:E.
    assert (awaited_by js_date id H0 done BNow k m r0 m0) as HA.
    { revert E. apply (record_awaited _ _ _ _ BNow); try done. intros m1 r1 m1'. cbn. intros [= <- <-].
      split_and!; [done|exists []; rewrite app_nil_r; eauto|]. intros v [= <-]. apply Hp. }
    by destruct r0; intros [= <- <-].
  - apply (record_awaited _ _ _ _ (BRandom fn)); try done. apply callback_makes.
    intros w v w'. specialize (Hp w). destruct (fn w). by intros [= <- _].
  - by apply sleep_awaited.
  - by apply signal_awaited.
Qed.

(** ** A whole evaluation *)

(** What an evaluation of [p0] may have done, [H0] being the history it started
    with: the history grew along the script, it ran only callbacks of positions
    beyond [H0], each at most once, and a value is the value of that path. *)
Definition evaluated (id : TaskId) (p0 : Prog) (H0 : list EventRow) (r : result Stop js) (m : Machine) : Prop :=
  let rows := task_events (host_db (mc_host m)) id in
  Fit id (host_db (mc_host m)) /\ H0 `prefix_of` rows /\ follows p0 rows
  /\ Forall (fun c => vec_len H0 <= c.1) (mc_calls m) /\ NoDup (mc_calls m).*1
  /\ forall v, r = Ok v -> value_of p0 rows = Some v.

Lemma ensure_consumed_sync id H0 done h r h' :
  Sync id H0 done h -> session_ensure_consumed h = (r, h') ->
  h' = h /\ (r = Ok () -> drop (position h) H0 = []).
Proof.
  intros HS. pose proof (event_ahead _ _ _ _ HS) as HA. unfold session_ensure_consumed. unfold_monad.
  destruct (check_storage_cases h) as [->|[e ->]]; [|by intros [= <- <-]]. cbn [get_session].
  unfold ensure_consumed. destruct (event_at _); cbn; [by intros [= <- <-]|].
  destruct HA as [Hd _]. by case_match; intros [= <- <-].
Qed.

(** Callbacks noted so far: beyond [H0], not beyond what was passed, each once. *)
Definition calls_ok (H0 done : list EventRow) (m : Machine) : Prop :=
  Forall (fun c => vec_len H0 <= c.1 < vec_len done) (mc_calls m) /\ NoDup (mc_calls m).*1.

(** One more callback, at the position the script is at. *)
Lemma calls_next id H0 done m cs :
  Sync id H0 done (mc_host m) -> calls_ok H0 done m ->
  (cs = [] \/ exists key, cs = [(vec_len done, key)] /\ drop (position (mc_host m)) H0 = []) ->
  Forall (fun c => vec_len H0 <= c.1 < vec_len done + 1) (mc_calls m ++ cs) /\ NoDup (mc_calls m ++ cs).*1.
Proof.
  intros HS [Hc Hnd] Hcs. assert (Forall (fun c => vec_len H0 <= c.1 < vec_len done + 1) (mc_calls m)) as Hc'.
  { eapply list.Forall_impl; [exact Hc|]. cbn. lia. }
  destruct Hcs as [->|(key & -> & Hd)]; [by rewrite app_nil_r|].
  destruct HS as [_ _ _ _ Hr _ Hg]. rewrite Hd, app_nil_r in Hr. rewrite Hr in Hg. apply prefix_length in Hg.
  split.
  - apply list.Forall_app. split; [done|]. constructor; [|constructor]. cbn. unfold vec_len. lia.
  - rewrite fmap_app. apply list.NoDup_app. split_and!; [done| |apply NoDup_singleton]. cbn.
    intros q Hq Hs. apply list_elem_of_singleton in Hs. subst. apply list_elem_of_fmap in Hq as ([q' key'] & Hq & Hin).
    rewrite list.Forall_forall in Hc. specialize (Hc _ Hin). cbn in *. lia.
Qed.

Lemma evaluated_end id p0 H0 done m r m' ext cs :
  Sync id H0 done (mc_host m) -> calls_ok H0 done m ->
  follows p0 (done ++ drop (position (mc_host m)) H0 ++ ext) -> Fit id (host_db (mc_host m')) ->
  task_events (host_db (mc_host m')) id = task_events (host_db (mc_host m)) id ++ ext ->
  mc_calls m' = mc_calls m ++ cs ->
  (cs = [] \/ exists key, cs = [(vec_len done, key)] /\ drop (position (mc_host m)) H0 = []) ->
  (forall v, r = Ok v -> value_of p0 (task_events (host_db (mc_host m')) id) = Some v) ->
  evaluated id p0 H0 r m'.
Proof.
  intros HS Hok Hf HD' He Hcs Hcase Hv. destruct (calls_next _ _ _ _ _ HS Hok Hcase) as [Hc Hnd].
  destruct HS as [_ _ _ _ Hr _ Hg]. unfold evaluated. rewrite He, Hcs. split_and!; try done.
  - by apply prefix_app_r.
  - by rewrite Hr, <-app_assoc.
  - eapply list.Forall_impl; [exact Hc|]. cbn. lia.
  - by rewrite <-He.
Qed.

Lemma run_evaluated id p0 H0 p :
  forall done m r m', plain p -> leads_to p0 done p -> Sync id H0 done (mc_host m) ->
  follows p (drop (position (mc_host m)) H0) -> calls_ok H0 done m ->
  run p m = (r, m') -> evaluated id p0 H0 r m'.
Proof.
  induction p as [v|v|b k IH]; intros done m r m' Hp Hl HS Hf Hok; cbn [run].
  - unfold_monad. unfold host_call. pose proof HS as [HD _ _ _ Hr _ _].
    destruct (mc_budget m) as [|n].
    { intros [= <- <-]. eapply (evaluated_end _ _ _ _ _ _ _ [] []); rewrite ?app_nil_r; eauto; [by eapply leads_follows|done]. }
    destruct (session_ensure_consumed (mc_host m)) as [r1 h1] eqn:E.
    destruct (ensure_consumed_sync _ _ _ _ _ _ HS E) as [-> Hd].
    destruct r1 as [[]|e]; intros [= <- <-]; eapply (evaluated_end _ _ _ _ _ _ _ [] []); rewrite ?app_nil_r; cbn; eauto.
    + by eapply leads_follows.
    + intros ? [= <-]. rewrite Hr, Hd, app_nil_r by done. by apply leads_value.
    + by eapply leads_follows.
    + done.
  - intros [= <- <-]. pose proof HS as [HD _ _ _ _ _ _].
    eapply (evaluated_end _ _ _ _ _ _ _ [] []); rewrite ?app_nil_r; eauto; [by eapply leads_follows|done].
  - unfold mbind, M_bind. destruct (await b m) as [r1 m1] eqn:E. destruct Hp as [Hpb Hpk].
    destruct (await_awaited _ _ _ _ k _ _ _ Hpb HS Hf E) as [(cs & Hcs & Hcase) HA].
    destruct r1 as [v|e].
    + destruct HA as (row & Hrow & -> & HS1 & Hf1). apply (IH _ (done ++ [row])); [done|by apply leads_snoc|done|done|].
      unfold calls_ok. rewrite Hcs, vec_len_snoc. by eapply calls_next.
    + destruct HA as (HD' & ext & He & Hext). intros [= <- <-]. eapply (evaluated_end _ _ _ _ _ _ _ ext cs); try done.
      eapply leads_follows; [done|]. destruct Hext as [->|(row & -> & Hrow & Hd)]; [by rewrite app_nil_r|].
      rewrite Hd. by split.
Qed.

(** ** Attempts *)

Lemma load_sync scope id claim d s :
  Fit id d -> load scope id claim d = Ok s ->
  Sync id (task_events d id) [] {| host_session := s; host_db := d |}.
Proof.
  intros HD. unfold load. destruct (load_history_ok d id HD) as (h & -> & _ & HF). cbn [store_error map_err mbind result_bind].
  assert (vec_len (h_events h) = vec_len (task_events d id)) as Hlen.
  { unfold vec_len. by rewrite (list.Forall2_length _ _ _ HF). }
  assert (match last (h_events h) with
    | Some e => ok_or (checked_add u64_max (te_sequence e) 1) (SeText "durable history is too large")
    | None => Ok 0 end = Ok (vec_len (task_events d id))) as Hnext.
  { destruct (ok_count _ (inv_tasks _ HD id)) as [Hc Hm]. simpl in *.
    pose proof (row_events_sequences _ _ _ HF) as Hseq. pose proof (ok_sequences _ (inv_tasks _ HD id)) as Hz. simpl in Hz. rewrite Hz in Hseq.
    destruct (last (h_events h)) as [e|] eqn:El.
    - assert (last (te_sequence <$> h_events h) = Some (te_sequence e)) as Hq by (by rewrite fmap_last, El).
      assert (0 < vec_len (task_events d id)) as Hpos.
      { rewrite <-Hlen. destruct (h_events h); [done|]. rewrite vec_len_cons. pose proof (vec_len_nonneg l). lia. }
      rewrite Hseq in Hq. replace (vec_len (task_events d id)) with (vec_len (task_events d id) - 1 + 1) in Hq by lia.
      rewrite seqZ_snoc, last_snoc in Hq by lia. injection Hq as Hq. unfold checked_add, MAX_HISTORY_EVENTS, u64_max in *.
      rewrite (proj2 (Z.leb_le _ _)) by lia. cbn. f_equal. lia.
    - apply last_None in El. rewrite El in Hlen. cbn. f_equal. by rewrite <-Hlen. }
  rewrite Hnext. unfold mbind, result_bind.
  assert (forall t, Sync id (task_events d id) [] {| host_session := {| ss_scope := scope; ss_task_id := id;
    ss_replay := replay h; ss_next_sequence := vec_len (task_events d id); ss_active_wakeup := t; ss_suspended := false;
    ss_lease_until_ms := wc_lease_until_ms <$> claim; ss_result_json := None; ss_replayed_sleep := None;
    ss_storage_error := None |}; host_db := d |}) as HS.
  { intros t. split; cbn; try done. pose proof (vec_len_nonneg (task_events d id)). lia. }
  repeat (case_match; simplify_eq; try done); intros [= <-]; apply HS.
Qed.

Lemma open_sync o d s :
  Fit (opened_task o) d -> open_session o d = Ok s ->
  Sync (opened_task o) (task_events d (opened_task o)) [] {| host_session := s; host_db := d |}.
Proof.
  intros HD. destruct o as [id|now c|now c]; cbn [open_session opened_task] in *.
  - unfold session_new, mbind, result_bind. repeat (case_match; try done). by apply load_sync.
  - unfold from_claim, mbind, result_bind. repeat (case_match; try done). by apply load_sync.
  - unfold from_execution, mbind, result_bind.
    destruct (xc_wakeup c) as [w|].
    + destruct (from_claim (Some c) now w d) as [s1|] eqn:E; [|done]. intros [= <-].
      revert E. unfold from_claim, mbind, result_bind. repeat (case_match; try done). intros E.
      apply load_sync in E; [|done]. by apply (sync_session _ _ _ _ _ E).
    + destruct (load (Some c) (xc_task_id c) None d) as [s1|] eqn:E; [|done]. intros [= <-].
      apply load_sync in E; [|done]. by apply (sync_session _ _ _ _ _ E).
Qed.

Lemma attempt_evaluated o budget p d w r m :
  plain p -> Fit (opened_task o) d -> follows p (task_events d (opened_task o)) ->
  attempt o budget p d w = Some (r, m) ->
  evaluated (opened_task o) p (task_events d (opened_task o)) r m.
Proof.
  intros Hp HD Hf. unfold attempt. destruct (open_session o d) as [s|] eqn:E; [|done]. intros [= Hrun].
  apply open_sync in E; [|done]. pose proof (sync_rows _ _ _ _ E) as Hrows. cbn in Hrows.
  refine (run_evaluated _ p _ p [] {| mc_budget := budget; mc_host := {| host_session := s; host_db := d |};
    mc_world := w; mc_calls := [] |} _ _ Hp eq_refl E _ _ Hrun); [cbn; by rewrite <-Hrows|split; constructor].
Qed.

(** ** The life of a task *)

(** What is known of one attempt: the history before and after, the callbacks
    it ran, how it ended. *)
Record Attempted := {
  at_before : list EventRow; at_after : list EventRow; at_calls : list (Z * string); at_result : result Stop js }.

(** The life of task [id] under script [p]: attempts, each opened some way and
    perhaps dying, and between them anything that leaves the store well-formed,
    this task's history alone and stable signals in its queue, in a world that
    moves on. *)
Inductive life (id : TaskId) (p : Prog) : Db -> list Attempted -> Db -> Prop :=
| life_start d : life id p d [] d
| life_others d l d1 d2 :
    life id p d l d1 -> Fit id d2 -> task_events d2 id = task_events d1 id -> life id p d l d2
| life_attempt d l d1 o budget w r m :
    life id p d l d1 -> opened_task o = id -> attempt o budget p d1 w = Some (r, m) ->
    life id p d (l ++ [{| at_before := task_events d1 id; at_after := task_events (host_db (mc_host m)) id;
                          at_calls := mc_calls m; at_result := r |}]) (host_db (mc_host m)).

(** What holds of every attempt, [rows] being the history at the end. *)
Definition attempt_ok (p : Prog) (rows : list EventRow) (a : Attempted) : Prop :=
  at_before a `prefix_of` at_after a /\ at_after a `prefix_of` rows
  /\ Forall (fun c => vec_len (at_before a) <= c.1) (at_calls a) /\ NoDup (at_calls a).*1
  /\ forall v, at_result a = Ok v -> value_of p rows = Some v /\ at_after a = rows.

Lemma attempt_ok_mono p rows rows' a :
  attempt_ok p rows a -> rows `prefix_of` rows' -> follows p rows' -> attempt_ok p rows' a.
Proof.
  intros (H1 & H2 & H3 & H4 & H5) Hpre Hf. split_and!; [done|by etrans|done|done|].
  intros v Hv. destruct (H5 v Hv) as [Hval Heq]. by rewrite (value_final _ _ _ _ Hval Hpre Hf).
Qed.

Lemma life_ok id p d l d' :
  plain p -> Fit id d -> follows p (task_events d id) -> life id p d l d' ->
  Fit id d' /\ follows p (task_events d' id) /\ Forall (attempt_ok p (task_events d' id)) l.
Proof.
  intros Hp HD Hf. induction 1 as [d|d l d1 d2 _ IH HD2 He|d l d1 o budget w r m _ IH Ho Ha].
  - done.
  - destruct (IH HD Hf) as (_ & Hf1 & Hl). by rewrite He.
  - destruct (IH HD Hf) as (HD1 & Hf1 & Hl). subst id.
    destruct (attempt_evaluated _ _ _ _ _ _ _ Hp HD1 Hf1 Ha) as (HD' & Hpre & Hf' & Hc & Hnd & Hv).
    split_and!; [done|done|]. apply list.Forall_app. split.
    + eapply list.Forall_impl; [exact Hl|]. intros a Hok. by eapply attempt_ok_mono.
    + constructor; [|constructor]. split_and!; cbn; try done. intros v ->. split; [by apply Hv|done].
Qed.

(** C13. A durable script that awaits its boundaries one after the other, does not
    catch a failed one and is [plain] has one path. Over any life of a task whose
    history starts on that path (an empty one does) - attempts opened fresh, from
    a wakeup or from an execution claim, killed at any host call, with other
    store activity in between - the history stays on the path; an attempt runs
    only callbacks of boundaries not recorded before it, each once; and all
    attempts that return, return the value of that one path. The signals queued
    for the task are assumed to be [stable_text]. *)
Theorem durable_single_path id p d l d' :
  plain p -> Fit id d -> follows p (task_events d id) -> life id p d l d' ->
  follows p (task_events d' id) /\ Forall (attempt_ok p (task_events d' id)) l
  /\ forall a b v v', a ∈ l -> b ∈ l -> at_result a = Ok v -> at_result b = Ok v' -> v = v'.
Proof.
  intros Hp HD Hf0 Hlife. destruct (life_ok id p d l d' Hp HD Hf0 Hlife) as (_ & Hf & Hl).
  split_and!; [done|done|]. intros a b v v' Ha Hb Hav Hbv. rewrite list.Forall_forall in Hl.
  destruct (Hl _ Ha) as (_ & _ & _ & _ & Hva). destruct (Hl _ Hb) as (_ & _ & _ & _ & Hvb).
  destruct (Hva v Hav) as [E1 _]. destruct (Hvb v' Hbv) as [E2 _]. congruence.
Qed.
End Replay.

(** ** A concrete life *)

#[local] Existing Instance sample_json.
#[local] Existing Instance sample_sha.

(** JavaScript values as strings; the world is a counter that is also the clock. *)
#[local] Instance sample_engine : JsEngine := {|
  js := string; js_undefined := "undefined"; js_number n := dec_string n; js_date v := "date" ++ v;
  js_stringify v := Some ("j" ++ v); js_parse s := default EmptyString (strip_prefix "j" s) |}%string.
#[local] Instance sample_world : World := {| world := Z; date_now w := w; tx_clock w _ := w |}.

(** Charge a card, note the time, return the receipt. *)
Definition charge (now : Z) : result string string * Z := (Ok ("receipt" ++ dec_string now)%string, now + 1).
Definition sample_prog : Prog :=
  Await (BEffect "charge" charge)
    (fun receipt => Await BNow (fun _ => Return receipt)).

Lemma sample_survives v : survives v.
Proof. intros s [= <-]. reflexivity. Qed.
Lemma sample_plain : plain sample_prog.
Proof.
  cbn. split; [intros w v w' _; apply sample_survives|]. intros _. split; [intros n; apply sample_survives|done].
Qed.
Lemma sample_fit : Fit 7 empty_db.
Proof. split; [apply empty_DInv|constructor]. Qed.

(** Die after the callback but before the record, run to the end, run again. *)
Definition outcome (x : option (result Stop js * Machine)) : result Stop js * Machine :=
  default (Err Crashed, {| mc_budget := 0; mc_host := {| host_session := {| ss_scope := None; ss_task_id := 0;
    ss_replay := {| rc_events := []; rc_position := 0 |}; ss_next_sequence := 0; ss_active_wakeup := None;
    ss_suspended := false; ss_lease_until_ms := None; ss_result_json := None; ss_replayed_sleep := None;
    ss_storage_error := None |}; host_db := empty_db |}; mc_world := (0 : Z); mc_calls := [] |}) x.

Definition sample_try (budget : nat) (d : Db) (now : Z) : result Stop js * Machine :=
  outcome (attempt (OpenNew 7) budget sample_prog d now).
Definition sample_after : Db := host_db (mc_host (sample_try 10 empty_db 200).2).

Definition tried (budget : nat) (d : Db) (now : Z) : Attempted := {|
  at_before := task_events d 7; at_after := task_events (host_db (mc_host (sample_try budget d now).2)) 7;
  at_calls := mc_calls (sample_try budget d now).2; at_result := (sample_try budget d now).1 |}.
Definition sample_tries : list Attempted :=
  [tried 1 empty_db 100; tried 10 empty_db 200; tried 10 sample_after 300].

Lemma sample_attempt budget d now :
  match attempt (OpenNew 7) budget sample_prog d now with Some _ => true | None => false end = true ->
  attempt (OpenNew 7) budget sample_prog d now = Some ((sample_try budget d now).1, (sample_try budget d now).2).
Proof. unfold sample_try, outcome. destruct (attempt _ _ _ _ _) as [[r m]|]; done. Qed.

Lemma sample_life : exists d', life 7 sample_prog empty_db sample_tries d'.
Proof.
  exists (host_db (mc_host (sample_try 10 sample_after 300).2)).
  assert (host_db (mc_host (sample_try 1 empty_db 100).2) = empty_db) as E by (vm_compute; reflexivity).
  pose proof (life_attempt (WD := sample_world) 7 sample_prog empty_db [] empty_db (OpenNew 7) 1 100 _ _
    (life_start _ _ _) eq_refl (sample_attempt 1 empty_db 100 ltac:(vm_compute; reflexivity))) as L1.
  rewrite E in L1.
  pose proof (life_attempt (WD := sample_world) 7 sample_prog empty_db _ empty_db (OpenNew 7) 10 200 _ _
    L1 eq_refl (sample_attempt 10 empty_db 200 ltac:(vm_compute; reflexivity))) as L2.
  pose proof (life_attempt (WD := sample_world) 7 sample_prog empty_db _ sample_after (OpenNew 7) 10 300 _ _
    L2 eq_refl (sample_attempt 10 sample_after 300 ltac:(vm_compute; reflexivity))) as L3.
  unfold sample_tries, tried. rewrite E. exact L3.
Qed.

Lemma durable_single_path_witness : exists d',
  Forall (attempt_ok sample_prog (task_events d' 7)) sample_tries
  /\ at_calls <$> sample_tries = [[(0, "charge"%string)]; [(0, "charge"%string)]; []]
  /\ at_result <$> sample_tries = [Err Crashed; Ok "receipt200"%string; Ok "receipt200"%string].
Proof.
  destruct sample_life as [d' Hl]. exists d'.
  destruct (durable_single_path 7 sample_prog empty_db sample_tries d' sample_plain sample_fit I Hl)
    as (_ & H & _).
  split; [exact H|]. split.
  - vm_cast_no_check (eq_refl [[(0, "charge"%string)]; [(0, "charge"%string)]; []]).
  - vm_cast_no_check (eq_refl (A := list (result Stop js)) [Err Crashed; Ok "receipt200"%string; Ok "receipt200"%string]).
Defined.
