(* ===== verification/Tap.v ===== *)
(** * TAP packages ([crates/tysel-package/src/tap.rs])

    The package format: encoding and decoding of the payload, the footer that
    embeds it in an executable, and the compatibility report. [serde_json] on
    the two index structures, [semver] and SHA-256 are parameters. *)

From Stdlib Require Import ZArith Lia Ascii String.
From stdpp Require Import base tactics list strings.
From S2P Require Import Prelude Bytes DurableTypes.
Open Scope Z_scope.

Definition TAP_VERSION : Z := 5.
Definition MIN_SUPPORTED_TAP_VERSION : Z := 1.
Definition TAP_COMPATIBILITY_REPORT_VERSION : Z := 1.
Definition COMPONENT_ABI_VERSION : string := "0.4.0".
Definition MAX_TAP_PAYLOAD_BYTES : Z := 512 * 1024 * 1024.
Definition MAX_PACKAGED_COMPONENTS : Z := 64.
Definition MAX_AOT_ARTIFACTS_PER_COMPONENT : Z := 16.
Definition TAP_MAGIC : string := "TYSELTAP".
Definition END_MAGIC : string := "TYSELEND".
Definition MAX_COMPONENT_INDEX_BYTES : Z := 1024 * 1024.
Definition MAX_COMPATIBILITY_ISSUE_BYTES : Z := 512.

(** [PackageError]; the [Json] case carries the text of the [serde_json] error. *)
Inductive PackageError :=
| PackageInvalid (message : string)
| MissingPayload
| PackageVersion (v : Z)
| PackageJson (text : string)
| PackageIo (e : IoError).

Definition PackageError_to_string (e : PackageError) : string :=
  match e with
  | PackageInvalid m => "invalid tap: " ++ m
  | MissingPayload => "executable has no tap payload"
  | PackageVersion v => "unsupported tap version " ++ dec_string v
  | PackageJson t => "json: " ++ t
  | PackageIo UnexpectedEof => "io: failed to fill whole buffer"
  end%string.

Record PackageManifest := {
  format_version : Z; runtime_version : string; pm_application_id : string; entrypoint : string;
  execution_profile : string; listen : string; memory_limit_bytes : Z; cpu_ms_per_turn : Z;
  request_timeout_ms : Z; pm_bundle_hash : string; max_request_bytes : Z; max_response_bytes : Z;
  websocket : bool; workers : Z; max_in_flight : Z; http1 : bool; http2 : bool; sqlite_path : string;
  secret_names : list string; fetch_hosts : list string; postgres : list string; redis : list string;
  fs_read : list string; fs_write : list string; json_logs : bool;
}.

Record PackagedAot := {
  aot_target : string; aot_wasmtime_version : string; aot_engine_hash : Z;
  aot_source_sha256 : string; aot_bytes : string }.
Record PackagedComponent := {
  pc_name : string; pc_abi_version : string; pc_source : string; pc_aot : list PackagedAot }.
Record Tap := {
  tap_manifest : PackageManifest; tap_bundle : string; tap_source_map : string;
  tap_components : list PackagedComponent }.

Record BlobIndex := { blob_offset : Z; blob_length : Z; blob_sha256 : string }.
Record AotIndexEntry := {
  ai_target : string; ai_wasmtime_version : string; ai_engine_hash : Z; ai_source_sha256 : string;
  ai_blob : BlobIndex }.
Record ComponentIndexEntry := {
  ce_name : string; ce_abi_version : string; ce_source : BlobIndex; ce_aot : list AotIndexEntry }.
Record ComponentIndex := { ci_components : list ComponentIndexEntry }.

(** [serde_json] on [PackageManifest] and [ComponentIndex]; errors as text. *)
Class TapSerde := {
  manifest_to_vec : PackageManifest -> result string string;
  manifest_from_slice : string -> result string PackageManifest;
  index_to_vec : ComponentIndex -> result string string;
  index_from_slice : string -> result string ComponentIndex;
  semver_valid : string -> bool;
}.

(** What derived serialization promises: reading back what was written. *)
Class TapSerdeLaws (TS : TapSerde) : Prop := {
  manifest_roundtrip : forall m s, manifest_to_vec m = Ok s -> manifest_from_slice s = Ok m;
  index_roundtrip : forall i s, index_to_vec i = Ok s -> index_from_slice s = Ok i;
}.

Section Tap.
Context {TS : TapSerde} {SH : Sha256}.

(** [hex_encode] *)
Fixpoint hex_encode (s : string) : string :=
  match s with
  | EmptyString => EmptyString
  | String c s' =>
      String (hex_char (Z.shiftr (byte_code c) 4)) (String (hex_char (Z.land (byte_code c) 15)) (hex_encode s'))
  end.

Definition bundle_hash (bundle : string) : string := hex_encode (sha256 bundle).

(** [Tap::new], [Tap::with_components] *)
Definition Tap_new (m : PackageManifest) (bundle source_map : string) : Tap := {|
  tap_manifest := {|
    format_version := TAP_VERSION; runtime_version := runtime_version m;
    pm_application_id := pm_application_id m; entrypoint := entrypoint m;
    execution_profile := execution_profile m; listen := listen m;
    memory_limit_bytes := memory_limit_bytes m; cpu_ms_per_turn := cpu_ms_per_turn m;
    request_timeout_ms := request_timeout_ms m; pm_bundle_hash := bundle_hash bundle;
    max_request_bytes := max_request_bytes m; max_response_bytes := max_response_bytes m;
    websocket := websocket m; workers := workers m; max_in_flight := max_in_flight m;
    http1 := http1 m; http2 := http2 m; sqlite_path := sqlite_path m; secret_names := secret_names m;
    fetch_hosts := fetch_hosts m; postgres := postgres m; redis := redis m; fs_read := fs_read m;
    fs_write := fs_write m; json_logs := json_logs m |};
  tap_bundle := bundle; tap_source_map := source_map; tap_components := [] |}.

Definition with_components (t : Tap) (cs : list PackagedComponent) : Tap := {|
  tap_manifest := tap_manifest t; tap_bundle := tap_bundle t; tap_source_map := tap_source_map t;
  tap_components := cs |}.

(** ** Validation *)

Definition validate_manifest_contract (m : PackageManifest) (envelope_version : Z) : result PackageError () :=
  if negb (format_version m =? envelope_version)
  then Err (PackageInvalid ("manifest format version " ++ dec_string (format_version m)
         ++ " does not match tap envelope version " ++ dec_string envelope_version))
  else if negb (semver_valid (runtime_version m))
  then Err (PackageInvalid "runtime version is not valid semantic versioning")
  else if negb (String.eqb (execution_profile m) "service" || String.eqb (execution_profile m) "isolated"
                || String.eqb (execution_profile m) "component")
  then Err (PackageInvalid "unsupported execution profile")
  else Ok ().

Definition component_name_byte (c : ascii) : bool :=
  is_ascii_alphanumeric c || Ascii.eqb c "-" || Ascii.eqb c "_".

Fixpoint validate_aots (l : list PackagedAot) : result PackageError () :=
  match l with
  | [] => Ok ()
  | a :: l' =>
      if str_is_empty (aot_target a) || (128 <? len (aot_target a)) || str_is_empty (aot_wasmtime_version a)
         || (64 <? len (aot_wasmtime_version a))
      then Err (PackageInvalid "invalid component AOT metadata") else validate_aots l'
  end.

(** The loop of [validate_components], with the set of names seen. *)
Fixpoint validate_each (names : list string) (cs : list PackagedComponent) : result PackageError () :=
  match cs with
  | [] => Ok ()
  | c :: cs' =>
      if str_is_empty (pc_name c) || (128 <? len (pc_name c)) || negb (str_all component_name_byte (pc_name c))
      then Err (PackageInvalid "invalid packaged component name")
      else if bool_decide (pc_name c ∈ names) then Err (PackageInvalid "duplicate packaged component name")
      else if negb (String.eqb (pc_abi_version c) COMPONENT_ABI_VERSION)
      then Err (PackageInvalid ("unsupported component ABI version " ++ pc_abi_version c
             ++ "; expected " ++ COMPONENT_ABI_VERSION))
      else if MAX_AOT_ARTIFACTS_PER_COMPONENT <? vec_len (pc_aot c)
      then Err (PackageInvalid "too many AOT artifacts for packaged component")
      else
        validate_aots (pc_aot c);;
        validate_each (pc_name c :: names) cs'
  end.

Definition validate_components (cs : list PackagedComponent) : result PackageError () :=
  if MAX_PACKAGED_COMPONENTS <? vec_len cs then Err (PackageInvalid "too many packaged components")
  else validate_each [] cs.

(** ** Component data *)

(** [append_blob]: lengths of in-memory data fit 64 bits. *)
Definition append_blob (data bytes : string) : BlobIndex * string :=
  ({| blob_offset := len data; blob_length := len bytes; blob_sha256 := bundle_hash bytes |}, (data ++ bytes)%string).

Fixpoint append_aots (data : string) (l : list PackagedAot) : list AotIndexEntry * string :=
  match l with
  | [] => ([], data)
  | a :: l' =>
      let '(blob, data1) := append_blob data (aot_bytes a) in
      let '(rest, data2) := append_aots data1 l' in
      ({| ai_target := aot_target a; ai_wasmtime_version := aot_wasmtime_version a;
          ai_engine_hash := aot_engine_hash a; ai_source_sha256 := aot_source_sha256 a;
          ai_blob := blob |} :: rest, data2)
  end.

Fixpoint append_components (data : string) (cs : list PackagedComponent)
    : list ComponentIndexEntry * string :=
  match cs with
  | [] => ([], data)
  | c :: cs' =>
      let '(source, data1) := append_blob data (pc_source c) in
      let '(aot, data2) := append_aots data1 (pc_aot c) in
      let '(rest, data3) := append_components data2 cs' in
      ({| ce_name := pc_name c; ce_abi_version := pc_abi_version c; ce_source := source; ce_aot := aot |} :: rest,
       data3)
  end.

Definition encode_components (cs : list PackagedComponent) : result PackageError (string * string) :=
  let '(entries, data) := append_components EmptyString cs in
  index ← map_err PackageJson (index_to_vec {| ci_components := entries |});
  if MAX_COMPONENT_INDEX_BYTES <? len index
  then Err (PackageInvalid "component index exceeds size limit")
  else Ok (index, data).

(** [data.get(offset..end)] *)
Definition slice_get (data : string) (start stop : Z) : option string :=
  if (start <=? stop) && (stop <=? len data)
  then Some (str_take (Z.to_nat (stop - start)) (str_drop (Z.to_nat start) data)) else None.

Definition read_blob (data : string) (b : BlobIndex) : result PackageError string :=
  stop ← ok_or (checked_add u64_max (blob_offset b) (blob_length b)) (PackageInvalid "component data range overflow");
  bytes ← ok_or (slice_get data (blob_offset b) stop) (PackageInvalid "component data range is out of bounds");
  if negb (String.eqb (bundle_hash bytes) (blob_sha256 b))
  then Err (PackageInvalid "component blob hash mismatch") else Ok bytes.

Fixpoint read_aots (data : string) (l : list AotIndexEntry) : result PackageError (list PackagedAot) :=
  match l with
  | [] => Ok []
  | a :: l' =>
      bytes ← read_blob data (ai_blob a);
      rest ← read_aots data l';
      Ok ({| aot_target := ai_target a; aot_wasmtime_version := ai_wasmtime_version a;
             aot_engine_hash := ai_engine_hash a; aot_source_sha256 := ai_source_sha256 a;
             aot_bytes := bytes |} :: rest)
  end.

Fixpoint read_components (data : string) (l : list ComponentIndexEntry)
    : result PackageError (list PackagedComponent) :=
  match l with
  | [] => Ok []
  | e :: l' =>
      if MAX_AOT_ARTIFACTS_PER_COMPONENT <? vec_len (ce_aot e)
      then Err (PackageInvalid "too many AOT artifacts for packaged component")
      else
        source ← read_blob data (ce_source e);
        aot ← read_aots data (ce_aot e);
        rest ← read_components data l';
        Ok ({| pc_name := ce_name e; pc_abi_version := ce_abi_version e; pc_source := source; pc_aot := aot |} :: rest)
  end.

Definition decode_components (index data : string) : result PackageError (list PackagedComponent) :=
  i ← map_err PackageJson (index_from_slice index);
  if MAX_PACKAGED_COMPONENTS <? vec_len (ci_components i)
  then Err (PackageInvalid "too many packaged components")
  else
    cs ← read_components data (ci_components i);
    validate_components cs;;
    Ok cs.

(** ** The payload *)

(** [take]: the cursor is the state. *)
Definition take_bytes (n : Z) : M string PackageError string := fun rest =>
  if len rest <? n then (Err (PackageInvalid "truncated tap payload"), rest)
  else (Ok (str_take (Z.to_nat n) rest), str_drop (Z.to_nat n) rest).

Definition read_version : M string PackageError Z := b ← take_bytes 4; mret (from_le_bytes b).
Definition read_usize : M string PackageError Z := b ← take_bytes 8; mret (from_le_bytes b).

Definition expected_len (lens : list Z) : option Z :=
  foldl (fun acc n => a ← acc; checked_add u64_max a n) (Some 52) lens.

Definition encode (t : Tap) : result PackageError string :=
  validate_manifest_contract (tap_manifest t) TAP_VERSION;;
  validate_components (tap_components t);;
  manifest ← map_err PackageJson (manifest_to_vec (tap_manifest t));
  components ← encode_components (tap_components t);
  let '(index, data) := components in
  total ← ok_or (expected_len [len manifest; len (tap_bundle t); len (tap_source_map t); len index; len data])
            (PackageInvalid "tap payload length overflow");
  if MAX_TAP_PAYLOAD_BYTES <? total then Err (PackageInvalid "tap payload exceeds size limit")
  else Ok (TAP_MAGIC ++ to_le_bytes 4 TAP_VERSION ++ to_le_bytes 8 (len manifest)
           ++ to_le_bytes 8 (len (tap_bundle t)) ++ to_le_bytes 8 (len (tap_source_map t))
           ++ to_le_bytes 8 (len index) ++ to_le_bytes 8 (len data)
           ++ manifest ++ tap_bundle t ++ tap_source_map t ++ index ++ data)%string.

(** The header and the five sections, as [decode] cuts them. *)
Record Sections := {
  sec_version : Z; sec_manifest : string; sec_bundle : string; sec_source_map : string;
  sec_index : string; sec_data : string }.

Definition read_sections : M string PackageError Sections :=
  magic ← take_bytes 8;
  if negb (String.eqb magic TAP_MAGIC) then throw (PackageInvalid "missing TYSELTAP magic")
  else
    version ← read_version;
    if negb (in_range MIN_SUPPORTED_TAP_VERSION TAP_VERSION version) then throw (PackageVersion version)
    else
      manifest_len ← read_usize;
      bundle_len ← read_usize;
      source_map_len ← read_usize;
      lens ← (if 2 <=? version then a ← read_usize; b ← read_usize; mret (a, b) else mret (0, 0));
      if MAX_COMPONENT_INDEX_BYTES <? lens.1
      then throw (PackageInvalid "component index exceeds size limit")
      else
        manifest ← take_bytes manifest_len;
        bundle ← take_bytes bundle_len;
        source_map ← take_bytes source_map_len;
        index ← take_bytes lens.1;
        data ← take_bytes lens.2;
        mret {| sec_version := version; sec_manifest := manifest; sec_bundle := bundle;
                sec_source_map := source_map; sec_index := index; sec_data := data |}.

Definition decode (bytes : string) : result PackageError Tap :=
  if MAX_TAP_PAYLOAD_BYTES <? len bytes then Err (PackageInvalid "tap payload exceeds size limit")
  else
    let '(r, rest) := read_sections bytes in
    s ← r;
    if negb (str_is_empty rest) then Err (PackageInvalid "trailing bytes inside tap payload")
    else
      m ← map_err PackageJson (manifest_from_slice (sec_manifest s));
      validate_manifest_contract m (sec_version s);;
      if negb (String.eqb (pm_bundle_hash m) (bundle_hash (sec_bundle s)))
      then Err (PackageInvalid "bundle hash mismatch")
      else
        cs ← (if 2 <=? sec_version s then decode_components (sec_index s) (sec_data s) else Ok []);
        Ok {| tap_manifest := m; tap_bundle := sec_bundle s; tap_source_map := sec_source_map s;
              tap_components := cs |}.

(** ** Executables *)

Definition embed_into (t : Tap) (stub : string) : result PackageError string :=
  payload ← encode t;
  Ok (stub ++ payload ++ to_le_bytes 8 (len payload) ++ END_MAGIC)%string.

Definition extract (bytes : string) : result PackageError Tap :=
  if len bytes <? 16 then Err MissingPayload
  else
    let footer := len bytes - 16 in
    if negb (String.eqb (str_drop (Z.to_nat (footer + 8)) bytes) END_MAGIC) then Err MissingPayload
    else
      let payload_len := from_le_bytes (str_take 8 (str_drop (Z.to_nat footer) bytes)) in
      if MAX_TAP_PAYLOAD_BYTES <? payload_len then Err (PackageInvalid "tap payload exceeds size limit")
      else if footer <? payload_len then Err (PackageInvalid "payload length exceeds file")
      else
        let start := footer - payload_len in
        decode (str_take (Z.to_nat payload_len) (str_drop (Z.to_nat start) bytes)).

(** An open [File]: its bytes and the cursor. A seek before the start of the
    file is an error of the operating system; [from_path] never does one. *)
Record OpenFile := { file_bytes : string; file_pos : Z }.

Definition seek (pos : Z) : M OpenFile PackageError () := fun f =>
  (Ok (), {| file_bytes := file_bytes f; file_pos := pos |}).
Definition file_read_exact (n : Z) : M OpenFile PackageError string := fun f =>
  let '(r, _) := read_exact n (str_drop (Z.to_nat (file_pos f)) (file_bytes f)) in
  (map_err PackageIo r, {| file_bytes := file_bytes f; file_pos := Z.min (file_pos f + n) (len (file_bytes f)) |}).

(** [Tap::from_path], once the file is open. *)
Definition read_file (file_len : Z) : M OpenFile PackageError Tap :=
  if file_len <? 16 then throw MissingPayload
  else
    seek (file_len - 16);;
    footer ← file_read_exact 16;
    if negb (String.eqb (str_drop 8 footer) END_MAGIC) then throw MissingPayload
    else
      let payload_len := from_le_bytes (str_take 8 footer) in
      if MAX_TAP_PAYLOAD_BYTES <? payload_len then throw (PackageInvalid "tap payload exceeds size limit")
      else
        let prefix_len := file_len - 16 in
        if prefix_len <? payload_len then throw (PackageInvalid "payload length exceeds file")
        else
          seek (prefix_len - payload_len);;
          payload ← file_read_exact payload_len;
          lift (decode payload).

Definition from_path (contents : string) : result PackageError Tap :=
  (read_file (len contents) {| file_bytes := contents; file_pos := 0 |}).1.

(** ** Compatibility report *)

Inductive TapCompatibilityStatus := Current | Legacy | UnsupportedOlder | UnsupportedNewer | TapInvalid.

Record TapCompatibilityReport := {
  report_version : Z; compatible : bool; status : TapCompatibilityStatus; report_tap_version : option Z;
  minimum_supported_tap_version : Z; maximum_supported_tap_version : Z;
  report_runtime_version : option string; report_execution_profile : option string;
  component_abi_versions : list string; issues : list string }.

Definition bounded_compatibility_issue (issue : string) : string :=
  if MAX_COMPATIBILITY_ISSUE_BYTES <? len issue
  then str_take (boundary_at_most issue (Z.to_nat MAX_COMPATIBILITY_ISSUE_BYTES)) issue else issue.

(** [collect::<BTreeSet<_>>()]: in order, without duplicates. *)
Fixpoint btree_insert (x : string) (l : list string) : list string :=
  match l with
  | [] => [x]
  | y :: l' => match String.compare x y with
               | Lt => x :: l
               | Eq => l
               | Gt => y :: btree_insert x l'
               end
  end.
Definition btree_set (l : list string) : list string := foldl (fun acc x => btree_insert x acc) [] l.

Definition report (version : option Z) (s : TapCompatibilityStatus) (t : option Tap) (l : list string)
    : TapCompatibilityReport := {|
  report_version := TAP_COMPATIBILITY_REPORT_VERSION;
  compatible := match s with Current | Legacy => true | _ => false end;
  status := s; report_tap_version := version;
  minimum_supported_tap_version := MIN_SUPPORTED_TAP_VERSION;
  maximum_supported_tap_version := TAP_VERSION;
  report_runtime_version := (fun t => runtime_version (tap_manifest t)) <$> t;
  report_execution_profile := (fun t => execution_profile (tap_manifest t)) <$> t;
  component_abi_versions := btree_set (from_option (fun t => pc_abi_version <$> tap_components t) [] t);
  issues := bounded_compatibility_issue <$> l |}.

Definition tap_version (bytes : string) : result PackageError Z :=
  ((magic ← take_bytes 8;
    if negb (String.eqb magic TAP_MAGIC) then throw (PackageInvalid "missing TYSELTAP magic")
    else read_version) bytes).1.

Definition compatibility_report (bytes : string) : TapCompatibilityReport :=
  match tap_version bytes with
  | Err e => report None TapInvalid None [PackageError_to_string e]
  | Ok version =>
      if version <? MIN_SUPPORTED_TAP_VERSION
      then report (Some version) UnsupportedOlder None
             ["tap version " ++ dec_string version ++ " predates minimum supported version "
              ++ dec_string MIN_SUPPORTED_TAP_VERSION]%string
      else if TAP_VERSION <? version
      then report (Some version) UnsupportedNewer None
             ["tap version " ++ dec_string version ++ " exceeds maximum supported version "
              ++ dec_string TAP_VERSION]%string
      else
        match decode bytes with
        | Ok t => report (Some version) (if version =? TAP_VERSION then Current else Legacy) (Some t) []
        | Err e => report (Some version) TapInvalid None [PackageError_to_string e]
        end
  end.

End Tap.
