(* ===== verification/TapThms.v ===== *)
(** * Correctness of the package format

    Encoding then decoding, alone or embedded in an executable, gives the
    package back; the compatibility report agrees with the decoder. *)

From Stdlib Require Import ZArith Lia Ascii String.
From stdpp Require Import base tactics list strings.
From S2P Require Import Prelude Bytes DurableTypes Tap.
Open Scope Z_scope.
#[local] Arguments to_le_bytes : simpl never.
#[local] Arguments append : simpl never.

Lemma take_bytes_len a rest : take_bytes (len a) (a ++ rest)%string = (Ok a, rest).
Proof.
  unfold take_bytes. rewrite len_append. pose proof (len_nonneg rest).
  destruct (Z.ltb_spec (len a + len rest) (len a)); [lia|]. unfold len. rewrite Nat2Z.id.
  by rewrite str_take_append, str_drop_append.
Qed.

Lemma take_bytes_fixed n a rest :
  String.length a = Z.to_nat n -> 0 <= n -> take_bytes n (a ++ rest)%string = (Ok a, rest).
Proof. intros H Hn. replace n with (len a) by (unfold len; lia). apply take_bytes_len. Qed.

Lemma read_usize_len v rest : 0 <= v <= u64_max -> read_usize (to_le_bytes 8 v ++ rest)%string = (Ok v, rest).
Proof.
  intros Hv. unfold read_usize. unfold_monad. rewrite (take_bytes_fixed 8) by (rewrite ?to_le_bytes_length; done).
  rewrite from_to_le_bytes by (unfold u64_max in Hv; simpl; lia). done.
Qed.

Lemma read_version_current rest : read_version (to_le_bytes 4 TAP_VERSION ++ rest)%string = (Ok TAP_VERSION, rest).
Proof.
  unfold read_version. unfold_monad. rewrite (take_bytes_fixed 4) by (rewrite ?to_le_bytes_length; done). done.
Qed.

Section TapThms.
Context {TS : TapSerde} {SH : Sha256}.

(** ** Component data *)

Lemma slice_get_middle a b c : slice_get (a ++ b ++ c)%string (len a) (len a + len b) = Some b.
Proof.
  unfold slice_get. rewrite !len_append. pose proof (len_nonneg b). pose proof (len_nonneg c).
  destruct (Z.leb_spec (len a) (len a + len b)); [|lia].
  destruct (Z.leb_spec (len a + len b) (len a + (len b + len c))); [|lia]. simpl.
  replace (Z.to_nat (len a + len b - len a)) with (String.length b) by (unfold len; lia).
  unfold len. rewrite Nat2Z.id. by rewrite str_drop_append, str_take_append.
Qed.

(** A blob is read back from data that still has it at its place. *)
Lemma read_blob_back data bytes more b data' :
  append_blob data bytes = (b, data') -> len (data' ++ more)%string <= u64_max ->
  data' = (data ++ bytes)%string /\ read_blob (data' ++ more)%string b = Ok bytes.
Proof.
  intros [= <- <-] Hl. split; [done|]. unfold read_blob. cbn [blob_offset blob_length blob_sha256].
  rewrite !len_append in Hl. pose proof (len_nonneg more).
  rewrite (proj2 (checked_add_Some _ _ _ (len data + len bytes))) by (split; [done|lia]). simpl.
  rewrite append_assoc, slice_get_middle. simpl. by rewrite String.eqb_refl.
Qed.

Lemma append_aots_spec l : forall data entries data' more,
  append_aots data l = (entries, data') -> len (data' ++ more)%string <= u64_max ->
  exists suffix, data' = (data ++ suffix)%string /\ length entries = length l
    /\ read_aots (data' ++ more)%string entries = Ok l.
Proof.
  induction l as [|a l IH]; intros data entries data' more; cbn [append_aots].
  { intros [= <- <-] _. exists EmptyString. by rewrite append_nil_r. }
  destruct (append_blob data (aot_bytes a)) as [blob data1] eqn:Eb.
  destruct (append_aots data1 l) as [rest data2] eqn:El. intros [= <- <-] Hl.
  destruct (IH _ _ _ _ El Hl) as (suffix & -> & Hn & Hr).
  destruct (read_blob_back data (aot_bytes a) (suffix ++ more)%string blob data1 Eb) as [-> Hb].
  { by rewrite <-append_assoc. }
  exists (aot_bytes a ++ suffix)%string. repeat rewrite append_assoc in *. split; [done|].
  split; [simpl; by rewrite Hn|]. cbn [read_aots ai_blob]. rewrite Hb. simpl. rewrite Hr. simpl. by destruct a.
Qed.

Lemma append_components_spec cs : forall data entries data' more,
  append_components data cs = (entries, data') -> len (data' ++ more)%string <= u64_max ->
  Forall (fun c => vec_len (pc_aot c) <= MAX_AOT_ARTIFACTS_PER_COMPONENT) cs ->
  exists suffix, data' = (data ++ suffix)%string /\ length entries = length cs
    /\ read_components (data' ++ more)%string entries = Ok cs.
Proof.
  induction cs as [|c cs IH]; intros data entries data' more; cbn [append_components].
  { intros [= <- <-] _ _. exists EmptyString. by rewrite append_nil_r. }
  destruct (append_blob data (pc_source c)) as [source data1] eqn:Eb.
  destruct (append_aots data1 (pc_aot c)) as [aot data2] eqn:Ea.
  destruct (append_components data2 cs) as [rest data3] eqn:El. intros [= <- <-] Hl [Hc HF]%Forall_cons.
  destruct (IH _ _ _ _ El Hl HF) as (s2 & -> & Hn & Hr).
  destruct (append_aots_spec (pc_aot c) data1 aot data2 (s2 ++ more)%string Ea) as (s1 & -> & Hna & Hra).
  { by rewrite <-append_assoc. }
  destruct (read_blob_back data (pc_source c) (s1 ++ s2 ++ more)%string source data1 Eb) as [-> Hb].
  { by rewrite <-!append_assoc. }
  exists (pc_source c ++ s1 ++ s2)%string. repeat rewrite append_assoc in *. split; [done|].
  split; [simpl; by rewrite Hn|].
  cbn [read_components ce_aot ce_source]. unfold vec_len in *. rewrite Hna.
  destruct (Z.ltb_spec MAX_AOT_ARTIFACTS_PER_COMPONENT (Z.of_nat (length (pc_aot c)))); [lia|].
  rewrite Hb. simpl. rewrite Hra. simpl. rewrite Hr. simpl. by destruct c.
Qed.

(** ** The payload *)

Lemma take_bytes_end a : take_bytes (len a) a = (Ok a, EmptyString).
Proof. rewrite <-(append_nil_r a) at 2. apply take_bytes_len. Qed.

Lemma read_sections_back m b s i d :
  Forall (fun x => len x <= u64_max) [m; b; s; i; d] -> len i <= MAX_COMPONENT_INDEX_BYTES ->
  read_sections (TAP_MAGIC ++ to_le_bytes 4 TAP_VERSION ++ to_le_bytes 8 (len m)
    ++ to_le_bytes 8 (len b) ++ to_le_bytes 8 (len s) ++ to_le_bytes 8 (len i) ++ to_le_bytes 8 (len d)
    ++ m ++ b ++ s ++ i ++ d)%string
  = (Ok {| sec_version := TAP_VERSION; sec_manifest := m; sec_bundle := b; sec_source_map := s;
           sec_index := i; sec_data := d |}, EmptyString).
Proof.
  intros HF Hix. assert (forall x, x ∈ [m; b; s; i; d] -> 0 <= len x <= u64_max) as HL.
  { intros x Hx. rewrite Forall_forall in HF. split; [apply len_nonneg|by apply HF]. }
  unfold read_sections. unfold_monad. rewrite (take_bytes_fixed 8 TAP_MAGIC) by done.
  rewrite String.eqb_refl. cbn beta iota delta [negb]. rewrite read_version_current.
  change (in_range MIN_SUPPORTED_TAP_VERSION TAP_VERSION TAP_VERSION) with true.
  change (2 <=? TAP_VERSION) with true. cbn beta iota delta [negb].
  do 5 (rewrite read_usize_len by (apply HL; repeat constructor); cbn beta iota). cbn [fst snd].
  destruct (Z.ltb_spec MAX_COMPONENT_INDEX_BYTES (len i)); [lia|].
  do 4 (rewrite take_bytes_len; cbn beta iota). by rewrite take_bytes_end.
Qed.

Lemma Ok_inj {E A} (a b : A) : @Ok E A a = Ok b -> a = b.
Proof. congruence. Qed.

Lemma len_to_le n v : len (to_le_bytes n v) = Z.of_nat n.
Proof. unfold len. by rewrite to_le_bytes_length. Qed.

Lemma expected_len_None lens : foldl (fun acc n => a ← acc; checked_add u64_max a n) None lens = None.
Proof. by induction lens. Qed.

Lemma expected_len_fold lens a total :
  foldl (fun acc n => a ← acc; checked_add u64_max a n) (Some a) lens = Some total ->
  total = foldl Z.add a lens /\ (a <= u64_max -> total <= u64_max).
Proof.
  revert a. induction lens as [|n lens IH]; intros a H; cbn [foldl] in *.
  - by injection H as <-.
  - unfold mbind at 2, option_bind at 2 in H. destruct (checked_add u64_max a n) as [b|] eqn:E.
    + apply checked_add_Some in E as [-> ?]. destruct (IH _ H). split; [done|auto].
    + by rewrite expected_len_None in H.
Qed.

Lemma expected_len_Some a b c e f total :
  expected_len [a; b; c; e; f] = Some total -> total = 52 + a + b + c + e + f /\ total <= u64_max.
Proof.
  intros H. apply expected_len_fold in H as [-> H]. cbn [foldl] in *. split; [done|apply H; done].
Qed.

Lemma validate_each_aots names cs :
  validate_each names cs = Ok () -> Forall (fun c => vec_len (pc_aot c) <= MAX_AOT_ARTIFACTS_PER_COMPONENT) cs.
Proof.
  revert names. induction cs as [|c cs IH]; intros names; simpl; [constructor|].
  repeat (case_match; [done|]). destruct (validate_aots (pc_aot c)); [|done].
  intros H'. constructor; [lia|by eapply IH].
Qed.

Lemma encode_decode_components `{!TapSerdeLaws TS} cs index data :
  validate_components cs = Ok () -> encode_components cs = Ok (index, data) -> len data <= u64_max ->
  decode_components index data = Ok cs /\ len index <= MAX_COMPONENT_INDEX_BYTES.
Proof.
  intros Hv. unfold encode_components. destruct (append_components EmptyString cs) as [entries d] eqn:Ea.
  destruct (index_to_vec _) as [i|] eqn:Ei; simpl; [|done].
  destruct (Z.ltb_spec MAX_COMPONENT_INDEX_BYTES (len i)); [done|]. intros [= -> ->] Hl. split; [|done].
  pose proof Hv as Hv'. unfold validate_components in Hv'. case_match; [done|].
  destruct (append_components_spec cs EmptyString entries data EmptyString Ea) as (suffix & _ & Hn & Hr).
  { by rewrite append_nil_r. }
  { by eapply validate_each_aots. }
  rewrite append_nil_r in Hr. unfold decode_components. rewrite (index_roundtrip _ _ Ei). simpl.
  unfold vec_len in *. rewrite Hn.
  destruct (Z.ltb_spec MAX_PACKAGED_COMPONENTS (Z.of_nat (length cs))); [done|]. rewrite Hr. simpl. by rewrite Hv.
Qed.

(** [encode] takes the hash of the manifest as it is; a reader compares it. *)
Definition hash_checked (t : Tap) : result PackageError Tap :=
  if String.eqb (pm_bundle_hash (tap_manifest t)) (bundle_hash (tap_bundle t)) then Ok t
  else Err (PackageInvalid "bundle hash mismatch").

Lemma decode_encode `{!TapSerdeLaws TS} t bytes :
  encode t = Ok bytes -> decode bytes = hash_checked t /\ len bytes <= MAX_TAP_PAYLOAD_BYTES.
Proof.
  unfold encode. destruct (validate_manifest_contract _ _) as [[]|] eqn:Hm; simpl; [|done].
  destruct (validate_components _) as [[]|] eqn:Hc; simpl; [|done].
  destruct (manifest_to_vec _) as [m|] eqn:Em; simpl; [|done].
  destruct (encode_components _) as [[i d]|] eqn:Ec; [|done]. unfold mbind at 1, result_bind at 1. cbn beta iota.
  destruct (expected_len _) as [total|] eqn:Et; [|done]. apply expected_len_Some in Et as [Et Hu].
  unfold mbind at 1, result_bind at 1. cbn beta iota delta [ok_or].
  destruct (Z.ltb_spec MAX_TAP_PAYLOAD_BYTES total) as [|Hle]; [done|]. intros E.
  assert (forall x, x ∈ [m; tap_bundle t; tap_source_map t; i; d] -> len x <= u64_max) as HL.
  { pose proof (len_nonneg m). pose proof (len_nonneg (tap_bundle t)). pose proof (len_nonneg (tap_source_map t)).
    pose proof (len_nonneg i). pose proof (len_nonneg d). intros x Hx. rewrite !elem_of_cons in Hx.
    destruct Hx as [->|[->|[->|[->|[->|Hx]]]]]; [lia..|]. by apply elem_of_nil in Hx. }
  destruct (encode_decode_components _ _ _ Hc Ec) as [Hd Hix]; [apply HL; repeat constructor|].
  apply Ok_inj in E.
  assert (len bytes = total) as Hlen.
  { rewrite <-E, !len_append, !len_to_le. change (len TAP_MAGIC) with 8. lia. }
  rewrite Hlen. split; [|done]. unfold decode. rewrite Hlen.
  destruct (Z.ltb_spec MAX_TAP_PAYLOAD_BYTES total); [lia|].
  assert (read_sections bytes = (Ok {| sec_version := TAP_VERSION; sec_manifest := m; sec_bundle := tap_bundle t;
    sec_source_map := tap_source_map t; sec_index := i; sec_data := d |}, EmptyString)) as ->.
  { rewrite <-(read_sections_back m (tap_bundle t) (tap_source_map t) i d); [by rewrite E| |done].
    apply Forall_forall. exact HL. }
  unfold mbind, result_bind. cbn [sec_manifest str_is_empty negb]. rewrite (manifest_roundtrip _ _ Em).
  cbn [map_err sec_version]. rewrite Hm. unfold hash_checked. cbn [sec_bundle].
  destruct (String.eqb (pm_bundle_hash _) _); cbn [negb]; [|done].
  change (2 <=? TAP_VERSION) with true. cbn [sec_index sec_data sec_bundle sec_source_map]. rewrite Hd. by destruct t.
Qed.

(** ** Executables *)

Lemma footer_split bytes :
  16 <= len bytes -> exists prefix num magic,
    bytes = (prefix ++ num ++ magic)%string /\ len num = 8 /\ len magic = 8
    /\ str_drop (Z.to_nat (len bytes - 16)) bytes = (num ++ magic)%string /\ len prefix = len bytes - 16.
Proof.
  intros H. set (k := Z.to_nat (len bytes - 16)).
  exists (str_take k bytes), (str_take 8 (str_drop k bytes)), (str_drop 8 (str_drop k bytes)).
  assert (String.length (str_take k bytes) = k) as Hk.
  { rewrite str_take_length. unfold k, len in *. lia. }
  assert (String.length (str_drop k bytes) = 16%nat) as Hd.
  { pose proof (f_equal String.length (str_take_drop k bytes)) as E. rewrite append_length in E.
    rewrite Hk in E. unfold k, len in *. lia. }
  rewrite !str_take_drop. unfold len. rewrite Hk, str_take_length, Hd.
  pose proof (f_equal String.length (str_take_drop 8 (str_drop k bytes))) as E.
  rewrite append_length, str_take_length, Hd in E. unfold k, len in *. split_and!; [done|lia..|done|lia].
Qed.

(** Both readers of an executable see the same prefix, length and magic. *)
Lemma extract_parts prefix num magic :
  len num = 8 -> len magic = 8 ->
  extract (prefix ++ num ++ magic)%string =
    if negb (String.eqb magic END_MAGIC) then Err MissingPayload
    else if MAX_TAP_PAYLOAD_BYTES <? from_le_bytes num then Err (PackageInvalid "tap payload exceeds size limit")
    else if len prefix <? from_le_bytes num then Err (PackageInvalid "payload length exceeds file")
    else decode (str_drop (Z.to_nat (len prefix - from_le_bytes num)) prefix).
Proof.
  intros Hn Hm. unfold extract. rewrite !len_append, Hn, Hm. pose proof (len_nonneg prefix).
  destruct (Z.ltb_spec (len prefix + (8 + 8)) 16); [lia|].
  replace (Z.to_nat (len prefix + (8 + 8) - 16 + 8)) with (String.length (prefix ++ num)) by
    (rewrite append_length; unfold len in *; lia).
  replace (Z.to_nat (len prefix + (8 + 8) - 16)) with (String.length prefix) by (unfold len; lia).
  rewrite <-(append_assoc prefix), str_drop_append, append_assoc, str_drop_append.
  replace 8%nat with (String.length num) by (unfold len in Hn; lia). rewrite str_take_append.
  replace (len prefix + (8 + 8) - 16) with (len prefix) by lia.
  do 3 (case_match; [done|]). f_equal. pose proof (from_le_bytes_range num).
  rewrite str_drop_append_le by (unfold len; lia).
  apply str_take_append_exact. rewrite str_drop_length. unfold len in *. lia.
Qed.

Lemma from_path_parts prefix num magic :
  len num = 8 -> len magic = 8 ->
  from_path (prefix ++ num ++ magic)%string = extract (prefix ++ num ++ magic)%string.
Proof.
  intros Hn Hm. rewrite extract_parts by done. unfold from_path, read_file, seek, file_read_exact, lift, throw.
  rewrite !len_append, Hn, Hm. pose proof (len_nonneg prefix).
  destruct (Z.ltb_spec (len prefix + (8 + 8)) 16); [lia|].
  replace (len prefix + (8 + 8) - 16) with (len prefix) by lia. unfold_monad. cbn [file_bytes file_pos].
  replace (Z.to_nat (len prefix)) with (String.length prefix) by (unfold len; lia). rewrite str_drop_append.
  rewrite <-(append_nil_r (num ++ magic)%string), (read_exact_append (num ++ magic)) by (rewrite len_append; lia).
  cbn [map_err]. rewrite append_nil_r. replace 8%nat with (String.length num) by (unfold len in Hn; lia).
  rewrite str_take_append, str_drop_append.
  do 3 (case_match; [done|]). cbn [file_bytes file_pos]. pose proof (from_le_bytes_range num).
  rewrite str_drop_append_le by (unfold len; lia).
  rewrite read_exact_append by (unfold len in *; rewrite str_drop_length; lia). done.
Qed.

Lemma from_path_eq bytes : from_path bytes = extract bytes.
Proof.
  destruct (Z.ltb_spec (len bytes) 16) as [Hl|Hl].
  - unfold from_path, read_file, extract. apply Z.ltb_lt in Hl. by rewrite Hl.
  - destruct (footer_split bytes Hl) as (prefix & num & magic & -> & Hn & Hm & _). by apply from_path_parts.
Qed.

Lemma extract_embed stub payload :
  len payload <= MAX_TAP_PAYLOAD_BYTES ->
  extract (stub ++ payload ++ to_le_bytes 8 (len payload) ++ END_MAGIC)%string = decode payload.
Proof.
  intros Hl. pose proof (len_nonneg payload). rewrite <-append_assoc.
  rewrite extract_parts by (rewrite ?len_to_le; done).
  rewrite from_to_le_bytes by (unfold MAX_TAP_PAYLOAD_BYTES in Hl; simpl; lia). rewrite String.eqb_refl, len_append.
  pose proof (len_nonneg stub). cbn [negb].
  destruct (Z.ltb_spec MAX_TAP_PAYLOAD_BYTES (len payload)); [lia|].
  destruct (Z.ltb_spec (len stub + len payload) (len payload)); [lia|].
  replace (Z.to_nat (len stub + len payload - len payload)) with (String.length stub) by (unfold len; lia).
  by rewrite str_drop_append.
Qed.

(** ** The report *)

Lemma read_sections_version bytes s rest :
  read_sections bytes = (Ok s, rest) ->
  tap_version bytes = Ok (sec_version s) /\ MIN_SUPPORTED_TAP_VERSION <= sec_version s <= TAP_VERSION.
Proof.
  unfold read_sections, tap_version. unfold_monad.
  destruct (take_bytes 8 bytes) as [[magic|] r0]; [|done]. destruct (negb (magic =? TAP_MAGIC)%string); [done|].
  destruct (read_version r0) as [[v|] r1]; [|done].
  destruct (in_range MIN_SUPPORTED_TAP_VERSION TAP_VERSION v) eqn:Hr; [|done]. apply in_range_spec in Hr.
  cbn [negb]. repeat (case_match; simplify_eq; try done). all: intros [= <- <-]; done.
Qed.

Lemma decode_version bytes t :
  decode bytes = Ok t ->
  tap_version bytes = Ok (format_version (tap_manifest t))
  /\ MIN_SUPPORTED_TAP_VERSION <= format_version (tap_manifest t) <= TAP_VERSION.
Proof.
  unfold decode. case_match; [done|]. destruct (read_sections bytes) as [[s|] rest] eqn:E; [|done].
  apply read_sections_version in E as [Hv Hr]. cbn [mbind result_bind]. case_match; [done|].
  destruct (manifest_from_slice _) as [m|]; [|done]. cbn [map_err mbind result_bind].
  unfold validate_manifest_contract. destruct (Z.eqb_spec (format_version m) (sec_version s)) as [He|]; [|done].
  cbn [negb]. unfold mbind, result_bind. repeat (case_match; try done).
  all: intros [= <-]; cbn [tap_manifest]; by rewrite He.
Qed.

Lemma bounded_issue_len issue : len (bounded_compatibility_issue issue) <= MAX_COMPATIBILITY_ISSUE_BYTES.
Proof.
  unfold bounded_compatibility_issue. destruct (Z.ltb_spec MAX_COMPATIBILITY_ISSUE_BYTES (len issue)); [|lia].
  destruct (boundary_at_most_spec issue (Z.to_nat MAX_COMPATIBILITY_ISSUE_BYTES)) as [Hb _].
  unfold len at 1. rewrite str_take_length. unfold MAX_COMPATIBILITY_ISSUE_BYTES in *. lia.
Qed.

(** The compatibility report of any bytes agrees with the decoder: it says
    compatible exactly when [decode] succeeds, then names the version and the
    runtime of the decoded package and lists no issue; otherwise it lists one
    issue of at most 512 bytes. *)
Theorem compatibility_report_agrees bytes :
  let r := compatibility_report bytes in
  match decode bytes with
  | Ok t => compatible r = true /\ issues r = []
      /\ report_tap_version r = Some (format_version (tap_manifest t))
      /\ report_runtime_version r = Some (runtime_version (tap_manifest t))
      /\ (status r = Current <-> format_version (tap_manifest t) = TAP_VERSION)
  | Err _ => compatible r = false /\ report_runtime_version r = None
      /\ exists issue, issues r = [issue] /\ len issue <= MAX_COMPATIBILITY_ISSUE_BYTES
  end.
Proof.
  unfold compatibility_report. destruct (decode bytes) as [t|e] eqn:Hd.
  - destruct (decode_version _ _ Hd) as [-> Hr].
    destruct (Z.ltb_spec (format_version (tap_manifest t)) MIN_SUPPORTED_TAP_VERSION); [lia|].
    destruct (Z.ltb_spec TAP_VERSION (format_version (tap_manifest t))); [lia|].
    destruct (Z.eqb_spec (format_version (tap_manifest t)) TAP_VERSION); split_and!; try done; naive_solver.
  - repeat case_match; split_and!; try done; eexists; (split; [reflexivity|apply bounded_issue_len]).
Qed.

(** Reading a packaged executable from disk ([Tap::from_path]: three seeks
    and reads) and from memory ([Tap::extract]) give the same package or the
    same error, for every file. *)
Theorem from_path_is_extract bytes : from_path bytes = extract bytes.
Proof. apply from_path_eq. Qed.

(** C19. The package format loses nothing: what [encode] writes, [decode] reads back,
    with every component and compiled artifact, when the hash in the manifest is that
    of the bundle, as it is in every package made by [Tap::new], and refuses with a hash
    mismatch otherwise; the package appended to any stub executable is found again
    with the same answer, from memory and from disk; and a payload never exceeds the
    size limit. *)
Theorem tap_roundtrip `{!TapSerdeLaws TS} t bytes :
  encode t = Ok bytes ->
  decode bytes = hash_checked t /\ len bytes <= MAX_TAP_PAYLOAD_BYTES
  /\ (forall m bundle source_map cs, t = with_components (Tap_new m bundle source_map) cs -> hash_checked t = Ok t)
  /\ forall stub, exists exe,
       embed_into t stub = Ok exe /\ extract exe = hash_checked t /\ from_path exe = hash_checked t.
Proof.
  intros He. destruct (decode_encode t bytes He) as [Hd Hl]. split; [done|]. split; [done|]. split.
  { intros m bundle source_map cs ->. unfold hash_checked. cbn. by rewrite String.eqb_refl. }
  intros stub. eexists. unfold embed_into. rewrite He. cbn [mbind result_bind]. split; [reflexivity|].
  rewrite from_path_eq, extract_embed by done. done.
Qed.

End TapThms.

(** ** A concrete package *)

#[local] Existing Instance sample_sha.

Definition sample_manifest : PackageManifest := tap_manifest (Tap_new {|
  format_version := 0; runtime_version := "1.0.0"; pm_application_id := "app"; entrypoint := "src/main.ts";
  execution_profile := "component"; listen := "127.0.0.1:3000"; memory_limit_bytes := 67108864;
  cpu_ms_per_turn := 50; request_timeout_ms := 30000; pm_bundle_hash := EmptyString;
  max_request_bytes := 1048576; max_response_bytes := 1048576; websocket := false; workers := 0;
  max_in_flight := 1024; http1 := true; http2 := true; sqlite_path := EmptyString; secret_names := [];
  fetch_hosts := []; postgres := []; redis := []; fs_read := []; fs_write := []; json_logs := false |}
  "export default 1;" EmptyString).

Definition sample_tap : Tap := {|
  tap_manifest := sample_manifest; tap_bundle := "export default 1;"; tap_source_map := "{}";
  tap_components := [{| pc_name := "resize"; pc_abi_version := COMPONENT_ABI_VERSION; pc_source := "wasm";
    pc_aot := [{| aot_target := "x86_64"; aot_wasmtime_version := "38"; aot_engine_hash := 7;
                  aot_source_sha256 := "s"; aot_bytes := "native" |}] |}] |}.

Definition sample_index : ComponentIndex :=
  {| ci_components := (append_components EmptyString (tap_components sample_tap)).1 |}.

#[local] Instance manifest_eq : EqDecision PackageManifest.
Proof. solve_decision. Defined.
#[local] Instance blob_eq : EqDecision BlobIndex.
Proof. solve_decision. Defined.
#[local] Instance aot_index_eq : EqDecision AotIndexEntry.
Proof. solve_decision. Defined.
#[local] Instance component_index_eq : EqDecision ComponentIndexEntry.
Proof. solve_decision. Defined.
#[local] Instance index_eq : EqDecision ComponentIndex.
Proof. solve_decision. Defined.

(** A serializer for one manifest and one index. *)
Definition sample_tap_serde : TapSerde := {|
  manifest_to_vec m := if decide (m = sample_manifest) then Ok "M" else Err "unsupported";
  manifest_from_slice s := if String.eqb s "M" then Ok sample_manifest else Err "syntax";
  index_to_vec i := if decide (i = sample_index) then Ok "I" else Err "unsupported";
  index_from_slice s := if String.eqb s "I" then Ok sample_index else Err "syntax";
  semver_valid s := String.eqb s "1.0.0" |}%string.
#[local] Existing Instance sample_tap_serde.

Lemma sample_tap_serde_laws : TapSerdeLaws sample_tap_serde.
Proof.
  constructor; cbn [manifest_to_vec manifest_from_slice index_to_vec index_from_slice sample_tap_serde];
    intros x s; case_decide; intros [= <-]; by subst.
Qed.

Lemma tap_roundtrip_witness : exists bytes, encode sample_tap = Ok bytes /\ decode bytes = Ok sample_tap.
Proof.
  pose proof sample_tap_serde_laws as L. eexists. split; [vm_compute; reflexivity|].
  destruct (tap_roundtrip (TS := sample_tap_serde) sample_tap
    (match encode sample_tap with Ok b => b | Err _ => EmptyString end)) as (H & _ & Hnew & _); [vm_compute; reflexivity|].
  rewrite (Hnew (tap_manifest sample_tap) (tap_bundle sample_tap) (tap_source_map sample_tap) (tap_components sample_tap) eq_refl) in H.
  exact H.
Defined.
