(* ===== verification/SourceMap.v ===== *)
(** * Source maps ([crates/tysel-package/src/sourcemap.rs])

    The VLQ codec, the incremental writer, the parser of the [mappings] field,
    the lookup of a generated position and the rewriting of stack traces.
    Arithmetic is that of the release profile, which wraps. Loops that are not
    structural take fuel; running out of fuel is [None], a value no call of
    this file returns ([SourceMapThms]). *)

From Stdlib Require Import ZArith Lia Ascii String.
From stdpp Require Import base tactics list strings.
From S2P Require Import Prelude Bytes DurableTypes Tap.
Open Scope Z_scope.

(** [as i64] after an overflow, [as u32]. *)
Definition wrap_i64 (z : Z) : Z := (z + 2 ^ 63) mod 2 ^ 64 - 2 ^ 63.
Definition as_u32 (z : Z) : Z := z mod 2 ^ 32.

(** ** Base 64 digits *)

Definition b64_alphabet : string := "ABCDEFGHIJKLMNOPQRSTUVWXYZabcdefghijklmnopqrstuvwxyz0123456789+/".

Definition b64_char (digit : Z) : ascii :=
  default "A"%char (String.get (Z.to_nat (Z.land digit 63)) b64_alphabet).

Definition b64 (c : ascii) : option Z :=
  let digit := byte_code c in
  if in_range 65 90 digit then Some (digit - 65)
  else if in_range 97 122 digit then Some (digit - 97 + 26)
  else if in_range 48 57 digit then Some (digit - 48 + 52)
  else if digit =? 43 then Some 62
  else if digit =? 47 then Some 63
  else None.

(** ** Variable length quantities *)

(** The loop of [encode_vlq]: [>>] on [i64] keeps the sign, so a negative
    [vlq] never reaches zero. *)
Fixpoint encode_digits (fuel : nat) (vlq : Z) : option string :=
  match fuel with
  | O => None
  | S fuel' =>
      let digit := Z.land vlq 31 in
      let vlq' := Z.shiftr vlq 5 in
      let digit := if negb (vlq' =? 0) then Z.lor digit 32 else digit in
      if vlq' =? 0 then Some (String (b64_char digit) EmptyString)
      else rest ← encode_digits fuel' vlq'; Some (String (b64_char digit) rest)
  end.

(** Thirteen digits hold 65 bits. *)
Definition encode_vlq (value : Z) : option string :=
  encode_digits 13
    (if value <? 0 then Z.lor (wrap_i64 (Z.shiftl (wrap_i64 (- value)) 1)) 1 else wrap_i64 (Z.shiftl value 1)).

(** [decode_vlq]: the bytes after [offset] are the state; the amount of a shift
    of an [i64] is taken modulo 64. *)
Fixpoint decode_digits (acc shift : Z) (rest : string) : result PackageError Z * string :=
  match rest with
  | EmptyString => (Err (PackageInvalid "truncated vlq"), EmptyString)
  | String c rest' =>
      match b64 c with
      | None => (Err (PackageInvalid "invalid vlq digit"), rest')
      | Some value =>
          let acc' := Z.lor acc (wrap_i64 (Z.shiftl (Z.land value 31) (shift mod 64))) in
          if Z.land value 32 =? 0
          then (Ok (if negb (Z.land acc' 1 =? 0) then - Z.shiftr acc' 1 else Z.shiftr acc' 1), rest')
          else decode_digits acc' (shift + 5) rest'
      end
  end.
Definition decode_vlq : M string PackageError Z := decode_digits 0 0.

(** ** The parser *)

Record Mapping := {
  generated_line : Z; generated_column : Z; source_index : Z; original_line : Z; original_column : Z }.

(** The three accumulators [parse_mappings] carries across lines. *)
Record Cursor := { cur_source : Z; cur_line : Z; cur_column : Z }.

Definition skip_comma (rest : string) : string :=
  match rest with String c rest' => if Ascii.eqb c ","%char then rest' else rest | EmptyString => rest end.

(** One round of the inner loop: the new column, the new accumulators. *)
Definition parse_segment (column : Z) (c : Cursor) : M string PackageError (Z * Cursor) :=
  a ← decode_vlq;
  b ← decode_vlq;
  l ← decode_vlq;
  o ← decode_vlq;
  modify skip_comma;;
  mret (wrap_i64 (column + a),
        {| cur_source := wrap_i64 (cur_source c + b); cur_line := wrap_i64 (cur_line c + l);
           cur_column := wrap_i64 (cur_column c + o) |}).

Definition mapping_at (line column : Z) (c : Cursor) : Mapping := {|
  generated_line := as_u32 line; generated_column := as_u32 (Z.max column 0);
  source_index := as_u32 (Z.max (cur_source c) 0); original_line := as_u32 (Z.max (cur_line c) 0);
  original_column := as_u32 (Z.max (cur_column c) 0) |}.

(** The loop over one line; every round consumes a byte, so the length of the line is enough fuel. *)
Fixpoint parse_line (fuel : nat) (line column : Z) (c : Cursor) (rest : string)
    : option (result PackageError (list Mapping * Cursor)) :=
  if str_is_empty rest then Some (Ok ([], c))
  else
    match fuel with
    | O => None
    | S fuel' =>
        match parse_segment column c rest with
        | (Err e, _) => Some (Err e)
        | (Ok (column', c'), rest') =>
            match parse_line fuel' line column' c' rest' with
            | Some (Ok (out, c'')) => Some (Ok (mapping_at line column' c' :: out, c''))
            | other => other
            end
        end
    end.

Fixpoint parse_lines (line : Z) (c : Cursor) (lines : list string)
    : option (result PackageError (list Mapping)) :=
  match lines with
  | [] => Some (Ok [])
  | l :: lines' =>
      match parse_line (String.length l) line 0 c l with
      | Some (Ok (out, c')) =>
          match parse_lines (line + 1) c' lines' with
          | Some (Ok out') => Some (Ok (out ++ out'))
          | other => other
          end
      | Some (Err e) => Some (Err e)
      | None => None
      end
  end.

Definition parse_mappings (mappings : string) : option (result PackageError (list Mapping)) :=
  parse_lines 0 {| cur_source := 0; cur_line := 0; cur_column := 0 |} (str_split ";"%char mappings).

(** ** The writer *)

Record SourceMapWriter := {
  w_mappings : string; need_comma : bool; w_gen_col : Z; w_source : Z; w_orig_line : Z; w_orig_col : Z }.

Definition SourceMapWriter_new : SourceMapWriter := {|
  w_mappings := EmptyString; need_comma := false; w_gen_col := 0; w_source := 0; w_orig_line := 0; w_orig_col := 0 |}.

Definition end_line (w : SourceMapWriter) : SourceMapWriter := {|
  w_mappings := w_mappings w ++ ";"; need_comma := false; w_gen_col := 0; w_source := w_source w;
  w_orig_line := w_orig_line w; w_orig_col := w_orig_col w |}.

Definition add (w : SourceMapWriter) (gen_col source orig_line orig_col : Z) : option SourceMapWriter :=
  a ← encode_vlq (gen_col - w_gen_col w);
  b ← encode_vlq (source - w_source w);
  l ← encode_vlq (orig_line - w_orig_line w);
  o ← encode_vlq (orig_col - w_orig_col w);
  Some {| w_mappings := w_mappings w ++ (if need_comma w then "," else EmptyString) ++ a ++ b ++ l ++ o;
          need_comma := true; w_gen_col := gen_col; w_source := source; w_orig_line := orig_line;
          w_orig_col := orig_col |}.

(** ** The map file *)

Record SourceMapFile := {
  smf_version : Z; smf_file : option string; smf_sources : list string;
  smf_sources_content : list (option string); smf_mappings : string }.

(** [serde_json] on a map file: [to_vec_pretty] of the object the code builds,
    and [from_slice] into [SourceMapFile]. *)
Class MapSerde := {
  map_to_vec_pretty : SourceMapFile -> result string string;
  map_from_slice : string -> result string SourceMapFile;
}.
(** An object of strings, string arrays and one small integer is read back as written. *)
Class MapSerdeLaws (MS : MapSerde) : Prop :=
  map_roundtrip : forall f s, map_to_vec_pretty f = Ok s -> map_from_slice s = Ok f.

Record SourceMap := {
  sm_file : option string; sm_sources : list string; sm_sources_content : list (option string);
  sm_mappings : list Mapping }.

(** [str::lines]: a line feed ends a line, and takes one carriage return with it. *)
Definition strip_cr (s : string) : string :=
  match str_rev s with
  | String c s' => if byte_code c =? 13 then str_rev s' else s
  | EmptyString => s
  end.
Fixpoint drop_last_empty (ps : list string) : list string :=
  match ps with
  | [] => []
  | [p] => if str_is_empty p then [] else [p]
  | p :: ps' => strip_cr p :: drop_last_empty ps'
  end.
Definition str_lines (s : string) : list string := drop_last_empty (str_split (byte_of 10) s).

Section File.
Context {MS : MapSerde}.

(** [SourceMap::parse]; the outer [option] is the fuel of the parser. *)
Definition SourceMap_parse (json : string) : option (result PackageError SourceMap) :=
  match map_err PackageJson (map_from_slice json) with
  | Err e => Some (Err e)
  | Ok f =>
      if negb (smf_version f =? 3)
      then Some (Err (PackageInvalid ("unsupported source map version " ++ dec_string (smf_version f))))
      else
        r ← parse_mappings (smf_mappings f);
        Some (mappings ← r;
              Ok {| sm_file := smf_file f; sm_sources := smf_sources f;
                    sm_sources_content := smf_sources_content f; sm_mappings := mappings |})
  end.

Definition into_json (w : SourceMapWriter) (file : string) (sources contents : list string)
    : result PackageError string :=
  map_err PackageJson (map_to_vec_pretty {|
    smf_version := 3; smf_file := Some file; smf_sources := sources;
    smf_sources_content := Some <$> contents; smf_mappings := w_mappings w |}).

(** The loop of [identity_source_map]. *)
Fixpoint identity_mappings (index : Z) (n : nat) : string :=
  match n with
  | O => EmptyString
  | S n' => ((if Z.eqb index 0 then "AAAA" else ";AACA") ++ identity_mappings (index + 1) n')%string
  end.

Definition identity_source_map (source_path source : string) : result PackageError string :=
  let line_count := Nat.max (length (str_lines source)) 1 in
  map_err PackageJson (map_to_vec_pretty {|
    smf_version := 3; smf_file := Some "app.js"%string; smf_sources := [source_path];
    smf_sources_content := [Some source]; smf_mappings := identity_mappings 0 line_count |}).
End File.

(** ** Lookup *)

(** [slice::partition_point]: the binary search of the standard library. *)
Fixpoint bisect {A} (pred : A -> bool) (l : list A) (fuel base size : nat) : nat :=
  match fuel with
  | O => base
  | S fuel' =>
      if (size <=? 1)%nat then base
      else
        let half := Nat.div2 size in
        let mid := (base + half)%nat in
        bisect pred l fuel' (if from_option pred false (l !! mid) then mid else base) (size - half)
  end.
Definition partition_point {A} (pred : A -> bool) (l : list A) : nat :=
  match l with
  | [] => 0
  | _ =>
      let base := bisect pred l (length l) 0 (length l) in
      if from_option pred false (l !! base) then S base else base
  end.

Definition lookup_mapping (ms : list Mapping) (line column : Z) : option Mapping :=
  let line_start := partition_point (fun m => generated_line m <? line) ms in
  let line_end := partition_point (fun m => generated_line m <=? line) ms in
  if (line_start <=? line_end)%nat
  then
    let row := take (line_end - line_start) (drop line_start ms) in
    match partition_point (fun m => generated_column m <=? column) row with
    | O => None
    | S index => row !! index
    end
  else None.

Record OriginalPosition := { op_source : string; op_line : Z; op_column : Z; op_content : option string }.

Definition original_position (s : SourceMap) (line column : Z) : option OriginalPosition :=
  m ← lookup_mapping (sm_mappings s) (saturating_sub line 1) (saturating_sub column 1);
  source ← sm_sources s !! Z.to_nat (source_index m);
  Some {| op_source := source; op_line := as_u32 (original_line m + 1);
          op_column := as_u32 (original_column m + 1);
          op_content := mjoin (sm_sources_content s !! Z.to_nat (source_index m)) |}.

(** ** Stack traces *)

Fixpoint digit_prefix (s : string) : nat :=
  match s with
  | String c s' => if in_range 48 57 (byte_code c) then S (digit_prefix s') else O
  | EmptyString => O
  end.

Definition parse_stack_number (value : string) : option (Z * string) :=
  let digits := digit_prefix value in
  if (digits =? 0)%nat then None
  else n ← from_str_radix 10 u32_max (str_take digits value); Some (n, str_drop digits value).

(** [str::find] of a string: the first byte offset. *)
Fixpoint str_find (needle s : string) : option nat :=
  if starts_with needle s then Some O
  else match s with EmptyString => None | String _ s' => S <$> str_find needle s' end.

Definition frame_marker : string := "app.js:".

(** The generated coordinates of a frame, with the offset of the marker. *)
Definition frame_coordinates (line : string) : option (nat * Z * Z) :=
  marker ← str_find frame_marker line;
  first ← parse_stack_number (str_drop (marker + String.length frame_marker) line);
  rest ← strip_prefix ":" first.2;
  second ← parse_stack_number rest;
  Some (marker, first.1, second.1).

Definition symbolicate_line (s : SourceMap) (line : string) : string :=
  default line (
    frame ← frame_coordinates line;
    let '(marker, gen_line, gen_column) := frame in
    m ← lookup_mapping (sm_mappings s) (saturating_sub gen_line 1) (saturating_sub gen_column 1);
    source ← sm_sources s !! Z.to_nat (source_index m);
    let token_len := (String.length frame_marker + String.length (dec_string gen_line) + 1
                      + String.length (dec_string gen_column))%nat in
    Some (str_take marker line ++ source ++ ":" ++ dec_string (as_u32 (original_line m + 1)) ++ ":"
          ++ dec_string (as_u32 (original_column m + 1)) ++ str_drop (marker + token_len) line)%string).

Definition symbolicate_stack (s : SourceMap) (stack : string) : string :=
  String.concat (String (byte_of 10) EmptyString) (symbolicate_line s <$> str_lines stack).

Record OriginalLocation := { ol_source : string; ol_line : Z; ol_column : Z }.

Definition line_location (s : SourceMap) (line : string) : option OriginalLocation :=
  frame ← frame_coordinates line;
  let '(_, gen_line, gen_column) := frame in
  m ← lookup_mapping (sm_mappings s) (saturating_sub gen_line 1) (saturating_sub gen_column 1);
  source ← sm_sources s !! Z.to_nat (source_index m);
  Some {| ol_source := source; ol_line := as_u32 (original_line m + 1);
          ol_column := as_u32 (original_column m + 1) |}.

Fixpoint find_map {A B} (f : A -> option B) (l : list A) : option B :=
  match l with [] => None | x :: l' => match f x with Some y => Some y | None => find_map f l' end end.

Definition first_original_position (s : SourceMap) (stack : string) : option OriginalLocation :=
  find_map (line_location s) (str_lines stack).
