(* ===== verification/SourceMapThms.v ===== *)
(** * Correctness of the source maps

    The codec loses nothing and terminates; the writer and the parser are
    inverse to each other; the binary search finds the mapping in force; the
    identity map sends each line to itself. *)

From Stdlib Require Import ZArith Lia Ascii String Sorted.
From stdpp Require Import base tactics list strings.
From S2P Require Import Prelude Bytes DurableTypes Tap SourceMap.
Open Scope Z_scope.
#[local] Arguments append : simpl never.
#[local] Arguments Z.shiftl : simpl never.
#[local] Arguments Z.shiftr : simpl never.
#[local] Arguments Z.land : simpl never.
#[local] Arguments Z.lor : simpl never.
#[local] Arguments b64_char : simpl never.

(** ** Digits *)

Lemma b64_of_char d : 0 <= d < 64 -> b64 (b64_char d) = Some d.
Proof.
  intros Hd.
  assert (forallb (fun n => match b64 (b64_char (Z.of_nat n)) with Some e => e =? Z.of_nat n | None => false end)
            (seq 0 64) = true) as H by (vm_compute; reflexivity).
  rewrite List.forallb_forall in H. specialize (H (Z.to_nat d)). rewrite Z2Nat.id in H by lia.
  destruct (b64 (b64_char d)) as [e|]; [|by discriminate H; apply List.in_seq; lia].
  f_equal. apply Z.eqb_eq, H, List.in_seq. lia.
Qed.

Lemma b64_range c d : b64 c = Some d -> 0 <= d < 64.
Proof. unfold b64. repeat case_match; intros [= <-]; split_bool; lia. Qed.

(** No digit is a separator. *)
Lemma b64_char_plain d : 0 <= d < 64 -> Ascii.eqb (b64_char d) ";" = false /\ Ascii.eqb (b64_char d) "," = false.
Proof.
  intros Hd. pose proof (b64_of_char d Hd) as H.
  split; apply Ascii.eqb_neq; intros E; rewrite E in H; vm_compute in H; discriminate.
Qed.

Lemma wrap_i64_id z : - 2 ^ 63 <= z < 2 ^ 63 -> wrap_i64 z = z.
Proof. intros H. unfold wrap_i64. rewrite Z.mod_small by lia. lia. Qed.

Lemma as_u32_id z : 0 <= z <= u32_max -> as_u32 z = z.
Proof. unfold u32_max, as_u32. intros. apply Z.mod_small. lia. Qed.

(** The two halves of a number, as bits. *)
Lemma low_high z : Z.lor (Z.land z 31) (Z.shiftl (Z.shiftr z 5) 5) = z.
Proof.
  apply Z.bits_inj'. intros n Hn. change 31 with (Z.ones 5).
  rewrite Z.lor_spec, Z.land_spec, Z.shiftl_spec by lia.
  destruct (Z.ltb_spec n 5).
  - rewrite Z.ones_spec_low, (Z.testbit_neg_r _ (n - 5)) by lia. by rewrite andb_true_r, orb_false_r.
  - rewrite Z.ones_spec_high, Z.shiftr_spec by lia. rewrite andb_false_r. simpl. f_equal. lia.
Qed.

Lemma land31_range z : 0 <= Z.land z 31 < 32.
Proof. change 31 with (Z.ones 5). rewrite Z.land_ones by lia. apply Z.mod_pos_bound. lia. Qed.

Lemma land_1 z : Z.land z 1 = z mod 2.
Proof. change 1 with (Z.ones 1) at 1. by rewrite Z.land_ones by lia. Qed.

Lemma digit_more r : 0 <= r < 32 ->
  0 <= Z.lor r 32 < 64 /\ Z.land (Z.lor r 32) 31 = r /\ Z.land (Z.lor r 32) 32 = 32
  /\ Z.land r 31 = r /\ Z.land r 32 = 0.
Proof.
  intros Hr.
  assert (Forall (fun r => 0 <= Z.lor r 32 < 64 /\ Z.land (Z.lor r 32) 31 = r /\ Z.land (Z.lor r 32) 32 = 32
    /\ Z.land r 31 = r /\ Z.land r 32 = 0) (Z.of_nat <$> seq 0 32)) as H.
  { vm_compute. repeat constructor; done. }
  rewrite Forall_forall in H. apply H, list_elem_of_fmap. exists (Z.to_nat r). split; [lia|]. apply elem_of_seq. lia.
Qed.

(** ** The codec *)

Definition from_vlq (z : Z) : Z := if negb (Z.land z 1 =? 0) then - Z.shiftr z 1 else Z.shiftr z 1.

Fixpoint plain (s : string) : bool :=
  match s with
  | EmptyString => true
  | String c s' => negb (Ascii.eqb c ";") && negb (Ascii.eqb c ",") && plain s'
  end.

Lemma plain_append a b : plain (a ++ b)%string = plain a && plain b.
Proof.
  induction a as [|c a IH]; [done|]. change (String c a ++ b)%string with (String c (a ++ b)). simpl. rewrite IH.
  by destruct (Ascii.eqb c ";"), (Ascii.eqb c ","), (plain a).
Qed.

Lemma encode_digits_some fuel vlq :
  0 <= vlq < 32 ^ Z.of_nat fuel -> (0 < fuel)%nat ->
  exists s, encode_digits fuel vlq = Some s /\ plain s = true /\ s <> EmptyString.
Proof.
  revert vlq. induction fuel as [|fuel IH]; intros vlq Hv Hf; [lia|]. cbn [encode_digits].
  pose proof (land31_range vlq) as Hr. destruct (digit_more _ Hr) as [Hm _].
  destruct (b64_char_plain (Z.land vlq 31)) as [P1 P2]; [lia|]. destruct (b64_char_plain _ Hm) as [P3 P4].
  destruct (Z.eqb_spec (Z.shiftr vlq 5) 0) as [Hz|Hz]; cbn [negb].
  - eexists. split; [done|]. cbn [plain]. by rewrite P1, P2.
  - rewrite Nat2Z.inj_succ, Z.pow_succ_r in Hv by lia. rewrite Z.shiftr_div_pow2 in * by lia. change (2 ^ 5) with 32 in *.
    destruct (IH (vlq / 32)) as (s & -> & Hs & _).
    + split; [apply Z.div_pos; lia|apply Z.div_lt_upper_bound; lia].
    + destruct fuel; [|lia]. change (32 ^ Z.of_nat 0) with 1 in Hv. rewrite Z.div_small in Hz; lia.
    + eexists. split; [done|]. cbn [plain]. by rewrite P3, P4, Hs.
Qed.

Lemma decode_encode_digits fuel vlq s acc shift rest :
  0 <= vlq -> 0 <= shift -> vlq * 2 ^ shift < 2 ^ 63 -> shift < 64 ->
  encode_digits fuel vlq = Some s ->
  decode_digits acc shift (s ++ rest)%string = (Ok (from_vlq (Z.lor acc (Z.shiftl vlq shift))), rest).
Proof.
  revert vlq s acc shift. induction fuel as [|fuel IH]; intros vlq s acc shift Hv Hs Hb H64; cbn [encode_digits]; [done|].
  pose proof (land31_range vlq) as Hr. destruct (digit_more _ Hr) as (Hm & M1 & M2 & M3 & M4).
  pose proof (low_high vlq) as LH. pose proof (Z.pow_pos_nonneg 2 shift ltac:(lia) Hs).
  assert (Z.land vlq 31 <= vlq) as Hle.
  { change 31 with (Z.ones 5). rewrite Z.land_ones by lia. apply Z.mod_le; lia. }
  assert (wrap_i64 (Z.shiftl (Z.land vlq 31) (shift mod 64)) = Z.shiftl (Z.land vlq 31) shift) as Hw.
  { rewrite (Z.mod_small shift) by lia. rewrite wrap_i64_id; [done|]. rewrite Z.shiftl_mul_pow2 by lia. nia. }
  destruct (Z.eqb_spec (Z.shiftr vlq 5) 0) as [Hz|Hz]; cbn [negb].
  - intros [= <-]. change (String ?c EmptyString ++ rest)%string with (String c rest). cbn [decode_digits].
    rewrite b64_of_char by lia. rewrite M3, M4, Hw. cbn [Z.eqb].
    rewrite Hz in LH. rewrite Z.shiftl_0_l, Z.lor_0_r in LH. by rewrite LH.
  - destruct (encode_digits fuel (Z.shiftr vlq 5)) as [s'|] eqn:E; [|done]. intros [= <-].
    change (String ?c s' ++ rest)%string with (String c (s' ++ rest)). cbn [decode_digits].
    rewrite b64_of_char by lia. rewrite M1, M2, Hw. cbn [Z.eqb].
    assert (0 < Z.shiftr vlq 5 /\ Z.shiftr vlq 5 * 32 <= vlq) as [Hp Hq].
    { rewrite Z.shiftr_div_pow2 in * by lia. change (2 ^ 5) with 32 in *.
      pose proof (Z.div_pos vlq 32 Hv ltac:(lia)). pose proof (Z.mul_div_le vlq 32 ltac:(lia)). lia. }
    assert (Z.shiftr vlq 5 * 2 ^ (shift + 5) < 2 ^ 63) as Hb'.
    { rewrite Z.pow_add_r by lia. change (2 ^ 5) with 32. nia. }
    assert (shift + 5 < 64).
    { destruct (Z.le_gt_cases 64 (shift + 5)); [|done].
      pose proof (Z.pow_le_mono_r 2 64 (shift + 5) ltac:(lia) ltac:(done)).
      assert (2 ^ (shift + 5) <= Z.shiftr vlq 5 * 2 ^ (shift + 5)) by nia. lia. }
    rewrite (IH (Z.shiftr vlq 5) s' _ (shift + 5)) by (done || lia). do 3 f_equal.
    rewrite <-Z.lor_assoc. f_equal. rewrite Z.add_comm, <-Z.shiftl_shiftl, <-Z.shiftl_lor by lia. by rewrite LH.
Qed.

(** The codec on every difference the writer can form, and far beyond. *)
Lemma vlq_roundtrip value :
  Z.abs value < 2 ^ 62 ->
  exists s, encode_vlq value = Some s /\ plain s = true /\ s <> EmptyString
    /\ forall rest, decode_vlq (s ++ rest)%string = (Ok value, rest).
Proof.
  intros Hv. unfold encode_vlq, decode_vlq.
  set (vlq := if value <? 0 then _ else _).
  assert (0 <= vlq < 2 ^ 63 /\ from_vlq vlq = value) as [Hr Hf].
  { unfold vlq, from_vlq. destruct (Z.ltb_spec value 0).
    - rewrite (wrap_i64_id (- value)), Z.shiftl_mul_pow2, wrap_i64_id by lia. change (2 ^ 1) with 2.
      assert (Z.lor (- value * 2) 1 = 2 * (- value) + 1) as ->.
      { rewrite Z.mul_comm. apply Z.bits_inj'. intros n Hn. rewrite Z.lor_spec.
        destruct (Z.eq_dec n 0) as [->|].
        - rewrite Z.testbit_even_0, Z.testbit_odd_0. done.
        - rewrite (Z.bits_above_log2 1 n) by (simpl; lia). rewrite orb_false_r.
          replace n with (Z.succ (Z.pred n)) by lia. by rewrite Z.testbit_even_succ, Z.testbit_odd_succ by lia. }
      split; [lia|]. rewrite land_1, Z.shiftr_div_pow2 by lia. change (2 ^ 1) with 2.
      replace (2 * - value + 1) with (1 + - value * 2) by lia.
      rewrite Z.mod_add, Z.div_add by lia. change (1 mod 2) with 1. change (1 / 2) with 0. cbn [Z.eqb negb]. lia.
    - rewrite Z.shiftl_mul_pow2, wrap_i64_id by lia. change (2 ^ 1) with 2. split; [lia|].
      rewrite land_1, Z.shiftr_div_pow2 by lia. change (2 ^ 1) with 2. by rewrite Z.mod_mul, Z.div_mul by lia. }
  destruct (encode_digits_some 13 vlq) as (s & Es & Ps & Ns); [lia|lia|].
  exists s. split_and!; [done..|]. intros rest.
  rewrite (decode_encode_digits 13 vlq s) by (done || lia).
  by rewrite Z.lor_0_l, Z.shiftl_0_r, Hf.
Qed.

(** ** Separators *)

Lemma split_plain a s p ps :
  plain a = true -> str_split ";" s = p :: ps -> str_split ";" (a ++ s)%string = (a ++ p)%string :: ps.
Proof.
  revert p. induction a as [|c a IH]; intros p Ha Hs; [done|]. simpl in Ha. split_bool.
  change (String c a ++ s)%string with (String c (a ++ s)). cbn [str_split].
  destruct (Ascii.eqb c ";"); [done|]. by rewrite (IH p).
Qed.

Lemma skip_comma_plain a rest : plain a = true -> a <> EmptyString -> skip_comma (a ++ rest) = (a ++ rest)%string.
Proof.
  destruct a as [|c a]; [done|]. cbn [plain]. intros Ha _. split_bool.
  change (String c a ++ rest)%string with (String c (a ++ rest)). cbn [skip_comma]. by destruct (Ascii.eqb c ",").
Qed.

(** ** Termination *)

Lemma decode_digits_shrinks acc shift rest v rest' :
  decode_digits acc shift rest = (Ok v, rest') -> (String.length rest' < String.length rest)%nat.
Proof.
  revert acc shift. induction rest as [|c rest IH]; intros acc shift; simpl; [done|].
  destruct (b64 c); [|done]. case_match; [intros [= _ <-]; lia|]. intros E. apply IH in E. lia.
Qed.

Lemma parse_segment_shrinks column c rest column' c' rest' :
  parse_segment column c rest = (Ok (column', c'), rest') -> (String.length rest' < String.length rest)%nat.
Proof.
  unfold parse_segment, decode_vlq. unfold_monad.
  repeat (case_match; try done). intros [= _ _ <-].
  repeat match goal with H : decode_digits _ _ _ = _ |- _ => apply decode_digits_shrinks in H end.
  assert (forall s, String.length (skip_comma s) <= String.length s)%nat as Hs.
  { intros [|ch tl]; simpl; [done|]. destruct (Ascii.eqb ch ","); simpl; lia. }
  etrans; [apply Nat.lt_succ_r, Hs|]. lia.
Qed.

Lemma parse_line_some fuel line column c rest :
  (String.length rest <= fuel)%nat -> is_Some (parse_line fuel line column c rest).
Proof.
  revert column c rest. induction fuel as [|fuel IH]; intros column c rest Hl.
  - destruct rest; simpl in *; [done|lia].
  - cbn [parse_line]. destruct (str_is_empty rest); [done|].
    destruct (parse_segment column c rest) as [[[column' c']|e] rest'] eqn:E; [|done].
    apply parse_segment_shrinks in E. destruct (IH column' c' rest') as [[[out c'']|e] ->]; [lia|done..].
Qed.

Lemma parse_lines_some line c lines : is_Some (parse_lines line c lines).
Proof.
  revert line c. induction lines as [|l lines IH]; intros line c; cbn [parse_lines]; [done|].
  destruct (parse_line_some (String.length l) line 0 c l) as [[[out c']|e] ->]; [done| |done].
  destruct (IH (line + 1) c') as [[out'|e] ->]; done.
Qed.

(** Both directions of the codec terminate: the parser returns, a list or
    an error, on every string; the encoder of a number returns on every value
    whose double fits an [i64], which covers the differences of two [u32] the
    writer encodes. *)
Theorem source_map_codec_terminates :
  (forall s, is_Some (parse_mappings s))
  /\ (forall value, Z.abs value < 2 ^ 62 -> is_Some (encode_vlq value))
  /\ (forall w gc src l c,
        in_range 0 u32_max (w_gen_col w) = true -> in_range 0 u32_max (w_source w) = true ->
        in_range 0 u32_max (w_orig_line w) = true -> in_range 0 u32_max (w_orig_col w) = true ->
        in_range 0 u32_max gc = true -> in_range 0 u32_max src = true ->
        in_range 0 u32_max l = true -> in_range 0 u32_max c = true -> is_Some (add w gc src l c)).
Proof.
  assert (forall value, Z.abs value < 2 ^ 62 -> is_Some (encode_vlq value)) as HE.
  { intros value Hv. destruct (vlq_roundtrip value Hv) as (s & -> & _). done. }
  split_and!; [intros s; apply parse_lines_some|exact HE|].
  intros. split_bool. unfold u32_max in *. unfold add.
  destruct (HE (gc - w_gen_col w)) as [? ->]; [lia|]. destruct (HE (src - w_source w)) as [? ->]; [lia|].
  destruct (HE (l - w_orig_line w)) as [? ->]; [lia|]. destruct (HE (c - w_orig_col w)) as [? ->]; [lia|]. done.
Qed.

(** ** Writing, then parsing *)

(** The calls a client makes on a writer. *)
Inductive WriterOp := Add (gen_col source orig_line orig_col : Z) | EndLine.

Definition op_u32 (op : WriterOp) : Prop :=
  match op with Add a b l o => Forall (fun z => 0 <= z <= u32_max) [a; b; l; o] | EndLine => True end.

Fixpoint run_writer (w : SourceMapWriter) (ops : list WriterOp) : option SourceMapWriter :=
  match ops with
  | [] => Some w
  | Add a b l o :: ops' => w' ← add w a b l o; run_writer w' ops'
  | EndLine :: ops' => run_writer (end_line w) ops'
  end.

(** What the calls mean: one mapping per [add], on the line it was made. *)
Fixpoint recorded (line : Z) (ops : list WriterOp) : list Mapping :=
  match ops with
  | [] => []
  | Add a b l o :: ops' =>
      {| generated_line := as_u32 line; generated_column := a; source_index := b; original_line := l;
         original_column := o |} :: recorded line ops'
  | EndLine :: ops' => recorded (line + 1) ops'
  end.

Definition cursor_of (w : SourceMapWriter) : Cursor :=
  {| cur_source := w_source w; cur_line := w_orig_line w; cur_column := w_orig_col w |}.
Definition writer_u32 (w : SourceMapWriter) : Prop :=
  Forall (fun z => 0 <= z <= u32_max) [w_gen_col w; w_source w; w_orig_line w; w_orig_col w].

(** The parser, from the middle of a line on. *)
Definition parse_rest (fuel : nat) (line column : Z) (c : Cursor) (p : string) (ps : list string)
    : option (result PackageError (list Mapping)) :=
  match parse_line fuel line column c p with
  | Some (Ok (out, c')) =>
      match parse_lines (line + 1) c' ps with
      | Some (Ok out') => Some (Ok (out ++ out'))
      | other => other
      end
  | Some (Err e) => Some (Err e)
  | None => None
  end.

Lemma parse_lines_rest line c p ps : parse_lines line c (p :: ps) = parse_rest (String.length p) line 0 c p ps.
Proof. reflexivity. Qed.

Lemma add_segment w a b l o :
  writer_u32 w -> op_u32 (Add a b l o) ->
  exists seg w', add w a b l o = Some w' /\ plain seg = true /\ seg <> EmptyString
    /\ w_mappings w' = (w_mappings w ++ (if need_comma w then "," else EmptyString) ++ seg)%string
    /\ need_comma w' = true /\ w_gen_col w' = a /\ cursor_of w' = {| cur_source := b; cur_line := l; cur_column := o |}
    /\ forall rest, parse_segment (w_gen_col w) (cursor_of w) (seg ++ rest)%string
                    = (Ok (a, cursor_of w'), skip_comma rest).
Proof.
  unfold writer_u32, op_u32. rewrite !Forall_cons. unfold u32_max. intros (?&?&?&?&_) (?&?&?&?&_).
  destruct (vlq_roundtrip (a - w_gen_col w)) as (sa & Ea & Pa & Na & Da); [lia|].
  destruct (vlq_roundtrip (b - w_source w)) as (sb & Eb & Pb & Nb & Db); [lia|].
  destruct (vlq_roundtrip (l - w_orig_line w)) as (sl & El & Pl & Nl & Dl); [lia|].
  destruct (vlq_roundtrip (o - w_orig_col w)) as (so & Eo & Po & No & Do); [lia|].
  unfold add. rewrite Ea, Eb, El, Eo. cbn [mbind option_bind].
  eexists (sa ++ sb ++ sl ++ so)%string, _. split; [reflexivity|].
  cbn [w_mappings need_comma w_gen_col]. unfold cursor_of. cbn [w_source w_orig_line w_orig_col].
  split_and!; [by rewrite !plain_append, Pa, Pb, Pl, Po| |done..|].
  { destruct sa; [done|]. intros Heq. by apply (f_equal String.length) in Heq. }
  intros rest. unfold parse_segment. unfold_monad. rewrite !append_assoc, Da, Db, Dl, Do.
  cbn [cur_source cur_line cur_column]. rewrite !wrap_i64_id by lia. repeat f_equal; lia.
Qed.

Lemma parse_rest_segment fuel line column c seg p ps column' c' out :
  seg <> EmptyString ->
  (forall rest, parse_segment column c (seg ++ rest)%string = (Ok (column', c'), skip_comma rest)) ->
  (forall fuel', (String.length (skip_comma p) <= fuel')%nat ->
     parse_rest fuel' line column' c' (skip_comma p) ps = Some (Ok out)) ->
  (String.length (seg ++ p) <= fuel)%nat ->
  parse_rest fuel line column c (seg ++ p) ps = Some (Ok (mapping_at line column' c' :: out)).
Proof.
  intros Ns Hparse Hrest Hl. pose proof (parse_segment_shrinks _ _ _ _ _ _ (Hparse p)) as Hsh.
  unfold parse_rest. destruct fuel as [|fuel]; [lia|].
  assert (str_is_empty (seg ++ p) = false) as He by (by destruct seg).
  cbn [parse_line]. rewrite He, Hparse.
  specialize (Hrest fuel ltac:(lia)). unfold parse_rest in Hrest.
  destruct (parse_line fuel line column' c' (skip_comma p)) as [[[out1 c1]|]|]; [|done..].
  destruct (parse_lines (line + 1) c1 ps) as [[out'|]|]; [|done..]. by injection Hrest as <-.
Qed.

Lemma run_writer_parses ops : forall w,
  writer_u32 w -> Forall op_u32 ops ->
  exists w' text p ps, run_writer w ops = Some w' /\ w_mappings w' = (w_mappings w ++ text)%string
    /\ str_split ";" text = p :: ps /\ (need_comma w = false -> skip_comma p = p)
    /\ forall line fuel, (String.length (skip_comma p) <= fuel)%nat ->
         parse_rest fuel line (w_gen_col w) (cursor_of w) (skip_comma p) ps = Some (Ok (recorded line ops)).
Proof.
  induction ops as [|[a b l o|] ops IH]; intros w Hw Hops; cbn [run_writer recorded].
  - exists w, EmptyString, EmptyString, []. rewrite append_nil_r. split_and!; [done..|].
    intros line fuel _. by destruct fuel.
  - rewrite Forall_cons in Hops. destruct Hops as [Hop Hops].
    destruct (add_segment w a b l o Hw Hop) as (seg & w1 & -> & Ps & Ns & Em & Hc & Hg & Hcur & Hparse).
    assert (writer_u32 w1) as Hw1.
    { unfold writer_u32, cursor_of in *. injection Hcur as -> -> ->. by rewrite Hg. }
    destruct (IH w1 Hw1 Hops) as (w2 & text & p & ps & Hrun & Hm & Hsplit & _ & Hrest).
    set (comma := (if need_comma w then "," else EmptyString)%string).
    exists w2, (comma ++ seg ++ text)%string, (comma ++ seg ++ p)%string, ps.
    assert (skip_comma (comma ++ seg ++ p) = (seg ++ p)%string) as Hskip.
    { unfold comma. destruct (need_comma w); [done|]. exact (skip_comma_plain seg p Ps Ns). }
    split_and!; [done|by rewrite Hm, Em, !append_assoc|..].
    + unfold comma. destruct (need_comma w).
      * change ("," ++ seg ++ text)%string with (String "," (seg ++ text)). cbn [str_split Ascii.eqb Bool.eqb].
        by rewrite (split_plain seg text p ps).
      * exact (split_plain seg text p ps Ps Hsplit).
    + intros Hn. rewrite Hskip. unfold comma. by rewrite Hn.
    + intros line fuel. rewrite Hskip. intros Hl.
      rewrite (parse_rest_segment _ _ _ _ _ _ _ _ _ (recorded line ops) Ns Hparse); [|by rewrite <-Hg; apply Hrest|done].
      unfold op_u32 in Hop. rewrite !Forall_cons in Hop. destruct Hop as (?&?&?&?&_).
      rewrite Hcur. unfold mapping_at. cbn [cur_source cur_line cur_column].
      rewrite !Z.max_l, (as_u32_id a), (as_u32_id b), (as_u32_id l), (as_u32_id o) by lia. done.
  - rewrite Forall_cons in Hops. destruct Hops as [_ Hops].
    destruct (IH (end_line w)) as (w2 & text & p & ps & Hrun & Hm & Hsplit & Hs & Hrest); [|done|].
    { unfold writer_u32 in *. rewrite !Forall_cons in *. unfold u32_max in *. simpl. naive_solver lia. }
    exists w2, (";" ++ text)%string, EmptyString, (p :: ps).
    split_and!; [done|by rewrite Hm; cbn [w_mappings end_line]; rewrite append_assoc|..|done|].
    + change (";" ++ text)%string with (String ";" text). cbn [str_split Ascii.eqb Bool.eqb]. by rewrite Hsplit.
    + intros line fuel _. unfold parse_rest. destruct fuel; cbn [parse_line skip_comma str_is_empty];
        rewrite parse_lines_rest; specialize (Hrest (line + 1) (String.length p)); rewrite Hs in Hrest by done;
        cbn [w_gen_col end_line] in Hrest; change (cursor_of (end_line w)) with (cursor_of w) in Hrest;
        by rewrite Hrest.
Qed.

Lemma writer_mappings_parse ops :
  Forall op_u32 ops ->
  exists w, run_writer SourceMapWriter_new ops = Some w
    /\ parse_mappings (w_mappings w) = Some (Ok (recorded 0 ops)).
Proof.
  intros Hops. destruct (run_writer_parses ops SourceMapWriter_new) as (w & text & p & ps & Hr & Hm & Hs & Hn & Hp);
    [repeat constructor; done|done|].
  exists w. split; [done|]. unfold parse_mappings. rewrite Hm. change (w_mappings SourceMapWriter_new ++ text)%string with text.
  rewrite Hs, parse_lines_rest. specialize (Hp 0 (String.length p)). rewrite Hn in Hp by done. by apply Hp.
Qed.

Section RoundTrip.
Context {MS : MapSerde} {ML : MapSerdeLaws MS}.

(** C20. A map written call by call is parsed back to exactly the mappings of
    those calls: for every sequence of [add] and [end_line] with [u32]
    arguments the writer returns, and [SourceMap::parse] of the file it
    serializes gives the file, the sources, their contents and one mapping per
    [add], on the line it was added to. *)
Theorem source_map_roundtrip ops file sources contents json :
  Forall op_u32 ops ->
  (w ← run_writer SourceMapWriter_new ops; Some (into_json w file sources contents)) = Some (Ok json) ->
  SourceMap_parse json = Some (Ok {|
    sm_file := Some file; sm_sources := sources; sm_sources_content := Some <$> contents;
    sm_mappings := recorded 0 ops |}).
Proof.
  intros Hops. destruct (writer_mappings_parse ops Hops) as (w & -> & Hp). unfold into_json.
  cbn [mbind option_bind]. destruct (map_to_vec_pretty _) as [s|] eqn:E; [|done]. intros [= <-].
  unfold SourceMap_parse. rewrite (map_roundtrip _ _ E). cbn [map_err smf_version negb Z.eqb smf_mappings Pos.eqb].
  by rewrite Hp.
Qed.
End RoundTrip.

(** ** Lookup *)

Lemma bisect_spec {A} (pred : A -> bool) l k fuel base size :
  (forall i x, l !! i = Some x -> pred x = (i <? k)%nat) ->
  (1 <= size <= fuel)%nat -> (base + size <= length l)%nat -> (base = 0 \/ base < k)%nat -> (k <= base + size)%nat ->
  let b := bisect pred l fuel base size in (b < length l)%nat /\ (b = 0 \/ b < k)%nat /\ (k <= S b)%nat.
Proof.
  intros Hp. revert base size. induction fuel as [|fuel IH]; intros base size Hs Hl Hb Hk; [lia|]. cbn [bisect].
  destruct (Nat.leb_spec size 1); [cbn; lia|].
  assert (0 < Nat.div2 size /\ 2 * Nat.div2 size <= size)%nat as Hd.
  { rewrite Nat.div2_div. split; [apply Nat.div_str_pos; lia|apply Nat.Div0.mul_div_le]. }
  generalize dependent (Nat.div2 size). intros h Hd.
  destruct (lookup_lt_is_Some_2 l (base + h)) as [x Hx]; [lia|]. rewrite Hx. cbn [from_option].
  rewrite (Hp _ _ Hx). destruct (Nat.ltb_spec (base + h) k); apply IH; lia.
Qed.

(** The binary search counts the prefix that satisfies the predicate. *)
Lemma partition_point_app {A} (pred : A -> bool) l1 l2 :
  Forall (fun x => pred x = true) l1 -> Forall (fun x => pred x = false) l2 ->
  partition_point pred (l1 ++ l2) = length l1.
Proof.
  intros H1 H2. set (l := l1 ++ l2).
  assert (forall i x, l !! i = Some x -> pred x = (i <? length l1)%nat) as Hp.
  { intros i x Hx. unfold l in Hx. apply lookup_app_Some in Hx as [Hx|[Hi Hx]].
    - pose proof (lookup_lt_Some _ _ _ Hx). rewrite Forall_lookup in H1. rewrite (H1 _ _ Hx). symmetry. by apply Nat.ltb_lt.
    - rewrite Forall_lookup in H2. rewrite (H2 _ _ Hx). symmetry. by apply Nat.ltb_ge. }
  assert (length l1 <= length l)%nat as Hle by (unfold l; rewrite length_app; lia).
  unfold partition_point. destruct l as [|y l'] eqn:E; [simpl in Hle; lia|]. rewrite <-E in *.
  destruct (bisect_spec pred l (length l1) (length l) 0 (length l)) as (Hb & Hor & Hk);
    [done|rewrite E; simpl; lia|lia|lia|lia|].
  destruct (lookup_lt_is_Some_2 l _ Hb) as [x Hx]. rewrite Hx. cbn [from_option]. rewrite (Hp _ _ Hx).
  destruct (Nat.ltb_spec (bisect pred l (length l) 0 (length l)) (length l1)); lia.
Qed.

(** Mappings in the order of the generated text. *)
Definition before (m n : Mapping) : Prop :=
  generated_line m < generated_line n
  \/ (generated_line m = generated_line n /\ generated_column m <= generated_column n).

Lemma sorted_cut (p : Mapping -> bool) ms :
  (forall m n, before m n -> p n = true -> p m = true) -> StronglySorted before ms ->
  Forall (fun x => p x = true) (take_while p ms) /\ Forall (fun x => p x = false) (drop_while p ms)
  /\ StronglySorted before (take_while p ms) /\ StronglySorted before (drop_while p ms).
Proof.
  intros Hp. induction 1 as [|m ms Hs IH Hf]; simpl; [split_and!; constructor|].
  destruct IH as (I1 & I2 & I3 & I4). destruct (p m) eqn:E.
  - split_and!; [by constructor|done| |done]. constructor; [done|].
    rewrite <-(take_drop_while p ms) in Hf. by apply Forall_app in Hf as [? _].
  - split_and!; [constructor| |constructor|by constructor].
    constructor; [done|]. eapply Forall_impl; [exact Hf|]. intros n Hn. destruct (p n) eqn:En; [|done].
    by rewrite (Hp _ _ Hn En) in E.
Qed.

(** The reference: the mappings of a line up to a column. *)
Definition at_or_before (line column : Z) (m : Mapping) : Prop :=
  generated_line m = line /\ generated_column m <= column.
#[local] Instance at_or_before_dec line column m : Decision (at_or_before line column m).
Proof. unfold at_or_before. apply _. Defined.

Lemma lookup_row line column row :
  Forall (fun m => generated_line m = line) row -> StronglySorted before row ->
  match partition_point (fun m => generated_column m <=? column) row with O => None | S i => row !! i end
  = last (filter (at_or_before line column) row).
Proof.
  intros Hl Hs.
  set (r := fun m => (generated_line m <? line) || ((generated_line m =? line) && (generated_column m <=? column))).
  destruct (sorted_cut r row) as (R1 & R2 & _); [|done|].
  { unfold r, before. intros m n Hb Hn. apply orb_true_iff in Hn. apply orb_true_iff.
    rewrite Z.ltb_lt, andb_true_iff, Z.eqb_eq, Z.leb_le in *. lia. }
  rewrite <-(take_drop_while r row) in Hl |- *. set (B1 := take_while r row) in *. set (B2 := drop_while r row) in *.
  apply Forall_app in Hl as [L1 L2].
  assert (Forall (fun m => generated_column m <= column) B1) as C1.
  { eapply Forall_impl; [exact (proj2 (Forall_and _ _) (conj R1 L1))|]. intros m [H1 H2]. unfold r in H1.
    apply orb_true_iff in H1. rewrite Z.ltb_lt, andb_true_iff, Z.leb_le in H1. lia. }
  assert (Forall (fun m => column < generated_column m) B2) as C2.
  { eapply Forall_impl; [exact (proj2 (Forall_and _ _) (conj R2 L2))|]. intros m [H1 H2]. unfold r in H1. split_bool.
    apply andb_false_iff in H0 as [H0|H0]; split_bool; lia. }
  rewrite partition_point_app.
  2: { eapply Forall_impl; [exact C1|]. intros. by apply Z.leb_le. }
  2: { eapply Forall_impl; [exact C2|]. intros. by apply Z.leb_gt. }
  rewrite filter_app, (filter_all _ B1), (filter_none _ B2), app_nil_r.
  2: { eapply Forall_impl; [exact C2|]. unfold at_or_before. intros. lia. }
  2: { exact (proj2 (Forall_and _ _) (conj L1 C1)). }
  rewrite last_lookup. destruct B1 as [|m B1]; [done|]. cbn [length pred].
  by rewrite lookup_app_l by (simpl; lia).
Qed.

Lemma lookup_mapping_spec ms line column :
  StronglySorted before ms ->
  lookup_mapping ms line column = last (filter (at_or_before line column) ms).
Proof.
  intros Hs. set (p := fun m => generated_line m <? line). set (q := fun m => generated_line m <=? line).
  destruct (sorted_cut q ms) as (Q1 & Q2 & Q3 & _); [unfold q, before; intros; split_bool; lia|done|].
  destruct (sorted_cut p (take_while q ms)) as (P1 & P2 & _ & P4); [unfold p, before; intros; split_bool; lia|done|].
  set (A := take_while p (take_while q ms)) in *. set (B := drop_while p (take_while q ms)) in *.
  set (C := drop_while q ms) in *.
  assert (take_while q ms = A ++ B) as HAB by (symmetry; apply take_drop_while).
  assert (ms = A ++ B ++ C) as Hms by (rewrite app_assoc, <-HAB; symmetry; apply take_drop_while).
  rewrite HAB in Q1. apply Forall_app in Q1 as [_ Q1].
  assert (Forall (fun m => generated_line m = line) B) as HB.
  { eapply Forall_impl; [exact (proj2 (Forall_and _ _) (conj P2 Q1))|]. unfold p, q. intros m [? ?]. split_bool. lia. }
  assert (partition_point p ms = length A) as Ep.
  { rewrite Hms. apply partition_point_app; [done|]. apply Forall_app. split; [done|].
    eapply Forall_impl; [exact Q2|]. unfold p, q. intros. split_bool. apply Z.ltb_ge. lia. }
  assert (partition_point q ms = length (A ++ B)) as Eq.
  { rewrite Hms, app_assoc. apply partition_point_app; [|done]. apply Forall_app. split; [|done].
    eapply Forall_impl; [exact P1|]. unfold p, q. intros. split_bool. apply Z.leb_le. lia. }
  unfold lookup_mapping. fold p q. rewrite Ep, Eq, length_app.
  rewrite (proj2 (Nat.leb_le _ _)) by lia. replace (length A + length B - length A)%nat with (length B) by lia.
  assert (take (length B) (drop (length A) ms) = B) as -> by (by rewrite Hms, drop_app_length, take_app_length).
  rewrite (lookup_row line column B HB P4), Hms, !filter_app, (filter_none _ A), (filter_none _ C), app_nil_r; [done|..].
  - eapply Forall_impl; [exact Q2|]. unfold q, at_or_before. intros. split_bool. lia.
  - eapply Forall_impl; [exact P1|]. unfold p, at_or_before. intros. split_bool. lia.
Qed.

(** The binary search is exact: on mappings in text order, a lookup of a
    generated position (1-based) gives the source, line and column of the last
    mapping on that line at or before that column, and nothing when the line
    has none or the source index is out of range. *)
Theorem original_position_exact s line column :
  StronglySorted before (sm_mappings s) ->
  original_position s line column =
    match last (filter (at_or_before (Z.max 0 (line - 1)) (Z.max 0 (column - 1))) (sm_mappings s)) with
    | None => None
    | Some m =>
        match sm_sources s !! Z.to_nat (source_index m) with
        | None => None
        | Some source => Some {|
            op_source := source; op_line := as_u32 (original_line m + 1);
            op_column := as_u32 (original_column m + 1);
            op_content := mjoin (sm_sources_content s !! Z.to_nat (source_index m)) |}
        end
    end.
Proof.
  intros Hs. unfold original_position. rewrite lookup_mapping_spec by done. unfold saturating_sub.
  by destruct (last _) as [m|].
Qed.

(** ** The identity map *)

Fixpoint identity_ops (index : Z) (n : nat) : list WriterOp :=
  match n with
  | O => []
  | S n' => (if index =? 0 then [] else [EndLine]) ++ Add 0 0 index 0 :: identity_ops (index + 1) n'
  end.

Definition identity_mapping (i : Z) : Mapping :=
  {| generated_line := i; generated_column := 0; source_index := 0; original_line := i; original_column := 0 |}.

Lemma identity_ops_text n : forall w index,
  0 <= index -> w_source w = 0 -> w_orig_col w = 0 -> w_gen_col w = 0 -> need_comma w = negb (index =? 0) ->
  w_orig_line w = Z.max 0 (index - 1) ->
  exists w', run_writer w (identity_ops index n) = Some w'
    /\ w_mappings w' = (w_mappings w ++ identity_mappings index n)%string.
Proof.
  induction n as [|n IH]; intros w index Hi Hs Hc Hg Hn Hl; cbn [identity_ops identity_mappings].
  - exists w. by rewrite append_nil_r.
  - destruct (Z.eqb_spec index 0) as [->|Hne]; cbn [app run_writer negb] in *.
    + unfold add. rewrite Hs, Hc, Hg, Hl, Hn.
      change (encode_vlq (0 - 0)) with (Some "A"%string). change (encode_vlq (0 - Z.max 0 (0 - 1))) with (Some "A"%string).
      cbn [mbind option_bind]. edestruct IH as (w' & Hr & Hm); [..|exists w'; split; [exact Hr|]]; [lia|done..|].
      rewrite Hm. cbn [w_mappings]. by rewrite !append_assoc.
    + unfold add. cbn [end_line w_gen_col w_source w_orig_line w_orig_col need_comma w_mappings]. rewrite Hs, Hc, Hl.
      replace (index - Z.max 0 (index - 1)) with 1 by lia.
      change (encode_vlq (0 - 0)) with (Some "A"%string). change (encode_vlq 1) with (Some "C"%string).
      cbn [mbind option_bind]. edestruct IH as (w' & Hr & Hm); [..|exists w'; split; [exact Hr|]]; [lia|done|done|done|..].
      * cbn. by destruct (Z.eqb_spec (index + 1) 0); [lia|].
      * cbn. lia.
      * rewrite Hm. cbn [w_mappings]. by rewrite !append_assoc.
Qed.

Lemma identity_ops_recorded n : forall index,
  0 <= index -> index + Z.of_nat n <= 2 ^ 32 ->
  recorded (Z.max 0 (index - 1)) (identity_ops index n) = identity_mapping <$> seqZ index (Z.of_nat n).
Proof.
  induction n as [|n IH]; intros index Hi Hn; [done|]. cbn [identity_ops].
  rewrite (seqZ_cons index) by lia. rewrite fmap_cons, Nat2Z.inj_succ, Z.pred_succ.
  assert (recorded index (identity_ops (index + 1) n) = identity_mapping <$> seqZ (Z.succ index) (Z.of_nat n)) as IH'.
  { unfold Z.succ. rewrite <-(IH (index + 1)) by lia. by replace (Z.max 0 (index + 1 - 1)) with index by lia. }
  destruct (Z.eqb_spec index 0) as [->|]; cbn [app recorded].
  - change (Z.max 0 (0 - 1)) with 0. by rewrite IH'.
  - replace (Z.max 0 (index - 1) + 1) with index by lia. rewrite IH'.
    unfold identity_mapping at 1. by rewrite as_u32_id by (unfold u32_max; lia).
Qed.

Lemma identity_mapping_sorted n index : StronglySorted before (identity_mapping <$> seqZ index (Z.of_nat n)).
Proof.
  revert index. induction n as [|n IH]; intros index; [constructor|].
  rewrite (seqZ_cons index) by lia. rewrite fmap_cons, Nat2Z.inj_succ, Z.pred_succ. constructor; [apply IH|].
  apply Forall_fmap, Forall_forall. intros i Hi. apply elem_of_seqZ in Hi. left. simpl. lia.
Qed.

Lemma identity_mapping_found n line column :
  0 <= column ->
  last (filter (at_or_before line column) (identity_mapping <$> seqZ 0 (Z.of_nat n)))
  = if (0 <=? line) && (line <? Z.of_nat n) then Some (identity_mapping line) else None.
Proof.
  intros Hc. assert (forall k index, last (filter (at_or_before line column) (identity_mapping <$> seqZ index (Z.of_nat k)))
    = if (index <=? line) && (line <? index + Z.of_nat k) then Some (identity_mapping line) else None) as H.
  { induction k as [|k IH]; intros index.
    - change (Z.of_nat 0) with 0. rewrite Z.add_0_r.
      destruct (Z.leb_spec index line), (Z.ltb_spec line index); (done || lia).
    - rewrite (seqZ_cons index) by lia. rewrite fmap_cons, Nat2Z.inj_succ, Z.pred_succ.
      destruct (decide (at_or_before line column (identity_mapping index))) as [[Hl Hcol]|Hno].
      + simpl in Hl. rewrite filter_cons_True by done. rewrite filter_none.
        2: { apply Forall_fmap, Forall_forall. intros i Hi. apply elem_of_seqZ in Hi. unfold at_or_before. simpl. lia. }
        subst. cbn [last]. destruct (Z.leb_spec line line), (Z.ltb_spec line (line + Z.succ (Z.of_nat k))); (done || lia).
      + rewrite filter_cons_False by done. rewrite IH. unfold at_or_before in Hno. simpl in Hno.
        destruct (Z.leb_spec (Z.succ index) line), (Z.leb_spec index line),
          (Z.ltb_spec line (Z.succ index + Z.of_nat k)), (Z.ltb_spec line (index + Z.succ (Z.of_nat k))); (done || lia). }
  apply H.
Qed.

Section Identity.
Context {MS : MapSerde} {ML : MapSerdeLaws MS}.

(** The map of an untransformed module is the identity: for a source of
    fewer than 2^32 lines, each generated position on one of its lines is found
    at column 1 of the same line of the same file with the source attached, and
    positions on other lines are not found. *)
Theorem identity_map_is_identity path source json line column :
  identity_source_map path source = Ok json ->
  vec_len (str_lines source) < 2 ^ 32 -> 1 <= line -> 1 <= column ->
  exists s, SourceMap_parse json = Some (Ok s)
    /\ original_position s line column =
         if line <=? Z.max 1 (vec_len (str_lines source))
         then Some {| op_source := path; op_line := line; op_column := 1; op_content := Some source |} else None.
Proof.
  intros Hj Hn Hline Hcol. unfold vec_len in *. unfold identity_source_map in Hj. set (n := Nat.max _ 1) in Hj.
  destruct (map_to_vec_pretty _) as [text|] eqn:E; [|done]. injection Hj as <-.
  destruct (identity_ops_text n SourceMapWriter_new 0) as (w & Hr & Hm); [done..|].
  destruct (writer_mappings_parse (identity_ops 0 n)) as (w' & Hr' & Hp).
  { assert (forall k index, 0 <= index -> index + Z.of_nat k <= 2 ^ 32 -> Forall op_u32 (identity_ops index k)) as H; [|apply H; lia].
    induction k as [|k IH]; intros index Hi Hk; cbn [identity_ops]; [constructor|]. apply Forall_app. split.
    - destruct (index =? 0); repeat constructor.
    - constructor; [|apply IH; lia]. unfold op_u32, u32_max. repeat constructor; lia. }
  rewrite Hr in Hr'. injection Hr' as <-. rewrite Hm in Hp. change (_ ++ ?t)%string with t in Hp.
  pose proof (identity_ops_recorded n 0 ltac:(lia) ltac:(lia)) as Hrec. change (Z.max 0 (0 - 1)) with 0 in Hrec.
  rewrite Hrec in Hp. eexists. split.
  { unfold SourceMap_parse. rewrite (map_roundtrip _ _ E). cbn [map_err smf_version negb Z.eqb smf_mappings Pos.eqb].
    by rewrite Hp. }
  unfold original_position, saturating_sub. cbn [sm_mappings sm_sources sm_sources_content smf_sources smf_sources_content].
  rewrite lookup_mapping_spec by apply identity_mapping_sorted. rewrite identity_mapping_found by lia.
  destruct (Z.leb_spec 0 (Z.max 0 (line - 1))); [|lia]. cbn [andb].
  destruct (Z.ltb_spec (Z.max 0 (line - 1)) (Z.of_nat n)), (Z.leb_spec line (Z.max 1 (Z.of_nat (length (str_lines source)))));
    [|lia|lia|done].
  unfold mbind, option_bind. cbn [identity_mapping source_index original_line original_column].
  rewrite as_u32_id by (unfold u32_max; lia). by replace (Z.max 0 (line - 1) + 1) with line by lia.
Qed.
End Identity.

(** ** A concrete map *)

#[local] Instance map_file_eq : EqDecision SourceMapFile.
Proof. solve_decision. Defined.

Definition sample_writer_ops : list WriterOp := [Add 0 0 0 0; Add 12 0 0 8; EndLine; EndLine; Add 4 1 7 2].
Definition sample_map_file (mappings : string) : SourceMapFile := {|
  smf_version := 3; smf_file := Some "app.js"%string; smf_sources := ["a.ts"; "b.ts"]%string;
  smf_sources_content := Some <$> ["A"; "B"]%string; smf_mappings := mappings |}.

(** A serializer for the maps of the examples. *)
Definition sample_map_serde : MapSerde := {|
  map_to_vec_pretty f :=
    if decide (f = sample_map_file "AAAA,YAAQ;;ICON") then Ok "1"
    else if decide (f = {| smf_version := 3; smf_file := Some "app.js"; smf_sources := ["a.ts"];
                           smf_sources_content := [Some "x"]; smf_mappings := "AAAA" |}) then Ok "2"
    else Err "unsupported";
  map_from_slice s :=
    if String.eqb s "1" then Ok (sample_map_file "AAAA,YAAQ;;ICON")
    else if String.eqb s "2" then Ok {| smf_version := 3; smf_file := Some "app.js"; smf_sources := ["a.ts"];
                                        smf_sources_content := [Some "x"]; smf_mappings := "AAAA" |}
    else Err "syntax" |}%string.
#[local] Existing Instance sample_map_serde.

Lemma sample_map_serde_laws : MapSerdeLaws sample_map_serde.
Proof.
  intros f s. cbn [map_to_vec_pretty map_from_slice sample_map_serde].
  repeat case_decide; intros [= <-]; subst; reflexivity.
Qed.

Lemma source_map_roundtrip_witness :
  SourceMap_parse "1" = Some (Ok {|
    sm_file := Some "app.js"%string; sm_sources := ["a.ts"; "b.ts"]%string;
    sm_sources_content := Some <$> ["A"; "B"]%string; sm_mappings := recorded 0 sample_writer_ops |}).
Proof.
  pose proof sample_map_serde_laws as L.
  apply (source_map_roundtrip sample_writer_ops "app.js" ["a.ts"; "b.ts"]%string ["A"; "B"]%string "1").
  - repeat constructor; done.
  - vm_compute. reflexivity.
Defined.

Lemma original_position_exact_witness :
  original_position {| sm_file := None; sm_sources := ["a.ts"; "b.ts"]%string; sm_sources_content := [];
    sm_mappings := recorded 0 sample_writer_ops |} 1 20
  = Some {| op_source := "a.ts"; op_line := 1; op_column := 9; op_content := None |}.
Proof.
  rewrite original_position_exact; [vm_compute; reflexivity|].
  repeat constructor; unfold before; simpl; lia.
Defined.

Lemma identity_map_is_identity_witness :
  exists s, SourceMap_parse "2" = Some (Ok s)
    /\ original_position s 1 5
       = Some {| op_source := "a.ts"; op_line := 1; op_column := 1; op_content := Some "x"%string |}.
Proof.
  pose proof sample_map_serde_laws as L.
  destruct (identity_map_is_identity "a.ts" "x" "2" 1 5) as (s & Hp & Ho); [vm_compute; reflexivity|done|done|done|].
  exists s. split; [exact Hp|exact Ho].
Defined.
