(* ===== verification/Manifest.v ===== *)
(** * Application manifest ([crates/tysel-manifest/src/lib.rs])

    The typed manifest, its validation, the connection grants and their
    resolution. The TOML and JSON parsers are parameters ([ManifestSerde]). An
    error keeps the field it is about and which check failed; its English text is
    not modelled. *)

From Stdlib Require Import ZArith Lia Ascii String.
From stdpp Require Import base tactics list gmap strings.
From S2P Require Import Prelude.
Open Scope Z_scope.

Definition MAX_FILESYSTEM_ROOTS_PER_OPERATION : Z := 64.

(** ** Data *)

Record App := { app_name : string; app_entry : string; app_profile : string }.
Record Server := {
  listen : string;
  http1 : bool;
  http2 : bool;
  websocket : bool;
  workers : Z;
}.
Record Permissions := {
  fetch : list string;
  secrets : list string;
  postgres : list string;
  redis : list string;
  fs_read : list string;
  fs_write : list string;
}.
Record Limits := {
  memory_mb : Z;
  cpu_ms_per_turn : Z;
  request_timeout_ms : Z;
  max_in_flight : Z;
  max_response_mb : Z;
  max_request_mb : Z;
}.
Record DurableConfig := { d_store : string; d_path : string }.
Record Observability := { logs : string; traces : option string; metrics : option string }.
Record TaskDef := { description : option string; depends : list string; steps : list (list string) }.

(** [tasks] is a [BTreeMap]: its bindings in key order, no key twice. *)
Record Manifest := {
  schema_version : Z;
  app : App;
  server : Server;
  permissions : Permissions;
  limits : Limits;
  durable : DurableConfig;
  observability : Observability;
  tasks : list (string * TaskDef);
}.

Definition Server_default : Server := {|
  listen := "127.0.0.1:3000"; http1 := true; http2 := false; websocket := false; workers := 1
|}.
Definition Limits_default : Limits := {|
  memory_mb := 128; cpu_ms_per_turn := 50; request_timeout_ms := 30000; max_in_flight := 1000;
  max_response_mb := 16; max_request_mb := 16
|}.
Definition Durable_default : DurableConfig := {| d_store := "sqlite"; d_path := "./data/tysel.db" |}.
Definition Observability_default : Observability := {| logs := "json"; traces := None; metrics := None |}.
Definition Permissions_default : Permissions := {|
  fetch := []; secrets := []; postgres := []; redis := []; fs_read := []; fs_write := []
|}.

(** Which check a manifest failed. *)
Inductive Complaint :=
| UnsupportedSchema (found : Z)
| NameEmpty
| NameSyntax
| EntryEmpty
| EntryCharacters
| EntryNotRelative
| NoProtocol
| WebsocketNeedsHttp1
| WorkersRange
| WorkersNeedService
| UnsupportedProfile (profile : string)
| ComponentNeedsWasm
| WasmNeedsComponent
| NotUnique (what : string)
| TooManyRoots (operation : string)
| OneConnection (what : string)
| BadGrant (raw : string)
| TaskNameSyntax (name : string)
| TaskEmpty (name : string)
| TaskUnknownDependency (name dependency : string)
| TaskDuplicateDependency (name dependency : string)
| StepEmptyArgument (name : string) (index : Z)
| StepCommand (name : string) (index : Z) (command : string)
| StepOverride (name : string) (index : Z)
| TaskCycle (name : string).

Inductive ManifestError :=
| ManifestIo
| ManifestToml
| ManifestJson
| UnsupportedFormat (path : string)
| Field (field : list string) (what : Complaint).

Definition invalid_field {A} (field : list string) (what : Complaint) : result ManifestError A :=
  Err (Field field what).

(** A check with its early return. *)
Definition ensure (ok : bool) (field : list string) (what : Complaint) : result ManifestError () :=
  if ok then Ok () else invalid_field field what.

(** [for x in l { f(x)?; }] *)
Fixpoint for_each {A} (f : A -> result ManifestError ()) (l : list A) : result ManifestError () :=
  match l with
  | [] => Ok ()
  | x :: l' => _ ← f x; for_each f l'
  end.

Inductive ManifestFormat := Toml | Json.

(** ** [std::path] on Unix, as far as entries use it *)

Inductive Component := RootDir | CurDir | ParentDir | Normal (name : string).

Definition is_absolute (path : string) : bool := starts_with "/" path.

(** Empty parts and inner dots are no components; a leading dot is one. *)
Definition part_component (first : bool) (part : string) : option Component :=
  if str_is_empty part then None
  else if String.eqb part "." then (if first then Some CurDir else None)
  else if String.eqb part ".." then Some ParentDir
  else Some (Normal part).

Definition components (path : string) : list Component :=
  match str_split "/" path with
  | [] => []
  | part :: parts =>
      (if is_absolute path then [RootDir] else option_list (part_component true part))
      ++ omap (part_component false) parts
  end.

(** [Path::file_name] and [Path::extension]: the part after the last dot of the
    last component, unless the dot is its first character. *)
Definition file_name (path : string) : option string :=
  match last (components path) with
  | Some (Normal name) => Some name
  | _ => None
  end.
Definition extension (path : string) : option string :=
  name ← file_name path;
  match rsplit_once "." name with
  | Some (before, after) => if str_is_empty before then None else Some after
  | None => None
  end.

(** [ManifestFormat::from_path] *)
Definition format_from_path (path : string) : result ManifestError ManifestFormat :=
  match extension path with
  | Some ext =>
      if String.eqb ext "toml" then Ok Toml
      else if String.eqb ext "json" then Ok Json
      else Err (UnsupportedFormat path)
  | None => Err (UnsupportedFormat path)
  end.
Definition format_label (f : ManifestFormat) : string :=
  match f with Toml => "toml" | Json => "json" end.

(** ** Names and entries *)

Definition is_one_of (l : list string) (s : string) : bool := existsb (String.eqb s) l.

Definition char_in (l : list ascii) (c : ascii) : bool := existsb (Ascii.eqb c) l.

(** A first character and a class for the others. Characters outside ASCII are in
    neither class, and neither are their bytes. *)
Definition name_syntax (first rest : ascii -> bool) (s : string) : bool :=
  match s with
  | EmptyString => false
  | String c s' => first c && str_all rest s'
  end.

Definition is_app_name : string -> bool :=
  name_syntax is_ascii_alphanumeric (fun c => is_ascii_alphanumeric c || char_in ["-"; "_"; "."]%char c).
Definition is_task_name : string -> bool :=
  name_syntax is_ascii_alphanumeric (fun c => is_ascii_alphanumeric c || char_in ["-"; "_"; ":"]%char c).
Definition is_postgres_alias : string -> bool :=
  name_syntax is_ascii_lowercase
    (fun c => is_ascii_lowercase c || is_ascii_digit c || char_in ["_"; "-"]%char c).
Definition is_task_command : string -> bool :=
  is_one_of ["check"; "test"; "build"; "inspect"; "compat"; "run"; "dev"; "mcp"; "queue"; "image"]%string.

(** [char::is_control]: U+0000..U+001F, U+007F..U+009F; the upper ones are the
    bytes C2 80 .. C2 9F. *)
Fixpoint has_control (s : string) : bool :=
  match s with
  | EmptyString => false
  | String a s' =>
      (byte_code a <? 32) || (byte_code a =? 127)
      || match s' with
         | String b _ => (byte_code a =? 194) && in_range 128 159 (byte_code b)
         | EmptyString => false
         end
      || has_control s'
  end.

Definition is_normal (c : Component) : bool := match c with Normal _ => true | _ => false end.
Definition escapes (c : Component) : bool :=
  match c with ParentDir | RootDir => true | Normal _ | CurDir => false end.
Definition windows_prefix (entry : string) : bool :=
  match entry with
  | String a (String b _) => is_ascii_alphabetic a && Ascii.eqb b ":"
  | _ => false
  end.

Definition backslash : ascii := byte_of 92.

Definition validate_entry (entry : string) : result ManifestError () :=
  if has_control entry || str_contains_char backslash entry then
    invalid_field ["app"; "entry"]%string EntryCharacters
  else if is_absolute entry || windows_prefix entry || existsb escapes (components entry)
          || negb (existsb is_normal (components entry)) then
    invalid_field ["app"; "entry"]%string EntryNotRelative
  else Ok ().

(** [BTreeSet] of the trimmed, non-empty values. *)
Definition unique_values (values : list string) : gset string :=
  list_to_set (filter (fun s => s <> EmptyString) (map trim values)).

Definition all_unique (values : list string) : bool :=
  Z.of_nat (size (unique_values values)) =? vec_len values.

Definition validate_string_set (name : string) (values : list string) : result ManifestError () :=
  ensure (all_unique values) (str_split "." name) (NotUnique name).

Definition validate_roots (operation : string) (roots : list string) : result ManifestError () :=
  _ ← ensure (all_unique roots) ["permissions"%string; operation] (NotUnique operation);
  ensure (Z.of_nat (size (unique_values roots)) <=? MAX_FILESYSTEM_ROOTS_PER_OPERATION)
    ["permissions"%string; operation] (TooManyRoots operation).

(** ** Connection grants *)

Record Grant := { grant_name : string; grant_mode : option string }.

(** The checks of [parse_postgres_grant] and [parse_redis_grant]; the two differ in
    the text of their messages. *)
Definition parse_grant (raw : string) : result Complaint Grant :=
  let raw := trim raw in
  if str_is_empty raw then Err (BadGrant raw)
  else if str_contains "://" raw || str_contains_char "/" raw || str_contains_char "@" raw then
    Err (BadGrant raw)
  else
    let '(name, mode) :=
      match split_once ":" raw with Some (n, m) => (n, Some m) | None => (raw, None) end in
    if negb (is_postgres_alias name) then Err (BadGrant raw)
    else if match mode with
            | Some m => negb (String.eqb m "read-write") && negb (String.eqb m "read-only")
            | None => false
            end then Err (BadGrant raw)
    else Ok {| grant_name := name; grant_mode := mode |}.
Definition parse_postgres_grant : string -> result Complaint Grant := parse_grant.
Definition parse_redis_grant : string -> result Complaint Grant := parse_grant.

Definition replace_char (a b : ascii) (s : string) : string :=
  str_map (fun c => if Ascii.eqb c a then b else c) s.

Definition postgres_url_env_key (name : string) : string :=
  ("TYSEL_POSTGRES_" ++ to_ascii_uppercase (replace_char "-" "_" name))%string.
Definition redis_url_env_key (name : string) : string :=
  ("TYSEL_REDIS_" ++ to_ascii_uppercase (replace_char "-" "_" name))%string.

Record Resolved := { url : string; read_only : bool }.

Definition nonempty (o : option string) : option string :=
  match o with Some s => if str_is_empty s then None else Some s | None => None end.

(** [resolve_postgres], [resolve_redis]: the process environment first, then the
    values of the environment file. *)
Definition resolve_grant (env_key : string -> string) (parse : string -> result Complaint Grant)
    (env : string -> option string) (grants : list string) (file_values : gmap string string)
    : option Resolved :=
  match filter (fun s => s <> EmptyString) (map trim grants) with
  | [] => None
  | raw :: _ =>
      match parse raw with
      | Err _ => None
      | Ok grant =>
          let key := env_key (grant_name grant) in
          match (match nonempty (env key) with
                 | Some v => Some v
                 | None => nonempty (file_values !! key)
                 end) with
          | Some u => Some {| url := u; read_only := bool_decide (grant_mode grant = Some "read-only"%string) |}
          | None => None
          end
      end
  end.
Definition resolve_postgres := resolve_grant postgres_url_env_key parse_postgres_grant.
Definition resolve_redis := resolve_grant redis_url_env_key parse_redis_grant.

(** ** Project tasks *)

Definition task_def (ts : list (string * TaskDef)) (name : string) : option TaskDef :=
  snd <$> find (fun p => String.eqb (fst p) name) ts.

Definition selects_project (argument : string) : bool :=
  is_one_of ["--"; "--manifest"; "-C"; "--project"; "--project-dir"]%string argument
  || starts_with "-C" argument || starts_with "--manifest=" argument
  || starts_with "--project=" argument || starts_with "--project-dir=" argument.

(** The loop over [task.depends] with its set of dependencies seen so far. *)
Fixpoint check_depends (ts : list (string * TaskDef)) (name : string) (seen : gset string) (deps : list string)
    : result ManifestError () :=
  match deps with
  | [] => Ok ()
  | dep :: deps' =>
      match task_def ts dep with
      | None => invalid_field ["tasks"%string; name] (TaskUnknownDependency name dep)
      | Some _ =>
          if bool_decide (dep ∈ seen) then
            invalid_field ["tasks"%string; name] (TaskDuplicateDependency name dep)
          else check_depends ts name ({[dep]} ∪ seen) deps'
      end
  end.

Definition check_step (name : string) (index : Z) (step : list string) : result ManifestError () :=
  let field := ["tasks"%string; name] in
  match step with
  | [] => invalid_field field (StepEmptyArgument name (index + 1))
  | command :: arguments =>
      if existsb str_is_empty step then invalid_field field (StepEmptyArgument name (index + 1))
      else if negb (is_task_command command) then invalid_field field (StepCommand name (index + 1) command)
      else if existsb selects_project arguments then invalid_field field (StepOverride name (index + 1))
      else Ok ()
  end.

Fixpoint check_steps (name : string) (index : Z) (l : list (list string)) : result ManifestError () :=
  match l with
  | [] => Ok ()
  | step :: l' => _ ← check_step name index step; check_steps name (index + 1) l'
  end.

Definition is_nil {A} (l : list A) : bool := match l with [] => true | _ => false end.

Definition check_task (ts : list (string * TaskDef)) (binding : string * TaskDef) : result ManifestError () :=
  let '(name, t) := binding in
  _ ← ensure (is_task_name name) ["tasks"%string; name] (TaskNameSyntax name);
  _ ← ensure (negb (is_nil (depends t) && is_nil (steps t))) ["tasks"%string; name] (TaskEmpty name);
  _ ← check_depends ts name ∅ (depends t);
  check_steps name 0 (steps t).

(** ** The search for a dependency cycle

    [visiting] and [visited] are shared by all calls. A missing task would be an
    index panic; [None] is an exhausted recursion budget. *)
Inductive VisitError := Panicked (name : string) | Rejected (e : ManifestError).
Definition Visit : Type := gset string * gset string.

Section VisitLoop.
Variable visit : string -> Visit -> option (result VisitError () * Visit).
Fixpoint visit_all (names : list string) (s : Visit) : option (result VisitError () * Visit) :=
  match names with
  | [] => Some (Ok (), s)
  | name :: names' =>
      match visit name s with
      | Some (Ok _, s') => visit_all names' s'
      | other => other
      end
  end.
End VisitLoop.

Fixpoint visit_task (fuel : nat) (ts : list (string * TaskDef)) (name : string) (s : Visit)
    : option (result VisitError () * Visit) :=
  match fuel with
  | O => None
  | S fuel' =>
      let '(visiting, visited) := s in
      if bool_decide (name ∈ visited) then Some (Ok (), s)
      else if bool_decide (name ∈ visiting) then
        Some (Err (Rejected (Field ["tasks"%string; name; "depends"%string] (TaskCycle name))), s)
      else
        match task_def ts name with
        | None => Some (Err (Panicked name), ({[name]} ∪ visiting, visited))
        | Some t =>
            match visit_all (visit_task fuel' ts) (depends t) ({[name]} ∪ visiting, visited) with
            | Some (Ok _, (visiting', visited')) =>
                Some (Ok (), (visiting' ∖ {[name]}, {[name]} ∪ visited'))
            | other => other
            end
        end
  end.

(** Every call below the first enters a task that is not being visited yet, so a
    budget of one call per task and one more is enough. *)
Definition visit_fuel (ts : list (string * TaskDef)) : nat := S (S (length ts)).

Definition validate_tasks (ts : list (string * TaskDef)) : option (result VisitError ()) :=
  match for_each (check_task ts) ts with
  | Err e => Some (Err (Rejected e))
  | Ok _ => fst <$> visit_all (visit_task (visit_fuel ts) ts) (map fst ts) (∅, ∅)
  end.

(** ** Validation of a whole manifest *)

Definition validate_entry_profile (m : Manifest) (entry : string) : result ManifestError () :=
  let is_component := bool_decide (extension entry = Some "wasm"%string) in
  let component_profile := String.eqb (app_profile (app m)) "component" in
  if component_profile && negb is_component then invalid_field ["app"; "entry"]%string ComponentNeedsWasm
  else if negb component_profile && is_component then invalid_field ["app"; "entry"]%string WasmNeedsComponent
  else Ok ().

Definition validate_connection (what : string) (parse : string -> result Complaint Grant) (grants : list string)
    : result ManifestError () :=
  _ ← ensure (vec_len grants <=? 1) ["permissions"%string; what] (OneConnection what);
  for_each (fun item => _ ← map_err (Field ["permissions"%string; what]) (parse item); Ok ()) grants.

(** [Manifest::validate] up to the tasks. *)
Definition validate_head (m : Manifest) : result ManifestError () :=
  let a := app m in let s := server m in let p := permissions m in
  _ ← ensure (schema_version m =? 1) ["schema_version"%string] (UnsupportedSchema (schema_version m));
  _ ← ensure (negb (str_is_empty (trim (app_name a)))) ["app"; "name"]%string NameEmpty;
  _ ← ensure (is_app_name (app_name a)) ["app"; "name"]%string NameSyntax;
  _ ← ensure (negb (str_is_empty (trim (app_entry a)))) ["app"; "entry"]%string EntryEmpty;
  _ ← validate_entry (app_entry a);
  _ ← ensure (http1 s || http2 s) ["server"; "http1"]%string NoProtocol;
  _ ← ensure (negb (websocket s && negb (http1 s))) ["server"; "websocket"]%string WebsocketNeedsHttp1;
  _ ← ensure (in_range 1 64 (workers s)) ["server"; "workers"]%string WorkersRange;
  _ ← ensure (negb ((1 <? workers s) && negb (String.eqb (app_profile a) "service")))
        ["server"; "workers"]%string WorkersNeedService;
  _ ← ensure (is_one_of ["service"; "isolated"; "component"]%string (app_profile a))
        ["app"; "profile"]%string (UnsupportedProfile (app_profile a));
  _ ← validate_entry_profile m (app_entry a);
  _ ← validate_string_set "permissions.fetch" (fetch p);
  _ ← validate_string_set "permissions.secrets" (secrets p);
  _ ← validate_roots "fs_read" (fs_read p);
  _ ← validate_roots "fs_write" (fs_write p);
  _ ← validate_connection "postgres" parse_postgres_grant (postgres p);
  validate_connection "redis" parse_redis_grant (redis p).

Definition validate (m : Manifest) : option (result VisitError ()) :=
  match validate_head m with
  | Err e => Some (Err (Rejected e))
  | Ok _ => validate_tasks (tasks m)
  end.

(** ** Parsing *)

(** serde's derived decoding from the two formats; [None] is a decoding error. *)
Class ManifestSerde := {
  toml_from_str : string -> option Manifest;
  manifest_from_json : string -> option Manifest;
}.

(** What the derived code promises: fields in the range of their types and the
    task table without duplicate keys. *)
Definition decoded (m : Manifest) : Prop :=
  is_u32 (schema_version m) = true /\ is_u32 (workers (server m)) = true
  /\ is_u32 (memory_mb (limits m)) = true /\ is_u64 (cpu_ms_per_turn (limits m)) = true
  /\ is_u64 (request_timeout_ms (limits m)) = true /\ is_u32 (max_in_flight (limits m)) = true
  /\ is_u32 (max_response_mb (limits m)) = true /\ is_u32 (max_request_mb (limits m)) = true
  /\ NoDup (map fst (tasks m)).
Class ManifestSerdeLaws (MF : ManifestSerde) : Prop := {
  toml_decoded : forall raw m, toml_from_str raw = Some m -> decoded m;
  json_decoded : forall raw m, manifest_from_json raw = Some m -> decoded m;
}.

Definition parse_with_format `{ManifestSerde} (raw : string) (format : ManifestFormat)
    : option (result VisitError Manifest) :=
  match (match format with
         | Toml => ok_or (toml_from_str raw) ManifestToml
         | Json => ok_or (manifest_from_json raw) ManifestJson
         end) with
  | Err e => Some (Err (Rejected e))
  | Ok m => (fun r => _ ← r; Ok m) <$> validate m
  end.
Definition parse `{ManifestSerde} (raw : string) : option (result VisitError Manifest) :=
  parse_with_format raw Toml.

(** [Manifest::from_path] over the file system [read]. *)
Definition from_path `{ManifestSerde} (read : string -> option string) (path : string)
    : option (result VisitError Manifest) :=
  match format_from_path path with
  | Err e => Some (Err (Rejected e))
  | Ok format =>
      match read path with
      | None => Some (Err (Rejected ManifestIo))
      | Some raw => parse_with_format raw format
      end
  end.

(** ** The report of [inspect] *)

Definition newline : string := String (byte_of 10) EmptyString.
Definition report_line (s : string) : string := (s ++ newline)%string.
Definition report_lines (l : list string) : string := foldr append EmptyString (map report_line l).
Definition indented (indent : string) (l : list string) : list string := map (append indent) l.

(** A heading with its items, when there are any. *)
Definition section (heading indent : string) (l : list string) : list string :=
  if is_nil l then [] else heading :: indented indent l.

Definition denied_always : list string :=
  ["  Raw TCP"; "  Child Process"; "  FFI"; "  Dynamic Library"; "  Environment"]%string.
Definition denied_component : list string :=
  ["  HTTP Client"; "  Secrets"; "  SQLite"; "  Postgres"; "  Redis"; "  LLM"; "  WebSocket";
   "  Durable Handlers"]%string.

Definition inspect_lines (m : Manifest) : list string :=
  let p := permissions m in
  let is_component := String.eqb (app_profile (app m)) "component" in
  let has_filesystem := negb (is_nil (fs_read p)) || negb (is_nil (fs_write p)) in
  ["Application: " ++ app_name (app m); "Profile: " ++ app_profile (app m);
   "Entry: " ++ app_entry (app m); "Listen: " ++ listen (server m);
   "Logs: " ++ logs (observability m); ""; "Capabilities"]%string
  ++ (if is_component then []
      else section "  HTTP Client" "    " (fetch p)
           ++ section "  Postgres" "    " (postgres p)
           ++ section "  Redis" "    " (redis p)
           ++ section "  Secrets" "    " (secrets p)
           ++ (if String.eqb (d_store (durable m)) "sqlite"
               then ["  SQLite"; "    " ++ d_path (durable m)]%string else []))
  ++ (if has_filesystem
      then ["  Filesystem"]%string ++ section "    Read" "      " (fs_read p)
           ++ section "    Write" "      " (fs_write p)
      else if is_component then ["  None"]%string else [])
  ++ [""; "Denied"]%string ++ (if is_component then denied_component else []) ++ denied_always.

Definition inspect_report (m : Manifest) : string := report_lines (inspect_lines m).
