(* ===== verification/ManifestThms.v ===== *)
(** * What validation of a manifest promises

    The task table: the depth-first search always returns within its budget,
    never indexes a missing task and accepts exactly the acyclic tables. The whole
    manifest: [validate] accepts exactly the manifests [wf] describes, so a parsed
    manifest is well-formed; a connection grant names its connection and never
    carries a URL. *)

From Stdlib Require Import ZArith Lia Ascii String.
From stdpp Require Import base tactics relations gmap strings list.
From S2P Require Import Prelude Manifest.
Open Scope Z_scope.

(** ** Early returns *)

Lemma for_each_ok {A} (f : A -> result ManifestError ()) l :
  for_each f l = Ok () <-> Forall (fun x => f x = Ok ()) l.
Proof.
  induction l as [|x l IH]; cbn; [done|]. rewrite list.Forall_cons, <- IH.
  unfold mbind, result_bind. destruct (f x) as [[]|e]; naive_solver.
Qed.

Lemma ensure_ok b field what : ensure b field what = Ok () <-> b = true.
Proof. unfold ensure, invalid_field. destruct b; naive_solver. Qed.

(** ** Lists as sets *)

Section SetOfList.
Context `{Countable A}.
Implicit Types l : list A.

Lemma list_to_set_size_le l : (size (list_to_set l : gset A) <= length l)%nat.
Proof.
  induction l as [|x l IH]; cbn; [by rewrite size_empty|]. rewrite size_union_alt, size_singleton.
  pose proof (subseteq_size (list_to_set l ∖ {[x]}) (list_to_set l : gset A) ltac:(set_solver)). lia.
Qed.

Lemma list_to_set_size_NoDup l : size (list_to_set l : gset A) = length l <-> NoDup l.
Proof.
  split; [|apply size_list_to_set]. induction l as [|x l IH]; cbn; [constructor|].
  rewrite size_union_alt, size_singleton. intros Hs. pose proof (list_to_set_size_le l) as Hle.
  assert (x ∉ l) as Hx.
  { intros Hin. pose proof (subset_size (list_to_set l ∖ {[x]}) (list_to_set l : gset A) ltac:(set_solver)). lia. }
  constructor; [done|]. apply IH. rewrite difference_disjoint_L in Hs by set_solver. lia.
Qed.
End SetOfList.

(** ** Dependencies *)

Definition known (ts : list (string * TaskDef)) (name : string) : Prop := is_Some (task_def ts name).
Definition needs (ts : list (string * TaskDef)) (a b : string) : Prop :=
  exists t, task_def ts a = Some t /\ b ∈ depends t.
Definition acyclic (ts : list (string * TaskDef)) : Prop := forall name, ~ tc (needs ts) name name.
Definition closed (ts : list (string * TaskDef)) : Prop := forall a b, needs ts a b -> known ts b.

Lemma task_def_elem ts name t : task_def ts name = Some t -> (name, t) ∈ ts.
Proof.
  unfold task_def. rewrite fmap_Some. intros [[n t'] [Hf [= ->]]]. apply find_some in Hf as [Hin He].
  apply String.eqb_eq in He. cbn in He. subst. by apply list_elem_of_In.
Qed.

Lemma known_elem ts name : known ts name <-> name ∈ map fst ts.
Proof.
  unfold known, task_def. split.
  - intros [t Ht]. apply task_def_elem in Ht. apply list_elem_of_fmap. by exists (name, t).
  - intros [[n t] [-> Hin]]%list_elem_of_fmap. apply list_elem_of_In in Hin.
    destruct (find _ ts) as [p|] eqn:E; [by eexists|].
    pose proof (find_none _ _ E _ Hin) as Hn. cbn in Hn. by rewrite String.eqb_refl in Hn.
Qed.

(** Nothing a finished task needs, directly or not, leads back to it. *)
Definition grounded (ts : list (string * TaskDef)) : string -> Prop := Acc (flip (needs ts)).

Lemma grounded_no_cycle ts name : grounded ts name -> ~ tc (needs ts) name name.
Proof.
  intros Hg. assert (Acc (flip (tc (needs ts))) name) as H.
  { induction Hg as [x _ IH]. constructor. intros y Hy. unfold flip in Hy.
    revert IH. induction Hy as [a b Hab|a b c Hab Hbc IHt]; intros IH.
    - by apply IH.
    - apply (Acc_inv (IH b Hab)). exact Hbc. }
  induction H as [x _ IH]. intros Hc. by apply (IH x).
Qed.

(** ** The search *)

Section Search.
Variable ts : list (string * TaskDef).

Definition names : gset string := list_to_set (map fst ts).

Lemma known_names name : known ts name <-> name ∈ names.
Proof. unfold names. by rewrite elem_of_list_to_set, known_elem. Qed.

Definition settled (visited : gset string) : Prop := set_Forall (grounded ts) visited.

(** What a finished search left behind, or the cycle it found. *)
Definition searched (todo : list string) (s : Visit) (r : option (result VisitError () * Visit)) : Prop :=
  match r with
  | Some (Ok _, s') => s'.1 = s.1 /\ s.2 ⊆ s'.2 /\ settled s'.2 /\ Forall (.∈ s'.2) todo
  | Some (Err (Rejected e), _) =>
      exists name, e = Field ["tasks"%string; name; "depends"%string] (TaskCycle name) /\ tc (needs ts) name name
  | Some (Err (Panicked _), _) | None => False
  end.

Lemma searched_all visit todo s :
  settled s.2 ->
  (forall name s', name ∈ todo -> s'.1 = s.1 -> settled s'.2 -> searched [name] s' (visit name s')) ->
  searched todo s (visit_all visit todo s).
Proof.
  revert s. induction todo as [|name todo IH]; intros s Hs Hv; cbn; [by rewrite list.Forall_nil|].
  pose proof (Hv name s ltac:(left) eq_refl Hs) as H1.
  destruct (visit name s) as [[[[]|[n|e]] s1]|]; cbn in H1; try done.
  destruct H1 as (Hvis & Hsub & Hset & Hin). apply list.Forall_cons in Hin as [Hin _].
  assert (searched todo s1 (visit_all visit todo s1)) as H2.
  { apply IH; [done|]. intros n s' Hn Hs'. apply Hv; [by right|congruence]. }
  clear IH Hv. destruct (visit_all visit todo s1) as [[[[]|[n|e]] s2]|]; cbn in H2 |- *; try exact H2.
  destruct H2 as (? & ? & ? & ?). split; [congruence|]. split; [set_solver|]. split; [done|].
  constructor; [set_solver|done].
Qed.

Hypothesis Hclosed : closed ts.

Lemma visit_searched fuel name s :
  known ts name -> s.1 ⊆ names -> (size (names ∖ s.1) < fuel)%nat ->
  (forall v, v ∈ s.1 -> tc (needs ts) v name) -> settled s.2 ->
  searched [name] s (visit_task fuel ts name s).
Proof.
  revert name s. induction fuel as [|fuel IH]; intros name [visiting visited] Hk Hsub Hf Hpath Hset; [lia|].
  cbn [visit_task fst snd] in *. case_bool_decide as Hd; [cbn; rewrite list.Forall_singleton; auto|].
  case_bool_decide as Hv; [by exists name; auto|].
  destruct Hk as [t Ht]. rewrite Ht.
  assert (searched (depends t) ({[name]} ∪ visiting, visited)
            (visit_all (visit_task fuel ts) (depends t) ({[name]} ∪ visiting, visited))) as H.
  { apply searched_all; [done|]. intros dep [v1 v2] Hdep Hv1 Hs. cbn in Hv1. subst v1.
    assert (needs ts name dep) as Hn by (by exists t).
    assert (name ∈ names) by (apply known_names; by exists t).
    apply IH; cbn; [by apply (Hclosed name)|set_solver| | |done].
    - assert (size (names ∖ ({[name]} ∪ visiting)) < size (names ∖ visiting))%nat; [|lia].
      apply subset_size. set_solver.
    - intros v [->%elem_of_singleton|Hvv]%elem_of_union; [by apply tc_once|].
      eapply tc_r; [by apply Hpath|done]. }
  destruct (visit_all _ _ _) as [[[[]|[n|e]] [v1 v2]]|]; cbn in H |- *; try exact H.
  destruct H as (-> & Hs2 & Hset2 & Hall). split; [set_solver|]. split; [set_solver|]. split; [|constructor; set_solver].
  apply set_Forall_union; [|done]. apply set_Forall_singleton. constructor. intros dep (t' & Ht' & Hdep).
  apply Hset2. rewrite list.Forall_forall in Hall. apply Hall. congruence.
Qed.

End Search.

(** ** The checks on one task *)

Definition step_wf (step : list string) : Prop :=
  exists command arguments, step = command :: arguments /\ Forall (fun a => a <> EmptyString) step
    /\ is_task_command command = true /\ Forall (fun a => selects_project a = false) arguments.

Definition task_wf (ts : list (string * TaskDef)) (binding : string * TaskDef) : Prop :=
  let '(name, t) := binding in
  is_task_name name = true /\ ~ (depends t = [] /\ steps t = [])
  /\ NoDup (depends t) /\ Forall (known ts) (depends t) /\ Forall step_wf (steps t).

Lemma check_depends_ok ts name seen deps :
  check_depends ts name seen deps = Ok ()
  <-> NoDup deps /\ Forall (known ts) deps /\ Forall (.∉ seen) deps.
Proof.
  revert seen. induction deps as [|dep deps IH]; intros seen; cbn; [repeat split; constructor|].
  rewrite NoDup_cons, !list.Forall_cons. unfold known at 1, invalid_field.
  destruct (task_def ts dep) as [t|]; [|split; [done|by intros (_ & [[? ?] _] & _)]].
  case_bool_decide as Hs; [naive_solver|]. rewrite IH. rewrite !list.Forall_forall. set_solver.
Qed.

Lemma existsb_false {A} (f : A -> bool) l : existsb f l = false <-> Forall (fun x => f x = false) l.
Proof.
  induction l as [|x l IH]; cbn; [done|]. rewrite orb_false_iff, IH, list.Forall_cons. done.
Qed.

Lemma check_step_ok name index step : check_step name index step = Ok () <-> step_wf step.
Proof.
  unfold check_step, step_wf, invalid_field. destruct step as [|c args]; [naive_solver|].
  destruct (existsb str_is_empty (c :: args)) eqn:He.
  - split; [done|]. intros (c' & args' & [= <- <-] & Hne & _).
    assert (existsb str_is_empty (c :: args) = false); [|congruence].
    apply existsb_false. eapply list.Forall_impl; [exact Hne|]. by intros [|? ?].
  - apply existsb_false in He.
    assert (Forall (fun a => a <> EmptyString) (c :: args)) by (eapply list.Forall_impl; [exact He|]; by intros ? ? ->).
    destruct (is_task_command c) eqn:Hc; cbn [negb];
      [|split; [done|]; intros (c' & args' & [= <- <-] & _ & Hc' & _); congruence].
    destruct (existsb selects_project args) eqn:Hs.
    + split; [done|]. intros (c' & args' & [= <- <-] & _ & _ & Ha). apply existsb_false in Ha. congruence.
    + apply existsb_false in Hs. split; [by exists c, args|done].
Qed.

Lemma check_steps_ok name index l : check_steps name index l = Ok () <-> Forall step_wf l.
Proof.
  revert index. induction l as [|step l IH]; intros index; cbn; [done|].
  by rewrite then_ok, check_step_ok, IH, list.Forall_cons.
Qed.

Lemma is_nil_true {A} (l : list A) : is_nil l = true <-> l = [].
Proof. by destruct l. Qed.

Lemma check_task_ok ts b : check_task ts b = Ok () <-> task_wf ts b.
Proof.
  destruct b as [name t]. unfold check_task, task_wf.
  rewrite !then_ok, !ensure_ok, check_depends_ok, check_steps_ok, negb_true_iff, andb_false_iff.
  rewrite <- !not_true_iff_false, !is_nil_true.
  assert (Forall (.∉ (∅ : gset string)) (depends t)) by (apply list.Forall_forall; set_solver).
  split; [naive_solver|]. intros (? & Hne & ?). repeat split; try naive_solver.
  destruct (depends t), (steps t); naive_solver.
Qed.

Lemma wf_closed ts : Forall (task_wf ts) ts -> closed ts.
Proof.
  intros Hwf a b (t & Ht & Hb). apply task_def_elem in Ht.
  rewrite list.Forall_forall in Hwf. destruct (Hwf _ Ht) as (_ & _ & _ & Hk & _).
  rewrite list.Forall_forall in Hk. by apply Hk.
Qed.

Lemma search_done ts : Forall (task_wf ts) ts ->
  searched ts (map fst ts) (∅, ∅) (visit_all (visit_task (visit_fuel ts) ts) (map fst ts) (∅, ∅)).
Proof.
  intros Hwf. apply searched_all; [by intros x ?%not_elem_of_empty|]. intros name [visiting visited] Hin Hs Hset. cbn in Hs. subst visiting.
  apply visit_searched; cbn; [by apply wf_closed|by apply known_elem|set_solver| |set_solver|done].
  rewrite difference_empty_L. unfold visit_fuel, names.
  pose proof (list_to_set_size_le (map fst ts)) as Hle. rewrite length_map in Hle. lia.
Qed.

Lemma settled_acyclic ts visited : settled ts visited -> Forall (.∈ visited) (map fst ts) -> acyclic ts.
Proof.
  intros Hset Hall name Hc. apply (grounded_no_cycle ts name); [|done].
  apply Hset. rewrite list.Forall_forall in Hall. apply Hall, known_elem.
  assert (exists b, needs ts name b) as (b & t & Ht & _) by (inversion Hc; eauto). by exists t.
Qed.

(** What [validate_tasks] answers on every table. *)
Lemma validate_tasks_spec ts :
  (Forall (task_wf ts) ts /\ acyclic ts /\ validate_tasks ts = Some (Ok ()))
  \/ (~ (Forall (task_wf ts) ts /\ acyclic ts) /\ exists e, validate_tasks ts = Some (Err (Rejected e))).
Proof.
  unfold validate_tasks. destruct (for_each (check_task ts) ts) as [[]|e] eqn:Hc.
  - apply for_each_ok in Hc. assert (Forall (task_wf ts) ts) as Hwf
      by (eapply list.Forall_impl; [exact Hc|]; intros b; apply check_task_ok).
    pose proof (search_done ts Hwf) as Hs.
    destruct (visit_all _ _ _) as [[[[]|[n|e]] s]|]; cbn in Hs |- *; try by destruct Hs.
    + left. destruct Hs as (_ & _ & Hset & Hall). split; [done|]. split; [|done]. by eapply settled_acyclic.
    + right. destruct Hs as (n & _ & Hcyc). split; [|by eexists]. intros [_ Ha]. by apply (Ha n).
  - right. split; [|by eexists]. intros [Hwf _]. assert (for_each (check_task ts) ts = Ok ()); [|congruence].
    apply for_each_ok. eapply list.Forall_impl; [exact Hwf|]. intros b. apply check_task_ok.
Qed.

(** C22. The search for dependency cycles is exact. On every table [validate_tasks]
    returns within its budget without indexing a missing task, and it accepts
    exactly the tables whose tasks are well-formed and whose dependencies have no
    cycle. *)
Theorem validate_tasks_exact ts :
  (exists r, validate_tasks ts = Some r /\ forall name, r <> Err (Panicked name))
  /\ (validate_tasks ts = Some (Ok ()) <-> Forall (task_wf ts) ts /\ acyclic ts).
Proof.
  destruct (validate_tasks_spec ts) as [(Hwf & Ha & ->)|(Hn & e & ->)].
  - split; [by eexists|done].
  - split; [by eexists|]. split; [done|]. intros H. by destruct (Hn H).
Qed.

(** ** A well-formed manifest *)

Definition distinct_values (l : list string) : Prop :=
  NoDup (map trim l) /\ Forall (fun s => s <> EmptyString) (map trim l).

(** Relative to the project, without a way out of it. *)
Definition entry_wf (entry : string) : Prop :=
  has_control entry = false /\ str_contains_char backslash entry = false
  /\ is_absolute entry = false /\ windows_prefix entry = false
  /\ Forall (fun c => c = CurDir \/ exists name, c = Normal name) (components entry)
  /\ Exists (fun c => exists name, c = Normal name) (components entry).

Definition grants_wf (parse : string -> result Complaint Grant) (l : list string) : Prop :=
  (length l <= 1)%nat /\ Forall (fun raw => exists g, parse raw = Ok g) l.

Record wf (m : Manifest) : Prop := {
  wf_schema : schema_version m = 1;
  wf_name : is_app_name (app_name (app m)) = true /\ trim (app_name (app m)) <> EmptyString;
  wf_entry : entry_wf (app_entry (app m)) /\ trim (app_entry (app m)) <> EmptyString;
  wf_protocol : http1 (server m) = true \/ http2 (server m) = true;
  wf_websocket : websocket (server m) = true -> http1 (server m) = true;
  wf_workers : 1 <= workers (server m) <= 64;
  wf_workers_service : 1 < workers (server m) -> app_profile (app m) = "service"%string;
  wf_profile : app_profile (app m) ∈ ["service"; "isolated"; "component"]%string;
  wf_component : app_profile (app m) = "component"%string <-> extension (app_entry (app m)) = Some "wasm"%string;
  wf_fetch : distinct_values (fetch (permissions m));
  wf_secrets : distinct_values (secrets (permissions m));
  wf_fs_read : distinct_values (fs_read (permissions m)) /\ (length (fs_read (permissions m)) <= 64)%nat;
  wf_fs_write : distinct_values (fs_write (permissions m)) /\ (length (fs_write (permissions m)) <= 64)%nat;
  wf_postgres : grants_wf parse_postgres_grant (postgres (permissions m));
  wf_redis : grants_wf parse_redis_grant (redis (permissions m));
  wf_tasks : Forall (task_wf (tasks m)) (tasks m);
  wf_acyclic : acyclic (tasks m);
}.

Lemma filter_length_all {A} (P : A -> Prop) `{!forall x, Decision (P x)} l :
  (length l <= length (filter P l))%nat -> Forall P l.
Proof.
  induction l as [|x l IH]; [done|]. rewrite filter_cons. case_decide; cbn; intros Hl.
  - constructor; [done|]. apply IH. lia.
  - pose proof (length_filter P l). lia.
Qed.

Lemma all_unique_ok l : all_unique l = true <-> distinct_values l.
Proof.
  unfold all_unique, vec_len, unique_values, distinct_values. rewrite Z.eqb_eq.
  pose proof (list_to_set_size_le (filter (fun s => s <> EmptyString) (map trim l))) as Hle.
  pose proof (length_filter (fun s => s <> EmptyString) (map trim l)) as Hf. rewrite length_map in Hf.
  split.
  - intros Hs. assert (Forall (fun s => s <> EmptyString) (map trim l)) as Hall.
    { apply (filter_length_all (fun s => s <> EmptyString)). rewrite length_map. lia. }
    split; [|done]. rewrite filter_all in Hs by done. apply list_to_set_size_NoDup.
    rewrite length_map. lia.
  - intros [Hnd Hall]. rewrite filter_all by done. apply list_to_set_size_NoDup in Hnd.
    rewrite length_map in Hnd. lia.
Qed.

Lemma str_is_empty_false s : str_is_empty s = false <-> s <> EmptyString.
Proof. by destruct s. Qed.

Lemma is_one_of_spec l s : is_one_of l s = true <-> s ∈ l.
Proof.
  unfold is_one_of. rewrite existsb_exists. setoid_rewrite String.eqb_eq. setoid_rewrite <- list_elem_of_In.
  naive_solver.
Qed.

Lemma existsb_Exists {A} (f : A -> bool) l : existsb f l = true <-> Exists (fun x => f x = true) l.
Proof. induction l as [|x l IH]; cbn; [by rewrite Exists_nil|]. by rewrite orb_true_iff, Exists_cons, IH. Qed.

Lemma validate_entry_ok entry : validate_entry entry = Ok () <-> entry_wf entry.
Proof.
  assert (forall c, escapes c = false <-> c = CurDir \/ exists name, c = Normal name) as He
    by (intros []; naive_solver).
  assert (forall c, is_normal c = true <-> exists name, c = Normal name) as Hn by (intros []; naive_solver).
  unfold validate_entry, entry_wf, invalid_field.
  setoid_rewrite <- He. setoid_rewrite <- Hn. rewrite <- existsb_false, <- existsb_Exists.
  destruct (has_control entry), (str_contains_char backslash entry); cbn [orb]; try naive_solver.
  destruct (is_absolute entry), (windows_prefix entry), (existsb escapes _), (existsb is_normal _); naive_solver.
Qed.

Lemma validate_entry_profile_ok m entry :
  validate_entry_profile m entry = Ok ()
  <-> (app_profile (app m) = "component"%string <-> extension entry = Some "wasm"%string).
Proof.
  unfold validate_entry_profile, invalid_field.
  destruct (String.eqb_spec (app_profile (app m)) "component"); case_bool_decide; cbn; naive_solver.
Qed.

Lemma validate_roots_ok operation roots :
  validate_roots operation roots = Ok () <-> distinct_values roots /\ (length roots <= 64)%nat.
Proof.
  unfold validate_roots. rewrite then_ok, !ensure_ok, all_unique_ok, Z.leb_le.
  split; intros [Hd Hl]; (split; [done|]); apply all_unique_ok in Hd; unfold all_unique, vec_len in Hd;
    change MAX_FILESYSTEM_ROOTS_PER_OPERATION with 64 in *; lia.
Qed.

Lemma validate_connection_ok what parse l :
  validate_connection what parse l = Ok () <-> grants_wf parse l.
Proof.
  unfold validate_connection, grants_wf. rewrite then_ok, ensure_ok, for_each_ok, Z.leb_le. unfold vec_len.
  assert (forall raw, (_ ← map_err (Field ["permissions"%string; what]) (parse raw); Ok ()) = Ok ()
                      <-> exists g, parse raw = Ok g) as H.
  { intros raw. unfold mbind, result_bind. destruct (parse raw); cbn; naive_solver. }
  setoid_rewrite H. split; intros [? ?]; (split; [lia|done]).
Qed.

Lemma validate_head_ok m :
  validate_head m = Ok () /\ Forall (task_wf (tasks m)) (tasks m) /\ acyclic (tasks m) <-> wf m.
Proof.
  unfold validate_head, validate_string_set.
  rewrite !then_ok, !ensure_ok, !validate_roots_ok, !validate_connection_ok, !all_unique_ok,
    validate_entry_ok, validate_entry_profile_ok, !negb_true_iff, !str_is_empty_false, is_one_of_spec,
    in_range_spec, Z.eqb_eq, orb_true_iff, !andb_false_iff, !negb_false_iff, Z.ltb_ge, String.eqb_eq.
  split.
  - intros ((? & ? & ? & ? & ? & ? & Hws & ? & Hws' & ? & ? & ? & ? & ? & ? & ? & ?) & ? & ?).
    constructor; try done.
    + intros Hw. destruct Hws as [Hws|]; [congruence|done].
    + intros Hw. destruct Hws' as [|]; [lia|done].
  - intros [? [? ?] [? ?] ? Hws ? Hws' ? ? ? ? ? ? ? ? ? ?]. split_and!; try tauto.
    + destruct (websocket (server m)); [right; by apply Hws|by left].
    + destruct (Z.le_gt_cases (workers (server m)) 1); [by left|right; apply Hws'; lia].
Qed.

(** C21. A manifest the runtime works with is well-formed: parsing, from either
    format, returns a manifest exactly when the text decodes to one that satisfies
    every condition of [wf], with its numbers in the range of their types. *)
Theorem parsed_manifest_wf `{MF : ManifestSerde, !ManifestSerdeLaws MF} raw format m :
  parse_with_format raw format = Some (Ok m)
  <-> (match format with Toml => toml_from_str raw | Json => manifest_from_json raw end) = Some m
      /\ decoded m /\ wf m.
Proof.
  unfold parse_with_format. rewrite <- validate_head_ok.
  assert (forall m', (fun r => _ ← r; Ok m') <$> validate m' = Some (Ok m)
     <-> m' = m /\ validate_head m = Ok () /\ Forall (task_wf (tasks m)) (tasks m) /\ acyclic (tasks m)) as H.
  { intros m'. unfold validate. destruct (validate_head m') as [[]|e] eqn:E; cbn;
      [|split; [done|]; intros (-> & Hv & _); congruence].
    destruct (validate_tasks_spec (tasks m')) as [(? & ? & ->)|(Hn & e & ->)]; cbn.
    - split; [by intros [= <-]|by intros (-> & _)].
    - split; [done|]. intros (-> & _ & Ht). by destruct (Hn Ht). }
  assert (forall o, (forall m', o = Some m' -> decoded m') -> forall e,
     match ok_or o e with Err e => Some (Err (Rejected e)) | Ok m' => (fun r => _ ← r; Ok m') <$> validate m' end
       = Some (Ok m) <-> o = Some m /\ decoded m /\ validate_head m = Ok ()
         /\ Forall (task_wf (tasks m)) (tasks m) /\ acyclic (tasks m)) as Ho.
  { intros [m'|] Hd e; cbn; [rewrite H|by split; [|intros [? _]]].
    split; [intros (-> & ?); split; [done|]; split; [by apply Hd|done]|by intros ([= ->] & _ & ?)]. }
  destruct format; apply Ho; [apply toml_decoded|apply json_decoded].
Qed.

(** ** A manifest *)

Definition sample_manifest : Manifest := {|
  schema_version := 1;
  app := {| app_name := "orders.api"; app_entry := "./src/index.ts"; app_profile := "service" |};
  server := {| listen := "0.0.0.0:8080"; http1 := true; http2 := false; websocket := true; workers := 4 |};
  permissions := {| fetch := ["api.example.com"]; secrets := ["TOKEN"]; postgres := ["main:read-only"];
                    redis := []; fs_read := ["./data"; "./public"]; fs_write := [] |}%string;
  limits := Limits_default;
  durable := Durable_default;
  observability := Observability_default;
  tasks := [("build", {| description := None; depends := ["check"]; steps := [["build"; "--release"]] |});
            ("check", {| description := None; depends := []; steps := [["check"]] |})]%string;
|}.

Definition sample_manifest_serde : ManifestSerde := {|
  toml_from_str raw := if String.eqb raw "orders" then Some sample_manifest else None;
  manifest_from_json _ := None;
|}.

Lemma sample_manifest_laws : ManifestSerdeLaws sample_manifest_serde.
Proof.
  constructor; [|done]. intros raw m. cbn. destruct (String.eqb raw "orders"); [|done]. intros [= <-].
  repeat split; try reflexivity. cbn. repeat constructor; set_solver.
Qed.

Lemma parsed_manifest_wf_witness :
  @parse_with_format sample_manifest_serde "orders" Toml = Some (Ok sample_manifest) /\ wf sample_manifest.
Proof.
  assert (@parse_with_format sample_manifest_serde "orders" Toml = Some (Ok sample_manifest)) as H
    by (vm_compute; reflexivity).
  split; [exact H|].
  exact (proj2 (proj2 (proj1 (@parsed_manifest_wf sample_manifest_serde sample_manifest_laws "orders" Toml sample_manifest) H))).
Defined.
