(* ===== verification/TaskRunner.v ===== *)
(** * Project tasks of the command line ([crates/tysel-cli/src/task.rs])

    [tysel task <name>] runs the steps of a task after those of the tasks it
    depends on. The processes are a parameter; [ran] and [log] record the tasks
    finished and the steps started, in order. *)

From Stdlib Require Import ZArith Lia Ascii String.
From stdpp Require Import base tactics relations gmap strings list.
From S2P Require Import Prelude Manifest ManifestThms.
Open Scope Z_scope.

(** [env::current_exe], and [Command::status] of an executable with its arguments and
    working directory: [None] when the process does not start. *)
Class StepProcess := {
  os : Type;
  current_exe : os -> option string;
  command_status : string -> list string -> string -> os -> option Z * os;
}.

Section Runner.
Context {SP : StepProcess}.
(** The fields of [ProjectContext] that a step is given *)
Context (manifest_path root : string).

Inductive RunError :=
| UnknownTask (name : string)
| NoExecutable
| StepDidNotStart (name : string) (index : Z)
| StepFailed (name : string) (index : Z) (status : Z)
| MissingTask (name : string).

Record RunState := {
  completed : gset string;
  ran : list string;
  log : list (string * list string);
  machine : os;
}.

Definition spawn_step (exe : string) (step : list string) (w : os) : option Z * os :=
  command_status exe (step ++ ["--manifest"%string; manifest_path]) root w.

(** The loop over [task.steps]; a status of zero is success. *)
Fixpoint run_steps (name : string) (index : Z) (l : list (list string)) (s : RunState)
    : result RunError () * RunState :=
  match l with
  | [] => (Ok (), s)
  | step :: l' =>
      match current_exe (machine s) with
      | None => (Err NoExecutable, s)
      | Some exe =>
          let '(status, w) := spawn_step exe step (machine s) in
          let s' := {| completed := completed s; ran := ran s; log := log s ++ [(name, step)]; machine := w |} in
          match status with
          | None => (Err (StepDidNotStart name (index + 1)), s')
          | Some 0 => run_steps name (index + 1) l' s'
          | Some n => (Err (StepFailed name (index + 1) n), s')
          end
      end
  end.

Section DependsLoop.
Variable execute : string -> RunState -> option (result RunError () * RunState).
Fixpoint execute_all (l : list string) (s : RunState) : option (result RunError () * RunState) :=
  match l with
  | [] => Some (Ok (), s)
  | name :: l' =>
      match execute name s with
      | Some (Ok _, s') => execute_all l' s'
      | other => other
      end
  end.
End DependsLoop.

Definition finish_task_run (name : string) (s : RunState) : RunState := {|
  completed := {[name]} ∪ completed s; ran := ran s ++ [name]; log := log s; machine := machine s
|}.

Fixpoint execute_task (fuel : nat) (ts : list (string * TaskDef)) (name : string) (s : RunState)
    : option (result RunError () * RunState) :=
  match fuel with
  | O => None
  | S fuel' =>
      if bool_decide (name ∈ completed s) then Some (Ok (), s)
      else
        match task_def ts name with
        | None => Some (Err (MissingTask name), s)
        | Some t =>
            match execute_all (execute_task fuel' ts) (depends t) s with
            | Some (Ok _, s1) =>
                match run_steps name 0 (steps t) s1 with
                | (Ok _, s2) => Some (Ok (), finish_task_run name s2)
                | (Err e, s2) => Some (Err e, s2)
                end
            | other => other
            end
        end
  end.

Definition fresh_run (w : os) : RunState := {| completed := ∅; ran := []; log := []; machine := w |}.

(** [task::run] with a name. *)
Definition run_project_task (ts : list (string * TaskDef)) (name : string) (w : os)
    : option (result RunError () * RunState) :=
  match task_def ts name with
  | None => Some (Err (UnknownTask name), fresh_run w)
  | Some _ => execute_task (visit_fuel ts) ts name (fresh_run w)
  end.

(** ** What a run has done *)

Section Correct.
Variable ts : list (string * TaskDef).

Definition task_steps (name : string) : list (string * list string) :=
  match task_def ts name with Some t => map (pair name) (steps t) | None => [] end.

(** Finished tasks: each once, each after what it needs. *)
Definition in_order (l : list string) : Prop :=
  NoDup l /\ forall before name after, l = before ++ name :: after -> forall dep, needs ts name dep -> dep ∈ before.

Record consistent (s : RunState) : Prop := {
  cs_completed : completed s = list_to_set (ran s);
  cs_order : in_order (ran s);
}.

(** The log holds the steps of the finished tasks, then [extra]. *)
Definition logged (s : RunState) (extra : list (string * list string)) : Prop :=
  log s = concat (map task_steps (ran s)) ++ extra.

(** The steps of task [n] that were started when the run ended with [e] *)
Definition stopped (n : string) (e : RunError) (some : list (string * list string)) : Prop :=
  match e with
  | StepFailed m index _ | StepDidNotStart m index => m = n /\ index = vec_len some /\ some <> []
  | NoExecutable => some <> task_steps n
  | UnknownTask _ | MissingTask _ => False
  end.

(** From [s], the tasks reachable from [todo] were run: all of them, or up to a
    step of a task whose dependencies are finished. *)
Definition progressed (todo : list string) (s : RunState) (r : option (result RunError () * RunState)) : Prop :=
  match r with
  | None => False
  | Some (answer, s') =>
      consistent s' /\ ran s `prefix_of` ran s'
      /\ (forall n, n ∈ ran s' -> n ∈ ran s \/ exists t, t ∈ todo /\ rtc (needs ts) t n)
      /\ match answer with
         | Ok _ => Forall (fun n => n ∈ ran s') todo /\ logged s' []
         | Err e => exists n, (n ∉ ran s') /\ (forall dep, needs ts n dep -> dep ∈ ran s')
             /\ (exists t, t ∈ todo /\ rtc (needs ts) t n)
             /\ exists some, stopped n e some /\ some `prefix_of` task_steps n /\ logged s' some
         end
  end.

Lemma run_steps_log name l index s answer s' :
  run_steps name index l s = (answer, s') ->
  completed s' = completed s /\ ran s' = ran s
  /\ exists some, log s' = log s ++ some /\ some `prefix_of` map (pair name) l
     /\ match answer with
        | Ok _ => some = map (pair name) l
        | Err (StepFailed n i _ | StepDidNotStart n i) => n = name /\ i = index + vec_len some /\ some <> []
        | Err NoExecutable => some <> map (pair name) l
        | Err _ => False
        end.
Proof.
  revert index s. induction l as [|step l IH]; intros index s; cbn.
  { intros [= <- <-]. repeat split. exists []. by rewrite app_nil_r. }
  destruct (current_exe (machine s)) as [exe|].
  2:{ intros [= <- <-]. split; [done|]. split; [done|]. exists []. rewrite app_nil_r. split; [done|]. split; [apply prefix_nil|done]. }
  destruct (spawn_step exe step (machine s)) as [[[|p|p]|] w].
  2-4: intros [= <- <-]; cbn; split; [done|]; split; [done|]; exists [(name, step)]; split; [done|];
    split; [by exists (map (pair name) l)|done].
  intros Hr. apply IH in Hr as (Hc & Hn & some & Hlog & Hp & Ha). cbn in *. split; [done|]. split; [done|].
  exists ((name, step) :: some). rewrite Hlog, <- app_assoc. split; [done|]. split; [by apply prefix_cons|].
  unfold vec_len in *. cbn [length]. destruct answer as [[]|[| | | |]]; [by subst|done|congruence| | |done].
  all: destruct Ha as (-> & -> & _); split; [done|]; split; [lia|done].
Qed.

Lemma in_order_snoc l name :
  in_order l -> name ∉ l -> (forall dep, needs ts name dep -> dep ∈ l) -> in_order (l ++ [name]).
Proof.
  intros [Hnd Ho] Hn Hdeps. split.
  - apply NoDup_app. repeat split; [done|set_solver|apply NoDup_singleton].
  - intros before n after Hl dep Hd. destruct after as [|a after _] using rev_ind.
    + apply app_inj_tail in Hl as [-> ->]. by apply Hdeps.
    + rewrite app_comm_cons, app_assoc in Hl. apply app_inj_tail in Hl as [-> _].
      by eapply (Ho before n after).
Qed.

Lemma progressed_all execute todo s :
  consistent s -> logged s [] ->
  (forall name s', name ∈ todo -> consistent s' -> logged s' [] -> progressed [name] s' (execute name s')) ->
  progressed todo s (execute_all execute todo s).
Proof.
  revert s. induction todo as [|name todo IH]; intros s Hc Hl He; cbn; [by auto|].
  pose proof (He name s ltac:(left) Hc Hl) as H1.
  destruct (execute name s) as [[a1 s1]|]; [|exact H1]. destruct H1 as (Hc1 & Hp1 & Hr1 & Ha1).
  destruct a1 as [[]|e].
  - destruct Ha1 as [Hin Hl1]. apply list.Forall_cons in Hin as [Hin _].
    assert (progressed todo s1 (execute_all execute todo s1)) as H2.
    { apply IH; [done|done|]. intros n s' Hn. apply He. by right. }
    clear IH He. destruct (execute_all execute todo s1) as [[a2 s2]|]; [|exact H2].
    destruct H2 as (Hc2 & Hp2 & Hr2 & Ha2). split; [done|]. split; [by etrans|]. split.
    { intros n [Hn|(t & Ht & Hrt)]%Hr2; [apply Hr1 in Hn as [|(t & ->%list_elem_of_singleton & ?)]; [by left|]|];
        right; [exists name|exists t]; (split; [|done]); [left|by right]. }
    destruct a2 as [[]|e].
    + destruct Ha2 as [Hall Hl2]. split; [|done]. constructor; [|done].
      destruct Hp2 as [k Hk]. rewrite Hk. apply elem_of_app. by left.
    + destruct Ha2 as (n & ? & ? & (t & ? & ?) & ?). exists n. split_and!; try done. exists t. split; [by right|done].
  - split; [done|]. split; [done|]. split.
    { intros n [|(t & ->%list_elem_of_singleton & ?)]%Hr1; [by left|]. right. exists name. split; [left|done]. }
    destruct Ha1 as (n & ? & ? & (t & ->%list_elem_of_singleton & ?) & ?). exists n. split_and!; try done.
    exists name. split; [left|done].
Qed.

Lemma in_order_needs l n dep : in_order l -> n ∈ l -> needs ts n dep -> dep ∈ l.
Proof.
  intros [_ Ho] (l1 & l2 & ->)%list_elem_of_split Hn. apply elem_of_app. left. by eapply Ho.
Qed.

Lemma in_order_reaches l a b : in_order l -> a ∈ l -> rtc (needs ts) a b -> b ∈ l.
Proof. intros Ho Ha Hr. induction Hr as [|a x b Hax _ IH]; [done|]. apply IH. by eapply in_order_needs. Qed.

Hypothesis Hclosed : closed ts.
Hypothesis Hacyclic : acyclic ts.

(** What was reached through a dependency of [name] was reached from [name]. *)
Lemma reached_through name t s s1 :
  task_def ts name = Some t ->
  (forall n, n ∈ ran s1 -> n ∈ ran s \/ exists d, d ∈ depends t /\ rtc (needs ts) d n) ->
  forall n, n ∈ ran s1 -> n ∈ ran s \/ exists x, x ∈ [name] /\ rtc (needs ts) x n.
Proof.
  intros Ht Hr n [|(d & Hd & Hrt)]%Hr; [by left|]. right. exists name. split; [left|].
  eapply rtc_l; [by exists t|done].
Qed.

(** A task is not finished by running its dependencies. *)
Lemma not_reached name t s s1 :
  task_def ts name = Some t -> name ∉ ran s ->
  (forall n, n ∈ ran s1 -> n ∈ ran s \/ exists d, d ∈ depends t /\ rtc (needs ts) d n) -> name ∉ ran s1.
Proof.
  intros Ht Hn Hr [|(d & Hd & Hrt)]%Hr; [done|]. apply (Hacyclic name). eapply tc_rtc_r; [|exact Hrt].
  apply tc_once. by exists t.
Qed.

(** The steps of a task, once its dependencies are finished. *)
Lemma own_steps name t s s1 :
  task_def ts name = Some t -> name ∉ ran s -> consistent s1 -> ran s `prefix_of` ran s1 ->
  (forall n, n ∈ ran s1 -> n ∈ ran s \/ exists d, d ∈ depends t /\ rtc (needs ts) d n) ->
  Forall (fun d => d ∈ ran s1) (depends t) -> logged s1 [] ->
  progressed [name] s (match run_steps name 0 (steps t) s1 with
                       | (Ok _, s2) => Some (Ok (), finish_task_run name s2)
                       | (Err e, s2) => Some (Err e, s2)
                       end).
Proof.
  intros Ht Hn Hc1 Hp1 Hr1 Hdeps Hl1. pose proof (not_reached _ _ _ _ Ht Hn Hr1) as Hn1.
  assert (forall dep, needs ts name dep -> dep ∈ ran s1) as Hneed.
  { intros dep (t' & Ht' & Hd). rewrite list.Forall_forall in Hdeps. apply Hdeps. congruence. }
  destruct (run_steps name 0 (steps t) s1) as [answer s2] eqn:Hs.
  apply run_steps_log in Hs as (Hcomp & Hran & some & Hlog & Hpre & Ha).
  unfold logged in Hl1. rewrite app_nil_r in Hl1. destruct Hc1 as [Hset Hord].
  destruct answer as [[]|e].
  - subst some. split; [|split; [|split; [|split]]].
    + constructor; cbn; [rewrite list_to_set_app_L, Hcomp, Hran, Hset; set_solver|].
      rewrite Hran. by apply in_order_snoc.
    + cbn. rewrite Hran. by apply prefix_app_r.
    + cbn. rewrite Hran. intros n [Hin| ->%list_elem_of_singleton]%elem_of_app;
        [by eapply reached_through|]. right. exists name. split; [left|apply rtc_refl].
    + constructor; [cbn; set_solver|done].
    + unfold logged. cbn. rewrite Hlog, Hl1, Hran, map_app, concat_app. cbn. rewrite !app_nil_r.
      unfold task_steps at 3. by rewrite Ht.
  - assert (consistent s2) as Hc2 by (constructor; [congruence|by rewrite Hran]).
    split; [done|]. rewrite Hran. split; [done|]. split; [by eapply reached_through|].
    assert (task_steps name = map (pair name) (steps t)) as Hst by (unfold task_steps; by rewrite Ht).
    exists name. split; [done|]. split; [done|]. split; [exists name; split; [left|apply rtc_refl]|].
    exists some. unfold stopped, logged. rewrite Hst, Hlog, Hl1, Hran. split; [|done].
    destruct e; naive_solver.
Qed.

(** [path]: the tasks on the way to the current one. *)
Lemma execute_progressed fuel name s path :
  known ts name -> path ⊆ names ts -> (size (names ts ∖ path) < fuel)%nat ->
  (forall v, v ∈ path -> tc (needs ts) v name) -> consistent s -> logged s [] ->
  progressed [name] s (execute_task fuel ts name s).
Proof.
  revert name s path. induction fuel as [|fuel IH]; intros name s path Hk Hsub Hf Hpath Hc Hl; [lia|].
  cbn [execute_task]. case_bool_decide as Hd.
  { split; [done|]. split; [done|]. split; [by left|]. split; [|done].
    rewrite (cs_completed _ Hc) in Hd. constructor; [set_solver|done]. }
  destruct Hk as [t Ht]. rewrite Ht.
  assert (name ∉ path) as Hnp by (intros Hin; by apply (Hacyclic name), Hpath).
  assert (name ∈ names ts) as Hnn by (apply known_names; by exists t).
  assert (progressed (depends t) s (execute_all (execute_task fuel ts) (depends t) s)) as H.
  { apply progressed_all; [done|done|]. intros dep s' Hdep Hc' Hl'.
    assert (needs ts name dep) as Hn by (by exists t).
    apply (IH dep s' ({[name]} ∪ path)); [by apply (Hclosed name)|set_solver| | |done|done].
    - assert (size (names ts ∖ ({[name]} ∪ path)) < size (names ts ∖ path))%nat; [|lia].
      apply subset_size. set_solver.
    - intros v [->%elem_of_singleton|Hv]%elem_of_union; [by apply tc_once|].
      eapply tc_r; [by apply Hpath|done]. }
  clear IH. destruct (execute_all _ _ _) as [[a1 s1]|]; [|exact H].
  destruct H as (Hc1 & Hp1 & Hr1 & Ha1). assert (name ∉ ran s) by (rewrite (cs_completed _ Hc) in Hd; set_solver).
  destruct a1 as [[]|e]; [by destruct Ha1; eapply own_steps|].
  split; [done|]. split; [done|]. split; [by eapply reached_through|].
  destruct Ha1 as (n & ? & ? & (d & Hd' & ?) & ?). exists n. split_and!; try done.
  exists name. split; [left|]. eapply rtc_l; [by exists t|done].
Qed.

End Correct.

(** ** What the steps answered *)

(** The statuses of the steps started one after the other from [w], and the machine
    after them *)
Fixpoint statuses (l : list (list string)) (w : os) : list (option Z) :=
  match l with
  | [] => []
  | step :: l' =>
      let '(status, w') := spawn_step (default ""%string (current_exe w)) step w in
      status :: statuses l' w'
  end.
Fixpoint machine_after (l : list (list string)) (w : os) : os :=
  match l with
  | [] => w
  | step :: l' => machine_after l' (spawn_step (default ""%string (current_exe w)) step w).2
  end.

Lemma statuses_snoc l step w :
  statuses (l ++ [step]) w
  = statuses l w ++ [(spawn_step (default ""%string (current_exe (machine_after l w))) step (machine_after l w)).1].
Proof.
  revert w. induction l as [|x l IH]; intros w; cbn; [by destruct (spawn_step _ _ w)|].
  destruct (spawn_step _ x w) as [status w']. cbn. by rewrite IH.
Qed.
Lemma machine_after_snoc l step w :
  machine_after (l ++ [step]) w = (spawn_step (default ""%string (current_exe (machine_after l w))) step (machine_after l w)).2.
Proof. revert w. induction l as [|x l IH]; intros w; cbn; [done|]. by rewrite IH. Qed.

Section Statuses.
Context (w : os).
Definition answers (s : RunState) : list (option Z) := statuses (map snd (log s)) w.

(** Every step so far has succeeded. *)
Definition all_passed (s : RunState) : Prop :=
  Forall (eq (Some 0)) (answers s) /\ machine s = machine_after (map snd (log s)) w.

(** The answer of a run, and the statuses of the steps it has started *)
Definition told (answer : result RunError ()) (s : RunState) : Prop :=
  match answer with
  | Ok _ => all_passed s
  | Err (StepFailed _ _ status) => status <> 0 /\ exists passed, Forall (eq (Some 0)) passed /\ answers s = passed ++ [Some status]
  | Err (StepDidNotStart _ _) => exists passed, Forall (eq (Some 0)) passed /\ answers s = passed ++ [None]
  | Err NoExecutable => all_passed s /\ current_exe (machine s) = None
  | Err _ => all_passed s
  end.

Lemma run_steps_told name l index s : all_passed s -> told (run_steps name index l s).1 (run_steps name index l s).2.
Proof.
  revert index s. induction l as [|step l IH]; intros index s Hs; cbn [run_steps]; [done|].
  destruct (current_exe (machine s)) as [exe|] eqn:Hexe; [|by split]. destruct Hs as [Hp Hm].
  destruct (spawn_step exe step (machine s)) as [status w'] eqn:Hrun.
  set (s' := {| completed := _; ran := _; log := _; machine := w' |}).
  assert (answers s' = answers s ++ [status] /\ w' = machine_after (map snd (log s')) w) as [Ha Hw].
  { unfold answers, s'. cbn [log]. rewrite map_app. cbn [map snd]. rewrite statuses_snoc, machine_after_snoc, <- Hm, Hexe. cbn. by rewrite Hrun. }
  destruct status as [[|n|n]|]; cbn [fst snd told].
  - apply IH. split; [|done]. rewrite Ha. apply Forall_app. split; [done|]. by constructor.
  - split; [done|]. by exists (answers s).
  - split; [done|]. by exists (answers s).
  - by exists (answers s).
Qed.

Lemma execute_all_told execute todo s :
  (forall name s answer s', all_passed s -> execute name s = Some (answer, s') -> told answer s') ->
  all_passed s -> forall answer s', execute_all execute todo s = Some (answer, s') -> told answer s'.
Proof.
  intros He. revert s. induction todo as [|name todo IH]; intros s Hs answer s' H; cbn in H; [by simplify_eq|].
  destruct (execute name s) as [[[[]|e] s1]|] eqn:E; [|by simplify_eq; eauto|done].
  apply (IH s1); [exact (He _ _ _ _ Hs E)|done].
Qed.

Lemma execute_told fuel ts name s answer s' :
  all_passed s -> execute_task fuel ts name s = Some (answer, s') -> told answer s'.
Proof.
  revert name s answer s'. induction fuel as [|fuel IH]; intros name s answer s' Hs H; cbn [execute_task] in H; [done|].
  case_bool_decide; [by simplify_eq|]. destruct (task_def ts name) as [t|]; [|by simplify_eq].
  destruct (execute_all _ (depends t) s) as [[[[]|e] s1]|] eqn:E; [| |done].
  - pose proof (execute_all_told _ _ _ IH Hs _ _ E) as H1. pose proof (run_steps_told name (steps t) 0 s1 H1) as H2.
    destruct (run_steps name 0 (steps t) s1) as [[[]|e] s2]; by simplify_eq.
  - simplify_eq. by eapply execute_all_told.
Qed.
End Statuses.

(** C23. Running a task of a validated table terminates. Whatever its steps do, the
    tasks finished are tasks the named one depends on, each once and after its own
    dependencies. When the run succeeds, every step it has started has exited with
    status zero, and it has finished all of the tasks and started exactly their steps,
    task by task. Otherwise it stops at the first step that exits with another status
    or does not start, or before a step when the executable cannot be resolved: that
    step is the last one that was started, the answer names its task and its index,
    every step before it has exited with status zero, and the tasks it depends on are
    finished. *)
Theorem project_task_runs ts name w :
  validate_tasks ts = Some (Ok ()) -> known ts name ->
  exists answer s, run_project_task ts name w = Some (answer, s)
    /\ in_order ts (ran s) /\ (forall n, n ∈ ran s -> rtc (needs ts) name n) /\ told w answer s
    /\ match answer with
       | Ok _ => (forall n, rtc (needs ts) name n -> n ∈ ran s) /\ log s = concat (map (task_steps ts) (ran s))
       | Err e => exists n some, rtc (needs ts) name n /\ (forall dep, needs ts n dep -> dep ∈ ran s)
           /\ stopped ts n e some /\ (some `prefix_of` task_steps ts n)
           /\ log s = concat (map (task_steps ts) (ran s)) ++ some
       end.
Proof.
  intros Hv Hk. destruct (validate_tasks_spec ts) as [(Hwf & Ha & _)|(_ & e & He)]; [|congruence].
  assert (progressed ts [name] (fresh_run w) (execute_task (visit_fuel ts) ts name (fresh_run w))) as H.
  { apply (execute_progressed ts (wf_closed ts Hwf) Ha _ name (fresh_run w) ∅); try done.
    - rewrite difference_empty_L. unfold visit_fuel, names.
      pose proof (list_to_set_size_le (map fst ts)) as Hle. rewrite length_map in Hle. lia.
    - constructor; [done|]. split; [constructor|]. by intros [|? ?]. }
  unfold run_project_task. destruct Hk as [t Ht]. rewrite Ht.
  destruct (execute_task _ _ _ _) as [[answer s]|] eqn:Hrun; [|done].
  destruct H as ([_ Ho] & _ & Hr & Hans). exists answer, s. split; [done|]. split; [done|]. split.
  { intros n [Hn|(x & ->%list_elem_of_singleton & ?)]%Hr; [by apply not_elem_of_nil in Hn|done]. }
  split; [eapply execute_told; [|exact Hrun]; by split; [constructor|]|]. destruct answer as [[]|e].
  - destruct Hans as [Hin Hl]. apply list.Forall_cons in Hin as [Hin _]. unfold logged in Hl. rewrite app_nil_r in Hl.
    split; [|done]. intros n. by apply in_order_reaches.
  - destruct Hans as (n & ? & ? & (x & ->%list_elem_of_singleton & ?) & some & ?). exists n, some. naive_solver.
Qed.

End Runner.

(** ** A project *)

Definition sample_tasks : list (string * TaskDef) :=
  [("build", {| description := None; depends := ["check"]; steps := [["build"; "--release"]] |});
   ("check", {| description := None; depends := []; steps := [["check"]] |});
   ("verify", {| description := None; depends := ["check"; "build"]; steps := [["test"]; ["image"]] |})]%string.

(** Every step succeeds but [image]. *)
Definition sample_process : StepProcess := {|
  os := nat;
  current_exe _ := Some "/bin/tysel"%string;
  command_status _ args _ n := (Some (if bool_decide (head args = Some "image"%string) then 2 else 0), S n);
|}.

Lemma project_task_runs_witness : exists answer s,
  @run_project_task sample_process "tysel.toml" "/p" sample_tasks "verify" 0%nat = Some (answer, s)
  /\ in_order sample_tasks (ran s)
  /\ answer = Err (StepFailed "verify" 2 2) /\ ran s = ["check"; "build"]%string.
Proof.
  destruct (@project_task_runs sample_process "tysel.toml" "/p" sample_tasks "verify" 0%nat)
    as (answer & s & Hr & Ho & _); [by vm_compute|by eexists|].
  exists answer, s. split; [done|]. split; [done|].
  assert (@run_project_task sample_process "tysel.toml" "/p" sample_tasks "verify" 0%nat = Some (answer, s)) as Hr' by done.
  vm_compute in Hr'. by simplify_eq.
Defined.
