(* ===== verification/Sandbox.v ===== *)
(** * The worker sandbox ([crates/tysel-isolate/src/seccomp.rs], [landlock.rs], [rlimit.rs])

    The seccomp program is modelled instruction by instruction; what it does is
    proved against the kernel's rules for the four instructions it uses
    ([BpfMachine]), for any libc numbering ([Libc]). The sequence of system calls
    that applies the limits, the Landlock domain and the filter runs against a
    kernel whose answers are arbitrary. *)

From Stdlib Require Import ZArith Lia Ascii String.
From stdpp Require Import base tactics list gmap strings sorting.
From S2P Require Import Prelude.
Open Scope Z_scope.

(** ** libc *)

(** The constants of the libc crate the source names; [SYS] is [libc::SYS_<name>]. *)
Class Libc := {
  SYS : string -> Z;
  AF_UNIX : Z;
  SOCK_STREAM : Z;
  SOCK_CLOEXEC : Z;
  SOCK_NONBLOCK : Z;
  EPERM : Z;
  SECCOMP_RET_ALLOW : Z;
  SECCOMP_RET_ERRNO : Z;
  SECCOMP_RET_KILL_PROCESS : Z;
  BPF_LD_W_ABS : Z;
  BPF_JMP_JEQ_K : Z;
  BPF_ALU_AND_K : Z;
  BPF_RET_K : Z;
}.

(** [struct seccomp_data]: the system call number, the architecture and the six
    64-bit arguments. *)
Record SeccompData := { sd_nr : Z; sd_arch : Z; sd_args : list Z }.

(** [struct sock_filter] *)
Record SockFilter := { code : Z; jt : Z; jf : Z; k : Z }.

Definition as_u32 (z : Z) : Z := z mod 2 ^ 32.

(** [offset_of!] in [struct seccomp_data]. *)
Definition offset_nr : Z := 0.
Definition offset_arch : Z := 4.
Definition offset_args : Z := 16.

(** The 32-bit word at an offset; both targets are little-endian. *)
Definition load_word (d : SeccompData) (offset : Z) : Z :=
  if offset =? offset_nr then as_u32 (sd_nr d)
  else if offset =? offset_arch then as_u32 (sd_arch d)
  else let i := (offset - offset_args) / 8 in
       let arg := default 0 (sd_args d !! Z.to_nat i) in
       if (offset - offset_args) mod 8 =? 0 then as_u32 arg else as_u32 (Z.shiftr arg 32).

(** Classic BPF as the kernel runs it: a program with its accumulator. Jumps are
    relative and forward; a program that runs off its end has no verdict. *)
Class BpfMachine (L : Libc) := { bpf_run : list SockFilter -> SeccompData -> Z -> option Z }.
Class BpfLaws {L : Libc} (B : BpfMachine L) : Prop := {
  bpf_ld : forall o p d a, bpf_run ({| code := BPF_LD_W_ABS; jt := 0; jf := 0; k := o |} :: p) d a
                           = bpf_run p d (load_word d o);
  bpf_jeq : forall v t f p d a, bpf_run ({| code := BPF_JMP_JEQ_K; jt := t; jf := f; k := v |} :: p) d a
                                = bpf_run (drop (Z.to_nat (if a =? v then t else f)) p) d a;
  bpf_and : forall m p d a, bpf_run ({| code := BPF_ALU_AND_K; jt := 0; jf := 0; k := m |} :: p) d a
                            = bpf_run p d (Z.land a m);
  bpf_ret : forall v p d a, bpf_run ({| code := BPF_RET_K; jt := 0; jf := 0; k := v |} :: p) d a = Some v;
}.

(** ** The filter *)

Inductive TargetArch := X86_64 | Aarch64.

Definition SOCK_TYPE_MASK : Z := 15.
Definition AUDIT_ARCH (arch : TargetArch) : Z :=
  match arch with X86_64 => 0xC000003E | Aarch64 => 0xC00000B7 end.

Section Filter.
Context {L : Libc} (arch : TargetArch).

Definition SOCK_ALLOWED_FLAGS : Z := Z.lor (as_u32 SOCK_CLOEXEC) (as_u32 SOCK_NONBLOCK).

Definition common_syscalls : list string :=
  ["read"; "write"; "close"; "lseek"; "readv"; "writev"; "pread64"; "pwrite64"; "openat"; "newfstatat";
   "fstat"; "statx"; "readlinkat"; "getdents64"; "fcntl"; "ioctl"; "dup"; "dup3"; "pipe2"; "mmap";
   "mprotect"; "munmap"; "brk"; "madvise"; "mremap"; "mincore"; "clone"; "clone3"; "futex";
   "set_robust_list"; "get_robust_list"; "set_tid_address"; "rseq"; "exit"; "exit_group"; "wait4";
   "waitid"; "getpid"; "gettid"; "tgkill"; "sched_yield"; "sched_getaffinity"; "nanosleep";
   "clock_nanosleep"; "clock_gettime"; "clock_getres"; "gettimeofday"; "rt_sigaction"; "rt_sigprocmask";
   "rt_sigreturn"; "rt_sigtimedwait"; "sigaltstack"; "epoll_create1"; "epoll_ctl"; "epoll_pwait";
   "eventfd2"; "ppoll"; "getrandom"; "getuid"; "geteuid"; "getgid"; "getegid"; "getrusage"; "prlimit64";
   "uname"; "sysinfo"; "prctl"; "membarrier"; "restart_syscall"; "faccessat"; "faccessat2";
   "timerfd_create"; "timerfd_settime"; "timerfd_gettime"; "fsync"; "fdatasync"]%string.
Definition x86_64_syscalls : list string :=
  ["open"; "stat"; "lstat"; "access"; "pipe"; "dup2"; "poll"; "select"; "epoll_wait"; "readlink";
   "arch_prctl"; "time"]%string.
Definition late_syscalls : list string := ["openat2"; "close_range"; "futex_waitv"; "epoll_pwait2"]%string.

Definition allowed_names : list string :=
  common_syscalls ++ match arch with X86_64 => x86_64_syscalls | Aarch64 => [] end ++ late_syscalls.

(** [Vec::dedup] *)
Fixpoint dedup (l : list Z) : list Z :=
  match l with
  | x :: (y :: _) as l' => if x =? y then dedup l' else x :: dedup l'
  | _ => l
  end.

Definition allowed_syscalls : list Z :=
  dedup (merge_sort Z.le (map (fun name => as_u32 (SYS name)) allowed_names)).

Definition stmt (c v : Z) : SockFilter := {| code := c; jt := 0; jf := 0; k := v |}.
Definition jump (c v t f : Z) : SockFilter := {| code := c; jt := t; jf := f; k := v |}.

Definition arg_low_offset (index : Z) : Z := offset_args + index * 8 + 0.
Definition not_u32 (z : Z) : Z := u32_max - z.
Definition deny_code : Z := Z.lor SECCOMP_RET_ERRNO (as_u32 EPERM).

Definition program_head : list SockFilter :=
  [ stmt BPF_LD_W_ABS offset_arch;
    jump BPF_JMP_JEQ_K (AUDIT_ARCH arch) 1 0;
    stmt BPF_RET_K SECCOMP_RET_KILL_PROCESS;
    stmt BPF_LD_W_ABS offset_nr;
    jump BPF_JMP_JEQ_K (as_u32 (SYS "socketpair")) 0 12;
    stmt BPF_LD_W_ABS (arg_low_offset 0);
    jump BPF_JMP_JEQ_K (as_u32 AF_UNIX) 0 9;
    stmt BPF_LD_W_ABS (arg_low_offset 1);
    stmt BPF_ALU_AND_K SOCK_TYPE_MASK;
    jump BPF_JMP_JEQ_K (as_u32 SOCK_STREAM) 0 6;
    stmt BPF_LD_W_ABS (arg_low_offset 1);
    stmt BPF_ALU_AND_K (not_u32 (Z.lor SOCK_TYPE_MASK SOCK_ALLOWED_FLAGS));
    jump BPF_JMP_JEQ_K 0 0 3;
    stmt BPF_LD_W_ABS (arg_low_offset 2);
    jump BPF_JMP_JEQ_K 0 0 1;
    stmt BPF_RET_K SECCOMP_RET_ALLOW;
    stmt BPF_RET_K deny_code;
    stmt BPF_LD_W_ABS offset_nr ].

(** The loop over the allowed numbers and the final return. *)
Definition program_tail (numbers : list Z) : list SockFilter :=
  concat (map (fun nr => [jump BPF_JMP_JEQ_K nr 0 1; stmt BPF_RET_K SECCOMP_RET_ALLOW]) numbers)
  ++ [stmt BPF_RET_K deny_code].

Definition program : list SockFilter := program_head ++ program_tail allowed_syscalls.

(** ** What the filter decides *)

Definition local_stream_pair (d : SeccompData) : bool :=
  (load_word d (arg_low_offset 0) =? as_u32 AF_UNIX)
  && (Z.land (load_word d (arg_low_offset 1)) SOCK_TYPE_MASK =? as_u32 SOCK_STREAM)
  && (Z.land (load_word d (arg_low_offset 1)) (not_u32 (Z.lor SOCK_TYPE_MASK SOCK_ALLOWED_FLAGS)) =? 0)
  && (load_word d (arg_low_offset 2) =? 0).

Definition verdict (d : SeccompData) : Z :=
  if negb (as_u32 (sd_arch d) =? AUDIT_ARCH arch) then SECCOMP_RET_KILL_PROCESS
  else if as_u32 (sd_nr d) =? as_u32 (SYS "socketpair") then
    if local_stream_pair d then SECCOMP_RET_ALLOW else deny_code
  else if bool_decide (as_u32 (sd_nr d) ∈ map (fun name => as_u32 (SYS name)) allowed_names) then SECCOMP_RET_ALLOW
  else deny_code.

Lemma dedup_elem l x : x ∈ dedup l <-> x ∈ l.
Proof.
  induction l as [|a [|b l] IH]; [done|done|].
  change (dedup (a :: b :: l)) with (if a =? b then dedup (b :: l) else a :: dedup (b :: l)).
  destruct (Z.eqb_spec a b) as [->|]; set_solver.
Qed.

Lemma dedup_length l : (length (dedup l) <= length l)%nat.
Proof.
  induction l as [|a [|b l] IH]; [done|done|].
  change (dedup (a :: b :: l)) with (if a =? b then dedup (b :: l) else a :: dedup (b :: l)).
  destruct (a =? b); cbn in *; lia.
Qed.

Lemma allowed_elem nr : nr ∈ allowed_syscalls <-> nr ∈ map (fun name => as_u32 (SYS name)) allowed_names.
Proof. unfold allowed_syscalls. by rewrite dedup_elem, merge_sort_Permutation. Qed.

Lemma load_nr d : load_word d offset_nr = as_u32 (sd_nr d).
Proof. done. Qed.
Lemma load_arch d : load_word d offset_arch = as_u32 (sd_arch d).
Proof. done. Qed.

Context {B : BpfMachine L} {BL : BpfLaws B}.

Lemma tail_verdict numbers d a :
  bpf_run (program_tail numbers) d a = Some (if bool_decide (a ∈ numbers) then SECCOMP_RET_ALLOW else deny_code).
Proof.
  unfold program_tail, stmt, jump. induction numbers as [|nr numbers IH]; cbn [map concat app].
  { rewrite bpf_ret. by rewrite bool_decide_false by set_solver. }
  rewrite bpf_jeq. destruct (Z.eqb_spec a nr) as [->|Hne].
  - change (drop (Z.to_nat 0) ?p) with p. rewrite bpf_ret. by rewrite bool_decide_true by set_solver.
  - change (drop (Z.to_nat 1) (?x :: ?p)) with p. rewrite IH. f_equal.
    rewrite (bool_decide_ext (a ∈ nr :: numbers) (a ∈ numbers)); [done|set_solver].
Qed.

(** One jump of the head, with its distance computed. *)
Ltac bpf_jump :=
  rewrite bpf_jeq;
  match goal with |- context [if ?a =? ?v then _ else _] => destruct (Z.eqb_spec a v) end;
  repeat match goal with |- context [Z.to_nat ?z] => let n := eval vm_compute in (Z.to_nat z) in change (Z.to_nat z) with n end;
  cbn [drop].

(** C30. The seccomp program decides exactly what it is meant to. For every system
    call the filter returns a verdict: another architecture kills the process, a
    socket pair is allowed only as a local stream pair without further flags or a
    protocol, every other call is allowed when its number is on the list and
    answered with EPERM when it is not. *)
Theorem seccomp_filter_exact d : bpf_run program d 0 = Some (verdict d).
Proof.
  unfold program, program_head, verdict, local_stream_pair, stmt, jump. cbn [app].
  rewrite bpf_ld, load_arch. bpf_jump; [|by rewrite bpf_ret].
  rewrite bpf_ld, load_nr. cbn [negb]. bpf_jump.
  - rewrite bpf_ld. bpf_jump; [|by rewrite bpf_ret].
    rewrite bpf_ld, bpf_and. bpf_jump; [|by rewrite bpf_ret].
    rewrite bpf_ld, bpf_and. bpf_jump; [|by rewrite bpf_ret].
    rewrite bpf_ld. by bpf_jump; rewrite bpf_ret.
  - rewrite bpf_ld, load_nr, tail_verdict. f_equal.
    by rewrite (bool_decide_ext _ _ (allowed_elem (as_u32 (sd_nr d)))).
Qed.

(** [u16::try_from(filters.len())] never fails. *)
Lemma program_length : Z.of_nat (length program) <= u16_max.
Proof.
  assert (length allowed_syscalls <= 92)%nat as Ha.
  { unfold allowed_syscalls. etrans; [apply dedup_length|].
    rewrite (Permutation_length (merge_sort_Permutation Z.le _)), length_map.
    unfold allowed_names. destruct arch; vm_compute; lia. }
  unfold program, program_tail. rewrite !length_app.
  assert (forall l : list Z, length (concat (map (fun nr => [jump BPF_JMP_JEQ_K nr 0 1; stmt BPF_RET_K SECCOMP_RET_ALLOW]) l))
                             = (2 * length l)%nat) as Hc by (induction l; cbn in *; lia).
  rewrite Hc. cbn [length program_head]. unfold u16_max. lia.
Qed.

End Filter.

(** ** Linux on x86_64 *)

Definition x86_64_numbers : list (string * Z) :=
  [("read", 0); ("write", 1); ("open", 2); ("close", 3); ("stat", 4); ("fstat", 5); ("lstat", 6); ("poll", 7);
   ("lseek", 8); ("mmap", 9); ("mprotect", 10); ("munmap", 11); ("brk", 12); ("rt_sigaction", 13);
   ("rt_sigprocmask", 14); ("rt_sigreturn", 15); ("ioctl", 16); ("pread64", 17); ("pwrite64", 18);
   ("readv", 19); ("writev", 20); ("access", 21); ("pipe", 22); ("select", 23); ("sched_yield", 24);
   ("mremap", 25); ("mincore", 27); ("madvise", 28); ("dup", 32); ("dup2", 33); ("nanosleep", 35);
   ("getpid", 39); ("socket", 41); ("connect", 42); ("socketpair", 53); ("clone", 56); ("fork", 57);
   ("vfork", 58); ("execve", 59); ("exit", 60); ("wait4", 61); ("kill", 62); ("uname", 63); ("fcntl", 72);
   ("fsync", 74); ("fdatasync", 75); ("readlink", 89); ("gettimeofday", 96); ("getrusage", 98);
   ("sysinfo", 99); ("ptrace", 101); ("getuid", 102); ("getgid", 104); ("geteuid", 107); ("getegid", 108);
   ("rt_sigtimedwait", 128); ("sigaltstack", 131); ("prctl", 157); ("arch_prctl", 158); ("mount", 165);
   ("gettid", 186); ("time", 201); ("futex", 202); ("sched_getaffinity", 204); ("getdents64", 217);
   ("set_tid_address", 218); ("restart_syscall", 219); ("clock_gettime", 228); ("clock_getres", 229);
   ("clock_nanosleep", 230); ("exit_group", 231); ("epoll_wait", 232); ("epoll_ctl", 233); ("tgkill", 234);
   ("waitid", 247); ("openat", 257); ("newfstatat", 262); ("readlinkat", 267); ("faccessat", 269);
   ("ppoll", 271); ("unshare", 272); ("set_robust_list", 273); ("get_robust_list", 274);
   ("epoll_pwait", 281); ("timerfd_create", 283); ("timerfd_settime", 286); ("timerfd_gettime", 287);
   ("eventfd2", 290); ("epoll_create1", 291); ("dup3", 292); ("pipe2", 293); ("prlimit64", 302);
   ("setns", 308); ("getrandom", 318); ("bpf", 321); ("execveat", 322); ("membarrier", 324); ("statx", 332);
   ("rseq", 334); ("io_uring_setup", 425); ("clone3", 435); ("close_range", 436); ("openat2", 437);
   ("faccessat2", 439); ("epoll_pwait2", 441); ("futex_waitv", 449)]%string.

Definition linux_x86_64 : Libc := {|
  SYS name := default (-1) (snd <$> find (fun p => String.eqb (fst p) name) x86_64_numbers);
  AF_UNIX := 1; SOCK_STREAM := 1; SOCK_CLOEXEC := 0x80000; SOCK_NONBLOCK := 0x800; EPERM := 1;
  SECCOMP_RET_ALLOW := 0x7fff0000; SECCOMP_RET_ERRNO := 0x50000; SECCOMP_RET_KILL_PROCESS := 0x80000000;
  BPF_LD_W_ABS := 0x20; BPF_JMP_JEQ_K := 0x15; BPF_ALU_AND_K := 0x54; BPF_RET_K := 0x06;
|}.

(** An interpreter: [skip] counts the instructions a jump still passes over. *)
Fixpoint interpret (p : list SockFilter) (d : SeccompData) (a : Z) (skip : nat) : option Z :=
  match p with
  | [] => None
  | f :: p' =>
      match skip with
      | S n => interpret p' d a n
      | O =>
          if code f =? 0x20 then interpret p' d (load_word d (k f)) 0
          else if code f =? 0x15 then interpret p' d a (Z.to_nat (if a =? k f then jt f else jf f))
          else if code f =? 0x54 then interpret p' d (Z.land a (k f)) 0
          else if code f =? 0x06 then Some (k f)
          else None
      end
  end.

Definition linux_bpf : BpfMachine linux_x86_64 := {| bpf_run p d a := interpret p d a 0 |}.

Lemma interpret_skip p d a n : interpret p d a n = interpret (drop n p) d a 0.
Proof. revert n. induction p as [|f p IH]; intros [|n]; cbn; auto. Qed.

Lemma linux_bpf_laws : BpfLaws linux_bpf.
Proof.
  constructor; intros; cbn [bpf_run linux_bpf]; try reflexivity.
  cbn -[Z.to_nat drop]. by rewrite interpret_skip.
Qed.

Definition exec_call : SeccompData := {| sd_nr := 59; sd_arch := 0xC000003E; sd_args := [0; 0; 0; 0; 0; 0] |}.

Lemma seccomp_filter_exact_witness :
  @bpf_run linux_x86_64 linux_bpf (@program linux_x86_64 X86_64) exec_call 0 = Some (@deny_code linux_x86_64).
Proof.
  rewrite (@seccomp_filter_exact linux_x86_64 X86_64 linux_bpf linux_bpf_laws exec_call).
  vm_compute. reflexivity.
Defined.

(** What the worker must not do. *)
Definition forbidden : list string :=
  ["execve"; "execveat"; "fork"; "vfork"; "ptrace"; "socket"; "connect"; "kill"; "mount"; "unshare"; "setns";
   "bpf"; "io_uring_setup"]%string.

(** Programs, tracing, network sockets, mounts and BPF are denied, and so is every
    number above the list, the x32 calls included. *)
Lemma forbidden_denied d :
  as_u32 (sd_arch d) = AUDIT_ARCH X86_64 ->
  as_u32 (sd_nr d) ∈ map (@SYS linux_x86_64) forbidden \/ 450 <= as_u32 (sd_nr d) ->
  @verdict linux_x86_64 X86_64 d = @deny_code linux_x86_64.
Proof.
  intros Ha Hn. unfold verdict. rewrite Ha, Z.eqb_refl. cbn [negb].
  set (denied nr := negb (nr =? 53)
         && negb (existsb (Z.eqb nr) (map (fun name => as_u32 (@SYS linux_x86_64 name)) (allowed_names X86_64)))).
  assert (denied (as_u32 (sd_nr d)) = true) as Hd.
  { destruct Hn as [Hn|Hn].
    - assert (forallb denied (map (@SYS linux_x86_64) forbidden) = true) as Hf by (vm_compute; reflexivity).
      rewrite forallb_forall in Hf. by apply Hf, list_elem_of_In.
    - unfold denied. apply andb_true_iff. split; [lia|]. apply negb_true_iff, not_true_iff_false.
      intros (x & Hx & Heq)%existsb_exists. apply Z.eqb_eq in Heq. subst x.
      assert (forallb (fun nr => nr <? 450) (map (fun name => as_u32 (@SYS linux_x86_64 name)) (allowed_names X86_64)) = true)
        as Hall by (vm_compute; reflexivity).
      rewrite forallb_forall in Hall. specialize (Hall _ Hx). lia. }
  unfold denied in Hd. apply andb_true_iff in Hd as [H1 H2].
  change (as_u32 (@SYS linux_x86_64 "socketpair")) with 53. destruct (_ =? 53); [done|].
  rewrite bool_decide_false; [done|]. intros Hin. apply negb_true_iff, not_true_iff_false in H2. apply H2.
  apply existsb_exists. exists (as_u32 (sd_nr d)). split; [by apply list_elem_of_In|apply Z.eqb_refl].
Qed.

(** ** Applying the limits *)

Definition ACCESS_READ_FILE : Z := Z.shiftl 1 2.
Definition ACCESS_REFER : Z := Z.shiftl 1 13.
Definition ACCESS_TRUNCATE : Z := Z.shiftl 1 14.
Definition ACCESS_IOCTL_DEV : Z := Z.shiftl 1 15.
(** Execute, write, read, read directory, the two removals and the seven kinds of
    creation: bits 0 to 12. *)
Definition ACCESS_FS_ABI1 : Z := foldr (fun bit acc => Z.lor (Z.shiftl 1 bit) acc) 0 (seqZ 0 13).

Definition handled_fs (abi : Z) : Z :=
  let access := ACCESS_FS_ABI1 in
  let access := if 2 <=? abi then Z.lor access ACCESS_REFER else access in
  let access := if 3 <=? abi then Z.lor access ACCESS_TRUNCATE else access in
  if 5 <=? abi then Z.lor access ACCESS_IOCTL_DEV else access.

(** What confines the process, and how many calls the kernel has answered. A
    Landlock domain is the rights it handles with the paths excepted from it. *)
Definition Domain : Type := Z * list (string * Z).
Record Confinement := {
  cf_calls : nat;
  cf_address_space : option Z;
  cf_open_files : option Z;
  cf_no_new_privs : bool;
  cf_ruleset : option Domain;
  cf_domain : option Domain;
  cf_filter : option (list SockFilter);
}.

(** [IsolateError::Limit] with the failed operation. *)
Inductive LimitError := LimitFailed (operation : string).

Section Apply.
Context {L : Libc} (arch : TargetArch) (answers : nat -> Z) (opens : string -> bool).
Definition Sys (A : Type) : Type := M Confinement LimitError A.

Definition tick (c : Confinement) : Confinement :=
  {| cf_calls := S (cf_calls c); cf_address_space := cf_address_space c; cf_open_files := cf_open_files c;
     cf_no_new_privs := cf_no_new_privs c; cf_ruleset := cf_ruleset c; cf_domain := cf_domain c; cf_filter := cf_filter c |}.

(** A system call: an answer of the kernel; the effect takes place unless it is negative. *)
Definition syscall (effect : Confinement -> Confinement) : Sys Z := fun c =>
  let rc := answers (cf_calls c) in
  (Ok rc, if rc <? 0 then tick c else effect (tick c)).

Definition set_address_space (n : Z) (c : Confinement) : Confinement :=
  {| cf_calls := cf_calls c; cf_address_space := Some n; cf_open_files := cf_open_files c;
     cf_no_new_privs := cf_no_new_privs c; cf_ruleset := cf_ruleset c; cf_domain := cf_domain c; cf_filter := cf_filter c |}.
Definition set_open_files (n : Z) (c : Confinement) : Confinement :=
  {| cf_calls := cf_calls c; cf_address_space := cf_address_space c; cf_open_files := Some n;
     cf_no_new_privs := cf_no_new_privs c; cf_ruleset := cf_ruleset c; cf_domain := cf_domain c; cf_filter := cf_filter c |}.
Definition set_no_new_privs (c : Confinement) : Confinement :=
  {| cf_calls := cf_calls c; cf_address_space := cf_address_space c; cf_open_files := cf_open_files c;
     cf_no_new_privs := true; cf_ruleset := cf_ruleset c; cf_domain := cf_domain c; cf_filter := cf_filter c |}.
Definition set_ruleset (r : option Domain) (c : Confinement) : Confinement :=
  {| cf_calls := cf_calls c; cf_address_space := cf_address_space c; cf_open_files := cf_open_files c;
     cf_no_new_privs := cf_no_new_privs c; cf_ruleset := r; cf_domain := cf_domain c; cf_filter := cf_filter c |}.
Definition enter_domain (c : Confinement) : Confinement :=
  {| cf_calls := cf_calls c; cf_address_space := cf_address_space c; cf_open_files := cf_open_files c;
     cf_no_new_privs := cf_no_new_privs c; cf_ruleset := cf_ruleset c; cf_domain := cf_ruleset c; cf_filter := cf_filter c |}.
Definition set_filter (p : list SockFilter) (c : Confinement) : Confinement :=
  {| cf_calls := cf_calls c; cf_address_space := cf_address_space c; cf_open_files := cf_open_files c;
     cf_no_new_privs := cf_no_new_privs c; cf_ruleset := cf_ruleset c; cf_domain := cf_domain c; cf_filter := Some p |}.

Definition check_zero (rc : Z) (operation : string) : Sys () :=
  if rc =? 0 then mret () else throw (LimitFailed operation).
Definition check_nonneg (rc : Z) (operation : string) : Sys () :=
  if rc <? 0 then throw (LimitFailed operation) else mret ().

Definition apply_resource_limits (as_bytes : Z) : Sys () :=
  rc ← syscall (set_address_space (Z.max as_bytes 1));
  check_zero rc "setrlimit(RLIMIT_AS)";;
  rc ← syscall (set_open_files 64);
  check_zero rc "setrlimit(RLIMIT_NOFILE)".

Definition abi_version : Sys Z :=
  abi ← syscall id;
  if abi <? 1 then throw (LimitFailed "landlock is required on Linux") else mret abi.

Definition add_rule (path : string) (access : Z) (c : Confinement) : Confinement :=
  set_ruleset ((fun d => (fst d, snd d ++ [(path, access)])) <$> cf_ruleset c) c.

Definition allow_read (path : string) : Sys () :=
  if opens path then _ ← syscall (add_rule path ACCESS_READ_FILE); mret () else mret ().

Definition landlock_restrict : Sys () :=
  abi ← abi_version;
  ruleset ← syscall (set_ruleset (Some (handled_fs abi, [])));
  check_nonneg ruleset "landlock_create_ruleset";;
  allow_read "/dev/urandom";;
  allow_read "/dev/random";;
  nnp ← syscall set_no_new_privs;
  check_zero nnp "prctl(PR_SET_NO_NEW_PRIVS)";;
  rc ← syscall enter_domain;
  check_nonneg rc "landlock_restrict_self".

Definition seccomp_install : Sys () :=
  nnp ← syscall set_no_new_privs;
  check_zero nnp "prctl(PR_SET_NO_NEW_PRIVS)";;
  if u16_max <? Z.of_nat (length (program arch)) then throw (LimitFailed "seccomp filter is too large")
  else
    rc ← syscall (set_filter (program arch));
    check_nonneg rc "seccomp".

(** What the worker does on [Message::Start]. *)
Definition apply_sandbox (rlimit_as_bytes : Z) : Sys () :=
  apply_resource_limits rlimit_as_bytes;; landlock_restrict;; seccomp_install.

(** Fully confined: only the random devices may be opened, only for reading. *)
Definition confined (as_bytes : Z) (c : Confinement) : Prop :=
  cf_address_space c = Some (Z.max as_bytes 1) /\ cf_open_files c = Some 64 /\ cf_no_new_privs c = true
  /\ cf_filter c = Some (program arch)
  /\ exists abi rules, 1 <= abi /\ cf_domain c = Some (handled_fs abi, rules)
     /\ Forall (fun r => r = ("/dev/urandom"%string, ACCESS_READ_FILE) \/ r = ("/dev/random"%string, ACCESS_READ_FILE)) rules.

Lemma apply_resource_limits_ok n c c' :
  apply_resource_limits n c = (Ok (), c') ->
  cf_address_space c' = Some (Z.max n 1) /\ cf_open_files c' = Some 64.
Proof.
  unfold apply_resource_limits, syscall, check_zero. unfold_monad. unfold throw.
  destruct (Z.eqb_spec (answers (cf_calls c)) 0) as [E|]; [rewrite E|done]. cbn.
  destruct (Z.eqb_spec (answers (S (cf_calls c))) 0) as [E2|]; [rewrite E2|done]. cbn. by intros [= <-].
Qed.

Definition device_rule (r : string * Z) : Prop :=
  r = ("/dev/urandom"%string, ACCESS_READ_FILE) \/ r = ("/dev/random"%string, ACCESS_READ_FILE).
Definition building (abi : Z) (c : Confinement) : Prop :=
  exists rules, cf_ruleset c = Some (handled_fs abi, rules) /\ Forall device_rule rules.
Definition same_limits (c c' : Confinement) : Prop :=
  cf_address_space c' = cf_address_space c /\ cf_open_files c' = cf_open_files c.

Lemma allow_read_ok abi path c r c' :
  device_rule (path, ACCESS_READ_FILE) -> building abi c -> allow_read path c = (r, c') ->
  r = Ok () /\ building abi c' /\ same_limits c c'.
Proof.
  intros Hp (rules & Hr & Hall). unfold allow_read, syscall. unfold_monad.
  destruct (opens path); [|by intros [= <- <-]; split; [done|]; split; [exists rules|]].
  intros [= <- <-]. split; [done|]. destruct (_ <? 0); cbn; [by split; [exists rules|]|].
  split; [|done]. exists (rules ++ [(path, ACCESS_READ_FILE)]). unfold add_rule. cbn. rewrite Hr. split; [done|].
  apply list.Forall_app. split; [done|]. by constructor.
Qed.

Lemma abi_version_ok c abi c' : abi_version c = (Ok abi, c') -> 1 <= abi /\ same_limits c c'.
Proof.
  unfold abi_version, syscall, throw. unfold_monad. destruct (Z.ltb_spec (answers (cf_calls c)) 1); [done|].
  intros [= <- <-]. split; [lia|]. by destruct (_ <? 0).
Qed.

Lemma landlock_restrict_ok c c' :
  landlock_restrict c = (Ok (), c') ->
  same_limits c c' /\ exists abi rules, 1 <= abi /\ cf_domain c' = Some (handled_fs abi, rules) /\ Forall device_rule rules.
Proof.
  unfold landlock_restrict, check_nonneg, check_zero. unfold_monad.
  destruct (abi_version c) as [[abi|] c1] eqn:E1; [|done]. apply abi_version_ok in E1 as [Habi H1].
  unfold syscall at 1. destruct (Z.ltb_spec (answers (cf_calls c1)) 0); [done|].
  set (c2 := set_ruleset _ _). assert (building abi c2) as Hb by (by exists []). assert (same_limits c1 c2) as H2 by done.
  destruct (allow_read "/dev/urandom" c2) as [r3 c3] eqn:E3.
  apply (allow_read_ok abi) in E3 as (-> & Hb3 & H3); [|by left|done].
  destruct (allow_read "/dev/random" c3) as [r4 c4] eqn:E4.
  apply (allow_read_ok abi) in E4 as (-> & (rules & Hr & Hall) & H4); [|by right|done].
  unfold syscall. destruct (Z.eqb_spec (answers (cf_calls c4)) 0) as [E|]; [rewrite E|done]. cbn.
  destruct (Z.ltb_spec (answers (S (cf_calls c4))) 0) as [|]; [done|]. intros [= <-]. cbn. split.
  - unfold same_limits in *. cbn. destruct H1, H2, H3, H4. split; congruence.
  - by exists abi, rules.
Qed.

Lemma seccomp_install_ok c c' :
  seccomp_install c = (Ok (), c') ->
  same_limits c c' /\ cf_domain c' = cf_domain c /\ cf_no_new_privs c' = true /\ cf_filter c' = Some (program arch).
Proof.
  unfold seccomp_install, check_nonneg, check_zero. unfold_monad. unfold throw, syscall.
  destruct (Z.eqb_spec (answers (cf_calls c)) 0) as [E|]; [rewrite E|done]. change (0 <? 0) with false.
  destruct (u16_max <? _); [done|]. cbn iota beta delta [cf_calls set_no_new_privs tick].
  destruct (Z.ltb_spec (answers (S (cf_calls c))) 0); [done|]. by intros [= <-].
Qed.

(** When the sequence succeeds, everything is in force. *)
Lemma apply_sandbox_confined n c c' : apply_sandbox n c = (Ok (), c') -> confined n c'.
Proof.
  unfold apply_sandbox. unfold_monad.
  destruct (apply_resource_limits n c) as [[[]|] c1] eqn:E1; [|done].
  destruct (landlock_restrict c1) as [[[]|] c2] eqn:E2; [|done]. intros E3.
  apply apply_resource_limits_ok in E1 as [Has Hof]. apply landlock_restrict_ok in E2 as ([A1 O1] & abi & rules & Habi & Hd & Hall).
  apply seccomp_install_ok in E3 as ([A2 O2] & D2 & Hn & Hf).
  unfold confined. split_and!; try congruence. exists abi, rules. split; [done|]. split; [congruence|done].
Qed.

End Apply.
