(* ===== verification/Ipc.v ===== *)
(** * Values and worker messages ([crates/tysel-engine/src/lib.rs], [crates/tysel-ipc/src/lib.rs])

    The values that cross process boundaries, the messages between the supervisor
    and its isolated worker, and the bounded frames that carry them. serde's JSON
    text of a message is a parameter. *)

From Stdlib Require Import ZArith Lia Ascii String.
From stdpp Require Import base tactics list gmap strings.
From S2P Require Import Prelude Bytes.
Open Scope Z_scope.

(** ** Engine values and errors *)

(** [Value]; an [f64] is its 64-bit pattern. *)
Unset Elimination Schemes.
Inductive EngineValue :=
| VNull
| VBool (b : bool)
| VNumber (bits : Z)
| VString (s : string)
| VBytes (bytes : list Z)
| VArray (l : list EngineValue)
| VRecord (l : list (string * EngineValue)).

Set Elimination Schemes.

Inductive InterruptReason := IrTimeout | IrMemoryLimit | IrCancelled | IrHostShutdown.

Inductive EngineError :=
| EeIsolate (message : string)
| EeModule (message : string)
| EeInterrupted (reason : InterruptReason)
| EeBodyTooLarge
| EeSuspended.

Record IsolateConfig := { ic_memory_limit_bytes : Z; ic_cpu_ms_per_turn : Z; ic_request_timeout_ms : Z }.
Definition IsolateConfig_default : IsolateConfig := {|
  ic_memory_limit_bytes := 32 * 1024 * 1024; ic_cpu_ms_per_turn := 50; ic_request_timeout_ms := 30000
|}.

Record HttpRequest := {
  hr_method : string;
  hr_url : string;
  hr_headers : list (string * string);
  hr_body : string;
  hr_request_id : Z;
}.
Record HttpHead := { hh_status : Z; hh_headers : list (string * string); hh_websocket : bool }.

(** ** Messages *)

Unset Elimination Schemes.
Inductive WireValue :=
| WNull
| WBool (v : bool)
| WNumber (v : Z)
| WString (v : string)
| WBytes (v : list Z)
| WArray (v : list WireValue)
| WRecord (v : list (string * WireValue)).

Set Elimination Schemes.

Inductive TaskErrorKind := TkFailed | TkTimedOut | TkCanceled | TkSuspended.

Inductive Message :=
| WorkerReady
| Start (memory_limit_bytes cpu_ms_per_turn request_timeout_ms rlimit_as_bytes : Z) (app : string) (json_logs : bool)
| Started
| Eval_ (id : Z) (source : string)
| EvalOk (id : Z) (value : WireValue)
| EvalErr (id : Z) (error : string)
| Load_ (source : string) (secret_names : list string)
| Loaded
| LoadErr (error : string)
| TaskLoad (id : Z) (source : string) (secret_names : list string)
| TaskLoaded (id : Z) (definitions_json : string)
| TaskInvoke (id : Z) (task_name input_json request_id : string) (deadline_ms : Z)
| TaskOk (id : Z) (value : WireValue)
| TaskErr (id : Z) (error : string) (kind : TaskErrorKind)
| Http (id : Z) (method url : string) (headers : list (string * string)) (body : string) (request_id : Z)
    (timeout_ms : option Z)
| HttpOk (id status : Z) (headers : list (string * string)) (body : string) (websocket : bool)
| HttpErr (id : Z) (error : string) (timed_out : bool)
| CapCall (id : Z) (op : string) (args : list WireValue)
| CapOk (id : Z) (value : WireValue)
| CapErr (id : Z) (error : string)
| Overalloc
| Shutdown.

Fixpoint to_wire (v : EngineValue) : WireValue :=
  match v with
  | VNull => WNull
  | VBool b => WBool b
  | VNumber n => WNumber n
  | VString s => WString s
  | VBytes b => WBytes b
  | VArray l => WArray (map to_wire l)
  | VRecord l => WRecord (map (fun p => (fst p, to_wire (snd p))) l)
  end.

Fixpoint from_wire (v : WireValue) : EngineValue :=
  match v with
  | WNull => VNull
  | WBool b => VBool b
  | WNumber n => VNumber n
  | WString s => VString s
  | WBytes b => VBytes b
  | WArray l => VArray (map from_wire l)
  | WRecord l => VRecord (map (fun p => (fst p, from_wire (snd p))) l)
  end.

(** ** Frames *)

Definition MAX_FRAME : Z := 64 * 1024.

Inductive IpcError := IpcIo | FrameTooLarge (n : Z) | IpcJson.

Definition write_frame (bytes : string) : result IpcError string :=
  if MAX_FRAME <? len bytes then Err (FrameTooLarge (len bytes))
  else Ok (to_le_bytes 4 (len bytes) ++ bytes)%string.

Definition read_frame : M string IpcError string := fun reader =>
  match read_exact 4 reader with
  | (Err _, r) => (Err IpcIo, r)
  | (Ok len_buf, r) =>
      let n := from_le_bytes len_buf in
      if MAX_FRAME <? n then (Err (FrameTooLarge n), r)
      else
        match read_exact n r with
        | (Err _, r) => (Err IpcIo, r)
        | (Ok buf, r) => (Ok buf, r)
        end
  end.

(** serde_json on a [Message]. *)
Class MessageSerde := {
  message_to_vec : Message -> option string;
  message_from_slice : string -> option Message;
}.

Definition write_message `{MessageSerde} (m : Message) : result IpcError string :=
  match message_to_vec m with None => Err IpcJson | Some bytes => write_frame bytes end.
Definition read_message `{MessageSerde} : M string IpcError Message := fun reader =>
  match read_frame reader with
  | (Err e, r) => (Err e, r)
  | (Ok bytes, r) => (ok_or (message_from_slice bytes) IpcJson, r)
  end.

(** ** Round trips *)

(** Induction through the lists a value holds. *)
Lemma EngineValue_ind' (P : EngineValue -> Prop) :
  P VNull -> (forall b, P (VBool b)) -> (forall n, P (VNumber n)) -> (forall s, P (VString s)) ->
  (forall b, P (VBytes b)) -> (forall l, Forall P l -> P (VArray l)) ->
  (forall l, Forall (fun p => P (snd p)) l -> P (VRecord l)) -> forall v, P v.
Proof.
  intros Hn Hb Hnum Hs Hby Ha Hr. fix IH 1. intros [|b|n|s|b|l|l];
    [exact Hn|apply Hb|apply Hnum|apply Hs|apply Hby| |].
  - apply Ha. induction l as [|v l IHl]; constructor; [apply IH|exact IHl].
  - apply Hr. induction l as [|[n v] l IHl]; constructor; [apply IH|exact IHl].
Qed.

Lemma map_id_Forall {A} (f : A -> A) l : Forall (fun x => f x = x) l -> map f l = l.
Proof. induction 1; cbn; congruence. Qed.

(** A value survives the trip through its wire form. *)
Lemma wire_roundtrip v : from_wire (to_wire v) = v.
Proof.
  induction v as [| | | | |l IH|l IH] using EngineValue_ind'; cbn; try done; f_equal; rewrite map_map.
  - by apply map_id_Forall.
  - cbn. apply (map_id_Forall (fun p => (fst p, from_wire (to_wire (snd p))))).
    eapply list.Forall_impl; [exact IH|]. intros [n v] Hv. cbn in *. by rewrite Hv.
Qed.

(** A frame is read back to its last byte, and none is longer than the limit. *)
Lemma ipc_frame_roundtrip bytes frame rest :
  write_frame bytes = Ok frame -> read_frame (frame ++ rest)%string = (Ok bytes, rest) /\ len bytes <= MAX_FRAME.
Proof.
  unfold write_frame. destruct (Z.ltb_spec MAX_FRAME (len bytes)) as [|Hle]; [done|]. intros [= <-].
  split; [|done]. unfold read_frame. rewrite append_assoc.
  rewrite (read_exact_append (to_le_bytes 4 (len bytes)) _ 4); [|unfold len; by rewrite to_le_bytes_length].
  assert (0 <= len bytes < 256 ^ Z.of_nat 4) by (pose proof (len_nonneg bytes); unfold MAX_FRAME in *; lia).
  rewrite from_to_le_bytes by done. destruct (Z.ltb_spec MAX_FRAME (len bytes)); [lia|].
  by rewrite read_exact_append.
Qed.
