(* ===== verification/Isolate.v ===== *)
(** * The isolate supervisor ([crates/tysel-isolate/src/supervisor.rs], [broker.rs])

    The supervisor of an untrusted worker process: start handshake, requests with
    their replies, capability calls answered by the broker, kill and restart. The
    worker is not trusted: the processes, pipes and clocks are parameters with
    arbitrary answers ([Worker]). [sv_trace] records every exchange. A loop that
    serves capability calls runs with a budget; [OutOfBudget] is an exhausted one. *)

From Stdlib Require Import ZArith Lia Ascii String.
From stdpp Require Import base tactics list gmap strings.
From S2P Require Import Prelude Bytes Ipc.
Open Scope Z_scope.

Definition MAX_ISOLATED_HTTP_BODY : Z := 32 * 1024.

Inductive IsolateError :=
| IsIo
| IsIpc (e : IpcError)
| IsWorker (message : string)
| IsBroker (message : string)
| IsLimit (message : string)
| IsEngine (e : EngineError)
| IsMissingWorker
| OutOfBudget.

Record WorkerSpec := {
  sp_memory_limit_bytes : Z;
  sp_cpu_ms_per_turn : Z;
  sp_request_timeout_ms : Z;
  sp_rlimit_as_bytes : Z;
  sp_app : string;
  sp_json_logs : bool;
}.
Definition WorkerSpec_default : WorkerSpec := {|
  sp_memory_limit_bytes := 8 * 1024 * 1024; sp_cpu_ms_per_turn := 200; sp_request_timeout_ms := 2000;
  sp_rlimit_as_bytes := 256 * 1024 * 1024; sp_app := ""; sp_json_logs := false
|}.
Definition WorkerSpec_from (c : IsolateConfig) : WorkerSpec := {|
  sp_memory_limit_bytes := ic_memory_limit_bytes c; sp_cpu_ms_per_turn := ic_cpu_ms_per_turn c;
  sp_request_timeout_ms := ic_request_timeout_ms c; sp_rlimit_as_bytes := sp_rlimit_as_bytes WorkerSpec_default;
  sp_app := sp_app WorkerSpec_default; sp_json_logs := sp_json_logs WorkerSpec_default
|}.

(** ** The broker *)

Definition broker_call (secrets : gmap string string) (op : string) (args : list WireValue)
    : result IsolateError EngineValue :=
  if String.eqb op "sleep" then
    Err (IsBroker "sleep is executed in the worker so the supervisor IPC loop stays live")
  else if String.eqb op "echo" then
    match args with
    | WString v :: _ => Ok (VString v)
    | _ => Err (IsBroker "echo requires a string")
    end
  else if String.eqb op "secret.ref" then
    match args with
    | WString name :: _ =>
        match secrets !! name with
        | Some _ => Ok (VString ("secret:" ++ name))
        | None => Err (IsBroker ("unknown secret " ++ name))
        end
    | _ => Err (IsBroker "secret.ref requires a name")
    end
  else if String.eqb op "secret.read" then Err (IsBroker "raw secrets cannot leave the broker")
  else Err (IsBroker ("unknown capability " ++ op)).

(** ** Processes *)

(** Worker processes and their pipes, the watchdog and the clock. Nothing is known
    of their answers. [w_text] is the display of an error and of a message. *)
Class Worker := {
  world : Type;
  w_spawn : world -> bool * world;
  w_watchdog : world -> bool * world;
  w_exited : world -> bool * world;
  w_kill : world -> world;
  w_send : Message -> world -> result IpcError () * world;
  w_recv : world -> result IpcError Message * world;
  w_arm : world -> world;
  w_finish : world -> option InterruptReason * world;
  w_remaining_ns : world -> Z * world;
  w_error_text : IsolateError -> string;
  w_message_text : Message -> string;
  w_definitions : string -> option (list string);
}.

Inductive Event := ESpawn | EKill | ESend (m : Message) | ERecv (r : result IpcError Message).

Section Supervisor.
Context {W : Worker}.

Record Supervisor := {
  sv_spec : WorkerSpec;
  sv_secrets : gmap string string;
  sv_next_id : Z;
  sv_child : bool;
  sv_handler_source : option string;
  sv_handler_secret_names : list string;
  sv_task_source : option string;
  sv_task_secret_names : list string;
  sv_world : world;
  sv_trace : list Event;
}.
Definition Sm (A : Type) : Type := M Supervisor IsolateError A.

Definition with_world (w : world) (es : list Event) (s : Supervisor) : Supervisor := {|
  sv_spec := sv_spec s; sv_secrets := sv_secrets s; sv_next_id := sv_next_id s; sv_child := sv_child s;
  sv_handler_source := sv_handler_source s; sv_handler_secret_names := sv_handler_secret_names s;
  sv_task_source := sv_task_source s; sv_task_secret_names := sv_task_secret_names s;
  sv_world := w; sv_trace := sv_trace s ++ es
|}.
Definition set_child (b : bool) (s : Supervisor) : Supervisor := {|
  sv_spec := sv_spec s; sv_secrets := sv_secrets s; sv_next_id := sv_next_id s; sv_child := b;
  sv_handler_source := sv_handler_source s; sv_handler_secret_names := sv_handler_secret_names s;
  sv_task_source := sv_task_source s; sv_task_secret_names := sv_task_secret_names s;
  sv_world := sv_world s; sv_trace := sv_trace s
|}.
Definition set_next_id (n : Z) (s : Supervisor) : Supervisor := {|
  sv_spec := sv_spec s; sv_secrets := sv_secrets s; sv_next_id := n; sv_child := sv_child s;
  sv_handler_source := sv_handler_source s; sv_handler_secret_names := sv_handler_secret_names s;
  sv_task_source := sv_task_source s; sv_task_secret_names := sv_task_secret_names s;
  sv_world := sv_world s; sv_trace := sv_trace s
|}.
Definition set_handler (source : option string) (names : list string) (s : Supervisor) : Supervisor := {|
  sv_spec := sv_spec s; sv_secrets := sv_secrets s; sv_next_id := sv_next_id s; sv_child := sv_child s;
  sv_handler_source := source; sv_handler_secret_names := names;
  sv_task_source := sv_task_source s; sv_task_secret_names := sv_task_secret_names s;
  sv_world := sv_world s; sv_trace := sv_trace s
|}.
Definition set_tasks (source : option string) (names : list string) (s : Supervisor) : Supervisor := {|
  sv_spec := sv_spec s; sv_secrets := sv_secrets s; sv_next_id := sv_next_id s; sv_child := sv_child s;
  sv_handler_source := sv_handler_source s; sv_handler_secret_names := sv_handler_secret_names s;
  sv_task_source := source; sv_task_secret_names := names;
  sv_world := sv_world s; sv_trace := sv_trace s
|}.

(** ** Exchanges with the worker *)

Definition ask {A} (f : world -> A * world) : Sm A := fun s =>
  let '(a, w) := f (sv_world s) in (Ok a, with_world w [] s).

Definition send (m : Message) : Sm () := fun s =>
  let '(r, w) := w_send m (sv_world s) in (map_err IsIpc r, with_world w [ESend m] s).
Definition receive_raw : Sm (result IpcError Message) := fun s =>
  let '(r, w) := w_recv (sv_world s) in (Ok r, with_world w [ERecv r] s).
Definition receive : Sm Message := r ← receive_raw; lift (map_err IsIpc r).

(** Dropping a connection kills its process. *)
Definition kill : Sm () := fun s => (Ok (), with_world (w_kill (sv_world s)) [EKill] s).
Definition drop_child : Sm () :=
  s ← get_state;
  (if sv_child s then kill else mret ());;
  modify (set_child false).

Definition kill_worker : Sm () := drop_child.

Definition worker_exited : Sm bool :=
  s ← get_state;
  if sv_child s then ask w_exited else mret true.

(** The next request number, a wrapping [u64]. *)
Definition fresh_id : Sm Z :=
  s ← get_state;
  modify (set_next_id ((sv_next_id s + 1) mod 2 ^ 64));;
  mret (sv_next_id s).

Definition task_error (error : string) (kind : TaskErrorKind) : IsolateError :=
  IsEngine match kind with
           | TkFailed => EeIsolate error
           | TkTimedOut => EeInterrupted IrTimeout
           | TkCanceled => EeInterrupted IrCancelled
           | TkSuspended => EeSuspended
           end.

Definition unexpected {A} (expected : string) (m : Message) : Sm A :=
  throw (IsWorker (expected ++ w_message_text m)).

Definition send_load : Sm () :=
  s ← get_state;
  match sv_handler_source s with
  | None => throw (IsWorker "handler source missing")
  | Some source =>
      send (Load_ source (sv_handler_secret_names s));;
      m ← receive;
      match m with
      | Loaded => mret ()
      | LoadErr error => throw (IsWorker error)
      | other => unexpected "expected loaded, got " other
      end
  end.

Definition send_task_load : Sm (list string) :=
  s ← get_state;
  match sv_task_source s with
  | None => throw (IsWorker "task source missing")
  | Some source =>
      id ← fresh_id;
      send (TaskLoad id source (sv_task_secret_names s));;
      m ← receive;
      match m with
      | TaskLoaded reply_id definitions_json =>
          if reply_id =? id then
            match w_definitions definitions_json with
            | Some definitions => mret definitions
            | None => throw (IsWorker "definitions")
            end
          else unexpected "expected task loaded, got " m
      | TaskErr reply_id error kind =>
          if reply_id =? id then throw (task_error error kind) else unexpected "expected task loaded, got " m
      | other => unexpected "expected task loaded, got " other
      end
  end.

(** The handshake. On any error before the connection is stored, it is dropped. *)
Definition handshake : Sm () :=
  s ← get_state;
  ready ← receive_raw;
  match ready with
  | Ok WorkerReady => mret ()
  | Ok other => unexpected "expected ready, got " other
  | Err err => throw (IsWorker ("worker failed to start: " ++ w_error_text (IsIpc err)))
  end;;
  let sp := sv_spec s in
  send (Start (sp_memory_limit_bytes sp) (sp_cpu_ms_per_turn sp) (sp_request_timeout_ms sp)
          (sp_rlimit_as_bytes sp) (sp_app sp) (sp_json_logs sp));;
  started ← receive_raw;
  match started with
  | Ok Started => mret ()
  | Ok other => unexpected "expected started, got " other
  | Err err => throw (IsWorker ("start handshake failed: " ++ w_error_text (IsIpc err)))
  end.

(** [f], and on its error [cleanup] before returning it. *)
Definition on_error {A} (f : Sm A) (cleanup : Sm ()) : Sm A := fun s =>
  match f s with
  | (Ok a, s') => (Ok a, s')
  | (Err e, s') => (Err e, snd (cleanup s'))
  end.

Definition spawn_process : Sm () := fun s =>
  let '(ok, w) := w_spawn (sv_world s) in
  if ok then (Ok (), with_world w [ESpawn] s) else (Err IsIo, with_world w [] s).

(** [Watchdog::new]: the thread may not start. *)
Definition start_watchdog : Sm () :=
  ok ← ask w_watchdog; if (ok : bool) then mret () else throw IsIo.

(** The pipes asked for at the spawn are there; the cgroup the worker is attached to
    is a limit on top of the worker's own and its attachment never fails. *)
Definition ensure_worker : Sm () :=
  s ← get_state;
  exited ← worker_exited;
  if sv_child s && negb exited then mret ()
  else
    drop_child;;
    spawn_process;;
    on_error start_watchdog kill;;
    ask (fun w => ((), w_arm w));;
    on_error handshake kill;;
    modify (set_child true);;
    (if sv_handler_source s is Some _ then send_load else mret ());;
    (if sv_task_source s is Some _ then send_task_load;; mret () else mret ());;
    reason ← ask w_finish;
    match reason with
    | Some reason => kill_worker;; throw (IsEngine (EeInterrupted reason))
    | None => mret ()
    end.

Definition worker_connection_failed (e : IsolateError) : Sm bool :=
  match e with
  | IsIo | IsIpc _ => mret true
  | _ => worker_exited
  end.

Definition restart_worker : Sm () := kill_worker;; ensure_worker.

(** ** Requests *)

(** Answer one capability call of the worker. *)
Definition serve_cap (cap_id : Z) (op : string) (args : list WireValue) : Sm () :=
  s ← get_state;
  send (match broker_call (sv_secrets s) op args with
        | Ok value => CapOk cap_id (to_wire value)
        | Err err => CapErr cap_id (w_error_text err)
        end).

(** Serve capability calls until another message arrives. *)
Fixpoint serve (fuel : nat) {A} (reply : Message -> Sm A) : Sm A :=
  match fuel with
  | O => throw OutOfBudget
  | S fuel' =>
      m ← receive;
      match m with
      | CapCall cap_id op args => serve_cap cap_id op args;; serve fuel' reply
      | other => reply other
      end
  end.

Definition eval_reply (id : Z) (m : Message) : Sm EngineValue :=
  match m with
  | EvalOk eval_id value => if eval_id =? id then mret (from_wire value) else unexpected "unexpected message " m
  | EvalErr eval_id error => if eval_id =? id then throw (IsWorker error) else unexpected "unexpected message " m
  | other => unexpected "unexpected message " other
  end.

Definition eval_inner (fuel : nat) (source : string) : Sm EngineValue :=
  ensure_worker;;
  id ← fresh_id;
  send (Eval_ id source);;
  serve fuel (eval_reply id).

(** An error of the second run carries the text of both. *)
Definition annotate {A} (first : IsolateError) (run : Sm A) : Sm A := fun s =>
  match run s with
  | (Ok a, s') => (Ok a, s')
  | (Err retry, s') => (Err (IsWorker (w_error_text first ++ "; retry: " ++ w_error_text retry)), s')
  end.

Definition retry_after {A} (err : IsolateError) (run : Sm A) : Sm A :=
  failed ← worker_connection_failed err;
  if failed : bool then restart_worker;; annotate err run else throw err.

(** Run; when the connection failed, restart the worker and run once more. *)
Definition with_retry {A} (run : Sm A) : Sm A := fun s =>
  match run s with
  | (Ok a, s') => (Ok a, s')
  | (Err err, s') => retry_after err run s'
  end.

Definition eval (fuel : nat) (source : string) : Sm EngineValue := with_retry (eval_inner fuel source).

Definition http_reply (id : Z) (m : Message) : Sm (HttpHead * string) :=
  match m with
  | HttpOk reply_id status headers body websocket =>
      if reply_id =? id then
        if websocket then throw (IsWorker "websocket is not available in the isolated profile")
        else if MAX_ISOLATED_HTTP_BODY <? len body then
          throw (IsWorker "isolated response body exceeds 32KiB IPC cap")
        else mret ({| hh_status := status; hh_headers := headers; hh_websocket := false |}, body)
      else unexpected "unexpected message " m
  | HttpErr reply_id error timed_out =>
      if reply_id =? id then
        if timed_out then throw (IsEngine (EeInterrupted IrTimeout)) else throw (IsWorker error)
      else unexpected "unexpected message " m
  | other => unexpected "unexpected message " other
  end.

Definition timed_out {A} : Sm A := throw (IsEngine (EeInterrupted IrTimeout)).

(** The three looks at the clock before the request is sent. *)
Definition http_inner (fuel : nat) (request : HttpRequest) : Sm (HttpHead * string) :=
  if MAX_ISOLATED_HTTP_BODY <? len (hr_body request) then
    throw (IsWorker "isolated request body exceeds 32KiB IPC cap")
  else
    left ← ask w_remaining_ns;
    if left <=? 0 then timed_out
    else
      remaining ← ask w_remaining_ns;
      if remaining <=? 0 then timed_out
      else
        id ← fresh_id;
        send (Http id (hr_method request) (hr_url request) (hr_headers request) (from_utf8_lossy (hr_body request))
                (hr_request_id request) (Some (Z.min (remaining / 1000000) u64_max)));;
        serve fuel (http_reply id).

Definition is_connection_error (e : IsolateError) : bool :=
  match e with IsIo | IsIpc _ => true | _ => false end.

(** A request with its outcome as a value. *)
Definition attempt_http (fuel : nat) (request : HttpRequest) : Sm (result IsolateError (HttpHead * string)) := fun s =>
  let '(r, s') := http_inner fuel request s in (Ok r, s').

Definition http_cancellable (fuel : nat) (request : HttpRequest) : Sm (HttpHead * string) :=
  left ← ask w_remaining_ns;
  if left <=? 0 then timed_out
  else
    ensure_worker;;
    ask (fun w => ((), w_arm w));;
    r ← attempt_http fuel request;
    reason ← ask w_finish;
    match reason with
    | Some reason => kill_worker;; throw (IsEngine (EeInterrupted reason))
    | None =>
        (if match r with Err e => is_connection_error e | Ok _ => false end then kill_worker else mret ());;
        lift r
    end.

(** ** Tasks, handlers, tests *)

Definition load_handler (source : string) (secret_names : list string) : Sm () :=
  modify (set_handler (Some source) secret_names);;
  ensure_worker;;
  send_load.

Definition load_task_module (source : string) (secret_names : list string) : Sm (list string) :=
  ensure_worker;;
  modify (set_tasks (Some source) secret_names);;
  send_task_load.

Definition invoke_task_inner (task_name input_json request_id : string) (deadline_ms : Z) : Sm EngineValue :=
  ensure_worker;;
  s ← get_state;
  match sv_task_source s with
  | None => throw (IsWorker "task module not loaded")
  | Some _ =>
      id ← fresh_id;
      send (TaskInvoke id task_name input_json request_id deadline_ms);;
      m ← receive;
      match m with
      | TaskOk reply_id value => if reply_id =? id then mret (from_wire value) else unexpected "unexpected task reply " m
      | TaskErr reply_id error kind =>
          if reply_id =? id then throw (task_error error kind) else unexpected "unexpected task reply " m
      | other => unexpected "unexpected task reply " other
      end
  end.

Definition invoke_task (task_name input_json request_id : string) (deadline_ms : Z) : Sm EngineValue :=
  with_retry (invoke_task_inner task_name input_json request_id deadline_ms).

Definition overalloc : Sm () :=
  ensure_worker;;
  send Overalloc;;
  r ← receive_raw;
  match r with
  | Ok other => unexpected "worker survived overalloc: " other
  | Err _ => drop_child
  end.

Definition new_supervisor (spec : WorkerSpec) (secrets : gmap string string) (w : world) : Supervisor := {|
  sv_spec := spec; sv_secrets := secrets; sv_next_id := 1; sv_child := false;
  sv_handler_source := None; sv_handler_secret_names := []; sv_task_source := None;
  sv_task_secret_names := []; sv_world := w; sv_trace := []
|}.

(** [Supervisor::spawn] *)
Definition spawn_supervisor (is_file : bool) : Sm () :=
  if is_file then ensure_worker else throw IsMissingWorker.

End Supervisor.
