(* ===== verification/IsolateThms.v ===== *)
(** * What the supervisor guarantees, whatever the worker does

    The values of secrets influence nothing a worker can see ([blind]); a worker
    is sent code only after it confirmed its start ([phase]); a request is not
    sent twice ([spends]). Each is a property of supervisor programs closed under
    composition, shown once per primitive and then by hints. *)

From Stdlib Require Import ZArith Lia Ascii String.
From stdpp Require Import base tactics list gmap strings.
From S2P Require Import Prelude Bytes Ipc Isolate.
Open Scope Z_scope.

(** ** The public operations *)

Section Ops.
Context {W : Worker}.

Inductive Op :=
| OpEval (fuel : nat) (source : string)
| OpHttp (fuel : nat) (request : HttpRequest)
| OpLoadHandler (source : string) (secret_names : list string)
| OpLoadTasks (source : string) (secret_names : list string)
| OpInvoke (task_name input_json request_id : string) (deadline_ms : Z)
| OpOveralloc
| OpKill.

Inductive Answer :=
| AUnit
| AValue (v : EngineValue)
| AHttp (head : HttpHead) (body : string)
| ATasks (definitions : list string).

Definition run_op (op : Op) : Sm Answer :=
  match op with
  | OpEval fuel source => v ← eval fuel source; mret (AValue v)
  | OpHttp fuel request => r ← http_cancellable fuel request; mret (AHttp (fst r) (snd r))
  | OpLoadHandler source names => load_handler source names;; mret AUnit
  | OpLoadTasks source names => l ← load_task_module source names; mret (ATasks l)
  | OpInvoke name input rid deadline => v ← invoke_task name input rid deadline; mret (AValue v)
  | OpOveralloc => overalloc;; mret AUnit
  | OpKill => kill_worker;; mret AUnit
  end.

Fixpoint run_ops (ops : list Op) (s : Supervisor) : list (result IsolateError Answer) * Supervisor :=
  match ops with
  | [] => ([], s)
  | op :: ops' =>
      let '(r, s1) := run_op op s in
      let '(rs, s2) := run_ops ops' s1 in (r :: rs, s2)
  end.

End Ops.

(** ** Secrets *)

Create HintDb blind discriminated.
#[export] Hint Constants Opaque : blind.
#[export] Hint Transparent Sm : blind.

Section Blind.
Context {W : Worker}.

Definition set_secrets (secrets : gmap string string) (s : Supervisor) : Supervisor := {|
  sv_spec := sv_spec s; sv_secrets := secrets; sv_next_id := sv_next_id s; sv_child := sv_child s;
  sv_handler_source := sv_handler_source s; sv_handler_secret_names := sv_handler_secret_names s;
  sv_task_source := sv_task_source s; sv_task_secret_names := sv_task_secret_names s;
  sv_world := sv_world s; sv_trace := sv_trace s
|}.

(** The program behaves the same whatever the secrets' values. *)
Definition blind {A} (m : Sm A) : Prop := forall s secrets,
  dom secrets = dom (sv_secrets s) ->
  m (set_secrets secrets s) = (fst (m s), set_secrets secrets (snd (m s)))
  /\ sv_secrets (snd (m s)) = sv_secrets s.

Lemma blind_ret {A} (a : A) : blind (mret a).
Proof. done. Qed.
Lemma blind_throw {A} e : blind (throw e : Sm A).
Proof. done. Qed.
Lemma blind_lift {A} (r : result IsolateError A) : blind (lift r).
Proof. done. Qed.

Lemma blind_bind {A B} (m : Sm A) (k : A -> Sm B) : blind m -> (forall a, blind (k a)) -> blind (a ← m; k a).
Proof.
  intros Hm Hk s secrets Hd. destruct (Hm s secrets Hd) as [E1 P1]. unfold mbind, M_bind. rewrite E1.
  destruct (m s) as [[a|e] s1]; cbn in *; [|done].
  destruct (Hk a s1 secrets) as [E2 P2]; [congruence|]. rewrite E2, P2, P1.
  by destruct (k a s1) as [[b|e] s2].
Qed.

(** A look at the state that does not look at the values of secrets. *)
Lemma blind_get {A} (k : Supervisor -> Sm A) :
  (forall s secrets, dom secrets = dom (sv_secrets s) -> k (set_secrets secrets s) = k s) ->
  (forall s, blind (k s)) -> blind (s ← get_state; k s).
Proof.
  intros He Hk s secrets Hd. unfold mbind, M_bind, get_state. rewrite He by done. by apply Hk.
Qed.

Lemma blind_modify f :
  (forall s secrets, f (set_secrets secrets s) = set_secrets secrets (f s)) ->
  (forall s, sv_secrets (f s) = sv_secrets s) -> blind (modify f).
Proof. intros Hf Hp s secrets _. unfold modify. rewrite Hf. split; [done|apply Hp]. Qed.

Lemma blind_ask {A} (f : world -> A * world) : blind (ask f).
Proof. intros s secrets _. unfold ask. cbn. by destruct (f (sv_world s)). Qed.
Lemma blind_send m : blind (send m).
Proof. intros s secrets _. unfold send. cbn. by destruct (w_send m (sv_world s)). Qed.
Lemma blind_receive_raw : blind receive_raw.
Proof. intros s secrets _. unfold receive_raw. cbn. by destruct (w_recv (sv_world s)). Qed.
Lemma blind_kill : blind kill.
Proof. done. Qed.
Lemma blind_spawn : blind spawn_process.
Proof. intros s secrets _. unfold spawn_process. cbn. by destruct (w_spawn (sv_world s)) as [[] w]. Qed.

Lemma blind_on_error {A} (m : Sm A) c : blind m -> blind c -> blind (on_error m c).
Proof.
  intros Hm Hc s secrets Hd. destruct (Hm s secrets Hd) as [E1 P1]. unfold on_error. rewrite E1.
  destruct (m s) as [[a|e] s1]; cbn in *; [done|].
  destruct (Hc s1 secrets) as [E2 P2]; [congruence|]. rewrite E2. cbn. by rewrite P2, P1.
Qed.

(** The broker tells which secrets there are, not what they are. *)
Lemma broker_call_blind secrets secrets' op args :
  dom secrets = dom secrets' -> broker_call secrets op args = broker_call secrets' op args.
Proof.
  intros Hd. unfold broker_call. repeat case_match; try done;
    match goal with
    | H : ?a !! ?n = Some _, H' : ?b !! ?n = None |- _ =>
        apply elem_of_dom_2 in H; apply not_elem_of_dom in H'; set_solver
    end.
Qed.
End Blind.

#[export] Hint Resolve blind_ret blind_throw blind_lift blind_ask blind_send blind_receive_raw blind_kill blind_spawn : blind.

(** Walk through a supervisor program. *)
Ltac blind_steps :=
  repeat lazymatch goal with
    | |- forall _, _ => intro
    | |- blind (mbind _ get_state) => apply blind_get; [intros; reflexivity|]
    | |- blind (mbind _ _) => apply blind_bind
    | |- blind (on_error _ _) => apply blind_on_error
    | |- blind (modify _) => solve [apply blind_modify; intros; reflexivity]
    | |- blind (match ?x with _ => _ end) => destruct x
    | |- blind _ => solve [auto with blind nocore]
    end.

Section BlindOps.
Context {W : Worker}.

Lemma blind_receive : blind receive.
Proof. unfold receive. blind_steps. Qed.
Lemma blind_fresh_id : blind fresh_id.
Proof. unfold fresh_id. blind_steps. Qed.
Lemma blind_drop_child : blind drop_child.
Proof. unfold drop_child. blind_steps. Qed.
Lemma blind_worker_exited : blind worker_exited.
Proof. unfold worker_exited. blind_steps. Qed.
Lemma blind_unexpected {A} text m : blind (unexpected text m : Sm A).
Proof. done. Qed.
Hint Resolve blind_receive blind_fresh_id blind_drop_child blind_worker_exited blind_unexpected : blind.

Lemma blind_send_load : blind send_load.
Proof. unfold send_load. blind_steps. Qed.
Lemma blind_send_task_load : blind send_task_load.
Proof. unfold send_task_load. blind_steps. Qed.
Lemma blind_handshake : blind handshake.
Proof. unfold handshake. blind_steps. Qed.
Lemma blind_kill_worker : blind kill_worker.
Proof. apply blind_drop_child. Qed.
Hint Resolve blind_send_load blind_send_task_load blind_handshake blind_kill_worker : blind.

Lemma blind_ensure_worker : blind ensure_worker.
Proof. unfold ensure_worker, start_watchdog. blind_steps. Qed.
Hint Resolve blind_ensure_worker : blind.

Lemma blind_serve_cap id op args : blind (serve_cap id op args).
Proof.
  unfold serve_cap. apply blind_get; [|blind_steps].
  intros s secrets Hd. cbn. by rewrite (broker_call_blind secrets (sv_secrets s)).
Qed.
Hint Resolve blind_serve_cap : blind.

Lemma blind_serve {A} fuel (reply : Message -> Sm A) : (forall m, blind (reply m)) -> blind (serve fuel reply).
Proof. intros Hr. induction fuel as [|fuel IH]; cbn [serve]; blind_steps. Qed.

Lemma blind_with_retry {A} (run : Sm A) : blind run -> blind (with_retry run).
Proof.
  intros Hr. assert (forall e, blind (annotate e run)) as Ha.
  { intros e s secrets Hd. destruct (Hr s secrets Hd) as [E P]. unfold annotate. rewrite E.
    by destruct (run s) as [[a|x] s1]. }
  assert (forall e, blind (retry_after e run)) as Hra.
  { intros e. unfold retry_after, worker_connection_failed, restart_worker. blind_steps. }
  intros s secrets Hd. destruct (Hr s secrets Hd) as [E P]. unfold with_retry. rewrite E.
  destruct (run s) as [[a|x] s1]; cbn in *; [done|].
  destruct (Hra x s1 secrets) as [E2 P2]; [congruence|]. by rewrite E2, P2.
Qed.

Lemma blind_http_inner fuel request : blind (http_inner fuel request).
Proof. unfold http_inner, timed_out, http_reply. blind_steps. apply blind_serve. blind_steps. Qed.

Lemma blind_http fuel request : blind (http_cancellable fuel request).
Proof.
  assert (blind (attempt_http fuel request)).
  { intros s secrets Hd. destruct (blind_http_inner fuel request s secrets Hd) as [E P].
    unfold attempt_http. rewrite E. by destruct (http_inner fuel request s). }
  unfold http_cancellable, timed_out. blind_steps.
Qed.

Lemma blind_eval fuel source : blind (eval fuel source).
Proof.
  apply blind_with_retry. unfold eval_inner, eval_reply. blind_steps. apply blind_serve. blind_steps.
Qed.

Lemma blind_invoke name input rid deadline : blind (invoke_task name input rid deadline).
Proof. apply blind_with_retry. unfold invoke_task_inner. blind_steps. Qed.

Lemma blind_run_op op : blind (run_op op).
Proof.
  destruct op; cbn [run_op]; unfold load_handler, load_task_module, overalloc; blind_steps;
    auto using blind_eval, blind_http, blind_invoke.
Qed.

Lemma blind_run_ops ops s secrets :
  dom secrets = dom (sv_secrets s) ->
  run_ops ops (set_secrets secrets s) = (fst (run_ops ops s), set_secrets secrets (snd (run_ops ops s))).
Proof.
  revert s. induction ops as [|op ops IH]; intros s Hd; cbn; [done|].
  destruct (blind_run_op op s secrets Hd) as [E P]. rewrite E. destruct (run_op op s) as [r s1]. cbn in *.
  rewrite IH by congruence. by destruct (run_ops ops s1).
Qed.

(** C3. Secrets stay with the broker. Two supervisors that differ only in the
    values of their secrets, doing the same requests against the same worker, give
    the same answers and exchange the same messages with it, whatever code the
    worker runs and whatever capability calls it makes. *)
Theorem secrets_never_leave ops spec secrets secrets' w :
  dom secrets = dom secrets' ->
  let '(answers, s) := run_ops ops (new_supervisor spec secrets w) in
  let '(answers', s') := run_ops ops (new_supervisor spec secrets' w) in
  answers = answers' /\ sv_trace s = sv_trace s' /\ sv_world s = sv_world s'.
Proof.
  intros Hd. change (new_supervisor spec secrets w) with (set_secrets secrets (new_supervisor spec secrets' w)).
  rewrite blind_run_ops by done. by destruct (run_ops ops (new_supervisor spec secrets' w)).
Qed.

End BlindOps.

(** ** The start handshake *)

(** How far the current worker has come, as the exchanges tell. *)
Inductive Phase := PIdle | PSpawned | PReady | PStarting | PRunning | PBroken.

Definition is_start (m : Message) : bool := match m with Start _ _ _ _ _ _ => true | _ => false end.

(** The protocol: after its spawn a worker announces itself, is sent its limits and
    confirms; nothing else is sent to it before. *)
Definition phase_step (p : Phase) (e : Event) : option Phase :=
  match e, p with
  | EKill, _ => Some PIdle
  | ESpawn, PIdle => Some PSpawned
  | ERecv (Ok WorkerReady), PSpawned => Some PReady
  | ERecv _, PSpawned => Some PBroken
  | ESend m, PReady => if is_start m then Some PStarting else None
  | ERecv (Ok Started), PStarting => Some PRunning
  | ERecv _, PStarting => Some PBroken
  | ESend m, PRunning => if is_start m then None else Some PRunning
  | ERecv _, PRunning => Some PRunning
  | _, _ => None
  end.

Definition phase (t : list Event) : option Phase :=
  foldl (fun p e => p ≫= fun p => phase_step p e) (Some PIdle) t.

Create HintDb triple discriminated.
#[export] Hint Constants Opaque : triple.
#[export] Hint Transparent Sm : triple.

Section Phases.
Context {W : Worker}.

Definition at_phase (p : Phase) (s : Supervisor) : Prop := phase (sv_trace s) = Some p.
Definition idle (s : Supervisor) : Prop := at_phase PIdle s /\ sv_child s = false.
Definition running (s : Supervisor) : Prop := at_phase PRunning s /\ sv_child s = true.
Definition orderly (s : Supervisor) : Prop := idle s \/ running s.

(** From [P], a program ends in [Q] with its value or in [E] with its error. *)
Definition triple {A} (P : Supervisor -> Prop) (m : Sm A) (Q E : Supervisor -> Prop) : Prop :=
  forall s, P s -> match m s with (Ok _, s') => Q s' | (Err _, s') => E s' end.

Lemma triple_ret {A} (P E : Supervisor -> Prop) (a : A) : triple P (mret a) P E.
Proof. by intros s. Qed.
Lemma triple_throw {A} (P Q : Supervisor -> Prop) e : triple P (throw e : Sm A) Q P.
Proof. by intros s. Qed.
Lemma triple_bind {A B} (m : Sm A) (k : A -> Sm B) P R Q E :
  triple P m R E -> (forall a, triple R (k a) Q E) -> triple P (a ← m; k a) Q E.
Proof.
  intros Hm Hk s Hs. specialize (Hm s Hs). unfold mbind, M_bind. destruct (m s) as [[a|e] s1]; [|done].
  by apply Hk.
Qed.
Lemma triple_get {A} (k : Supervisor -> Sm A) (P Q E : Supervisor -> Prop) :
  (forall s, P s -> triple P (k s) Q E) -> triple P (s ← get_state; k s) Q E.
Proof. intros Hk s Hs. unfold mbind, M_bind, get_state. by apply (Hk s Hs). Qed.
Lemma triple_weaken {A} (m : Sm A) (P P' Q Q' E E' : Supervisor -> Prop) :
  triple P' m Q' E' -> (forall s, P s -> P' s) -> (forall s, Q' s -> Q s) -> (forall s, E' s -> E s) -> triple P m Q E.
Proof.
  intros Hm HP HQ HE s Hs. specialize (Hm s (HP s Hs)). destruct (m s) as [[a|e] s']; auto.
Qed.

Lemma phase_snoc t e : phase (t ++ [e]) = phase t ≫= fun p => phase_step p e.
Proof. unfold phase. by rewrite foldl_app. Qed.

Lemma at_phase_event p q w e s :
  at_phase p s -> phase_step p e = Some q -> at_phase q (with_world w [e] s).
Proof. unfold at_phase. cbn. rewrite phase_snoc. by intros ->. Qed.

Lemma triple_ask {A} (f : world -> A * world) p b E :
  triple (fun s => at_phase p s /\ sv_child s = b) (ask f) (fun s => at_phase p s /\ sv_child s = b) E.
Proof.
  intros s [Hp Hb]. unfold ask. destruct (f (sv_world s)) as [a w]. cbn. split; [|done].
  unfold at_phase in *. cbn. by rewrite app_nil_r.
Qed.

Lemma triple_send m :
  is_start m = false -> triple running (send m) running running.
Proof.
  intros Hm s [Hp Hc]. unfold send. destruct (w_send m (sv_world s)) as [r w].
  assert (running (with_world w [ESend m] s)).
  { split; [|done]. eapply at_phase_event; [done|]. cbn. by rewrite Hm. }
  by destruct r as [[]|e].
Qed.

Lemma triple_receive_raw : triple running receive_raw running running.
Proof.
  intros s [Hp Hc]. unfold receive_raw. destruct (w_recv (sv_world s)) as [r w]. cbn.
  split; [|done]. eapply at_phase_event; [done|]. by destruct r as [[]|].
Qed.
Lemma triple_receive : triple running receive running running.
Proof.
  eapply triple_bind; [apply triple_receive_raw|]. intros r s Hs. unfold lift. by destruct r.
Qed.

Lemma triple_get_is {A} (k : Supervisor -> Sm A) (P Q E : Supervisor -> Prop) :
  (forall s, P s -> triple (fun s' => P s' /\ sv_child s' = sv_child s) (k s) Q E) -> triple P (s ← get_state; k s) Q E.
Proof. intros Hk s Hs. unfold mbind, M_bind, get_state. by apply (Hk s Hs). Qed.

Definition afloat (s : Supervisor) : Prop := (exists p, at_phase p s) /\ sv_child s = false.

Lemma kill_idle s : afloat s -> idle (snd (kill s)).
Proof. intros [[p Hp] Hc]. split; [|done]. by eapply at_phase_event. Qed.

Lemma triple_drop_child : triple orderly drop_child idle idle.
Proof.
  intros s [[Hp Hc]|[Hp Hc]]; unfold drop_child, get_state, modify; unfold_monad; rewrite Hc; cbn.
  - by split.
  - split; [|done]. by eapply (at_phase_event PRunning).
Qed.

Lemma triple_worker_exited P :
  (forall f : world -> bool * world, triple P (ask f) P P) -> triple P worker_exited P P.
Proof.
  intros Ha. apply triple_get. intros s _. destruct (sv_child s); [apply Ha|apply triple_ret].
Qed.

Lemma triple_ask_orderly {A} (f : world -> A * world) b E :
  triple (fun s => orderly s /\ sv_child s = b) (ask f) (fun s => orderly s /\ sv_child s = b) E.
Proof.
  intros s [Ho Hb]. unfold ask. destruct (f (sv_world s)) as [a w]. cbn. split; [|done].
  unfold orderly, idle, running, at_phase in *. cbn. by rewrite app_nil_r.
Qed.

Lemma triple_ask_running {A} (f : world -> A * world) : triple running (ask f) running running.
Proof. apply triple_ask. Qed.

Lemma triple_fresh_id : triple running fresh_id running running.
Proof. apply triple_get. intros s _ s' Hs'. done. Qed.

Lemma triple_spawn :
  triple idle spawn_process (fun s => at_phase PSpawned s /\ sv_child s = false) idle.
Proof.
  intros s [Hp Hc]. unfold spawn_process. destruct (w_spawn (sv_world s)) as [[] w]; (split; [|done]).
  - by eapply at_phase_event.
  - unfold at_phase in *. cbn. by rewrite app_nil_r.
Qed.

(** Every step of the handshake moves to the next phase or leaves the worker broken. *)
Lemma triple_handshake :
  triple (fun s => at_phase PSpawned s /\ sv_child s = false) handshake
         (fun s => at_phase PRunning s /\ sv_child s = false) afloat.
Proof.
  intros s [Hp Hc]. unfold handshake, receive_raw, send, get_state, unexpected, throw, lift. unfold_monad.
  destruct (w_recv (sv_world s)) as [r1 w1]. set (s1 := with_world w1 [ERecv r1] s).
  assert (forall q, phase_step PSpawned (ERecv r1) = Some q -> at_phase q s1) as H1 by (intros q; by apply at_phase_event).
  assert (sv_child s1 = false) as Hc1 by done.
  destruct r1 as [m1|e1]; [|by split; [eexists; by apply H1|]].
  destruct m1; try by (split; [eexists; by apply H1|]).
  specialize (H1 PReady eq_refl). cbn [map_err].
  match goal with |- context [w_send ?m ?w] => destruct (w_send m w) as [r2 w2]; set (s2 := with_world w2 [ESend m] s1) end.
  assert (at_phase PStarting s2) as H2 by (by eapply at_phase_event).
  destruct r2 as [[]|e2]; cbn [map_err]; [|by split; [by eexists|]].
  destruct (w_recv (sv_world s2)) as [r3 w3]. set (s3 := with_world w3 [ERecv r3] s2).
  assert (forall q, phase_step PStarting (ERecv r3) = Some q -> at_phase q s3) as H3 by (intros q; by apply at_phase_event).
  destruct r3 as [m3|e3]; [|by split; [eexists; by apply H3|]].
  destruct m3; try by (split; [eexists; by apply H3|]).
  by split; [apply H3|].
Qed.

End Phases.

#[export] Hint Resolve triple_ret triple_throw triple_ask_running triple_receive triple_receive_raw triple_fresh_id : triple.

(** Walk through a program that talks to a running worker. *)
Ltac running_steps :=
  repeat lazymatch goal with
    | |- forall _, _ => intro
    | |- triple _ (mbind _ get_state) _ _ => apply triple_get
    | |- triple _ (mbind _ _) _ _ => apply (triple_bind _ _ _ running)
    | |- triple _ (send _) _ _ => apply triple_send; repeat case_match; reflexivity
    | |- triple _ (match ?x with _ => _ end) _ _ => destruct x
    | |- triple _ (unexpected _ _) _ _ => apply triple_throw
    | |- triple _ _ _ _ => solve [auto with triple nocore]
    end.

Section PhaseOps.
Context {W : Worker}.

Lemma running_send_load : triple running send_load running running.
Proof. unfold send_load. running_steps. Qed.
Lemma running_send_task_load : triple running send_task_load running running.
Proof. unfold send_task_load. running_steps. Qed.
Lemma running_serve_cap id op args : triple running (serve_cap id op args) running running.
Proof. unfold serve_cap. running_steps. Qed.
Hint Resolve running_send_load running_send_task_load running_serve_cap : triple.

Lemma running_serve {A} fuel (reply : Message -> Sm A) :
  (forall m, triple running (reply m) running running) -> triple running (serve fuel reply) running running.
Proof. intros Hr. induction fuel as [|fuel IH]; cbn [serve]; running_steps; auto. Qed.

(** Nothing but a started worker leaves [ensure_worker]. *)
Lemma ensure_worker_running : triple orderly ensure_worker running orderly.
Proof.
  apply triple_get_is. intros s _.
  apply (triple_bind _ _ _ (fun s' => orderly s' /\ sv_child s' = sv_child s)).
  { eapply triple_weaken; [apply (triple_worker_exited (fun s' => orderly s' /\ sv_child s' = sv_child s))| | |];
      [intros f; apply triple_ask_orderly|done|done|by intros s' [? _]]. }
  intros exited. destruct (sv_child s && negb exited) eqn:Hlive.
  { intros s' [[[_ Hc]|Hr] Hc']; [|done]. apply andb_true_iff in Hlive as [Hl _]. congruence. }
  apply (triple_bind _ _ _ idle).
  { eapply triple_weaken; [apply triple_drop_child|by intros s' [? _]|done|by left]. }
  intros _. eapply triple_bind; [eapply triple_weaken; [apply triple_spawn|done|intros s' Hs'; exact Hs'|by left]|].
  intros _. eapply triple_bind.
  { intros s' [Hp Hc]. unfold on_error, start_watchdog, ask, throw. unfold_monad.
    destruct (w_watchdog (sv_world s')) as [[] w].
    - instantiate (1 := fun s' => at_phase PSpawned s' /\ sv_child s' = false). split; [|done].
      unfold at_phase in *. cbn. by rewrite app_nil_r.
    - left. apply kill_idle. split; [|done]. exists PSpawned. unfold at_phase in *. cbn. by rewrite app_nil_r. }
  intros _. eapply triple_bind; [apply triple_ask|]. intros _.
  apply (triple_bind _ _ _ (fun s' => at_phase PRunning s' /\ sv_child s' = false)).
  { intros s' Hs'. pose proof (triple_handshake s' Hs') as Hh. unfold on_error.
    destruct (handshake s') as [[[]|e] s1]; [done|]. left. by apply kill_idle. }
  intros _. apply (triple_bind _ _ _ running); [by intros s' [? _]|]. intros _.
  assert (forall s', running s' -> orderly s') as Hro by (by right).
  apply (triple_bind _ _ _ running).
  { eapply (triple_weaken _ _ running _ running _ running); [|done|done|done].
    destruct (sv_handler_source s); [apply running_send_load|apply triple_ret]. }
  intros _. apply (triple_bind _ _ _ running).
  { eapply (triple_weaken _ _ running _ running _ running); [|done|done|done].
    destruct (sv_task_source s); [|apply triple_ret]. running_steps. }
  intros _. apply (triple_bind _ _ _ running).
  { eapply (triple_weaken _ _ running _ running _ running); [apply triple_ask_running|done|done|done]. }
  intros [reason|]; [|apply triple_ret]. apply (triple_bind _ _ _ idle).
  { eapply triple_weaken; [apply triple_drop_child|done|done|by left]. }
  intros _. eapply triple_weaken; [apply (triple_throw idle)|done|done|by left].
Qed.

(** Work that starts with [ensure_worker] and then talks to the worker. *)
Lemma orderly_work {A} (m : Sm A) :
  triple running m running running -> triple orderly (ensure_worker;; m) running orderly.
Proof.
  intros Hm. apply (triple_bind _ _ _ running); [apply ensure_worker_running|]. intros _.
  eapply triple_weaken; [exact Hm|done|done|by right].
Qed.

Lemma orderly_retry {A} (run : Sm A) :
  triple orderly run running orderly -> triple orderly (with_retry run) running orderly.
Proof.
  intros Hr s Hs. unfold with_retry. pose proof (Hr s Hs) as H1. destruct (run s) as [[a|e] s1]; [done|].
  assert (triple orderly (retry_after e run) running orderly) as Hretry; [|exact (Hretry s1 H1)].
  apply (triple_bind _ _ _ orderly).
  { assert (forall f : world -> bool * world, triple orderly (ask f) orderly orderly) as Ha.
    { intros f s' Hs'. pose proof (triple_ask_orderly f (sv_child s') orderly s' (conj Hs' eq_refl)) as Hx.
      destruct (ask f s') as [[] ?]; tauto. }
    unfold worker_connection_failed. destruct e; try apply triple_ret; by apply triple_worker_exited. }
  intros [|]; [|apply triple_throw].
  apply (triple_bind _ _ _ running).
  { apply (triple_bind _ _ _ idle); [eapply triple_weaken; [apply triple_drop_child|done|done|by left]|]. intros _.
    eapply triple_weaken; [apply ensure_worker_running|by left|done|done]. }
  intros _ s' Hs'. unfold annotate. specialize (Hr s' (or_intror Hs')). by destruct (run s') as [[]].
Qed.

Lemma orderly_eval fuel source : triple orderly (eval fuel source) running orderly.
Proof.
  apply orderly_retry, orderly_work. running_steps. apply running_serve. unfold eval_reply. running_steps.
Qed.

Lemma orderly_invoke name input rid deadline : triple orderly (invoke_task name input rid deadline) running orderly.
Proof. apply orderly_retry, orderly_work. running_steps. Qed.

Lemma running_http_inner fuel request : triple running (http_inner fuel request) running running.
Proof. unfold http_inner, timed_out. running_steps. apply running_serve. unfold http_reply. running_steps. Qed.

Lemma orderly_ask {A} (f : world -> A * world) : triple orderly (ask f) orderly orderly.
Proof.
  intros s Hs. pose proof (triple_ask_orderly f (sv_child s) orderly s (conj Hs eq_refl)) as Hx.
  destruct (ask f s) as [[] ?]; tauto.
Qed.

Lemma orderly_drop : triple orderly drop_child orderly orderly.
Proof. eapply triple_weaken; [apply triple_drop_child|done|by left|by left]. Qed.

Lemma orderly_http fuel request : triple orderly (http_cancellable fuel request) orderly orderly.
Proof.
  apply (triple_bind _ _ _ orderly); [apply orderly_ask|]. intros left.
  destruct (left <=? 0); [apply triple_throw|].
  apply (triple_bind _ _ _ running); [apply ensure_worker_running|]. intros _.
  assert (forall A (m : Sm A), triple running m running running -> triple running m running orderly) as Hro.
  { intros A m Hm. eapply triple_weaken; [exact Hm|done|done|by right]. }
  apply (triple_bind _ _ _ running); [apply Hro, triple_ask_running|]. intros _.
  apply (triple_bind _ _ _ running).
  { apply Hro. intros s Hs. pose proof (running_http_inner fuel request s Hs) as Hh. unfold attempt_http.
    by destruct (http_inner fuel request s) as [[] ?]. }
  intros r. apply (triple_bind _ _ _ running); [apply Hro, triple_ask_running|]. intros [reason|].
  - apply (triple_bind _ _ _ orderly); [eapply triple_weaken; [apply orderly_drop|by right|done|done]|].
    intros _. apply triple_throw.
  - apply (triple_bind _ _ _ orderly).
    + match goal with |- context [if ?c then _ else _] => destruct c end;
        [eapply triple_weaken; [apply orderly_drop|by right|done|done]|by intros s; right].
    + intros _ s Hs. unfold lift. by destruct r.
Qed.

(** Every operation leaves the supervisor without a worker or with a started one. *)
Lemma orderly_run_op op : triple orderly (run_op op) orderly orderly.
Proof.
  assert (forall A (m : Sm A), triple orderly m running orderly -> triple orderly m orderly orderly) as Hro.
  { intros A m Hm. eapply triple_weaken; [exact Hm|done|by right|done]. }
  destruct op; cbn [run_op]; (apply (triple_bind _ _ _ orderly); [|intros; apply triple_ret]).
  - apply Hro, orderly_eval.
  - apply orderly_http.
  - apply Hro. apply (triple_bind _ _ _ orderly); [by intros s|]. intros _. apply orderly_work, running_send_load.
  - apply Hro, orderly_work. apply (triple_bind _ _ _ running); [by intros s|]. intros _. apply running_send_task_load.
  - apply Hro, orderly_invoke.
  - apply (triple_bind _ _ _ running); [apply ensure_worker_running|]. intros _.
    apply (triple_bind _ _ _ running); [eapply triple_weaken; [by apply triple_send|done|done|by right]|]. intros _.
    apply (triple_bind _ _ _ running); [eapply triple_weaken; [apply triple_receive_raw|done|done|by right]|].
    intros [m|e].
    + intros s Hs. by right.
    + eapply triple_weaken; [apply orderly_drop|by right|done|done].
  - apply orderly_drop.
Qed.

Lemma orderly_run_ops ops s : orderly s -> orderly (snd (run_ops ops s)).
Proof.
  revert s. induction ops as [|op ops IH]; intros s Hs; cbn; [done|].
  pose proof (orderly_run_op op s Hs) as H1. destruct (run_op op s) as [r s1].
  assert (orderly s1) as Ho by (by destruct r). specialize (IH s1 Ho).
  by destruct (run_ops ops s1).
Qed.

End PhaseOps.

(** ** Requests are sent once *)

Create HintDb spends discriminated.
#[export] Hint Constants Opaque : spends.
#[export] Hint Transparent Sm : spends.

Section Spends.
Context {W : Worker}.

Definition is_request (e : Event) : bool :=
  match e with ESend (Http _ _ _ _ _ _ _) => true | _ => false end.
Definition requests (es : list Event) : nat := length (List.filter is_request es).

(** At most [n] requests are sent. *)
Definition spends {A} (n : nat) (m : Sm A) : Prop := forall s,
  exists es, sv_trace (snd (m s)) = sv_trace s ++ es /\ (requests es <= n)%nat.

Lemma spends_ret {A} (a : A) : spends 0 (mret a).
Proof. intros s. exists []. by rewrite app_nil_r. Qed.
Lemma spends_throw {A} e : spends 0 (throw e : Sm A).
Proof. intros s. exists []. by rewrite app_nil_r. Qed.
Lemma spends_lift {A} (r : result IsolateError A) : spends 0 (lift r).
Proof. intros s. exists []. by rewrite app_nil_r. Qed.
Lemma spends_bind {A B} n k (m : Sm A) (f : A -> Sm B) :
  spends n m -> (forall a, spends k (f a)) -> spends (n + k) (a ← m; f a).
Proof.
  intros Hm Hf s. destruct (Hm s) as (es & He & Hn). unfold mbind, M_bind. destruct (m s) as [[a|e] s1]; cbn in *.
  - destruct (Hf a s1) as (es' & He' & Hk). exists (es ++ es'). rewrite He', He, app_assoc. split; [done|].
    unfold requests in *. rewrite List.filter_app, length_app. lia.
  - exists es. split; [done|lia].
Qed.
Lemma spends_seq {A B} (m : Sm A) (f : A -> Sm B) : spends 0 m -> (forall a, spends 0 (f a)) -> spends 0 (a ← m; f a).
Proof. apply (spends_bind 0 0). Qed.
Lemma spends_get {A} n (k : Supervisor -> Sm A) : (forall s, spends n (k s)) -> spends n (s ← get_state; k s).
Proof. intros Hk s. apply Hk. Qed.
Lemma spends_modify f : (forall s, sv_trace (f s) = sv_trace s) -> spends 0 (modify f).
Proof. intros Hf s. exists []. cbn. by rewrite Hf, app_nil_r. Qed.
Lemma spends_ask {A} (f : world -> A * world) : spends 0 (ask f).
Proof. intros s. exists []. unfold ask. by destruct (f (sv_world s)). Qed.
Lemma spends_send m : (if is_request (ESend m) then 1 else 0)%nat = 0%nat -> spends 0 (send m).
Proof.
  intros Hm s. exists [ESend m]. unfold send. destruct (w_send m (sv_world s)). split; [done|].
  unfold requests. cbn in *. by destruct m.
Qed.
Lemma spends_send_request m : spends 1 (send m).
Proof.
  intros s. exists [ESend m]. unfold send. destruct (w_send m (sv_world s)). split; [done|].
  unfold requests. cbn. destruct m; cbn; lia.
Qed.
Lemma spends_receive_raw : spends 0 receive_raw.
Proof. intros s. unfold receive_raw. destruct (w_recv (sv_world s)) as [r w]. by exists [ERecv r]. Qed.
Lemma spends_kill : spends 0 kill.
Proof. intros s. by exists [EKill]. Qed.
Lemma spends_spawn : spends 0 spawn_process.
Proof.
  intros s. unfold spawn_process. destruct (w_spawn (sv_world s)) as [[] w]; [by exists [ESpawn]|by exists []].
Qed.
Lemma spends_on_error {A} (m : Sm A) c : spends 0 m -> spends 0 c -> spends 0 (on_error m c).
Proof.
  intros Hm Hc s. destruct (Hm s) as (es & He & Hn). unfold on_error. destruct (m s) as [[a|e] s1]; cbn in *; [by exists es|].
  destruct (Hc s1) as (es' & He' & Hk). exists (es ++ es'). rewrite He', He, app_assoc. split; [done|].
  unfold requests in *. rewrite List.filter_app, length_app. lia.
Qed.
End Spends.

#[export] Hint Resolve spends_ret spends_throw spends_lift spends_ask spends_receive_raw spends_kill spends_spawn : spends.

Ltac spends_steps :=
  repeat lazymatch goal with
    | |- forall _, _ => intro
    | |- spends _ (mbind _ get_state) => apply spends_get
    | |- spends 0 (mbind _ _) => apply spends_seq
    | |- spends 0 (on_error _ _) => apply spends_on_error
    | |- spends 0 (modify _) => solve [apply spends_modify; intros; reflexivity]
    | |- spends 0 (send _) => apply spends_send; repeat case_match; (reflexivity || done)
    | |- spends 0 (match ?x with _ => _ end) => destruct x
    | |- spends 0 (unexpected _ _) => apply spends_throw
    | |- spends 0 _ => solve [auto with spends nocore]
    end.

Section SpendsOps.
Context {W : Worker}.

Lemma spends_receive : spends 0 receive.
Proof. unfold receive. spends_steps. Qed.
Lemma spends_fresh_id : spends 0 fresh_id.
Proof. unfold fresh_id. spends_steps. Qed.
Lemma spends_drop_child : spends 0 drop_child.
Proof. unfold drop_child. spends_steps. Qed.
Lemma spends_kill_worker : spends 0 kill_worker.
Proof. apply spends_drop_child. Qed.
Lemma spends_worker_exited : spends 0 worker_exited.
Proof. unfold worker_exited. spends_steps. Qed.
Hint Resolve spends_receive spends_fresh_id spends_drop_child spends_kill_worker spends_worker_exited : spends.
Lemma spends_send_load : spends 0 send_load.
Proof. unfold send_load. spends_steps. Qed.
Lemma spends_send_task_load : spends 0 send_task_load.
Proof. unfold send_task_load. spends_steps. Qed.
Lemma spends_handshake : spends 0 handshake.
Proof. unfold handshake. spends_steps. Qed.
Hint Resolve spends_send_load spends_send_task_load spends_handshake : spends.
Lemma spends_ensure_worker : spends 0 ensure_worker.
Proof. unfold ensure_worker, start_watchdog. spends_steps. Qed.
Lemma spends_serve_cap id op args : spends 0 (serve_cap id op args).
Proof. unfold serve_cap. spends_steps. Qed.
Hint Resolve spends_ensure_worker spends_serve_cap : spends.
Lemma spends_serve {A} fuel (reply : Message -> Sm A) : (forall m, spends 0 (reply m)) -> spends 0 (serve fuel reply).
Proof. intros Hr. induction fuel as [|fuel IH]; cbn [serve]; spends_steps; auto. Qed.

Lemma spends_http_inner fuel request : spends 1 (http_inner fuel request).
Proof.
  assert (forall A (m : Sm A), spends 0 m -> spends 1 m) as Hw.
  { intros A m Hm s. destruct (Hm s) as (es & ? & ?). exists es. split; [done|lia]. }
  unfold http_inner, timed_out. destruct (_ <? _); [by apply Hw, spends_throw|].
  apply (spends_bind 0 1); [apply spends_ask|]. intros left. destruct (left <=? 0); [by apply Hw, spends_throw|].
  apply (spends_bind 0 1); [apply spends_ask|]. intros rest. destruct (rest <=? 0); [by apply Hw, spends_throw|].
  apply (spends_bind 0 1); [apply spends_fresh_id|]. intros id.
  apply (spends_bind 1 0); [apply spends_send_request|]. intros _. apply spends_serve. unfold http_reply. spends_steps.
Qed.

(** An HTTP request is never replayed. Whatever happens to the worker, one call
    of the supervisor sends the request to at most one worker process, once. *)
Theorem http_sent_once fuel request s :
  let '(_, s') := http_cancellable fuel request s in
  exists es, sv_trace s' = sv_trace s ++ es /\ (requests es <= 1)%nat.
Proof.
  assert (spends 1 (http_cancellable fuel request)) as H.
  { apply (spends_bind 0 1); [apply spends_ask|]. intros left. destruct (left <=? 0).
    { intros s0. exists []. unfold timed_out, throw. cbn. rewrite app_nil_r. split; [done|lia]. }
    apply (spends_bind 0 1); [apply spends_ensure_worker|]. intros _.
    apply (spends_bind 0 1); [apply spends_ask|]. intros _.
    apply (spends_bind 1 0).
    { intros s0. destruct (spends_http_inner fuel request s0) as (es & He & Hn). exists es. unfold attempt_http.
      by destruct (http_inner fuel request s0). }
    intros r. spends_steps. }
  specialize (H s). by destruct (http_cancellable fuel request s).
Qed.

End SpendsOps.

(** ** A worker that follows a script *)

Definition scripted : Worker := {|
  world := list Message;
  w_spawn w := (true, w);
  w_watchdog w := (true, w);
  w_exited w := (false, w);
  w_kill w := w;
  w_send _ w := (Ok (), w);
  w_recv w := match w with m :: w' => (Ok m, w') | [] => (Err IpcIo, []) end;
  w_arm w := w;
  w_finish w := (None, w);
  w_remaining_ns w := (1000000000, w);
  w_error_text _ := "error"%string;
  w_message_text _ := "message"%string;
  w_definitions _ := Some [];
|}.

(** It starts, asks for a secret and answers with what it was told. *)
Definition curious : list Message :=
  [WorkerReady; Started; CapCall 1 "secret.ref" [WString "TOKEN"]; CapCall 2 "secret.read" [WString "TOKEN"];
   EvalOk 1 (WString "done")].

Definition sample_spec : WorkerSpec := WorkerSpec_default.
Definition token (value : string) : gmap string string := {[ "TOKEN"%string := value ]}.

Lemma secrets_never_leave_witness :
  let '(answers, s) := @run_ops scripted [OpEval 5 "code"] (@new_supervisor scripted sample_spec (token "hunter2") curious) in
  let '(answers', s') := @run_ops scripted [OpEval 5 "code"] (@new_supervisor scripted sample_spec (token "swordfish") curious) in
  answers = answers' /\ sv_trace s = sv_trace s' /\ sv_world s = sv_world s'.
Proof.
  apply (@secrets_never_leave scripted [OpEval 5 "code"] sample_spec (token "hunter2") (token "swordfish") curious).
  unfold token. by rewrite !dom_singleton_L.
Defined.

(** The worker was sent a reference, and its second call was refused. *)
Example curious_answered :
  sv_trace (snd (@run_ops scripted [OpEval 5 "code"] (@new_supervisor scripted sample_spec (token "hunter2") curious)))
    !! 6%nat = Some (ESend (CapOk 1 (WString "secret:TOKEN"))).
Proof. vm_compute. reflexivity. Qed.
