(* ===== verification/IsolateWorker.v ===== *)
(** * The isolated worker ([crates/tysel-isolate/src/worker.rs])

    The message loop of the worker process, from the limits it applies to itself on
    [Start] to the code it evaluates. The JavaScript engine is a parameter;
    [wk_ran] records the confinement in force each time code is handed to it. *)

From Stdlib Require Import ZArith Lia Ascii String.
From stdpp Require Import base tactics list gmap strings.
From S2P Require Import Prelude Bytes Ipc Isolate IsolateThms Sandbox.
Open Scope Z_scope.

(** The engine: a pool built from a handler's source, its answers to requests, task
    modules and plain scripts. [engine_text] displays an error. *)
Class WorkerEngine := {
  pool : Type;
  pool_spawn : string -> gmap string string -> IsolateConfig -> result EngineError pool;
  pool_dispatch : pool -> HttpRequest -> Z -> result EngineError (HttpHead * string);
  inspect_task_module : string -> IsolateConfig -> result EngineError (option string);
  invoke_task_module : string -> string -> string -> string -> Z -> IsolateConfig -> result EngineError EngineValue;
  eval_source : string -> IsolateConfig -> result EngineError EngineValue;
  engine_text : EngineError -> string;
}.

Section WorkerLoop.
Context {E : WorkerEngine} {L : Libc} (arch : TargetArch) (answers : nat -> Z) (opens : string -> bool).

Record WorkerState := {
  wk_config : IsolateConfig;
  wk_handler : option pool;
  wk_task_source : option string;
  wk_secrets : gmap string string;
  wk_conf : Confinement;
  wk_ran : list Confinement;
}.

Definition unconfined : Confinement := {|
  cf_calls := 0; cf_address_space := None; cf_open_files := None; cf_no_new_privs := false;
  cf_ruleset := None; cf_domain := None; cf_filter := None
|}.
Definition fresh_worker : WorkerState := {|
  wk_config := IsolateConfig_default; wk_handler := None; wk_task_source := None; wk_secrets := ∅;
  wk_conf := unconfined; wk_ran := []
|}.

(** What one message leads to: a reply and the next state, or the end of the process. *)
Inductive Outcome :=
| Reply (m : Message) (w : WorkerState)
| Silent (w : WorkerState)
| Exit (r : result string ()) (w : WorkerState).

(** Hand code to the engine. *)
Definition evaluates (w : WorkerState) : WorkerState := {|
  wk_config := wk_config w; wk_handler := wk_handler w; wk_task_source := wk_task_source w;
  wk_secrets := wk_secrets w; wk_conf := wk_conf w; wk_ran := wk_ran w ++ [wk_conf w]
|}.

(** [configure_isolated_capabilities]: the names of secrets, without their values. *)
Definition configure_isolated_capabilities (secret_names : list string) (w : WorkerState) : WorkerState := {|
  wk_config := wk_config w; wk_handler := wk_handler w; wk_task_source := wk_task_source w;
  wk_secrets := list_to_map (map (fun n => (n, EmptyString)) secret_names);
  wk_conf := wk_conf w; wk_ran := wk_ran w
|}.

Definition set_handler_pool (p : pool) (w : WorkerState) : WorkerState := {|
  wk_config := wk_config w; wk_handler := Some p; wk_task_source := wk_task_source w;
  wk_secrets := wk_secrets w; wk_conf := wk_conf w; wk_ran := wk_ran w
|}.
Definition set_task_source (source : string) (w : WorkerState) : WorkerState := {|
  wk_config := wk_config w; wk_handler := wk_handler w; wk_task_source := Some source;
  wk_secrets := wk_secrets w; wk_conf := wk_conf w; wk_ran := wk_ran w
|}.
Definition set_confined (config : IsolateConfig) (c : Confinement) (w : WorkerState) : WorkerState := {|
  wk_config := config; wk_handler := wk_handler w; wk_task_source := wk_task_source w;
  wk_secrets := wk_secrets w; wk_conf := c; wk_ran := wk_ran w
|}.

Definition task_error_kind (e : EngineError) : TaskErrorKind :=
  match e with
  | EeInterrupted IrTimeout => TkTimedOut
  | EeInterrupted IrCancelled => TkCanceled
  | EeSuspended => TkSuspended
  | _ => TkFailed
  end.
Definition task_engine_error_reply (id : Z) (e : EngineError) : Message :=
  TaskErr id (engine_text e) (task_error_kind e).

Definition is_timeout (e : EngineError) : bool :=
  match e with EeInterrupted IrTimeout => true | _ => false end.

Definition worker_step (w : WorkerState) (m : Message) : Outcome :=
  match m with
  | Start memory cpu timeout rlimit_as_bytes _ _ =>
      let config := {| ic_memory_limit_bytes := memory; ic_cpu_ms_per_turn := cpu; ic_request_timeout_ms := timeout |} in
      match apply_sandbox arch answers opens rlimit_as_bytes (wk_conf w) with
      | (Ok _, c) => Reply Started (set_confined config c w)
      | (Err (LimitFailed op), c) => Exit (Err op) (set_confined config c w)
      end
  | Load_ source secret_names =>
      let w := evaluates (configure_isolated_capabilities secret_names w) in
      match pool_spawn source (wk_secrets w) (wk_config w) with
      | Ok p => Reply Loaded (set_handler_pool p w)
      | Err e => Reply (LoadErr (engine_text e)) w
      end
  | Http id method url headers body request_id timeout_ms =>
      match wk_handler w with
      | None => Reply (HttpErr id "handler not loaded" false) w
      | Some p =>
          let limit := ic_request_timeout_ms (wk_config w) in
          let request := {| hr_method := method; hr_url := url; hr_headers := headers; hr_body := body;
                            hr_request_id := request_id |} in
          match pool_dispatch p request (Z.min (default limit timeout_ms) limit) with
          | Ok (head, bytes) =>
              Reply (HttpOk id (hh_status head) (hh_headers head) (from_utf8_lossy bytes) (hh_websocket head)) (evaluates w)
          | Err e => Reply (HttpErr id (engine_text e) (is_timeout e)) (evaluates w)
          end
      end
  | TaskLoad id source secret_names =>
      let w := evaluates (configure_isolated_capabilities secret_names w) in
      match inspect_task_module source (wk_config w) with
      | Ok (Some definitions_json) => Reply (TaskLoaded id definitions_json) (set_task_source source w)
      | Ok None => Reply (TaskErr id "json" TkFailed) w
      | Err e => Reply (task_engine_error_reply id e) w
      end
  | TaskInvoke id task_name input_json request_id deadline_ms =>
      match wk_task_source w with
      | None => Reply (TaskErr id "task module not loaded" TkFailed) w
      | Some source =>
          match invoke_task_module source task_name input_json request_id deadline_ms (wk_config w) with
          | Ok value => Reply (TaskOk id (to_wire value)) (evaluates w)
          | Err e => Reply (task_engine_error_reply id e) (evaluates w)
          end
      end
  | Eval_ id source =>
      match eval_source source (wk_config w) with
      | Ok value => Reply (EvalOk id (to_wire value)) (evaluates w)
      | Err e => Reply (EvalErr id (engine_text e)) (evaluates w)
      end
  | Overalloc => Reply (EvalErr 0 "overalloc survived") w
  | Shutdown => Exit (Ok ()) w
  | CapOk _ _ | CapErr _ _ => Silent w
  | _ => Exit (Err "unexpected supervisor message"%string) w
  end.

(** The loop: messages until the process ends. *)
Fixpoint worker_run (w : WorkerState) (ms : list Message) : WorkerState :=
  match ms with
  | [] => w
  | m :: ms' =>
      match worker_step w m with
      | Reply _ w' | Silent w' => worker_run w' ms'
      | Exit _ w' => w'
      end
  end.

(** ** Code runs confined *)

Lemma worker_step_confined w m w' :
  is_start m = false -> (exists r, worker_step w m = Reply r w') \/ worker_step w m = Silent w'
                        \/ (exists r, worker_step w m = Exit r w') ->
  wk_conf w' = wk_conf w /\ (wk_ran w' = wk_ran w \/ wk_ran w' = wk_ran w ++ [wk_conf w]).
Proof.
  intros Hm Hs. destruct m; cbn in Hm, Hs; try done; repeat case_match; naive_solver.
Qed.

Lemma worker_run_confined w ms c :
  wk_conf w = c -> Forall (fun m => is_start m = false) ms -> Forall (fun c' => c' = c) (wk_ran w) ->
  Forall (fun c' => c' = c) (wk_ran (worker_run w ms)).
Proof.
  intros Hc Hall. revert w Hc. induction Hall as [|m ms Hm _ IH]; intros w Hc Hr; cbn; [done|].
  assert (forall w', wk_conf w' = wk_conf w /\ (wk_ran w' = wk_ran w \/ wk_ran w' = wk_ran w ++ [wk_conf w]) ->
          wk_conf w' = c /\ Forall (fun c' => c' = c) (wk_ran w')) as Hk.
  { intros w' [-> [-> | ->]]; (split; [done|]); [done|]. apply list.Forall_app. split; [done|]. by constructor. }
  destruct (worker_step w m) as [r w'|w'|r w'] eqn:Es;
    (destruct (Hk w') as [Hc' Hr']; [eapply worker_step_confined; [done|]; rewrite Es; eauto|]); [by apply IH|by apply IH|done].
Qed.

(** Started on its limits and sent no further [Start], a worker runs code only in the
    confinement those limits describe. *)
Lemma started_worker_confined memory cpu timeout bytes app logs ms :
  Forall (fun m => is_start m = false) ms ->
  Forall (confined arch bytes) (wk_ran (worker_run fresh_worker (Start memory cpu timeout bytes app logs :: ms))).
Proof.
  intros Hms. cbn. destruct (apply_sandbox _ _ _ _ _) as [[[]|[op]] c] eqn:Ea; [|constructor].
  apply apply_sandbox_confined in Ea.
  eapply list.Forall_impl; [eapply worker_run_confined; [reflexivity|done|constructor]|]. by intros c' ->.
Qed.

End WorkerLoop.

(** ** Supervisor and worker together *)

(** The messages sent to the current worker. *)
Definition sent_step (ms : list Message) (e : Event) : list Message :=
  match e with ESpawn => [] | ESend m => ms ++ [m] | EKill | ERecv _ => ms end.
Definition sent (t : list Event) : list Message := foldl sent_step [] t.

Definition starts_once (ms : list Message) : Prop :=
  ms = [] \/ exists m rest, ms = m :: rest /\ is_start m = true /\ Forall (fun m => is_start m = false) rest.

Lemma phase_app t es p : phase (t ++ es) = Some p -> is_Some (phase t).
Proof.
  unfold phase. rewrite foldl_app. destruct (foldl _ (Some PIdle) t) as [q|]; [by eexists|].
  intros H. exfalso. induction es as [|e es IH]; [done|by apply IH].
Qed.

Lemma sent_starts_once t p :
  phase t = Some p ->
  starts_once (sent t) /\ (match p with PSpawned | PReady => sent t = [] | PRunning | PStarting => sent t <> [] | _ => True end).
Proof.
  revert p. induction t as [|e t IH] using rev_ind; intros p; [by intros [= <-]; split; [left|]|].
  rewrite phase_snoc. destruct (phase t) as [q|]; [|done]. cbn. intros Hp.
  destruct (IH q eq_refl) as [Hs Hq]. unfold sent in *. rewrite foldl_app. cbn.
  destruct e as [| |m|r]; cbn in Hp |- *.
  - destruct q; simplify_eq. by split; [left|].
  - destruct q; simplify_eq; done.
  - destruct q; try done; destruct (is_start m) eqn:Em; simplify_eq.
    + rewrite Hq. split; [|done]. right. by exists m, [].
    + destruct Hs as [Hs|(m0 & rest & -> & Hm0 & Hall)]; [done|]. split; [|by destruct rest].
      right. exists m0, (rest ++ [m]). split; [done|]. split; [done|]. apply list.Forall_app. split; [done|by constructor].
  - destruct q; try done; destruct r as [[]|]; simplify_eq; done.
Qed.

(** C1. Isolated code runs only in the sandbox. At every moment of every history of
    the supervisor, the messages its current worker was sent make that worker hand
    code to the engine only with its address space and files limited, in a
    Landlock domain that leaves nothing but the random devices readable, and under
    the seccomp filter, whatever the kernel answered and whatever other workers
    did. *)
Theorem isolated_code_is_confined `{W : Worker, E : WorkerEngine, L : Libc} arch answers opens ops spec secrets w t :
  t `prefix_of` sv_trace (snd (run_ops ops (new_supervisor spec secrets w))) ->
  Forall (fun c => exists bytes, confined arch bytes c)
    (wk_ran (worker_run arch answers opens fresh_worker (sent t))).
Proof.
  intros [es Ht]. assert (orderly (snd (run_ops ops (new_supervisor spec secrets w)))) as Ho.
  { apply orderly_run_ops. by left. }
  assert (exists p, phase (t ++ es) = Some p) as [p Hp] by (rewrite <- Ht; destruct Ho as [[Hp _]|[Hp _]]; by eexists).
  apply phase_app in Hp as [q Hq]. apply sent_starts_once in Hq as [[-> |(m & rest & -> & Hm & Hall)] _]; [constructor|].
  destruct m; try done.
  eapply list.Forall_impl; [by apply started_worker_confined|]. intros c Hc. by eexists.
Qed.

(** ** A run in the sandbox *)

Definition sample_engine : WorkerEngine := {|
  pool := string;
  pool_spawn source _ _ := Ok source;
  pool_dispatch _ _ _ := Ok ({| hh_status := 200; hh_headers := []; hh_websocket := false |}, "ok"%string);
  inspect_task_module _ _ := Ok (Some "[]"%string);
  invoke_task_module _ _ _ _ _ _ := Ok VNull;
  eval_source source _ := Ok (VString source);
  engine_text _ := "error"%string;
|}.

(** A kernel with Landlock version 6. *)
Definition sample_answers (n : nat) : Z := if (n =? 2)%nat then 6 else 0.

#[local] Abbreviation sample_history :=
  (snd (@run_ops scripted [OpEval 5 "code"] (@new_supervisor scripted sample_spec (token "hunter2") curious))).

Lemma isolated_code_is_confined_witness :
  let w := @worker_run sample_engine linux_x86_64 X86_64 sample_answers (fun _ => true) fresh_worker
             (sent (sv_trace sample_history)) in
  Forall (fun c => exists bytes, @confined linux_x86_64 X86_64 bytes c) (wk_ran w) /\ length (wk_ran w) = 1%nat.
Proof.
  split; [|vm_compute; reflexivity].
  apply (@isolated_code_is_confined scripted sample_engine linux_x86_64 X86_64 sample_answers (fun _ => true)
           [OpEval 5 "code"] sample_spec (token "hunter2") curious).
  exists []. symmetry. exact (app_nil_r (sv_trace sample_history)).
Defined.
