(* ===== verification/DurableDispatch.v ===== *)
(** * The durable dispatcher ([crates/tysel-runtime/src/durable.rs])

    Claiming due tasks, evaluating them in a durable session and persisting their
    results. A result the store could not take is retained and retried; a slot
    bounds retained results and running executions together. Any store call may
    fail with a driver error ([env_fault]); the engine is a parameter. *)

From Stdlib Require Import ZArith Lia Ascii String.
From stdpp Require Import base tactics list gmap strings.
From S2P Require Import Prelude Bytes TaskModel DurableTypes DurableDb DurableStore DurableWakeups DurableExec DurableSession Ipc.
Open Scope Z_scope.

Definition MAX_OWNER_BYTES : Z := 128.
Definition MAX_FINALIZATIONS : Z := 32.

(** ** JSON values of results *)

(** [serde_json::Value] as a tree; [JNum] is its number type. *)
Unset Elimination Schemes.
Inductive JsonTree (JNum : Type) :=
| JNull
| JBool (b : bool)
| JNumber (n : JNum)
| JString (s : string)
| JArray (l : list (JsonTree JNum))
| JObject (l : list (string * JsonTree JNum)).
Set Elimination Schemes.
Arguments JNull {JNum}.
Arguments JBool {JNum} b.
Arguments JNumber {JNum} n.
Arguments JString {JNum} s.
Arguments JArray {JNum} l.
Arguments JObject {JNum} l.

(** The tree of a value and back, and numbers from and to [f64] patterns:
    [Number::from_f64] has no number for infinities and NaN. *)
Class SerdeTree (SJ : SerdeJson) := {
  JNum : Type;
  json_tree : Value -> JsonTree JNum;
  json_of_tree : JsonTree JNum -> Value;
  number_from_f64 : Z -> option JNum;
  number_from_u8 : Z -> JNum;
  number_as_f64 : JNum -> option Z;
}.

Section Json.
Context {SJ : SerdeJson} {ST : SerdeTree SJ}.

Fixpoint value_to_tree (v : EngineValue) : JsonTree JNum :=
  match v with
  | VNull => JNull
  | VBool b => JBool b
  | VNumber bits => match number_from_f64 bits with Some n => JNumber n | None => JNull end
  | VString s => JString s
  | VBytes b => JArray (map (fun x => JNumber (number_from_u8 x)) b)
  | VArray l => JArray (map value_to_tree l)
  | VRecord l => JObject (map (fun p => (fst p, value_to_tree (snd p))) l)
  end.

Fixpoint value_from_tree (t : JsonTree JNum) : EngineValue :=
  match t with
  | JNull => VNull
  | JBool b => VBool b
  | JNumber n => VNumber (default 0 (number_as_f64 n))
  | JString s => VString s
  | JArray l => VArray (map value_from_tree l)
  | JObject l => VRecord (map (fun p => (fst p, value_from_tree (snd p))) l)
  end.

Definition value_to_json (v : EngineValue) : Value := json_of_tree (value_to_tree v).
Definition value_from_json (v : Value) : EngineValue := value_from_tree (json_tree v).

End Json.

(** [f64::is_finite]: the exponent bits are not all ones. *)
Definition f64_is_finite (bits : Z) : bool := negb (Z.land (Z.shiftr bits 52) 2047 =? 2047).

(** ** Outcomes *)

Inductive RunStatus := RsCompleted (v : EngineValue) | RsSuspended.

Inductive RunError :=
| ReTaskFailed
| ReBoundary (e : DurableError)
| ReFinalizationCapacity
| ReFinalizationPending
| ReSession (e : SessionError)
| ReEngine (e : EngineError)
| ReStore (e : DurableError)
| ReProgramNotFound
| ReLeaseLost.

(** [DurableRunError::boundary] *)
Definition boundary (e : DurableError) : RunError :=
  match e with
  | ExecutionLeaseLost => ReLeaseLost
  | EventKeyTooLarge | EventPayloadTooLarge | HistoryEventLimit | HistoryByteLimit | InvalidSignalName
  | SignalWaitConflict | SignalInboxLimit | InvalidEventKind _ | IntegerRange _ | DurableJson => ReBoundary e
  | _ => ReStore e
  end.

Record DurableRun := { run_task_id : TaskId; run_result : result RunError RunStatus }.

Inductive DispatchError :=
| DeInvalidOwner
| DeLeaseTooShort (lease_duration_ms request_timeout_ms : Z)
| DeStore (e : DurableError)
| DeSystemClock
| DeTimeRange
| DePanic (message : string).

(** ** The dispatcher *)

(** What the [n]-th store call meets: the system clock in milliseconds from the Unix
    epoch, the clock its transaction reads, entropy, and a driver error, with whether
    the call had taken effect before it (a connection lost after the commit). *)
Class DispatchEnv := {
  env_now : nat -> Z;
  env_clock : nat -> nat -> Z;
  env_entropy : nat -> string;
  env_fault : nat -> option (DriverError * bool);
}.

(** [unix_time_ms] *)
Definition unix_time_ms (millis : Z) : result DispatchError Z :=
  if millis <? 0 then Err DeSystemClock
  else if u64_max <? millis then Err DeTimeRange
  else Ok millis.

(** [eval_durable] and [eval_durable_module]: user code acts on its session and the
    store in ways nothing is assumed of. *)
Class DurableEngine {SJ : SerdeJson} := {
  eval_durable : string -> IsolateConfig -> Host -> result EngineError EngineValue * Host;
  eval_durable_module : string -> string -> IsolateConfig -> Host -> result EngineError EngineValue * Host;
}.

Section Dispatch.
Context {SJ : SerdeJson} {ST : SerdeTree SJ} {SH : Sha256} {ENV : DispatchEnv} {ENG : DurableEngine}.

Record DispatchConfig := { dd_owner : string; dd_lease_duration_ms : Z; dd_isolate : IsolateConfig }.

(** [DurableDispatcher::new] *)
Definition dispatcher_new (owner : string) (lease_duration_ms : Z) (isolate : IsolateConfig)
    : result DispatchError DispatchConfig :=
  if str_is_empty owner || (MAX_OWNER_BYTES <? len owner) then Err DeInvalidOwner
  else if lease_duration_ms <=? Z.max (ic_request_timeout_ms isolate) 1 then
    Err (DeLeaseTooShort lease_duration_ms (ic_request_timeout_ms isolate))
  else Ok {| dd_owner := owner; dd_lease_duration_ms := lease_duration_ms; dd_isolate := isolate |}.

(** A retained result: its completion authority and JSON text; it holds a slot. *)
Record PendingCompletion := { pc_completion : DurableCompletion; pc_json : string }.

Record Disp := {
  dd_db : Db;
  dd_pending : gmap TaskId PendingCompletion;
  dd_slots : Z;
  dd_calls : nat;
}.

Definition set_db (d : Db) (s : Disp) : Disp :=
  {| dd_db := d; dd_pending := dd_pending s; dd_slots := dd_slots s; dd_calls := S (dd_calls s) |}.
Definition set_slots (n : Z) (s : Disp) : Disp :=
  {| dd_db := dd_db s; dd_pending := dd_pending s; dd_slots := n; dd_calls := dd_calls s |}.
Definition set_pending (p : gmap TaskId PendingCompletion) (s : Disp) : Disp :=
  {| dd_db := dd_db s; dd_pending := p; dd_slots := dd_slots s; dd_calls := dd_calls s |}.

(** A store call, which the driver may fail before or after it takes effect. *)
Definition store_call {A} (f : nat -> Db -> result DurableError A * Db) : M Disp DurableError A := fun s =>
  let '(r, d) := f (dd_calls s) (dd_db s) in
  match env_fault (dd_calls s) with
  | Some (e, applied) => (Err (DriverFailed e), set_db (if applied : bool then d else dd_db s) s)
  | None => (r, set_db d s)
  end.
Definition store_read {A} (f : Db -> result DurableError A) : M Disp DurableError A :=
  store_call (fun _ d => (f d, d)).

(** Opening a session only reads the store. *)
Definition session_call (f : nat -> Db -> result SessionError Session) : M Disp SessionError Session := fun s =>
  match env_fault (dd_calls s) with
  | Some (e, _) => (Err (SeStorage (DriverFailed e)), set_db (dd_db s) s)
  | None => (f (dd_calls s) (dd_db s), set_db (dd_db s) s)
  end.

(** [DurableDispatcher::reserve] and [CompletionSlot::drop] *)
Definition reserve : M Disp RunError () := fun s =>
  if dd_slots s <? MAX_FINALIZATIONS then (Ok (), set_slots (dd_slots s + 1) s)
  else (Err ReFinalizationCapacity, s).
Definition release (s : Disp) : Disp := set_slots (dd_slots s - 1) s.

(** Retain a result; an entry it replaces gives its slot back. *)
Definition retain (id : TaskId) (p : PendingCompletion) (s : Disp) : Disp :=
  let s' := match dd_pending s !! id with Some _ => release s | None => s end in
  set_pending (<[id := p]> (dd_pending s')) s'.

(** [DurableDispatcher::finish]; the slot moves into the retained result or is dropped. *)
Definition finish (session : Session) (value : EngineValue) : M Disp RunError RunStatus := fun s =>
  let '(taken, session) := take_result session in
  let json := default (value_to_json value) taken in
  match completion_handle session with
  | Err e => (Err (ReStore e), release s)
  | Ok completion =>
      match store_call (fun n => completion_complete (env_clock n) (env_now n) completion json) s with
      | (Ok _, s1) => (Ok (RsCompleted value), release s1)
      | (Err e, s1) =>
          if negb (is_retryable e) then (Err (boundary e), release s1)
          else
            match json_to_string json with
            | None => (Err (ReSession (SeStorage DurableJson)), release s1)
            | Some text => (Err (ReStore e), retain (dc_task_id completion) {| pc_completion := completion; pc_json := text |} s1)
            end
      end
  end.

Definition has_pending_completions (s : Disp) : bool := negb (bool_decide (dd_pending s = ∅)).

(** The loop of [retry_completions] over the ids of the retained results. *)
Fixpoint retry_loop (ids : list TaskId) (runs : list DurableRun) (s : Disp)
    : (list DurableRun * option DispatchError) * Disp :=
  match ids with
  | [] => ((runs, None), s)
  | id :: ids' =>
      match dd_pending s !! id with
      | None => ((runs, Some (DePanic "no entry found for key")), s)
      | Some entry =>
          match json_from_str (pc_json entry) with
          | None => ((runs, Some (DePanic "validated completion JSON")), s)
          | Some json =>
              let forget s := release (set_pending (delete id (dd_pending s)) s) in
              match store_call (fun n => completion_complete (env_clock n) (env_now n) (pc_completion entry) json) s with
              | (Ok _, s1) =>
                  retry_loop ids' (runs ++ [{| run_task_id := id; run_result := Ok (RsCompleted (value_from_json json)) |}])
                    (forget s1)
              | (Err ExecutionLeaseLost, s1) => retry_loop ids' runs (forget s1)
              | (Err e, s1) => ((runs, Some (DeStore e)), s1)
              end
          end
      end
  end.
Definition retry_completions (s : Disp) : (list DurableRun * option DispatchError) * Disp :=
  retry_loop (map fst (map_to_list (dd_pending s))) [] s.

(** User code runs against the session and the store. *)
Definition run_engine (ev : Host -> result EngineError EngineValue * Host) (session : Session) (s : Disp)
    : result EngineError EngineValue * Session * Disp :=
  let '(r, h) := ev {| host_session := session; host_db := dd_db s |} in
  (r, host_session h, set_db (host_db h) s).

(** The tail of [evaluate], [evaluate_module] and [execute_managed]: the slot is the
    caller's; [check] is the test [evaluate] makes of the value. *)
Definition conclude (check : EngineValue -> bool) (r : result EngineError EngineValue) (session : Session)
    : M Disp RunError RunStatus := fun s =>
  match take_storage_error session with
  | (Some e, _) => (Err (boundary e), release s)
  | (None, session) =>
      match r with
      | Ok v =>
          if check v then finish session v s
          else (Err (ReEngine (EeIsolate "durable result must be finite JSON")), release s)
      | Err EeSuspended => (Ok RsSuspended, release s)
      | Err e => (Err (ReEngine e), release s)
      end
  end.

Definition finite_result (v : EngineValue) : bool :=
  match v with VNumber bits => f64_is_finite bits | _ => true end.

Section Operations.
Context (cfg : DispatchConfig).

(** [DurableDispatcher::evaluate] *)
Definition evaluate (script : string) (session : Session) : M Disp RunError RunStatus := fun s =>
  match reserve s with
  | (Err e, s) => (Err e, s)
  | (Ok _, s) =>
      let '(r, session, s) := run_engine (eval_durable script (dd_isolate cfg)) session s in
      conclude finite_result r session s
  end.

(** [DurableDispatcher::evaluate_module] *)
Definition evaluate_module (source input_json : string) (session : Session) : M Disp RunError RunStatus := fun s =>
  let '(r, session, s) := run_engine (eval_durable_module source input_json (dd_isolate cfg)) session s in
  conclude (fun _ => true) r session s.

Definition is_pending (id : TaskId) (s : Disp) : bool := bool_decide (is_Some (dd_pending s !! id)).

(** [DurableDispatcher::start] *)
Definition start (id : TaskId) (script : string) (s : Disp) : DurableRun * Disp :=
  let run r := {| run_task_id := id; run_result := r |} in
  if is_pending id s then (run (Err ReFinalizationPending), s)
  else
    match store_read (completion id) s with
    | (Ok (Some c), s) => (run (Ok (RsCompleted (value_from_json (cp_value c)))), s)
    | (Err e, s) => (run (Err (ReStore e)), s)
    | (Ok None, s) =>
        match session_call (fun _ => session_new id) s with
        | (Err e, s) => (run (Err (ReSession e)), s)
        | (Ok session, s) => let '(r, s) := evaluate script session s in (run r, s)
        end
    end.

(** [DurableDispatcher::start_module_reserved] *)
Definition start_module_reserved (id : TaskId) (source input_json : string) (s : Disp) : DurableRun * Disp :=
  let run r := {| run_task_id := id; run_result := r |} in
  if is_pending id s then (run (Err ReFinalizationPending), release s)
  else
    match store_read (completion id) s with
    | (Ok (Some c), s) => (run (Ok (RsCompleted (value_from_json (cp_value c)))), release s)
    | (Err e, s) => (run (Err (ReStore e)), release s)
    | (Ok None, s) =>
        match session_call (fun _ => session_new id) s with
        | (Err e, s) => (run (Err (ReSession e)), release s)
        | (Ok session, s) => let '(r, s) := evaluate_module source input_json session s in (run r, s)
        end
    end.

(** [DurableDispatcher::start_module] *)
Definition start_module (id : TaskId) (source input_json : string) (s : Disp) : DurableRun * Disp :=
  match reserve s with
  | (Err e, s) => ({| run_task_id := id; run_result := Err e |}, s)
  | (Ok _, s) => start_module_reserved id source input_json s
  end.

(** [DurableDispatcher::execute_managed] *)
Definition execute_managed (claim : ExecutionClaim) (source : string) (module : bool) (s : Disp)
    : DurableRun * Disp :=
  let '(r, s) :=
    match session_call (fun n => from_execution (env_now n) claim) s with
    | (Err e, s) => (Err (ReSession e), release s)
    | (Ok session, s) =>
        if module then evaluate_module source "null" session s
        else
          let '(r, session, s) := run_engine (eval_durable source (dd_isolate cfg)) session s in
          conclude (fun _ => true) r session s
    end in
  let '(transition, s) :=
    match r with
    | Ok RsSuspended => store_call (fun n => release_run (env_clock n) claim false) s
    | Err (ReStore _) | Err (ReSession _) | Err ReLeaseLost => (Ok (), s)
    | Err _ => store_call (fun n => release_run (env_clock n) claim true) s
    | Ok (RsCompleted _) => (Ok (), s)
    end in
  ({| run_task_id := xc_task_id claim;
      run_result := match transition with Ok _ => r | Err e => Err (boundary e) end |}, s).

Definition claim_execution (id : TaskId) : M Disp DurableError (option ExecutionClaim) :=
  store_call (fun n => claim_run (env_clock n) (env_entropy n) id (dd_owner cfg) (dd_lease_duration_ms cfg)).

(** [DurableDispatcher::start_admitted]; the slot is the caller's. *)
Definition start_admitted (id : TaskId) (source : string) : M Disp DispatchError (option DurableRun) := fun s =>
  match store_read (completion id) s with
  | (Err e, s) => (Err (DeStore e), release s)
  | (Ok (Some c), s) =>
      (Ok (Some {| run_task_id := id; run_result := Ok (RsCompleted (value_from_json (cp_value c))) |}), release s)
  | (Ok None, s) =>
      match claim_execution id s with
      | (Err e, s) => (Err (DeStore e), release s)
      | (Ok (Some claim), s) => let '(r, s) := execute_managed claim source true s in (Ok (Some r), s)
      | (Ok None, s) =>
          match store_read (fun d => Ok (execution_failed id d)) s with
          | (Err e, s) => (Err (DeStore e), release s)
          | (Ok true, s) => (Ok (Some {| run_task_id := id; run_result := Err ReTaskFailed |}), release s)
          | (Ok false, s) => (Ok None, release s)
          end
      end
  end.

(** [DurableDispatcher::execute_claim] *)
Definition execute_claim (claim : WakeupClaim) (script : string) (s : Disp) : DurableRun * Disp :=
  let run r := {| run_task_id := wc_task_id claim; run_result := r |} in
  match session_call (fun n => from_claim None (env_now n) claim) s with
  | (Err e, s) => (run (Err (ReSession e)), s)
  | (Ok session, s) => let '(r, s) := evaluate script session s in (run r, s)
  end.

(** Reserve, claim and execute: the tail of [dispatch_task] and the body of
    [dispatch_module_task]. *)
Definition dispatch_managed (id : TaskId) (source : string) (module : bool)
    : M Disp DispatchError (option DurableRun) := fun s =>
  match reserve s with
  | (Err _, s) => (Ok None, s)
  | (Ok _, s) =>
      match claim_execution id s with
      | (Err e, s) => (Err (DeStore e), release s)
      | (Ok None, s) => (Ok None, release s)
      | (Ok (Some claim), s) => let '(r, s) := execute_managed claim source module s in (Ok (Some r), s)
      end
  end.

(** [DurableDispatcher::dispatch_task] *)
Definition dispatch_task (id : TaskId) (script : string) : M Disp DispatchError (option DurableRun) := fun s =>
  match store_read (program id) s with
  | (Err e, s) => (Err (DeStore e), s)
  | (Ok (Some _), s) => dispatch_managed id script false s
  | (Ok None, s) =>
      match unix_time_ms (env_now (dd_calls s)) with
      | Err e => (Err e, s)
      | Ok now =>
          match store_call (fun _ => claim_wakeup id now (dd_owner cfg) (dd_lease_duration_ms cfg)) s with
          | (Err e, s) => (Err (DeStore e), s)
          | (Ok None, s) => (Ok None, s)
          | (Ok (Some claim), s) => let '(r, s) := execute_claim claim script s in (Ok (Some r), s)
          end
      end
  end.

(** [DurableDispatcher::dispatch_module_task] *)
Definition dispatch_module_task (id : TaskId) (source : string) : M Disp DispatchError (option DurableRun) :=
  dispatch_managed id source true.

(** The loop of [dispatch_due] over the claims. *)
Fixpoint dispatch_claims (resolve : TaskId -> option string) (claims : list WakeupClaim) (runs : list DurableRun)
    (s : Disp) : result DispatchError (list DurableRun) * Disp :=
  match claims with
  | [] => (Ok runs, s)
  | claim :: claims' =>
      let run r := {| run_task_id := wc_task_id claim; run_result := r |} in
      match resolve (wc_task_id claim) with
      | None =>
          match store_call (fun _ => release_wakeup_claim claim) s with
          | (Err e, s) => (Err (DeStore e), s)
          | (Ok released, s) =>
              dispatch_claims resolve claims'
                (runs ++ [run (Err (if released : bool then ReProgramNotFound else ReLeaseLost))]) s
          end
      | Some script =>
          match unix_time_ms (env_now (dd_calls s)) with
          | Err e => (Err e, s)
          | Ok now =>
              match store_call (fun _ => renew_wakeup_claim claim now (dd_lease_duration_ms cfg)) s with
              | (Err e, s) => (Err (DeStore e), s)
              | (Ok None, s) => dispatch_claims resolve claims' (runs ++ [run (Err ReLeaseLost)]) s
              | (Ok (Some claim), s) =>
                  let '(r, s) := execute_claim claim script s in
                  dispatch_claims resolve claims' (runs ++ [r]) s
              end
          end
      end
  end.

(** [DurableDispatcher::dispatch_due] *)
Definition dispatch_due (limit : Z) (resolve : TaskId -> option string)
    : M Disp DispatchError (list DurableRun) := fun s =>
  if limit =? 0 then (Ok [], s)
  else
    match unix_time_ms (env_now (dd_calls s)) with
    | Err e => (Err e, s)
    | Ok now =>
        match store_call (fun _ => claim_due_wakeups now limit (dd_owner cfg) (dd_lease_duration_ms cfg)) s with
        | (Err e, s) => (Err (DeStore e), s)
        | (Ok claims, s) => dispatch_claims resolve claims [] s
        end
    end.

End Operations.

End Dispatch.
