(* ===== verification/DurableDispatchThms.v ===== *)
(** * Slots and retained results of the durable dispatcher

    Every operation of [DurableDispatch] gives back the slot it reserves or leaves it
    with a retained result, and a retained result is forgotten only once it is stored
    or its lease is lost. *)

From Stdlib Require Import ZArith Lia Ascii String.
From stdpp Require Import base tactics list gmap strings.
From S2P Require Import Prelude Bytes TaskModel DurableTypes DurableDb DurableStore DurableWakeups DurableExec DurableLogic DurableSpec DurableRefine DurableSignals DurableSession Ipc DurableDispatch.
Open Scope Z_scope.

Create HintDb slots discriminated.

Section Slots.
Context {SJ : SerdeJson} {ST : SerdeTree SJ} {SH : Sha256} {ENV : DispatchEnv} {ENG : DurableEngine}.

(** A retained result is filed under its task. *)
Definition entry_ok (id : TaskId) (p : PendingCompletion) : Prop :=
  dc_task_id (pc_completion p) = id.

(** Every slot is a retained result or one of [n] in-flight executions. *)
Definition holding (n : Z) (s : Disp) : Prop :=
  (dd_slots s = Z.of_nat (size (dd_pending s)) + n /\ dd_slots s <= MAX_FINALIZATIONS)
  /\ map_Forall entry_ok (dd_pending s).

Lemma holding_release n s : holding (n + 1) s -> holding n (release s).
Proof. unfold holding; cbn; intros [? ?]; split; [lia|done]. Qed.

Lemma holding_reserve n s r s' :
  reserve s = (r, s') -> holding n s ->
  match r with Ok _ => holding (n + 1) s' | Err _ => holding n s' end.
Proof.
  unfold reserve, holding; intros E [[Hn Hb] Hp].
  destruct (dd_slots s <? MAX_FINALIZATIONS) eqn:?; injection E as <- <-; cbn; (split; [lia|done]).
Qed.

Lemma holding_retain n id p s :
  entry_ok id p -> holding (n + 1) s -> holding n (retain id p s).
Proof.
  unfold holding, retain; intros Hok [[Hn Hb] Hp].
  destruct (dd_pending s !! id) eqn:E; cbn; (split; [|by apply map_Forall_insert_2]).
  - rewrite map_size_insert_Some by (rewrite E; eauto). lia.
  - rewrite map_size_insert_None by done. lia.
Qed.

Lemma holding_store_call {A} n (f : nat -> Db -> result DurableError A * Db) s r s' :
  store_call f s = (r, s') -> holding n s -> holding n s'.
Proof.
  unfold store_call. destruct (f _ _) as [r0 d0], (env_fault _) as [[e []]|];
    intros [= <- <-]; done.
Qed.

Lemma holding_session_call n f s r s' :
  session_call f s = (r, s') -> holding n s -> holding n s'.
Proof. unfold session_call. destruct (env_fault _) as [[e b]|]; intros [= <- <-]; done. Qed.

Lemma holding_run_engine n ev session s r session' s' :
  run_engine ev session s = (r, session', s') -> holding n s -> holding n s'.
Proof. unfold run_engine. destruct (ev _). intros [= <- <- <-]; done. Qed.

(** [finish] and [conclude] consume the slot. *)
Lemma holding_finish n session v s r s' :
  finish session v s = (r, s') -> holding (n + 1) s -> holding n s'.
Proof.
  unfold finish. destruct (take_result session) as [taken ss], (completion_handle ss) as [c|e].
  2: { intros [= <- <-]; apply holding_release. }
  destruct (store_call _ s) as [[b|e] s1] eqn:Ec; intros E H;
    pose proof (holding_store_call _ _ _ _ _ Ec H) as H1.
  - injection E as <- <-. by apply holding_release.
  - destruct (negb _); [injection E as <- <-; by apply holding_release|].
    destruct (json_to_string _) as [text|] eqn:Ej; injection E as <- <-; [|by apply holding_release].
    by apply holding_retain.
Qed.

Lemma holding_conclude n check r0 session s r s' :
  conclude check r0 session s = (r, s') -> holding (n + 1) s -> holding n s'.
Proof.
  unfold conclude. destruct (take_storage_error session) as [[e|] ss].
  { intros [= <- <-]; apply holding_release. }
  destruct r0 as [v|[]]; [destruct (check v); [apply holding_finish|]|..];
    intros [= <- <-]; apply holding_release.
Qed.

End Slots.

#[export] Hint Resolve holding_store_call holding_session_call holding_run_engine holding_release
  holding_finish holding_conclude : slots.

Section Operations.
Context {SJ : SerdeJson} {ST : SerdeTree SJ} {SH : Sha256} {ENV : DispatchEnv} {ENG : DurableEngine}.
Context (cfg : DispatchConfig).

Lemma holding_evaluate n script session s r s' :
  evaluate cfg script session s = (r, s') -> holding n s -> holding n s'.
Proof.
  unfold evaluate. destruct (reserve s) as [[u|e] s1] eqn:Er; intros E H;
    pose proof (holding_reserve _ _ _ _ Er H) as H1; cbn in H1.
  - destruct (run_engine _ _ _) as [[r0 ss] s2] eqn:Ee. eauto with slots.
  - by injection E as <- <-.
Qed.

Lemma holding_evaluate_module n source input session s r s' :
  evaluate_module cfg source input session s = (r, s') -> holding (n + 1) s -> holding n s'.
Proof.
  unfold evaluate_module. destruct (run_engine _ _ _) as [[r0 ss] s2] eqn:Ee. eauto with slots.
Qed.

Lemma holding_execute_managed n claim source module s r s' :
  execute_managed cfg claim source module s = (r, s') -> holding (n + 1) s -> holding n s'.
Proof.
  unfold execute_managed. destruct (session_call _ s) as [[session|e] s1] eqn:Es; intros E H;
    pose proof (holding_session_call _ _ _ _ _ Es H) as H1.
  - set (body := if module then _ else _) in E.
    destruct body as [r1 s2] eqn:Eb.
    assert (holding n s2) as H2.
    { subst body. destruct module; [by eapply holding_evaluate_module|].
      destruct (run_engine _ _ _) as [[r0 ss] s3] eqn:Ee. eauto with slots. }
    clear Eb body.
    destruct r1 as [[v|]|[]]; try (injection E as <- <-; done);
      destruct (store_call _ s2) as [t s3] eqn:Et; injection E as <- <-; eauto with slots.
  - injection E as <- <-. by apply holding_release.
Qed.

Lemma holding_execute_claim n claim script s r s' :
  execute_claim cfg claim script s = (r, s') -> holding n s -> holding n s'.
Proof.
  unfold execute_claim. destruct (session_call _ s) as [[session|e] s1] eqn:Es.
  - destruct (evaluate _ _ _ _) as [r1 s2] eqn:Ee. intros [= <- <-] H.
    eapply holding_evaluate; eauto with slots.
  - intros [= <- <-]. eauto with slots.
Qed.

Lemma holding_start n id script s r s' :
  start cfg id script s = (r, s') -> holding n s -> holding n s'.
Proof.
  unfold start, store_read. destruct (is_pending id s); [by intros [= <- <-]|].
  destruct (store_call _ s) as [[[c|]|e] s1] eqn:Ec; try (intros [= <- <-]; eauto with slots; fail).
  destruct (session_call _ s1) as [[session|e] s2] eqn:Es; [|intros [= <- <-]; eauto with slots].
  destruct (evaluate _ _ _ _) as [r1 s3] eqn:Ee. intros [= <- <-] H.
  eapply holding_evaluate; eauto with slots.
Qed.

Lemma holding_start_module_reserved n id source input s r s' :
  start_module_reserved cfg id source input s = (r, s') -> holding (n + 1) s -> holding n s'.
Proof.
  unfold start_module_reserved, store_read. destruct (is_pending id s); [intros [= <- <-]; eauto with slots|].
  destruct (store_call _ s) as [[[c|]|e] s1] eqn:Ec; try (intros [= <- <-]; eauto with slots; fail).
  destruct (session_call _ s1) as [[session|e] s2] eqn:Es; [|intros [= <- <-]; eauto with slots].
  destruct (evaluate_module _ _ _ _ _) as [r1 s3] eqn:Ee. intros [= <- <-] H.
  eapply holding_evaluate_module; eauto with slots.
Qed.

Lemma holding_start_module n id source input s r s' :
  start_module cfg id source input s = (r, s') -> holding n s -> holding n s'.
Proof.
  unfold start_module. destruct (reserve s) as [[u|e] s1] eqn:Er; intros E H;
    pose proof (holding_reserve _ _ _ _ Er H) as H1; cbn in H1.
  - by eapply holding_start_module_reserved.
  - by injection E as <- <-.
Qed.

Lemma holding_start_admitted n id source s r s' :
  start_admitted cfg id source s = (r, s') -> holding (n + 1) s -> holding n s'.
Proof.
  unfold start_admitted, store_read, claim_execution.
  destruct (store_call _ s) as [[[c|]|e] s1] eqn:Ec; try (intros [= <- <-]; eauto with slots; fail).
  destruct (store_call _ s1) as [[[claim|]|e] s2] eqn:Ex; [| |intros [= <- <-]; eauto with slots].
  - destruct (execute_managed _ _ _ _ _) as [r1 s3] eqn:Em. intros [= <- <-] H.
    eapply holding_execute_managed; eauto with slots.
  - destruct (store_call _ s2) as [[[]|e] s3] eqn:Ef; intros [= <- <-]; eauto with slots.
Qed.

Lemma holding_dispatch_managed n id source module s r s' :
  dispatch_managed cfg id source module s = (r, s') -> holding n s -> holding n s'.
Proof.
  unfold dispatch_managed, claim_execution.
  destruct (reserve s) as [[u|e] s1] eqn:Er; intros E H;
    pose proof (holding_reserve _ _ _ _ Er H) as H1; cbn in H1; [|by injection E as <- <-].
  destruct (store_call _ s1) as [[[claim|]|e] s2] eqn:Ex; try (injection E as <- <-; eauto with slots; fail).
  destruct (execute_managed _ _ _ _ _) as [r1 s3] eqn:Em. injection E as <- <-.
  eapply holding_execute_managed; eauto with slots.
Qed.

Lemma holding_dispatch_task n id script s r s' :
  dispatch_task cfg id script s = (r, s') -> holding n s -> holding n s'.
Proof.
  unfold dispatch_task, store_read.
  destruct (store_call _ s) as [[[c|]|e] s1] eqn:Ec; [| |intros [= <- <-]; eauto with slots].
  - intros E H. eapply holding_dispatch_managed; eauto with slots.
  - destruct (unix_time_ms _); [|intros [= <- <-]; eauto with slots].
    destruct (store_call _ s1) as [[[claim|]|e] s2] eqn:Ex; try (intros [= <- <-]; eauto with slots; fail).
    destruct (execute_claim _ _ _ _) as [r1 s3] eqn:Em. intros [= <- <-] H.
    eapply holding_execute_claim; eauto with slots.
Qed.

Lemma holding_dispatch_claims n resolve claims runs s r s' :
  dispatch_claims cfg resolve claims runs s = (r, s') -> holding n s -> holding n s'.
Proof.
  induction claims as [|claim claims IH] in runs, s |- *; cbn [dispatch_claims]; [by intros [= <- <-]|].
  destruct (resolve _).
  - destruct (unix_time_ms _); [|by intros [= <- <-]].
    destruct (store_call _ s) as [[[c|]|e] s1] eqn:Ec; [| |intros [= <- <-]; eauto with slots].
    + destruct (execute_claim _ _ _ _) as [r1 s2] eqn:Em. intros E H. eapply IH; [exact E|].
      eapply holding_execute_claim; eauto with slots.
    + intros E H. eapply IH; eauto with slots.
  - destruct (store_call _ s) as [[b|e] s1] eqn:Ec; [|intros [= <- <-]; eauto with slots].
    intros E H. eapply IH; eauto with slots.
Qed.

Lemma holding_dispatch_due n limit resolve s r s' :
  dispatch_due cfg limit resolve s = (r, s') -> holding n s -> holding n s'.
Proof.
  unfold dispatch_due. destruct (limit =? 0); [by intros [= <- <-]|].
  destruct (unix_time_ms _); [|by intros [= <- <-]].
  destruct (store_call _ s) as [[cs|e] s1] eqn:Ec; [|intros [= <- <-]; eauto with slots].
  intros E H. eapply holding_dispatch_claims; eauto with slots.
Qed.

Lemma holding_retry_loop n ids runs s r s' :
  retry_loop ids runs s = (r, s') -> holding n s -> holding n s'.
Proof.
  induction ids as [|id ids IH] in runs, s |- *; cbn [retry_loop]; [by intros [= <- <-]|].
  destruct (dd_pending s !! id) as [entry|] eqn:Ep; [|by intros [= <- <-]].
  destruct (json_from_str _) as [json|]; [|by intros [= <- <-]].
  assert (forall s1, dd_pending s1 = dd_pending s -> holding n s1 ->
    holding n (release (set_pending (delete id (dd_pending s1)) s1))) as Hf.
  { unfold holding; intros s1 Hs1 [? Hp]. cbn. rewrite Hs1 in *.
    split; [|intros L; by apply map_Forall_delete, Hp].
    pose proof (map_size_delete_Some id (dd_pending s) ltac:(rewrite Ep; eauto)).
    assert (size (dd_pending s) <> 0)%nat by (intros Hz%map_size_empty_inv; by rewrite Hz, lookup_empty in Ep). lia. }
  destruct (store_call _ s) as [rc s1] eqn:Ec. intros E H.
  pose proof (holding_store_call _ _ _ _ _ Ec H) as H1.
  assert (dd_pending s1 = dd_pending s) as Hs1.
  { revert Ec. unfold store_call. destruct (completion_complete _ _ _ _ _), (env_fault _) as [[? []]|];
      by intros [= _ <-]. }
  destruct rc as [b|[]]; try (injection E as <- <-; done); eapply IH; eauto.
Qed.

(** ** Sequences of requests *)

(** The entry points; the callers of [start_module_reserved] and [start_admitted]
    (the HTTP server) reserve first. *)
Inductive Request :=
| RqStart (id : TaskId) (script : string)
| RqStartModule (id : TaskId) (source input_json : string)
| RqStartAdmitted (id : TaskId) (source : string)
| RqDispatchTask (id : TaskId) (script : string)
| RqDispatchModule (id : TaskId) (source : string)
| RqDispatchDue (limit : Z) (resolve : TaskId -> option string)
| RqRetry.

Definition perform (q : Request) (s : Disp) : Disp :=
  match q with
  | RqStart id script => (start cfg id script s).2
  | RqStartModule id source input => (start_module cfg id source input s).2
  | RqStartAdmitted id source =>
      match reserve s with (Ok _, s) => (start_admitted cfg id source s).2 | (Err _, s) => s end
  | RqDispatchTask id script => (dispatch_task cfg id script s).2
  | RqDispatchModule id source => (dispatch_module_task cfg id source s).2
  | RqDispatchDue limit resolve => (dispatch_due cfg limit resolve s).2
  | RqRetry => (retry_completions s).2
  end.

Lemma holding_perform n q s : holding n s -> holding n (perform q s).
Proof.
  intros H. destruct q; cbn [perform].
  - by eapply holding_start, H; apply surjective_pairing.
  - by eapply holding_start_module, H; apply surjective_pairing.
  - destruct (reserve s) as [[u|e] s1] eqn:Er; pose proof (holding_reserve _ _ _ _ Er H) as H1; [|done].
    by eapply holding_start_admitted, H1; apply surjective_pairing.
  - by eapply holding_dispatch_task, H; apply surjective_pairing.
  - by eapply holding_dispatch_managed, H; apply surjective_pairing.
  - by eapply holding_dispatch_due, H; apply surjective_pairing.
  - by eapply holding_retry_loop, H; apply surjective_pairing.
Qed.

(** The dispatcher as [DurableDispatcher::new] leaves it. *)
Definition idle (d : Db) : Disp := {| dd_db := d; dd_pending := ∅; dd_slots := 0; dd_calls := 0 |}.

Lemma holding_run d qs : holding 0 (foldl (fun s q => perform q s) (idle d) qs).
Proof.
  assert (holding 0 (idle d)) as H0 by (split; cbn; [by rewrite map_size_empty|apply map_Forall_empty]).
  revert H0. generalize (idle d). induction qs as [|q qs IH]; intros s H; [done|].
  apply IH. by apply holding_perform.
Qed.

(** C28. Slots are never leaked and never double-freed: after any sequence of
    requests, whatever user code does and whichever store calls fail, the counter
    equals the number of retained results and is between 0 and 32. *)
Theorem slots_balanced d qs :
  let s := foldl (fun s q => perform q s) (idle d) qs in
  dd_slots s = Z.of_nat (size (dd_pending s)) /\ 0 <= dd_slots s <= MAX_FINALIZATIONS.
Proof. destruct (holding_run d qs) as [[H1 H2] _]. cbn zeta. lia. Qed.

End Operations.

(** ** Results *)

Section Results.
Context {SJ : SerdeJson} {ST : SerdeTree SJ} {SH : Sha256} {ENV : DispatchEnv} {ENG : DurableEngine}.

(** The result of [id] is in the store, as its text or a value equal to it; tasks
    without a persisted program have no completion row. *)
Definition settled (id : TaskId) (json : Value) (d : Db) : Prop :=
  durable_programs d !! id = None
  \/ exists c, durable_completions d !! id = Some c
       /\ (json_from_str (cr_result_json c) = Some json \/ json_to_string json = Some (cr_result_json c)).

(** Programs are unchanged and completions are kept. *)
Definition grows (d d' : Db) : Prop :=
  durable_programs d' = durable_programs d
  /\ forall i c, durable_completions d !! i = Some c -> durable_completions d' !! i = Some c.


Lemma finish_grows clock scope id expected value at_ms until d :
  grows d (finish_task clock scope id expected value at_ms until d).2.
Proof.
  unfold finish_task. destruct (mbind _ _) as [json|e]; [|done].
  match goal with |- grows d (run_tx ?b d).2 => apply (run_tx_post b (fun _ d' => grows d d') d) end; [done|].
  unfold completion_time. tx; try done.
  all: split; [done|]; intros i c Hi; cbn.
  all: destruct (decide (i = id)) as [->|]; [congruence|by rewrite lookup_insert_ne].
Qed.

Lemma finish_false_unregistered clock scope id expected value at_ms until d d' :
  finish_task clock scope id expected value at_ms until d = (Ok false, d') ->
  durable_programs d' !! id = None.
Proof.
  intros E. pose proof (finish_grows clock scope id expected value at_ms until d) as [Hp _].
  rewrite E in Hp. cbn in Hp. rewrite Hp. revert E. unfold finish_task.
  destruct (mbind _ _) as [json|e]; [|done].
  match goal with |- run_tx ?b d = _ -> _ => intros E;
    pose proof (run_tx_post b (fun x _ => x = Ok false -> durable_programs d !! id = None) d) as H end.
  rewrite E in H. apply H; [done| |done]. clear H E. unfold completion_time. tx; try done.
Qed.

Lemma complete_spec clock now c json d r d' :
  completion_complete clock now c json d = (r, d') ->
  grows d d' /\ match r with Ok _ => settled (dc_task_id c) json d' | Err _ => True end.
Proof.
  assert (forall expected at_ms until b, finish_task clock (dc_scope c) (dc_task_id c) expected json at_ms until d = (Ok b, d') ->
    settled (dc_task_id c) json d') as Hset.
  { intros expected at_ms until [] E; [|left; by eapply finish_false_unregistered].
    destruct (finish_recorded _ _ _ _ _ _ _ _ _ E) as (row & text & v & Hj & _ & Hc & _ & [(_ & Hv & ->)|E1]);
      right; exists row; (split; [done|]); [by left|right; by rewrite E1]. }
  unfold completion_complete, complete_task_before, complete_task. destruct (dc_lease_until_ms c) as [until|].
  - destruct (finish_task _ _ _ _ _ _ _ d) as [r0 d0] eqn:E. intros E2.
    pose proof (finish_grows clock (dc_scope c) (dc_task_id c) (dc_next_sequence c) json 0 (Some until) d) as Hg.
    rewrite E in Hg. cbn in Hg.
    assert (d0 = d') as -> by (destruct r0 as [|[]]; try case_match; congruence).
    split; [done|]. destruct r as [b|]; [|done]. eapply (Hset _ _ _ b).
    rewrite <- E2, E. destruct r0 as [|[]]; try case_match; congruence.
  - intros E. split; [|destruct r; eauto].
    pose proof (finish_grows clock (dc_scope c) (dc_task_id c) (dc_next_sequence c) json (as_u64 now) None d) as Hg.
    by rewrite E in Hg.
Qed.

(** ** When a lease is lost *)

(** The execution the claim names holds the task, by the store, at [time]. *)
Definition leased (x : ExecutionClaim) (id : TaskId) (time : Z) (d : Db) : Prop :=
  id = xc_task_id x /\ exists r u, durable_executions d !! id = Some r /\ ex_state r = ExRunning /\ ex_owner r = Some (xc_owner x)
    /\ ex_generation r = xc_generation x /\ ex_lease_until_ms r = Some u /\ time < u.

Lemma leased_executions x id time d d' :
  durable_executions d' !! id = durable_executions d !! id -> leased x id time d' -> leased x id time d.
Proof. unfold leased. by intros ->. Qed.

Lemma sql_same v field z : to_sql_integer v field = Ok z -> z = v.
Proof. unfold to_sql_integer, i64_try_from. by case_match; intros [= <-]. Qed.

Lemma guard_lost clock scope id s s' :
  guard_execution clock scope id s = (Err ExecutionLeaseLost, s') ->
  exists x k, scope = Some x /\ ~ leased x id (clock k) (tx_db s).
Proof.
  unfold guard_execution. destruct scope as [x|]; [|done]. unfold_monad. cbn.
  destruct (to_sql_integer (xc_generation x) _) as [g|e] eqn:Hg; [|intros [= -> _]; unfold to_sql_integer, ok_or in Hg; by case_match].
  apply sql_same in Hg as ->. destruct (to_sql_integer (clock (tx_reads s)) _) as [t|e] eqn:Ht;
    [|intros [= -> _]; unfold to_sql_integer, ok_or in Ht; by case_match].
  apply sql_same in Ht as ->. intros H. exists x, (tx_reads s). split; [done|]. intros (Hid & r & u & Hr & Hs & Ho & Hg & Hu & Ht).
  rewrite Hr, Hs, Ho, Hg, Hu, <- Hid, !Z.eqb_refl, !bool_decide_eq_true_2 in H by done.
  rewrite (proj2 (Z.ltb_lt _ _) Ht) in H. done.
Qed.

(** [m] reports a lost lease only for a reason of [P], which is about executions. *)
Section Loses.
Context (ex : gmap TaskId ExecutionRow) (P : Prop).
Definition loses {A} (m : Tx A) : Prop := forall s r s', durable_executions (tx_db s) = ex -> m s = (r, s') ->
  (r = Err ExecutionLeaseLost -> P) /\ (is_ok r = true -> durable_executions (tx_db s') = ex).

Lemma loses_ret {A} (a : A) : loses (mret a).
Proof. by intros s r s' Hs [= <- <-]. Qed.
Lemma loses_throw {A} e : e <> ExecutionLeaseLost -> loses (A:=A) (throw e).
Proof. intros He s r s' Hs [= <- <-]. split; [intros [= ->]; done|done]. Qed.
Lemma loses_lift {A} (x : result DurableError A) : x <> Err ExecutionLeaseLost -> loses (lift x).
Proof. by intros Hx s r s' Hs [= <- <-]. Qed.
Lemma loses_get : loses get_db.
Proof. by intros s r s' Hs [= <- <-]. Qed.
Lemma loses_clock clock : loses (read_clock clock).
Proof. by intros s r s' Hs [= <- <-]. Qed.
Lemma loses_put f : (forall d, durable_executions (f d) = durable_executions d) -> loses (put_db f).
Proof. intros Hf s r s' Hs [= <- <-]. split; [done|]. intros _. cbn. by rewrite Hf. Qed.
Lemma loses_bind {A B} (m : Tx A) (f : A -> Tx B) : loses m -> (forall a, loses (f a)) -> loses (mbind f m).
Proof.
  intros Hm Hf s r s' Hs H. unfold mbind, M_bind in H. destruct (m s) as [[a|e] s1] eqn:E.
  - apply (Hf a s1); [|done]. by apply (Hm s (Ok a) s1).
  - injection H as <- <-. split; [|done]. intros [= ->]. by apply (Hm _ _ _ Hs E).
Qed.
(** The last step may change the executions. *)
Definition ends_lost {A} (m : Tx A) : Prop := forall s s', durable_executions (tx_db s) = ex -> m s = (Err ExecutionLeaseLost, s') -> P.
Lemma ends_loses {A} (m : Tx A) : loses m -> ends_lost m.
Proof. intros Hm s s' Hs H. by apply (Hm _ _ _ Hs H). Qed.
Lemma ends_bind {A B} (m : Tx A) (f : A -> Tx B) : loses m -> (forall a, ends_lost (f a)) -> ends_lost (mbind f m).
Proof.
  intros Hm Hf s s' Hs H. unfold mbind, M_bind in H. destruct (m s) as [[a|e] s1] eqn:E.
  - apply (Hf a s1 s'); [|done]. by apply (Hm s (Ok a) s1).
  - injection H as -> <-. by apply (Hm _ _ _ Hs E).
Qed.
Lemma loses_guard clock scope id :
  (forall x k d, scope = Some x -> durable_executions d = ex -> ~ leased x id (clock k) d -> P) -> loses (guard_execution clock scope id).
Proof.
  intros HP s r s' Hs H. split.
  - intros ->. apply guard_lost in H as (x & k & Hx & Hl). by eapply HP.
  - intros Hok. assert (tx_db s' = tx_db s) as ->; [|done]. unfold guard_execution in H. destruct scope as [x|]; [|by injection H as _ <-].
    revert H. unfold_monad. cbn. repeat case_match; intros [= <- <-]; done.
Qed.
End Loses.

Lemma sql_not_lost v field : to_sql_integer v field <> Err ExecutionLeaseLost /\ from_sql_integer v field <> Err ExecutionLeaseLost.
Proof. unfold to_sql_integer, from_sql_integer, ok_or. by repeat case_match. Qed.

Lemma finish_lost clock scope id expected value at_ms until d d' :
  finish_task clock scope id expected value at_ms until d = (Err ExecutionLeaseLost, d') ->
  exists x k, scope = Some x /\ ~ leased x id (clock k) d.
Proof.
  set (P := exists x k, scope = Some x /\ ~ leased x id (clock k) d). unfold finish_task.
  destruct (mbind _ _) as [json|e] eqn:Ej; [|intros [= -> _]; destruct (json_to_string value); cbn in Ej; [case_match|]; done].
  match goal with |- run_tx ?b d = _ -> _ => set (body := b) end.
  assert (ends_lost (durable_executions d) P body) as H.
  { assert (loses (durable_executions d) P (guard_execution clock scope id)) as Hg.
    { apply loses_guard. intros x k d0 Hx He Hl. exists x, k. split; [done|]. intros H. apply Hl.
      eapply leased_executions; [|exact H]. by rewrite He. }
    assert (forall t u, loses (durable_executions d) P (completion_time clock id t u)) as Ht.
    { intros t [u|]; [|apply loses_ret]. apply loses_bind; [apply loses_clock|]. intros now. case_match; [by apply loses_throw|apply loses_ret]. }
    assert (forall a b, loses (durable_executions d) P (update_program_stats a b)) as Hu.
    { intros a b. apply loses_bind; [apply loses_get|]. intros d1. case_match; [by apply loses_put|by apply loses_throw]. }
    unfold body. apply ends_bind; [apply loses_get|]. intros d1. destruct (durable_completions d1 !! id) as [row|].
    - apply ends_bind; [apply loses_lift, sql_not_lost|]. intros z. case_match; [by apply ends_loses, loses_throw|].
      apply ends_bind; [apply loses_lift; unfold ok_or; by case_match|]. intros v. case_match; [by apply ends_loses, loses_throw|apply ends_loses, loses_ret].
    - apply ends_bind; [done|]. intros _. destruct (durable_programs d1 !! id); [|apply ends_loses, loses_ret]. cbv zeta.
      apply ends_bind; [apply loses_lift, sql_not_lost|]. intros a. case_match; [by apply ends_loses, loses_throw|]. case_match; [by apply ends_loses, loses_throw|].
      apply ends_bind; [done|]. intros t. apply ends_bind; [apply loses_lift, sql_not_lost|]. intros z.
      apply ends_bind; [by apply loses_put|]. intros _. apply ends_bind; [done|]. intros _. apply ends_bind; [done|]. intros _.
      apply ends_bind; [done|]. intros _. by intros s1 s1' _ ?. }
  unfold run_tx. destruct (body _) as [[[a|a]|e] s1] eqn:Eb; [done|done|]. intros [= -> _].
  by apply (H {| tx_db := d; tx_reads := 0 |} s1).
Qed.

(** At the store call [n] the lease of a completion is gone: the store does not hold its
    execution at a reading of the clock, or the time its session was given is over. *)
Definition lease_gone (c : DurableCompletion) (n : nat) (d : Db) : Prop :=
  (exists x k, dc_scope c = Some x /\ ~ leased x (dc_task_id c) (env_clock n k) d)
  \/ exists until, dc_lease_until_ms c = Some until /\ until <= env_now n.


Lemma finish_err clock scope id expected value at_ms until d e d' :
  finish_task clock scope id expected value at_ms until d = (Err e, d') -> d' = d.
Proof.
  unfold finish_task. destruct (mbind _ _) as [json|e0]; [|by intros [= _ <-]].
  unfold run_tx. match goal with |- context [match ?m with _ => _ end] => by destruct m as [[[]|] ?]; intros [= _ <-] end.
Qed.

Lemma complete_lost n c json d d' :
  completion_complete (env_clock n) (env_now n) c json d = (Err ExecutionLeaseLost, d') -> lease_gone c n d'.
Proof.
  unfold completion_complete, complete_task_before, complete_task. destruct (dc_lease_until_ms c) as [until|] eqn:Eu.
  - destruct (finish_task _ _ _ _ _ _ _ d) as [r0 d0] eqn:E. destruct r0 as [b|[]]; try done.
    + intros [= <-]. left. rewrite (finish_err _ _ _ _ _ _ _ _ _ _ E). by apply finish_lost in E.
    + case_match eqn:Hle; [|done]. intros _. right. exists until. split; [done|]. by apply Z.leb_le.
  - intros E. left. rewrite (finish_err _ _ _ _ _ _ _ _ _ _ E). by apply finish_lost in E.
Qed.

(** A completion leaves the executions of other tasks alone. *)
Lemma finish_apart clock scope id expected value at_ms until d i :
  i <> id -> durable_executions (finish_task clock scope id expected value at_ms until d).2 !! i = durable_executions d !! i.
Proof.
  intros Hi. unfold finish_task. destruct (mbind _ _) as [json|e]; [|done].
  match goal with |- durable_executions (run_tx ?b d).2 !! i = _ =>
    apply (run_tx_post b (fun _ d' => durable_executions d' !! i = durable_executions d !! i) d) end; [done|].
  unfold completion_time. tx; try done. all: cbn; by rewrite lookup_alter_ne.
Qed.

Lemma complete_apart clock now c json d i :
  i <> dc_task_id c -> durable_executions (completion_complete clock now c json d).2 !! i = durable_executions d !! i.
Proof.
  intros Hi. unfold completion_complete, complete_task_before, complete_task. destruct (dc_lease_until_ms c) as [until|]; [|by apply finish_apart].
  pose proof (finish_apart clock (dc_scope c) (dc_task_id c) (dc_next_sequence c) json 0 (Some until) d i Hi) as H.
  destruct (finish_task _ _ _ _ _ _ _ d) as [[b|[]] d0]; cbn in *; try done. by case_match.
Qed.

(** A completing store call: the driver's error, or what the completion returned. *)
Lemma complete_call_spec c json s r s' :
  store_call (fun n => completion_complete (env_clock n) (env_now n) c json) s = (r, s') ->
  dd_pending s' = dd_pending s /\ grows (dd_db s) (dd_db s') /\ dd_calls s' = S (dd_calls s)
  /\ (forall i, i <> dc_task_id c -> durable_executions (dd_db s') !! i = durable_executions (dd_db s) !! i)
  /\ match r with
     | Ok _ => settled (dc_task_id c) json (dd_db s')
     | Err ExecutionLeaseLost => lease_gone c (dd_calls s) (dd_db s')
     | Err _ => True
     end.
Proof.
  unfold store_call. pose proof (complete_apart (env_clock (dd_calls s)) (env_now (dd_calls s)) c json (dd_db s)) as Ha.
  destruct (completion_complete _ _ _ _ _) as [r0 d0] eqn:E. cbn in Ha.
  destruct (complete_spec _ _ _ _ _ _ _ E) as [Hg Hs].
  destruct (env_fault _) as [[e []]|]; intros [= <- <-]; cbn; (split; [done|]; split; [done|]; split; [done|]; split; [done|]); try done.
  destruct r0 as [b|[]]; try done. by eapply complete_lost.
Qed.







(** What becomes of the result of a run, on every branch of [finish]: it is
    reported complete only when the store has it (or the task has no persisted
    program); it is retained, under its task and as its JSON text, exactly when the
    store failed with a retryable error; otherwise no retained result changes. *)
Theorem finish_keeps_result session v s :
  let json := default (value_to_json v) (ss_result_json session) in
  let id := ss_task_id session in
  let '(r, s') := finish session v s in
  match r with
  | Ok st => st = RsCompleted v /\ settled id json (dd_db s') /\ dd_pending s' = dd_pending s
  | Err e =>
      (exists de p, e = ReStore de /\ is_retryable de = true /\ json_to_string json = Some (pc_json p)
        /\ dc_task_id (pc_completion p) = id /\ dd_pending s' = <[id := p]> (dd_pending s))
      \/ ((forall de, e = ReStore de -> is_retryable de = false) /\ dd_pending s' = dd_pending s)
  end.
Proof.
  unfold finish, take_result. cbn [ss_result_json]. set (json := default _ _). cbn zeta.
  destruct (completion_handle _) as [c|e0] eqn:Eh.
  2: { right. split; [|done]. intros de [= <-]. revert Eh. unfold completion_handle. case_match; by intros [= <-]. }
  assert (dc_task_id c = ss_task_id session) as Hid.
  { revert Eh. unfold completion_handle. case_match; by intros [= <-]. }
  destruct (store_call _ s) as [[b|e] s1] eqn:Ec; destruct (complete_call_spec _ _ _ _ _ Ec) as (Hs1 & _ & _ & _ & Hr).
  - by rewrite Hid in Hr.
  - destruct (is_retryable e) eqn:Er; cbn.
    + destruct (json_to_string json) as [text|] eqn:Ej; [|right; by split; [intros ? [=]|]].
      left. exists e, {| pc_completion := c; pc_json := text |}. do 4 (split; [done|]).
      unfold retain. rewrite Hid, <- Hs1. by destruct (dd_pending s1 !! _).
    + right. split; [|done]. intros de. destruct e; cbn; intros [= <-]; done.
Qed.


End Results.

(** ** A run whose first completion the driver fails *)

#[local] Existing Instance sample_json.
#[local] Existing Instance sample_sha.
#[local] Instance sample_tree : SerdeTree sample_json := {|
  JNum := Z; json_tree v := JString v;
  json_of_tree t := match t with JString s => s | _ => "null" end;
  number_from_f64 b := Some b; number_from_u8 b := b; number_as_f64 n := Some n |}%string.
#[local] Instance sample_dispatch_env : DispatchEnv := {|
  env_now _ := 50; env_clock _ _ := 50; env_entropy _ := "entropy0entropy0";
  env_fault n := if (n =? 3)%nat then Some (SqliteFailure OtherCode, false) else None |}%string.
#[local] Instance sample_durable_engine : DurableEngine := {|
  eval_durable _ _ h := (Ok (VString "done"), h); eval_durable_module _ _ _ h := (Ok (VString "done"), h) |}%string.

Definition sample_dispatch_config : DispatchConfig :=
  {| dd_owner := "owner"; dd_lease_duration_ms := 60000; dd_isolate := IsolateConfig_default |}.
Definition sample_registered : Db := run_ops [OpPutProgram 7 Module_ "source" 1] empty_db.
Definition sample_requests : list Request := [RqDispatchModule 7 "source"].
Definition sample_retained : Disp :=
  foldl (fun s q => perform sample_dispatch_config q s) (idle sample_registered) sample_requests.



(** The retried result is then in the store. *)
Example retried_is_stored :
  (retry_completions sample_retained).1
    = ([{| run_task_id := 7; run_result := Ok (RsCompleted (VString "done")) |}], None)
  /\ (cr_result_json <$> durable_completions (dd_db (retry_completions sample_retained).2) !! 7) = Some "jdone"%string.
Proof. split; vm_compute; reflexivity. Qed.
