(* ===== verification/DurablePoll.v ===== *)
(** * The durable poller ([crates/tysel-runtime/src/durable_poll.rs])

    The in-memory program registry, the catalog over the store, one batch of a poll
    as a step relation (dispatches run on blocking threads and are joined in any
    order), and the supervised loop with its backoff. *)

From Stdlib Require Import ZArith Lia Ascii String.
From stdpp Require Import base tactics relations gmap strings list.
From S2P Require Import Prelude Bytes TaskModel DurableTypes DurableDb DurableStore DurableExec DurableSession Ipc DurableDispatch.
Open Scope Z_scope.

Definition MAX_POLL_BATCH : Z := 10000.
Definition MAX_POLL_CONCURRENCY : Z := 16.

Inductive ProgramRegistryError :=
| PrInvalidProgram
| PrFull
| PrTotalBytesExceeded
| PrStore (e : DurableError)
| PrSystemClock
| PrTimeRange.

Inductive PollerError :=
| PePartialBatch (runs : list DurableRun) (source : PollerError)
| PeInvalidInterval
| PeInvalidBatchSize
| PeRegistry (e : ProgramRegistryError)
| PeDispatch (e : DispatchError)
| PeJoin.

(** [PollerError::with_runs] *)
Definition with_runs (e : PollerError) (runs : list DurableRun) : PollerError :=
  match runs with [] => e | _ => PePartialBatch runs e end.

(** [PollerError::deliver_runs]: the runs handed to [on_run], and the error left. *)
Fixpoint deliver_runs (e : PollerError) : list DurableRun * PollerError :=
  match e with
  | PePartialBatch runs source => let '(rest, e') := deliver_runs source in (runs ++ rest, e')
  | _ => ([], e)
  end.

(** [PollerError::is_retryable] *)
Fixpoint poller_is_retryable (e : PollerError) : bool :=
  match e with
  | PePartialBatch _ source => poller_is_retryable source
  | PeRegistry (PrStore e) | PeDispatch (DeStore e) => is_retryable e
  | _ => false
  end.

(** ** The in-memory registry *)

Module Registry.

Record RegistryState := { programs : gmap TaskId string; total_bytes : Z }.
Definition default_state : RegistryState := {| programs := ∅; total_bytes := 0 |}.

(** [next_total_bytes] *)
Definition next_total_bytes (current replaced incoming : Z) : result ProgramRegistryError Z :=
  match (if replaced <=? current then checked_add u64_max (current - replaced) incoming else None) with
  | None => Err PrTotalBytesExceeded
  | Some total => if MAX_DURABLE_PROGRAM_TOTAL_BYTES <? total then Err PrTotalBytesExceeded else Ok total
  end.

(** [DurableProgramRegistry::register] *)
Definition register (id : TaskId) (script : string) (s : RegistryState)
    : result ProgramRegistryError (option string) * RegistryState :=
  if str_is_empty script || (MAX_DURABLE_PROGRAM_BYTES <? len script) then (Err PrInvalidProgram, s)
  else if bool_decide (programs s !! id = None) && (MAX_DURABLE_PROGRAMS <=? Z.of_nat (size (programs s)))
  then (Err PrFull, s)
  else
    let replaced_bytes := from_option len 0 (programs s !! id) in
    match next_total_bytes (total_bytes s) replaced_bytes (len script) with
    | Err e => (Err e, s)
    | Ok total => (Ok (programs s !! id), {| programs := <[id := script]> (programs s); total_bytes := total |})
    end.

(** [DurableProgramRegistry::resolve] *)
Definition resolve (id : TaskId) (s : RegistryState) : option string := programs s !! id.

(** [DurableProgramRegistry::unregister]; the subtraction is unchecked. *)
Definition unregister (id : TaskId) (s : RegistryState) : option string * RegistryState :=
  match programs s !! id with
  | Some p => (Some p, {| programs := delete id (programs s); total_bytes := total_bytes s - len p |})
  | None => (None, s)
  end.

Definition registry_len (s : RegistryState) : Z := Z.of_nat (size (programs s)).

(** [DurableProgramRegistry::snapshot] *)
Definition snapshot (s : RegistryState) : list (TaskId * string) :=
  order_by (fun kv => (kv.1, 0)) (map_to_list (programs s)).

End Registry.

(** ** The catalog over the store *)

Section Catalog.
Context {SJ : SerdeJson} {ST : SerdeTree SJ} {SH : Sha256} {ENV : DispatchEnv}.

(** [unix_time_ms] of the poller *)
Definition registry_time_ms (millis : Z) : result ProgramRegistryError Z :=
  if millis <? 0 then Err PrSystemClock
  else if u64_max <? millis then Err PrTimeRange
  else Ok millis.

Definition catalog_put (put : TaskId -> string -> Z -> Db -> result DurableError (option DurableProgram) * Db)
    (id : TaskId) (source : string) : M Disp ProgramRegistryError (option string) := fun s =>
  match registry_time_ms (env_now (dd_calls s)) with
  | Err e => (Err e, s)
  | Ok now =>
      match store_call (fun _ => put id source now) s with
      | (Err e, s) => (Err (PrStore e), s)
      | (Ok previous, s) => (Ok (dp_source <$> previous), s)
      end
  end.
(** [DurableProgramCatalog::register], [register_module] *)
Definition catalog_register := catalog_put put_program.
Definition catalog_register_module := catalog_put put_module.

Definition from_store {A B} (f : A -> B) (r : result DurableError A) : result ProgramRegistryError B :=
  match r with Ok a => Ok (f a) | Err e => Err (PrStore e) end.

(** [DurableProgramCatalog::resolve] *)
Definition catalog_resolve (id : TaskId) : M Disp ProgramRegistryError (option string) := fun s =>
  let '(r, s) := store_read (program id) s in
  (from_store (fmap dp_source) r, s).

(** [DurableProgramCatalog::unregister] *)
Definition catalog_unregister (id : TaskId) : M Disp ProgramRegistryError (option string) := fun s =>
  let '(r, s) := store_call (fun _ => remove_program id) s in
  (from_store (fmap dp_source) r, s).

(** [DurableProgramCatalog::len] *)
Definition catalog_len : M Disp ProgramRegistryError Z := fun s =>
  let '(r, s) := store_read program_count s in (from_store id r, s).

(** [DurableProgramCatalog::due_snapshot] *)
Definition due_snapshot (now_ms : Z) (kind : DurableProgramKind) (limit : Z)
    : M Disp ProgramRegistryError (list (TaskId * string)) := fun s =>
  let '(r, s) := store_read (load_due_programs_batch now_ms kind limit) s in
  (from_store (map (fun p => (dp_task_id p, dp_source p))) r, s).

End Catalog.

(** ** Polling *)

Inductive ProgramSource := Memory | Persistent.
Inductive ProgramExecution := PxScript | PxModule.

(** [ProgramExecution::kind] *)
Definition execution_kind (x : ProgramExecution) : DurableProgramKind :=
  match x with PxScript => Script | PxModule => Module_ end.

Record Poller := {
  pl_source : ProgramSource;
  pl_execution : ProgramExecution;
  pl_interval : Z;
  pl_batch_size : Z;
}.

(** [DurablePoller::with_programs] *)
Definition with_programs (source : ProgramSource) (execution : ProgramExecution) (interval batch_size : Z)
    : result PollerError Poller :=
  if interval =? 0 then Err PeInvalidInterval
  else if (batch_size =? 0) || (MAX_POLL_BATCH <? batch_size) then Err PeInvalidBatchSize
  else Ok {| pl_source := source; pl_execution := execution; pl_interval := interval; pl_batch_size := batch_size |}.

(** [DurablePoller::new], [new_persistent], [new_persistent_modules] *)
Definition poller_new := with_programs Memory PxScript.
Definition new_persistent := with_programs Persistent PxScript.
Definition new_persistent_modules := with_programs Persistent PxModule.

(** [slice::rotate_left] *)
Definition rotate_left {A} (n : Z) (l : list A) : list A := drop (Z.to_nat n) l ++ take (Z.to_nat n) l.

Section Poll.
Context {SJ : SerdeJson} {ST : SerdeTree SJ} {SH : Sha256} {ENV : DispatchEnv} {ENG : DurableEngine}.
Context (cfg : DispatchConfig) (p : Poller).

(** The dispatcher, the registry and the cursor a poller shares with other tasks. *)
Record PollWorld := { pw_disp : Disp; pw_registry : Registry.RegistryState; pw_cursor : Z }.
Definition set_disp (s : Disp) (w : PollWorld) : PollWorld :=
  {| pw_disp := s; pw_registry := pw_registry w; pw_cursor := pw_cursor w |}.

(** [ProgramSource::snapshot] *)
Definition source_snapshot (w : PollWorld) : result PollerError (list (TaskId * string)) * PollWorld :=
  match pl_source p with
  | Memory => (Ok (Registry.snapshot (pw_registry w)), w)
  | Persistent =>
      match registry_time_ms (env_now (dd_calls (pw_disp w))) with
      | Err e => (Err (PeRegistry e), w)
      | Ok now =>
          let '(r, s) := due_snapshot now (execution_kind (pl_execution p)) (pl_batch_size p) (pw_disp w) in
          (map_err PeRegistry r, set_disp s w)
      end
  end.

(** A spawned dispatch: still running, or finished and not yet joined. *)
Inductive Flight :=
| Running (program : TaskId * string)
| Finished (joined : result PollerError (option DurableRun)).

Inductive Pc := AtTop | Filling (cancelled : bool) | Joining | Ended.

(** The locals of [poll_batch], the shutdown flag, and the ids it has spawned. *)
Record Batch := {
  bt_pc : Pc;
  bt_queue : list (TaskId * string);
  bt_flights : list Flight;
  bt_runs : list DurableRun;
  bt_failure : option PollerError;
  bt_cancelled : bool;
  bt_spawned : list TaskId;
}.

(** [poll_batch] up to its loop: retry retained completions, take a snapshot and
    rotate it to the cursor, which wraps at the width of [usize]. *)
Definition poll_begin (w : PollWorld) : result PollerError Batch * PollWorld :=
  let '(completed, error, w) :=
    if has_pending_completions (pw_disp w)
    then let '((runs, error), s) := retry_completions (pw_disp w) in (runs, error, set_disp s w)
    else ([], None, w) in
  match error with
  | Some (DePanic _) => (Err PeJoin, w)
  | Some e => (Err (with_runs (PeDispatch e) completed), w)
  | None =>
      match source_snapshot w with
      | (Err e, w) => (Err (with_runs e completed), w)
      | (Ok programs, w) =>
          let batch queue := {| bt_pc := AtTop; bt_queue := queue; bt_flights := []; bt_runs := completed;
            bt_failure := None; bt_cancelled := false; bt_spawned := [] |} in
          match programs with
          | [] => (Ok (batch []), w)
          | _ =>
              (Ok (batch (rotate_left (pw_cursor w mod vec_len programs) programs)),
               {| pw_disp := pw_disp w; pw_registry := pw_registry w;
                  pw_cursor := (pw_cursor w + pl_batch_size p) mod 2 ^ 64 |})
          end
      end
  end.

(** The guard of the inner loop. *)
Definition can_spawn (cancelled : bool) (b : Batch) : bool :=
  negb cancelled && match bt_failure b with None => true | Some _ => false end
  && (vec_len (bt_flights b) <? MAX_POLL_CONCURRENCY)
  && (vec_len (bt_runs b) + vec_len (bt_flights b) <? pl_batch_size p).

Definition first_failure (f : option PollerError) (e : PollerError) : option PollerError :=
  match f with None => Some e | Some _ => f end.

(** The [match] on a joined dispatch: the runs and the failure after it. *)
Definition absorb (j : result PollerError (option DurableRun)) (runs : list DurableRun)
    (failure : option PollerError) : list DurableRun * option PollerError :=
  match j with
  | Ok (Some run) =>
      match run_result run with
      | Err (ReStore e) => (runs, first_failure failure (PeDispatch (DeStore e)))
      | _ => (runs ++ [run], failure)
      end
  | Ok None => (runs, failure)
  | Err e => (runs, first_failure failure e)
  end.

Definition dispatch (x : TaskId * string) : M Disp DispatchError (option DurableRun) :=
  match pl_execution p with
  | PxScript => dispatch_task cfg x.1 x.2
  | PxModule => dispatch_module_task cfg x.1 x.2
  end.

Definition with_pc (pc : Pc) (b : Batch) : Batch :=
  {| bt_pc := pc; bt_queue := bt_queue b; bt_flights := bt_flights b; bt_runs := bt_runs b;
     bt_failure := bt_failure b; bt_cancelled := bt_cancelled b; bt_spawned := bt_spawned b |}.
Definition with_flights (fs : list Flight) (b : Batch) : Batch :=
  {| bt_pc := bt_pc b; bt_queue := bt_queue b; bt_flights := fs; bt_runs := bt_runs b;
     bt_failure := bt_failure b; bt_cancelled := bt_cancelled b; bt_spawned := bt_spawned b |}.

Definition cancel (b : Batch) : Batch :=
  {| bt_pc := bt_pc b; bt_queue := bt_queue b; bt_flights := bt_flights b; bt_runs := bt_runs b;
     bt_failure := bt_failure b; bt_cancelled := true; bt_spawned := bt_spawned b |}.
Definition spawn (x : TaskId * string) (queue : list (TaskId * string)) (b : Batch) : Batch :=
  {| bt_pc := bt_pc b; bt_queue := queue; bt_flights := bt_flights b ++ [Running x]; bt_runs := bt_runs b;
     bt_failure := bt_failure b; bt_cancelled := bt_cancelled b; bt_spawned := bt_spawned b ++ [x.1] |}.
Definition join (j : result PollerError (option DurableRun)) (flights : list Flight) (b : Batch) : Batch :=
  {| bt_pc := AtTop; bt_queue := bt_queue b; bt_flights := flights;
     bt_runs := (absorb j (bt_runs b) (bt_failure b)).1; bt_failure := (absorb j (bt_runs b) (bt_failure b)).2;
     bt_cancelled := bt_cancelled b; bt_spawned := bt_spawned b |}.

(** One step of the loop, of a dispatch on its thread, or of whoever cancels. *)
Inductive step : Batch * Disp -> Batch * Disp -> Prop :=
| step_cancel b s : bt_cancelled b = false -> step (b, s) (cancel b, s)
| step_top b s : bt_pc b = AtTop -> step (b, s) (with_pc (Filling (bt_cancelled b)) b, s)
| step_spawn b s c x queue :
    bt_pc b = Filling c -> can_spawn c b = true -> bt_queue b = x :: queue -> step (b, s) (spawn x queue b, s)
| step_full b s c :
    bt_pc b = Filling c -> can_spawn c b = false \/ bt_queue b = [] -> step (b, s) (with_pc Joining b, s)
| step_run b s l1 x l2 r s' :
    bt_flights b = l1 ++ Running x :: l2 -> dispatch x s = (r, s') ->
    step (b, s) (with_flights (l1 ++ Finished (map_err PeDispatch r) :: l2) b, s')
| step_panic b s l1 x l2 s' :
    bt_flights b = l1 ++ Running x :: l2 ->
    step (b, s) (with_flights (l1 ++ Finished (Err PeJoin) :: l2) b, s')
| step_join b s l1 j l2 :
    bt_pc b = Joining -> bt_flights b = l1 ++ Finished j :: l2 -> step (b, s) (join j (l1 ++ l2) b, s)
| step_end b s : bt_pc b = Joining -> bt_flights b = [] -> step (b, s) (with_pc Ended b, s).

(** What [poll_batch] returns. *)
Definition batch_result (b : Batch) : result PollerError (list DurableRun) :=
  match bt_failure b with
  | Some e => Err (with_runs e (bt_runs b))
  | None => Ok (bt_runs b)
  end.

End Poll.

(** ** The loops *)

Inductive PollerHealth := Healthy | Recovering (attempt : Z) | Failed.

(** One iteration: whether shutdown is seen at its top, what the batch returns, the
    sub-second nanoseconds of the clock, and whether shutdown ends its wait. *)
Record Round := {
  rd_cancelled : bool;
  rd_batch : result PollerError (list DurableRun);
  rd_nanos : Z;
  rd_cancelled_waiting : bool;
}.

(** What the loops do: call [on_run] or [on_health], or wait for [nanos], with or
    without listening for wakeup notifications. *)
Inductive Action :=
| AcRun (run : DurableRun)
| AcHealth (h : PollerHealth)
| AcWait (nanos : Z) (listening : bool).

(** The delay of [run_supervised] after its [attempt]-th failure in a row, in
    milliseconds. *)
Definition base_ms (attempt : Z) : Z :=
  Z.min (Z.min u64_max (200 * Z.shiftl 1 (Z.min (saturating_sub attempt 1) 5))) 5000.
Definition backoff_ms (attempt nanos : Z) : Z := base_ms attempt + nanos mod (base_ms attempt / 4 + 1).

(** [DurablePoller::run_supervised] over its iterations; [None] when it has not
    returned at the end of them. *)
Fixpoint run_supervised (p : Poller) (attempt : Z) (rounds : list Round)
    : list Action * option (result PollerError ()) :=
  match rounds with
  | [] => ([], None)
  | rd :: rounds' =>
      if rd_cancelled rd then ([], Some (Ok ()))
      else
        let wait attempt' done_ delay :=
          let before := done_ ++ [AcWait delay (attempt' =? 0)] in
          if rd_cancelled_waiting rd then (before, Some (Ok ()))
          else let '(rest, r) := run_supervised p attempt' rounds' in (before ++ rest, r) in
        match rd_batch rd with
        | Ok runs =>
            wait 0 ((if 0 <? attempt then [AcHealth Healthy] else []) ++ map AcRun runs) (pl_interval p)
        | Err error =>
            let '(delivered, error) := deliver_runs error in
            if poller_is_retryable error then
              let attempt := saturating_add u32_max attempt 1 in
              wait attempt (map AcRun delivered ++ [AcHealth (Recovering attempt)])
                (1000000 * backoff_ms attempt (rd_nanos rd))
            else (map AcRun delivered ++ [AcHealth Failed], Some (Err error))
        end
  end.

(** [DurablePoller::run] ([run_inner]) *)
Fixpoint run_inner (p : Poller) (rounds : list Round) : list Action * option (result PollerError ()) :=
  match rounds with
  | [] => ([], None)
  | rd :: rounds' =>
      if rd_cancelled rd then ([], Some (Ok ()))
      else
        match rd_batch rd with
        | Err error => let '(delivered, error) := deliver_runs error in (map AcRun delivered, Some (Err error))
        | Ok runs =>
            let before := map AcRun runs ++ [AcWait (pl_interval p) true] in
            if rd_cancelled_waiting rd then (before, Some (Ok ()))
            else let '(rest, r) := run_inner p rounds' in (before ++ rest, r)
        end
  end.
