(* ===== verification/DurablePollThms.v ===== *)
(** * Correctness of the durable poller

    The byte count of the registry is exact; a batch ends, is bounded in concurrency
    and dispatches a prefix of its rotated snapshot; successive polls reach every
    registered program; the loops deliver every run. *)

From Stdlib Require Import ZArith Lia Ascii String.
From stdpp Require Import base tactics relations gmap strings list.
From S2P Require Import Prelude Bytes TaskModel DurableTypes DurableDb DurableStore DurableRefine DurableExec DurableSession Ipc DurableDispatch DurablePoll.
Open Scope Z_scope.

(** ** The registry *)

Module RegistryThms.
Import Registry.

Definition sum_bytes (m : gmap TaskId string) : Z := map_fold (fun _ p acc => len p + acc) 0 m.

Record registry_ok (s : RegistryState) : Prop := {
  rg_total : total_bytes s = sum_bytes (programs s);
  rg_bytes : total_bytes s <= MAX_DURABLE_PROGRAM_TOTAL_BYTES;
  rg_count : Z.of_nat (size (programs s)) <= MAX_DURABLE_PROGRAMS;
  rg_sizes : map_Forall (fun _ p => 1 <= len p <= MAX_DURABLE_PROGRAM_BYTES) (programs s);
}.

Lemma sum_bytes_insert id p m : m !! id = None -> sum_bytes (<[id := p]> m) = len p + sum_bytes m.
Proof.
  intros H. apply (map_fold_insert_L (fun (_ : TaskId) q acc => len q + acc) 0 id p m); [intros; lia|done].
Qed.

Lemma sum_bytes_delete id p m : m !! id = Some p -> sum_bytes m = len p + sum_bytes (delete id m).
Proof. intros H. rewrite <- (insert_delete_id m id p H) at 1. apply sum_bytes_insert, lookup_delete_eq. Qed.

Lemma sum_bytes_nonneg m : 0 <= sum_bytes m.
Proof.
  induction m as [|i x m Hi IH] using map_ind; [done|]. rewrite sum_bytes_insert by done.
  pose proof (len_nonneg x). lia.
Qed.

Lemma sum_bytes_replace id p m :
  sum_bytes (<[id := p]> m) = sum_bytes m - from_option len 0 (m !! id) + len p.
Proof.
  rewrite <- (insert_delete_eq m). rewrite sum_bytes_insert by apply lookup_delete_eq.
  destruct (m !! id) as [q|] eqn:E; cbn.
  - rewrite (sum_bytes_delete _ _ _ E). lia.
  - rewrite delete_id by done. lia.
Qed.

Lemma register_ok id script s : registry_ok s -> registry_ok (register id script s).2.
Proof.
  intros [Ht Hb Hc Hs]. unfold register.
  destruct (str_is_empty script || _) eqn:E1; [done|].
  destruct (bool_decide _ && _) eqn:E2; [done|].
  unfold next_total_bytes. destruct (_ <=? total_bytes s) eqn:E3; [|done].
  unfold checked_add. destruct (_ <=? u64_max); [|done].
  destruct (MAX_DURABLE_PROGRAM_TOTAL_BYTES <? _) eqn:E4; [done|].
  apply orb_false_iff in E1 as [E0 E1]. split; cbn.
  - rewrite sum_bytes_replace. lia.
  - lia.
  - destruct (programs s !! id) eqn:Ei.
    + rewrite map_size_insert_Some by (rewrite Ei; eauto). done.
    + rewrite map_size_insert_None by done. rewrite bool_decide_true in E2 by done.
      rewrite andb_true_l in E2. unfold MAX_DURABLE_PROGRAMS in *. lia.
  - apply map_Forall_insert_2; [|done].
    assert (len script <> 0) by (destruct script; [done|unfold len; cbn [String.length]; lia]).
    pose proof (len_nonneg script). lia.
Qed.

Lemma unregister_ok id s : registry_ok s -> registry_ok (unregister id s).2.
Proof.
  intros [Ht Hb Hc Hs]. unfold unregister. destruct (programs s !! id) as [q|] eqn:E; [|done].
  pose proof (sum_bytes_delete _ _ _ E). pose proof (len_nonneg q). split; cbn.
  - lia.
  - lia.
  - rewrite map_size_delete_Some by (rewrite E; eauto). lia.
  - by apply map_Forall_delete.
Qed.

Inductive RegistryOp := RgRegister (id : TaskId) (script : string) | RgUnregister (id : TaskId).
Definition registry_op (o : RegistryOp) (s : RegistryState) : RegistryState :=
  match o with
  | RgRegister id script => (register id script s).2
  | RgUnregister id => (unregister id s).2
  end.

Lemma registry_ops_ok ops : registry_ok (foldl (fun s o => registry_op o s) default_state ops).
Proof.
  assert (registry_ok default_state) as H0.
  { split; cbn; [done|done|by rewrite map_size_empty|apply map_Forall_empty]. }
  revert H0. generalize default_state. induction ops as [|o ops IH]; intros s H; [done|].
  apply IH. destruct o; [by apply register_ok|by apply unregister_ok].
Qed.

(** C29. The registry's accounting is exact: after any sequence of registrations and
    removals its byte count is the sum of the lengths of the programs it holds, which
    is within 64 MiB; it holds at most 10000 programs of 1 byte to 1 MiB each; so the
    unchecked subtraction of [unregister] never underflows, and [register] fails
    with [TotalBytesExceeded] exactly when the new total would be over the limit. *)
Theorem registry_accounting ops id script :
  let s := foldl (fun s o => registry_op o s) default_state ops in
  registry_ok s
  /\ 0 <= total_bytes (unregister id s).2
  /\ ((register id script s).1 = Err PrTotalBytesExceeded <->
      1 <= len script <= MAX_DURABLE_PROGRAM_BYTES
      /\ (is_Some (programs s !! id) \/ Z.of_nat (size (programs s)) < MAX_DURABLE_PROGRAMS)
      /\ MAX_DURABLE_PROGRAM_TOTAL_BYTES
           < total_bytes s - from_option len 0 (programs s !! id) + len script).
Proof.
  cbn zeta. pose proof (registry_ops_ok ops) as Hok. set (s := foldl _ _ _) in *.
  split; [done|]. split.
  { rewrite (rg_total _ (unregister_ok id s Hok)). apply sum_bytes_nonneg. }
  assert (from_option len 0 (programs s !! id) <= total_bytes s) as Hle.
  { rewrite (rg_total _ Hok). destruct (programs s !! id) as [q|] eqn:E; cbn; [|apply sum_bytes_nonneg].
    rewrite (sum_bytes_delete _ _ _ E). pose proof (sum_bytes_nonneg (delete id (programs s))). lia. }
  assert (str_is_empty script = true <-> len script = 0) as Hempty.
  { unfold len. destruct script; cbn [str_is_empty String.length]; split; try done; lia. }
  pose proof (len_nonneg script). pose proof (rg_bytes _ Hok).
  assert (0 <= from_option len 0 (programs s !! id)) by (destruct (programs s !! id); cbn; [apply len_nonneg|done]).
  unfold register, next_total_bytes, checked_add, u64_max, MAX_DURABLE_PROGRAM_TOTAL_BYTES, MAX_DURABLE_PROGRAM_BYTES in *.
  destruct (str_is_empty script) eqn:E0; cbn [orb].
  { split; [done|]. intros (? & _). destruct Hempty as [He _]. specialize (He eq_refl). lia. }
  destruct (1048576 <? len script) eqn:E1; [split; [done|lia]|].
  assert (1 <= len script) by (destruct (decide (len script = 0)) as [He|]; [by apply Hempty in He|lia]).
  destruct (bool_decide _ && _) eqn:E2.
  { apply andb_true_iff in E2 as [E2 E3]. apply bool_decide_eq_true in E2. rewrite E2. split; [done|].
    intros (_ & [[]|] & _); [done|lia]. }
  assert (is_Some (programs s !! id) \/ Z.of_nat (size (programs s)) < MAX_DURABLE_PROGRAMS).
  { apply andb_false_iff in E2 as [E2|E2]; [|right; lia]. left. apply bool_decide_eq_false in E2.
    by apply not_eq_None_Some. }
  rewrite (proj2 (Z.leb_le _ _)) by done. rewrite (proj2 (Z.leb_le _ _)) by lia.
  destruct (64 * 1048576 <? _) eqn:E4; cbn [fst].
  - split; [intros _|done]. split; [lia|]. split; [done|lia].
  - split; [done|]. intros (_ & _ & ?). lia.
Qed.

End RegistryThms.

(** ** One batch *)

Section Batch.
Context {SJ : SerdeJson} {ST : SerdeTree SJ} {SH : Sha256} {ENV : DispatchEnv} {ENG : DurableEngine}.
Context (cfg : DispatchConfig) (p : Poller).

(** A batch that starts on [programs] with [retried] runs: the ids spawned so far are
    a prefix, concurrency is bounded, every run beyond the retried ones is a joined
    dispatch, and the inner loop stopped for one of its reasons. *)
Record batch_inv (programs : list (TaskId * string)) (retried : Z) (b : Batch) : Prop := {
  bi_prefix : bt_spawned b ++ (bt_queue b).*1 = programs.*1;
  bi_flights : vec_len (bt_flights b) <= MAX_POLL_CONCURRENCY;
  bi_runs : vec_len (bt_runs b) + vec_len (bt_flights b) <= retried + vec_len (bt_spawned b);
  bi_bound : vec_len (bt_runs b) + vec_len (bt_flights b) <= Z.max retried (pl_batch_size p);
  bi_filling : forall c, bt_pc b = Filling c -> c = true -> bt_cancelled b = true;
  bi_stopped : bt_pc b = Joining -> bt_queue b = [] \/ bt_cancelled b = true \/ bt_failure b <> None
    \/ MAX_POLL_CONCURRENCY <= vec_len (bt_flights b)
    \/ pl_batch_size p <= vec_len (bt_runs b) + vec_len (bt_flights b);
  bi_ended : bt_pc b = Ended -> bt_flights b = [] /\ (bt_queue b = [] \/ bt_cancelled b = true
    \/ bt_failure b <> None \/ pl_batch_size p <= vec_len (bt_runs b));
}.

Lemma absorb_runs j runs failure : vec_len (absorb j runs failure).1 <= vec_len runs + 1.
Proof.
  unfold absorb, vec_len. repeat case_match; cbn; rewrite ?length_app; cbn; lia.
Qed.

Lemma absorb_failure j runs failure : failure <> None -> (absorb j runs failure).2 <> None.
Proof. destruct failure; [|done]. unfold absorb, first_failure. repeat case_match; done. Qed.

Lemma batch_inv_step programs retried x y :
  step cfg p x y -> batch_inv programs retried x.1 -> batch_inv programs retried y.1.
Proof.
  intros Hs [H1 H2 H3 H4 H5 H6 H7]. unfold vec_len in *.
  destruct Hs as [b s Hc|b s Hpc|b s c q queue Hpc Hcan Hq|b s c Hpc Hstop|b s l1 q l2 r s' Hf Hd|b s l1 q l2 s' Hf
    |b s l1 j l2 Hpc Hf|b s Hpc Hf]; cbn in *.
  - split; cbn; auto. intros Hpc. destruct (H7 Hpc); auto.
  - split; cbn; auto; try done. by intros c [= <-].
  - unfold can_spawn, vec_len in Hcan. split_bool. rewrite Hq in H1.
    split; cbn; unfold vec_len; rewrite ?length_app; cbn; auto; try lia; try (by rewrite Hpc).
    by rewrite <- app_assoc.
  - split; cbn; auto; try done. intros _. destruct Hstop as [Hcan|]; [|by left].
    unfold can_spawn, vec_len in Hcan. destruct c; [right; left; eauto|].
    destruct (bt_failure b); [by right; right; left|]. cbn in Hcan. unfold vec_len. right; right; right. lia.
  - rewrite Hf in *. rewrite ?length_app in *. cbn in *.
    split; cbn; unfold vec_len; rewrite ?length_app; cbn; auto. intros Hpc. destruct (H7 Hpc) as [Hn _]. by destruct l1.
  - rewrite Hf in *. rewrite ?length_app in *. cbn in *.
    split; cbn; unfold vec_len; rewrite ?length_app; cbn; auto. intros Hpc. destruct (H7 Hpc) as [Hn _]. by destruct l1.
  - pose proof (absorb_runs j (bt_runs b) (bt_failure b)) as Ha. unfold vec_len in Ha.
    rewrite Hf, length_app in *. cbn in *.
    split; cbn; unfold vec_len; rewrite ?length_app; auto; try done; lia.
  - specialize (H6 Hpc). rewrite Hf in *. cbn in *. split; cbn; auto; try done; try (rewrite Hf; done).
    intros _. split; [done|]. unfold MAX_POLL_CONCURRENCY in H6.
    destruct H6 as [|[|[|[|]]]]; [by auto|by auto|by auto|lia|]. right; right; right. unfold vec_len. lia.
Qed.

(** Each step lowers this measure. *)
Definition flight_weight (f : Flight) : nat := match f with Running _ => 8 | Finished _ => 6 end.
Definition pc_weight (pc : Pc) : nat := match pc with AtTop => 3 | Filling _ => 2 | Joining => 1 | Ended => 0 end.
Definition batch_weight (b : Batch) : nat :=
  10 * length (bt_queue b) + sum_list_with flight_weight (bt_flights b) + pc_weight (bt_pc b)
  + (if bt_cancelled b then 0 else 1).

Lemma batch_step_weight x y : step cfg p x y -> (batch_weight y.1 < batch_weight x.1)%nat.
Proof.
  intros Hs. unfold batch_weight.
  destruct Hs as [b s Hc|b s Hpc|b s c q queue Hpc Hcan Hq|b s c Hpc Hstop|b s l1 q l2 r s' Hf Hd|b s l1 q l2 s' Hf
    |b s l1 j l2 Hpc Hf|b s Hpc Hf]; cbn [fst cancel with_pc with_flights spawn join bt_queue bt_flights bt_pc bt_cancelled];
    rewrite ?Hc, ?Hpc, ?Hq, ?Hf, ?sum_list_with_app; cbn; rewrite ?sum_list_with_app; cbn; try lia.
Qed.

(** A scheduler that runs the oldest dispatch when the loop waits. *)
Definition next (x : Batch * Disp) : option (Batch * Disp) :=
  let '(b, s) := x in
  match bt_pc b with
  | AtTop => Some (with_pc (Filling (bt_cancelled b)) b, s)
  | Filling c =>
      match can_spawn p c b, bt_queue b with
      | true, q :: queue => Some (spawn q queue b, s)
      | _, _ => Some (with_pc Joining b, s)
      end
  | Joining =>
      match bt_flights b with
      | [] => Some (with_pc Ended b, s)
      | Running q :: l =>
          let '(r, s') := dispatch cfg p q s in Some (with_flights (Finished (map_err PeDispatch r) :: l) b, s')
      | Finished j :: l => Some (join j l b, s)
      end
  | Ended => None
  end.

Lemma next_step x y : next x = Some y -> step cfg p x y.
Proof.
  destruct x as [b s]. unfold next. destruct (bt_pc b) as [|c| |] eqn:Hpc; [| | |done].
  - intros [= <-]. by apply step_top.
  - destruct (can_spawn p c b) eqn:Hc, (bt_queue b) eqn:Hq; intros [= <-];
      first [by eapply step_spawn; eauto|by eapply step_full; eauto].
  - destruct (bt_flights b) as [|[q|j] l] eqn:Hf.
    + intros [= <-]. by apply step_end.
    + destruct (dispatch cfg p q s) as [r s'] eqn:Hd. intros [= <-]. by eapply (step_run _ _ b s [] q l r s').
    + intros [= <-]. by eapply (step_join _ _ b s [] j l).
Qed.

(** A batch that has not ended can step. *)
Lemma batch_progress b s : bt_pc b <> Ended -> exists y, step cfg p (b, s) y.
Proof.
  intros Hne. destruct (next (b, s)) as [y|] eqn:E; [exists y; by apply next_step|].
  revert E. cbn. repeat case_match; done.
Qed.

Fixpoint drive (fuel : nat) (x : Batch * Disp) : Batch * Disp :=
  match fuel with
  | O => x
  | S fuel' => match next x with Some y => drive fuel' y | None => x end
  end.

Lemma drive_steps fuel x : rtc (step cfg p) x (drive fuel x).
Proof.
  induction fuel as [|fuel IH] in x |- *; cbn; [done|]. destruct (next x) eqn:E; [|done].
  eapply rtc_l, IH. by apply next_step.
Qed.

Lemma nsteps_weight n x y : nsteps (step cfg p) n x y -> (n + batch_weight y.1 <= batch_weight x.1)%nat.
Proof.
  induction 1 as [x|n x y z Hs _ IH]; [lia|]. apply batch_step_weight in Hs. lia.
Qed.

Lemma batch_inv_steps programs retried x y :
  rtc (step cfg p) x y -> batch_inv programs retried x.1 -> batch_inv programs retried y.1.
Proof. induction 1 as [|x y z Hs _ IH]; [done|]. intros H. by eapply IH, batch_inv_step. Qed.

End Batch.

(** ** Whole polls *)

Lemma rotate_lookup {A} (l : list A) (s q : Z) :
  0 <= s < vec_len l -> 0 <= q < vec_len l ->
  rotate_left s l !! Z.to_nat q = l !! Z.to_nat ((s + q) mod vec_len l).
Proof.
  unfold rotate_left, vec_len. intros Hs Hq.
  destruct (decide (s + q < Z.of_nat (length l))) as [H|H].
  - rewrite Z.mod_small by lia. rewrite lookup_app_l by (rewrite length_drop; lia).
    rewrite lookup_drop. f_equal. lia.
  - rewrite lookup_app_r by (rewrite length_drop; lia). rewrite length_drop.
    replace ((s + q) mod Z.of_nat (length l)) with (s + q - Z.of_nat (length l)).
    2: { rewrite <- (Z_mod_plus_full (s + q) (-1)). rewrite Z.mod_small; lia. }
    rewrite lookup_take_lt by lia. f_equal. lia.
Qed.

Lemma rotate_perm {A} (s : Z) (l : list A) : rotate_left s l ≡ₚ l.
Proof. unfold rotate_left. rewrite Permutation_app_comm. by rewrite take_drop. Qed.

Section Polls.
Context {SJ : SerdeJson} {ST : SerdeTree SJ} {SH : Sha256} {ENV : DispatchEnv} {ENG : DurableEngine}.
Context (cfg : DispatchConfig) (p : Poller).

Lemma poll_begin_inv w b w' :
  0 <= pl_batch_size p -> poll_begin p w = (Ok b, w') ->
  batch_inv p (bt_queue b) (vec_len (bt_runs b)) b /\ bt_cancelled b = false /\ bt_pc b = AtTop /\ bt_flights b = [].
Proof.
  intros Hb. unfold poll_begin.
  destruct (if has_pending_completions _ then _ else _) as [[completed [[]|]] w1]; try done.
  destruct (source_snapshot p w1) as [[[|x programs]|e] w2]; [| |done]; intros [= <- <-];
    (split; [|done]); split; cbn; unfold vec_len, MAX_POLL_CONCURRENCY; cbn; try done; lia.
Qed.

(** A batch always ends, within bounds: from the state [poll_batch] starts its
    loop in, whatever the order in which dispatches finish, panic or are cancelled,
    no execution is longer than ten steps per program and four more, and a batch
    that has not returned can go on; at most 16 dispatches are ever in flight, the
    runs never exceed the batch size (or the retried ones), and each program is
    dispatched at most once, in the rotated order. *)
Theorem poll_batch_ends w b0 w' n b s :
  0 <= pl_batch_size p -> poll_begin p w = (Ok b0, w') ->
  nsteps (step cfg p) n (b0, pw_disp w') (b, s) ->
  (n <= 10 * length (bt_queue b0) + 4)%nat
  /\ (bt_pc b <> Ended -> exists y, step cfg p (b, s) y)
  /\ vec_len (bt_flights b) <= MAX_POLL_CONCURRENCY
  /\ vec_len (bt_runs b) <= Z.max (vec_len (bt_runs b0)) (pl_batch_size p)
  /\ bt_spawned b ++ (bt_queue b).*1 = (bt_queue b0).*1
  /\ (bt_pc b = Ended -> bt_flights b = []).
Proof.
  intros Hb Hp Hn. destruct (poll_begin_inv _ _ _ Hb Hp) as (Hi & Hc & Hpc & Hf).
  assert (batch_weight b0 = 10 * length (bt_queue b0) + 4)%nat as Hw0.
  { unfold batch_weight. rewrite Hc, Hpc, Hf. cbn. lia. }
  pose proof (nsteps_weight cfg p _ _ _ Hn) as Hw. cbn [fst] in Hw.
  destruct (batch_inv_steps cfg p _ _ _ _ (rtc_nsteps_2 _ _ _ Hn) Hi) as [H1 H2 H3 H4 H5 H6 H7]. cbn [fst] in *.
  split; [lia|]. split; [apply batch_progress|]. split; [done|]. split; [|split; [done|apply H7]].
  unfold vec_len in *. lia.
Qed.

(** [k] polls of an unchanged registry from a cursor, each of which returns without
    a failure, is not cancelled and had no completion to retry. The dispatcher and
    the store change freely between them; the ids are those each poll dispatches. *)
Inductive healthy_polls (reg : Registry.RegistryState) : nat -> Z -> list (list TaskId) -> Prop :=
| healthy_done c : healthy_polls reg 0 c []
| healthy_poll k w b0 w' b s rest :
    pw_registry w = reg -> has_pending_completions (pw_disp w) = false ->
    poll_begin p w = (Ok b0, w') -> rtc (step cfg p) (b0, pw_disp w') (b, s) ->
    bt_pc b = Ended -> bt_failure b = None -> bt_cancelled b = false ->
    healthy_polls reg k (pw_cursor w') rest ->
    healthy_polls reg (S k) (pw_cursor w) (bt_spawned b :: rest).

(** What one healthy poll dispatches: the first programs from the cursor on. *)
Lemma healthy_poll_dispatches w b0 w' b s (q : Z) x :
  pl_source p = Memory -> 1 <= pl_batch_size p ->
  let programs := Registry.snapshot (pw_registry w) in
  has_pending_completions (pw_disp w) = false ->
  poll_begin p w = (Ok b0, w') -> rtc (step cfg p) (b0, pw_disp w') (b, s) ->
  bt_pc b = Ended -> bt_failure b = None -> bt_cancelled b = false ->
  0 <= q < vec_len programs -> q < pl_batch_size p ->
  programs !! Z.to_nat ((pw_cursor w mod vec_len programs + q) mod vec_len programs) = Some x ->
  x.1 ∈ bt_spawned b.
Proof.
  intros Hm Hb programs Hpend Hp Hr Hend Hfail Hcan Hq Hqb Hx.
  destruct (poll_begin_inv _ _ _ ltac:(lia) Hp) as (Hi & _).
  destruct (batch_inv_steps cfg p _ _ _ _ Hr Hi) as [H1 _ H3 _ _ _ H7]. cbn in *.
  destruct (H7 Hend) as (Hf & Hstop). rewrite Hf in H3.
  revert Hp. unfold poll_begin, source_snapshot. rewrite Hpend, Hm. fold programs.
  destruct programs as [|y l] eqn:El; [unfold vec_len in Hq; cbn in Hq; lia|]. rewrite <- El in *.
  intros [= <- <-]. cbn [bt_queue bt_runs] in *.
  rewrite <- rotate_lookup in Hx by (try done; apply Z.mod_pos_bound; lia).
  assert ((rotate_left (pw_cursor w mod vec_len programs) programs).*1 !! Z.to_nat q = Some x.1) as Hx1
    by (by rewrite list_lookup_fmap, Hx).
  rewrite <- H1 in Hx1. apply lookup_app_Some in Hx1 as [Hin|[Hlen Hin]]; [by eapply list_elem_of_lookup_2|].
  destruct Hstop as [Hq0|[|[|Hrun]]]; [by rewrite Hq0 in Hin|congruence|congruence|].
  unfold vec_len in *. cbn in *. lia.
Qed.

Lemma snapshot_lookup reg id script :
  Registry.programs reg !! id = Some script ->
  exists j, 0 <= j < vec_len (Registry.snapshot reg)
    /\ Registry.snapshot reg !! Z.to_nat j = Some (id, script).
Proof.
  intros H%elem_of_map_to_list. assert ((id, script) ∈ Registry.snapshot reg) as Hin
    by (unfold Registry.snapshot; by rewrite order_by_perm).
  apply list_elem_of_lookup_1 in Hin as [i Hi]. exists (Z.of_nat i). rewrite Nat2Z.id. split; [|done].
  apply lookup_lt_Some in Hi. unfold vec_len. lia.
Qed.

Lemma poll_begin_cursor w b0 w' :
  pl_source p = Memory -> has_pending_completions (pw_disp w) = false ->
  0 < vec_len (Registry.snapshot (pw_registry w)) -> poll_begin p w = (Ok b0, w') ->
  pw_cursor w' = (pw_cursor w + pl_batch_size p) mod 2 ^ 64.
Proof.
  intros Hm Hpend Hn. unfold poll_begin, source_snapshot. rewrite Hpend, Hm.
  destruct (Registry.snapshot _); [done|]. by intros [= _ <-].
Qed.

(** The distance of a program from the cursor shrinks by a batch with every poll. *)
Lemma healthy_reaches reg k c ids (j : Z) x :
  pl_source p = Memory -> 1 <= pl_batch_size p ->
  healthy_polls reg k c ids -> 0 <= c -> c + Z.of_nat k * pl_batch_size p < 2 ^ 64 ->
  let n := vec_len (Registry.snapshot reg) in
  0 <= j < n -> Registry.snapshot reg !! Z.to_nat j = Some x ->
  (j - c) mod n < Z.of_nat k * pl_batch_size p -> exists l, l ∈ ids /\ x.1 ∈ l.
Proof.
  intros Hm Hb Hpolls. cbn zeta. set (n := vec_len _).
  induction Hpolls as [c|k w b0 w' b s rest Hreg Hpend Hp Hr He Hf Hc Hrest IH]; intros Hc0 Hmax Hj Hx Hd.
  { pose proof (Z.mod_pos_bound (j - c) n). lia. }
  pose proof (Z.mod_pos_bound (j - pw_cursor w) n ltac:(lia)) as Hbound. set (o := (j - pw_cursor w) mod n) in *.
  assert (forall q, 0 <= q < n -> q < pl_batch_size p ->
    Registry.snapshot reg !! Z.to_nat ((pw_cursor w mod n + q) mod n) = Some x ->
    x.1 ∈ bt_spawned b) as Hone.
  { intros q Hq Hqb Hl. subst n. rewrite <- Hreg in *. by eapply healthy_poll_dispatches. }
  destruct (decide (o < pl_batch_size p)) as [Ho|Ho].
  - exists (bt_spawned b). split; [left|]. apply (Hone o); [done|done|]. subst o.
    rewrite <- Zplus_mod. replace (pw_cursor w + (j - pw_cursor w)) with j by lia. by rewrite Z.mod_small.
  - assert (pw_cursor w' = pw_cursor w + pl_batch_size p) as Hcur.
    { rewrite (poll_begin_cursor w b0 w'), Z.mod_small; [done|lia|done|done| |done]. rewrite Hreg. fold n. lia. }
    destruct IH as (l & Hl & Hxl); [lia|lia|done|done| |exists l; split; [by right|done]].
    rewrite Hcur. replace (j - (pw_cursor w + pl_batch_size p)) with ((j - pw_cursor w) - pl_batch_size p) by lia.
    rewrite <- Zminus_mod_idemp_l. fold o. rewrite Z.mod_small; lia.
Qed.

(** C10. Polling is fair: for as long as the registry is unchanged and polls are
    healthy, and the cursor does not wrap, every registered program is dispatched
    within [k] polls once [k] batches are at least as many as the programs, wherever
    the cursor stood and in whatever order dispatches finish. *)
Theorem every_program_dispatched reg k c ids id script :
  pl_source p = Memory -> 1 <= pl_batch_size p -> 0 <= c -> c + Z.of_nat k * pl_batch_size p < 2 ^ 64 ->
  vec_len (Registry.snapshot reg) <= Z.of_nat k * pl_batch_size p ->
  Registry.programs reg !! id = Some script -> healthy_polls reg k c ids ->
  exists l, l ∈ ids /\ id ∈ l.
Proof.
  intros Hm Hb Hc Hmax Hk Hid Hpolls. destruct (snapshot_lookup _ _ _ Hid) as (j & Hj & Hx).
  destruct (healthy_reaches reg k c ids j (id, script)) as (l & Hl); try done; [|eauto].
  pose proof (Z.mod_pos_bound (j - c) (vec_len (Registry.snapshot reg))). lia.
Qed.

End Polls.

(** ** The supervised loop *)

Lemma base_ms_bounds attempt : 1 <= attempt -> 200 <= base_ms attempt <= 5000.
Proof.
  intros H. unfold base_ms, saturating_sub, u64_max. set (k := Z.min _ 5).
  assert (0 <= k <= 5) as Hk by (subst k; lia). rewrite Z.shiftl_mul_pow2 by lia.
  assert (1 <= 2 ^ k <= 2 ^ 5) as Hp.
  { split; [|by apply Z.pow_le_mono_r; lia]. pose proof (Z.pow_pos_nonneg 2 k). lia. }
  lia.
Qed.

Lemma backoff_bounds attempt nanos : 1 <= attempt -> 200 <= backoff_ms attempt nanos <= 6250.
Proof.
  intros H. pose proof (base_ms_bounds attempt H). unfold backoff_ms.
  pose proof (Z.mod_pos_bound nanos (base_ms attempt / 4 + 1)).
  pose proof (Z.div_le_mono (base_ms attempt) 5000 4). pose proof (Z.div_pos (base_ms attempt) 4).
  change (5000 / 4) with 1250 in *. lia.
Qed.

(** The runs a batch returned, with its result or with its error. *)
Definition round_runs (rd : Round) : list DurableRun :=
  match rd_batch rd with Ok runs => runs | Err e => (deliver_runs e).1 end.
Definition action_run (a : Action) : option DurableRun := match a with AcRun r => Some r | _ => None end.
Definition wait_ok (p : Poller) (a : Action) : Prop :=
  match a with
  | AcWait d true => d = pl_interval p
  | AcWait d false => 200 * 1000000 <= d <= 6250 * 1000000
  | _ => True
  end.

(** Why the loop has polled [m] rounds: there are no more, shutdown is seen at the top
    of the next or in the wait of the last, or the last failed for good. *)
Definition stopped_at (m : nat) (rounds : list Round) (returned : option (result PollerError ())) : Prop :=
  match returned with
  | None => (length rounds <= m)%nat
  | Some (Ok _) =>
      (exists rd, rounds !! m = Some rd /\ rd_cancelled rd = true)
      \/ (exists i rd, m = S i /\ rounds !! i = Some rd /\ rd_cancelled_waiting rd = true)
  | Some (Err e) => exists i rd e0, m = S i /\ rounds !! i = Some rd /\ rd_batch rd = Err e0
      /\ (deliver_runs e0).2 = e /\ poller_is_retryable e = false
  end.

Lemma stopped_at_cons m rd rounds returned : stopped_at m rounds returned -> stopped_at (S m) (rd :: rounds) returned.
Proof.
  destruct returned as [[u|e]|]; cbn [stopped_at].
  - intros [H|(i & r & -> & H)]; [by left|]. right. by exists (S i), r.
  - intros (i & r & e0 & -> & H). by exists (S i), r, e0.
  - cbn. lia.
Qed.

(** What is shown of the actions of [rounds]: the runs of the first [m] rounds. *)
Definition supervised (p : Poller) (rounds : list Round) (out : list Action * option (result PollerError ())) : Prop :=
  Forall (wait_ok p) out.1
  /\ exists m, omap action_run out.1 = concat (map round_runs (take m rounds))
     /\ stopped_at m rounds out.2.

Lemma delivered_actions (p : Poller) runs : omap action_run (map AcRun runs) = runs /\ Forall (wait_ok p) (map AcRun runs).
Proof.
  induction runs as [|r runs [IH1 IH2]]; cbn; [by split|]. split; [by rewrite IH1|by constructor].
Qed.

(** A round that waits, and the rest of the loop. *)
Lemma supervised_round p rd rounds before d listening out :
  omap action_run before = round_runs rd -> Forall (wait_ok p) before -> wait_ok p (AcWait d listening) ->
  supervised p rounds out ->
  supervised p (rd :: rounds)
    (if rd_cancelled_waiting rd then (before ++ [AcWait d listening], Some (Ok ()))
     else let '(rest, r) := out in ((before ++ [AcWait d listening]) ++ rest, r)).
Proof.
  intros Hb Hw Hd (Ho & m & Hm & Hr). assert (Forall (wait_ok p) (before ++ [AcWait d listening])) as Hbw.
  { apply list.Forall_app. split; [done|]. by constructor. }
  destruct (rd_cancelled_waiting rd) eqn:Ew.
  - split; [done|]. exists 1%nat. split; [cbn [fst]; rewrite omap_app, Hb; cbn; by destruct rounds|].
    right. by exists 0%nat, rd.
  - destruct out as [rest r]. cbn [fst snd] in *. split; [by apply list.Forall_app|]. exists (S m). split.
    + cbn. by rewrite !omap_app, Hb, Hm, app_nil_r.
    + by apply stopped_at_cons.
Qed.

Lemma supervised_run p attempt rounds : 0 <= attempt -> supervised p rounds (run_supervised p attempt rounds).
Proof.
  induction rounds as [|rd rounds IH] in attempt |- *; intros Ha; cbn [run_supervised].
  { split; [done|]. exists 0%nat. split; [done|cbn; lia]. }
  destruct (rd_cancelled rd) eqn:Er; [split; [done|]; exists 0%nat; split; [done|left; by exists rd]|].
  destruct (rd_batch rd) as [runs|e] eqn:Eb.
  - destruct (delivered_actions p runs) as [Hr Hw].
    apply supervised_round; [| |done|by apply IH]; unfold round_runs; rewrite ?Eb.
    + rewrite omap_app, Hr. by destruct (0 <? attempt).
    + apply list.Forall_app. split; [|done]. destruct (0 <? attempt); [by repeat constructor|done].
  - destruct (deliver_runs e) as [delivered e'] eqn:Ed. destruct (delivered_actions p delivered) as [Hr Hw].
    assert (round_runs rd = delivered) as Hrd by (unfold round_runs; by rewrite Eb, Ed).
    assert (forall h, omap action_run (map AcRun delivered ++ [AcHealth h]) = delivered
      /\ Forall (wait_ok p) (map AcRun delivered ++ [AcHealth h])) as Hh.
    { intros h. rewrite omap_app, Hr. cbn. rewrite app_nil_r. split; [done|]. apply list.Forall_app. by repeat constructor. }
    destruct (poller_is_retryable e') eqn:Ep.
    + set (a := saturating_add u32_max attempt 1). assert (1 <= a) as Ha1 by (subst a; unfold saturating_add, u32_max; lia).
      apply supervised_round; [by rewrite Hrd; apply Hh|apply Hh| |by apply IH; lia].
      replace (a =? 0) with false by lia. cbn. pose proof (backoff_bounds a (rd_nanos rd) Ha1). lia.
    + split; [apply Hh|]. exists 1%nat. split; [|exists 0%nat, rd, e; by rewrite Ed].
      cbn [fst]. rewrite (proj1 (Hh Failed)). cbn. by rewrite take_0, app_nil_r, Hrd.
Qed.

(** The supervised loop delivers the runs of every batch, of failed batches
    too, exactly once and in order, up to the iteration it returns in; its wait
    after a retryable failure is between 200 ms and 6.25 s and deaf to wakeups, and
    the poll interval otherwise. *)
Theorem supervised_delivers p rounds :
  let '(actions, returned) := run_supervised p 0 rounds in
  Forall (wait_ok p) actions
  /\ exists m, omap action_run actions = concat (map round_runs (take m rounds))
     /\ stopped_at m rounds returned.
Proof.
  pose proof (supervised_run p 0 rounds ltac:(lia)) as H. by destruct (run_supervised p 0 rounds).
Qed.

(** ** Two polls of three programs, two at a time *)

#[local] Existing Instance sample_json.
#[local] Existing Instance sample_sha.
#[local] Instance sample_poll_tree : SerdeTree sample_json := {|
  JNum := Z; json_tree v := JString v;
  json_of_tree t := match t with JString s => s | _ => "null" end;
  number_from_f64 b := Some b; number_from_u8 b := b; number_as_f64 n := Some n |}%string.
#[local] Instance sample_poll_env : DispatchEnv := {|
  env_now _ := 50; env_clock _ _ := 50; env_entropy _ := "entropy0entropy0"; env_fault _ := None |}%string.
#[local] Instance sample_poll_engine : DurableEngine := {|
  eval_durable _ _ h := (Ok (VString "done"), h); eval_durable_module _ _ _ h := (Ok (VString "done"), h) |}%string.

Definition sample_poll_config : DispatchConfig :=
  {| dd_owner := "owner"; dd_lease_duration_ms := 60000; dd_isolate := IsolateConfig_default |}.
Definition sample_poller : Poller :=
  {| pl_source := Memory; pl_execution := PxScript; pl_interval := 1; pl_batch_size := 2 |}.
Definition sample_registry : Registry.RegistryState :=
  foldl (fun s x => (Registry.register x.1 x.2 s).2) Registry.default_state [(7, "a"); (8, "b"); (9, "c")]%string.
Definition sample_world (c : Z) : PollWorld := {|
  pw_disp := {| dd_db := empty_db; dd_pending := ∅; dd_slots := 0; dd_calls := 0 |};
  pw_registry := sample_registry; pw_cursor := c |}.

Definition sample_batch (c : Z) : Batch :=
  match (poll_begin sample_poller (sample_world c)).1 with
  | Ok b => b
  | Err _ => {| bt_pc := Ended; bt_queue := []; bt_flights := []; bt_runs := []; bt_failure := None;
                bt_cancelled := true; bt_spawned := [] |}
  end.
Definition sample_after (c : Z) : Batch * Disp :=
  drive sample_poll_config sample_poller 34 (sample_batch c, pw_disp (poll_begin sample_poller (sample_world c)).2).

Lemma sample_healthy : healthy_polls sample_poll_config sample_poller sample_registry 2 1
  [bt_spawned (sample_after 1).1; bt_spawned (sample_after 3).1].
Proof.
  assert (forall c, c = 1 \/ c = 3 -> let w := sample_world c in
    has_pending_completions (pw_disp w) = false
    /\ poll_begin sample_poller w = (Ok (sample_batch c), (poll_begin sample_poller w).2)
    /\ bt_pc (sample_after c).1 = Ended /\ bt_failure (sample_after c).1 = None
    /\ bt_cancelled (sample_after c).1 = false) as H.
  { intros c [->| ->]; vm_compute; auto. }
  assert (forall k c rest, c = 1 \/ c = 3 ->
    healthy_polls sample_poll_config sample_poller sample_registry k (pw_cursor (poll_begin sample_poller (sample_world c)).2) rest ->
    healthy_polls sample_poll_config sample_poller sample_registry (S k) c (bt_spawned (sample_after c).1 :: rest)) as Hone.
  { intros k c rest Hc Hrest. destruct (H c Hc) as (H1 & H2 & H3 & H4 & H5).
    eapply (healthy_poll _ _ _ k (sample_world c) _ _ _ (sample_after c).2); try done.
    rewrite <- surjective_pairing. apply drive_steps. }
  apply Hone; [auto|]. replace (pw_cursor _) with 3 by (vm_compute; reflexivity). apply Hone; [auto|].
  constructor.
Qed.

Lemma every_program_dispatched_witness :
  exists l, l ∈ [bt_spawned (sample_after 1).1; bt_spawned (sample_after 3).1] /\ 9 ∈ l.
Proof.
  apply (every_program_dispatched sample_poll_config sample_poller sample_registry 2 1 _ 9 "c").
  - reflexivity.
  - vm_compute; discriminate.
  - lia.
  - vm_compute; reflexivity.
  - vm_compute; discriminate.
  - vm_compute; reflexivity.
  - exact sample_healthy.
Defined.

Lemma poll_batch_ends_witness :
  bt_pc (sample_batch 1) <> Ended /\ exists y, step sample_poll_config sample_poller
    (sample_batch 1, pw_disp (poll_begin sample_poller (sample_world 1)).2) y.
Proof.
  assert (bt_pc (sample_batch 1) <> Ended) as H by (vm_compute; discriminate).
  split; [exact H|].
  apply (poll_batch_ends sample_poll_config sample_poller (sample_world 1) (sample_batch 1)
    (poll_begin sample_poller (sample_world 1)).2 0 (sample_batch 1)
    (pw_disp (poll_begin sample_poller (sample_world 1)).2)).
  - vm_compute; discriminate.
  - vm_compute; reflexivity.
  - constructor.
  - exact H.
Defined.
