(* ===== verification/Capability.v ===== *)
(** * Capabilities ([crates/tysel-capability/src/lib.rs], [crates/tysel-policy/src/lib.rs])

    Versioned interface imports, the registry that resolves an import to the newest
    compatible provider its caller may use, and the policy of an execution profile.
    The parser of semantic versions is a parameter. *)

From Stdlib Require Import ZArith Lia Ascii String Sorted.
From stdpp Require Import base tactics gmap strings list.
From S2P Require Import Prelude Bytes.
Open Scope Z_scope.

Definition MAX_CAPABILITY_ID_BYTES : Z := 128.
Definition MAX_INTERFACE_BYTES : Z := 128.
Definition MAX_CAPABILITY_IMPORT_BYTES : Z := 384.
Definition MAX_ABI_VERSION_BYTES : Z := 64.

Inductive TrustMode := TrustedService | IsolatedTask.
#[global] Instance TrustMode_eq_dec : EqDecision TrustMode.
Proof. solve_decision. Defined.

(** [semver::Version] as [AbiVersion::from_str] reads it. *)
Record SemVersion := { sv_major : Z; sv_minor : Z; sv_patch : Z; sv_pre : string; sv_build : string }.
Class Semver := { semver_parse : string -> option SemVersion }.

Record AbiVersion := { major : Z; minor : Z; patch : Z }.
#[global] Instance AbiVersion_eq_dec : EqDecision AbiVersion.
Proof. solve_decision. Defined.

Record CapabilityImport := { ci_id : string; ci_interface : string; ci_version : AbiVersion }.
Record CapabilityDescriptor := { cd_import : CapabilityImport; cd_trust_modes : list TrustMode }.

Inductive CapabilityRegistryError :=
| InvalidImport (source : string)
| InvalidCapabilityId (value : string)
| InvalidIdentifier (label value : string)
| InvalidVersion (source : string)
| NoTrustModes (import : string)
| Duplicate (import : string)
| Unknown (import : string)
| Incompatible (import : string)
| Denied (import : string).

(** The derived order, major first. *)
Definition version_ltb (a b : AbiVersion) : bool :=
  (major a <? major b)
  || ((major a =? major b) && ((minor a <? minor b)
       || ((minor a =? minor b) && (patch a <? patch b)))).

(** [AbiVersion::is_compatible_provider_for] *)
Definition is_compatible_provider_for (self requested : AbiVersion) : bool :=
  if version_ltb self requested || negb (major self =? major requested) then false
  else negb (major requested =? 0) || (minor self =? minor requested).

(** [impl Display for AbiVersion], [CapabilityImport] *)
Definition version_to_string (v : AbiVersion) : string :=
  dec_string (major v) ++ "." ++ dec_string (minor v) ++ "." ++ dec_string (patch v).
Definition import_to_string (i : CapabilityImport) : string :=
  ci_id i ++ "/" ++ ci_interface i ++ "@" ++ version_to_string (ci_version i).

Definition valid_identifier (value : string) : bool :=
  negb (str_is_empty value)
  && str_all (fun c => is_ascii_lowercase c || is_ascii_digit c || Ascii.eqb c "-") value.

Definition validate_capability_id (value : string) : result CapabilityRegistryError () :=
  match split_once ":" value with
  | None => Err (InvalidCapabilityId value)
  | Some (namespace, name) =>
      if (MAX_CAPABILITY_ID_BYTES <? len value) || negb (valid_identifier namespace) || negb (valid_identifier name)
      then Err (InvalidCapabilityId value) else Ok ()
  end.

Definition validate_identifier (label value : string) (maximum : Z) : result CapabilityRegistryError () :=
  if (maximum <? len value) || negb (valid_identifier value) then Err (InvalidIdentifier label value) else Ok ().

Section Parse.
Context {SV : Semver}.

(** [AbiVersion::from_str] *)
Definition version_from_str (source : string) : result CapabilityRegistryError AbiVersion :=
  if MAX_ABI_VERSION_BYTES <? len source then Err (InvalidVersion source)
  else
    match semver_parse source with
    | None => Err (InvalidVersion source)
    | Some v =>
        if negb (str_is_empty (sv_pre v)) || negb (str_is_empty (sv_build v)) then Err (InvalidVersion source)
        else Ok {| major := sv_major v; minor := sv_minor v; patch := sv_patch v |}
    end.

(** [CapabilityImport::from_str] *)
Definition import_from_str (source : string) : result CapabilityRegistryError CapabilityImport :=
  if MAX_CAPABILITY_IMPORT_BYTES <? len source then Err (InvalidImport source)
  else
    match rsplit_once "@" source with
    | None => Err (InvalidImport source)
    | Some (name, version) =>
        match split_once "/" name with
        | None => Err (InvalidImport source)
        | Some (id, interface) =>
            _ ← validate_capability_id id;
            _ ← validate_identifier "interface" interface MAX_INTERFACE_BYTES;
            v ← version_from_str version;
            Ok {| ci_id := id; ci_interface := interface; ci_version := v |}
        end
    end.

End Parse.

(** [CapabilityDescriptor::new]; the modes are collected into a set. *)
Definition descriptor_new (import : CapabilityImport) (modes : list TrustMode)
    : result CapabilityRegistryError CapabilityDescriptor :=
  match modes with
  | [] => Err (NoTrustModes (import_to_string import))
  | _ => Ok {| cd_import := import; cd_trust_modes := remove_dups modes |}
  end.

Definition cd_version (d : CapabilityDescriptor) : AbiVersion := ci_version (cd_import d).
Definition cd_key (d : CapabilityDescriptor) : string * string := (ci_id (cd_import d), ci_interface (cd_import d)).

(** [sort_by_key] of a sorted vector with one element pushed. *)
Fixpoint insert_version (d : CapabilityDescriptor) (l : list CapabilityDescriptor) : list CapabilityDescriptor :=
  match l with
  | [] => [d]
  | x :: l' => if version_ltb (cd_version d) (cd_version x) then d :: l else x :: insert_version d l'
  end.

Abbreviation CapabilityRegistry := (gmap (string * string) (list CapabilityDescriptor)).

(** The loop of [CapabilityRegistry::new] *)
Fixpoint registry_loop (entries : CapabilityRegistry) (ds : list CapabilityDescriptor)
    : result CapabilityRegistryError CapabilityRegistry :=
  match ds with
  | [] => Ok entries
  | d :: ds' =>
      let versions := default [] (entries !! cd_key d) in
      if existsb (fun x => bool_decide (cd_version x = cd_version d)) versions
      then Err (Duplicate (import_to_string (cd_import d)))
      else registry_loop (<[cd_key d := insert_version d versions]> entries) ds'
  end.
Definition registry_new := registry_loop ∅.

(** [CapabilityRegistry::resolve] *)
Definition resolve (r : CapabilityRegistry) (requested : CapabilityImport) (mode : TrustMode) (grants : gset string)
    : result CapabilityRegistryError CapabilityDescriptor :=
  let compatible d := is_compatible_provider_for (cd_version d) (ci_version requested) in
  if negb (bool_decide (ci_id requested ∈ grants)) then Err (Denied (import_to_string requested))
  else
    match r !! (ci_id requested, ci_interface requested) with
    | None => Err (Unknown (import_to_string requested))
    | Some versions =>
        if negb (existsb compatible versions) then Err (Incompatible (import_to_string requested))
        else
          ok_or (List.find (fun d => bool_decide (mode ∈ cd_trust_modes d))
                   (List.filter compatible (rev versions)))
            (Denied (import_to_string requested))
    end.

(** [CapabilityRegistry::len] *)
Definition capability_count (r : CapabilityRegistry) : Z := map_fold (fun _ l n => vec_len l + n) 0 r.

(** [effective_grants] *)
Definition effective_grants (build application deployment : gset string) : gset string :=
  filter (fun id => id ∈ deployment) (build ∩ application).

(** ** The policy of a profile *)

Module Policy.

Inductive Cap := Sleep | Echo | SecretRef | ReadBody | Fetch | Sqlite | WebSocket | Postgres | Redis | Fs | Llm.

(** [Policy::from_profile]; a policy is its trust mode. *)
Definition from_profile (profile : string) : TrustMode :=
  if eq_ignore_ascii_case profile "isolated" then IsolatedTask else TrustedService.

Definition app_allows (mode : TrustMode) (cap : Cap) : bool :=
  match mode with
  | IsolatedTask => match cap with Sleep | Echo | SecretRef | ReadBody => true | _ => false end
  | TrustedService =>
      match cap with
      | Sleep | Echo | SecretRef | ReadBody | Fetch | Sqlite | WebSocket | Postgres | Redis | Fs | Llm => true
      end
  end.

(** [build_allows], [deployment_allows], [os_allows] *)
Definition build_allows (_ : Cap) : bool := true.
Definition deployment_allows (_ : Cap) : bool := true.
Definition os_allows (_ : Cap) : bool := true.

(** [Policy::allows] *)
Definition allows (mode : TrustMode) (cap : Cap) : bool :=
  build_allows cap && app_allows mode cap && deployment_allows cap && os_allows cap.

(** [Policy::deny_message], [Policy::require] *)
Definition deny_message (mode : TrustMode) : string :=
  match mode with
  | IsolatedTask => "capability is not available in the isolated profile"
  | TrustedService => "capability is not available"
  end.
Definition require (mode : TrustMode) (cap : Cap) : result string () :=
  if allows mode cap then Ok () else Err (deny_message mode).

End Policy.
