(* ===== verification/CapabilityThms.v ===== *)
(** * Correctness of capability resolution and of import names *)

From Stdlib Require Import ZArith Lia Ascii String Sorted.
From stdpp Require Import base tactics gmap strings sorting list.
From S2P Require Import Prelude Bytes Capability.
Open Scope Z_scope.

(** ** The order of versions *)

Lemma version_ltb_true a b :
  version_ltb a b = true <->
  major a < major b \/ (major a = major b /\ (minor a < minor b \/ (minor a = minor b /\ patch a < patch b))).
Proof. unfold version_ltb. rewrite orb_true_iff, andb_true_iff, orb_true_iff, andb_true_iff. lia. Qed.

Definition older (d1 d2 : CapabilityDescriptor) : Prop := version_ltb (cd_version d1) (cd_version d2) = true.

#[global] Instance older_trans : Transitive older.
Proof. unfold older. intros x y z. rewrite !version_ltb_true. lia. Qed.

Lemma older_irrefl d : ~ older d d.
Proof. unfold older. rewrite version_ltb_true. lia. Qed.

Lemma older_total d1 d2 : cd_version d1 <> cd_version d2 -> ~ older d1 d2 -> older d2 d1.
Proof.
  unfold older. rewrite !version_ltb_true. destruct (cd_version d1) as [a b c], (cd_version d2) as [x y z]; cbn.
  intros Hne Hn. assert (a <> x \/ b <> y \/ c <> z); [|lia].
  destruct (decide (a = x)), (decide (b = y)), (decide (c = z)); subst; auto.
Qed.

(** ** The registry *)

Lemma insert_version_elem d l x : x ∈ insert_version d l <-> x = d \/ x ∈ l.
Proof.
  induction l as [|y l IH]; cbn; [by rewrite list_elem_of_singleton, elem_of_nil; naive_solver|].
  destruct (version_ltb _ _); rewrite !elem_of_cons; [done|]. rewrite IH. naive_solver.
Qed.

Lemma insert_version_sorted d l :
  StronglySorted older l -> (forall x, x ∈ l -> cd_version x <> cd_version d) -> StronglySorted older (insert_version d l).
Proof.
  induction 1 as [|y l Hs IH Hy]; intros Hd; cbn; [by repeat constructor|].
  destruct (version_ltb (cd_version d) (cd_version y)) eqn:E.
  - constructor; [by constructor|]. constructor; [done|]. eapply list.Forall_impl; [exact Hy|].
    intros x Hx. by etransitivity.
  - constructor; [apply IH; intros x Hx; apply Hd; by right|].
    apply list.Forall_forall. intros x [->|Hx]%insert_version_elem.
    + apply older_total; [apply not_eq_sym, Hd; left|]. unfold older. by rewrite E.
    + by apply (proj1 (list.Forall_forall _ _) Hy).
Qed.

(** Each entry lists the descriptors of its key, oldest first. *)
Definition registry_of (ds : list CapabilityDescriptor) (r : CapabilityRegistry) : Prop := forall k,
  match r !! k with
  | Some l => l <> [] /\ StronglySorted older l /\ forall d, d ∈ l <-> d ∈ ds /\ cd_key d = k
  | None => forall d, d ∈ ds -> cd_key d <> k
  end.

Lemma registry_loop_of done_ r ds r' :
  registry_of done_ r -> registry_loop r ds = Ok r' -> registry_of (done_ ++ ds) r'.
Proof.
  induction ds as [|d ds IH] in done_, r |- *; intros Hr; cbn [registry_loop].
  { rewrite app_nil_r. by intros [= <-]. }
  destruct (existsb _ _) eqn:Ee; [done|]. intros E.
  replace (done_ ++ d :: ds) with ((done_ ++ [d]) ++ ds) by (by rewrite <- app_assoc).
  eapply IH; [|exact E]. clear IH E. intros k. specialize (Hr k).
  destruct (decide (k = cd_key d)) as [->|Hk].
  - rewrite lookup_insert_eq. set (l := default [] (r !! cd_key d)) in *.
    assert (StronglySorted older l /\ forall x, x ∈ l <-> x ∈ done_ /\ cd_key x = cd_key d) as [Hs Hl].
    { subst l. destruct (r !! cd_key d) as [l|]; cbn; [tauto|]. split; [constructor|].
      intros x. rewrite elem_of_nil. split; [done|]. intros [Hx He]. exact (Hr x Hx He). }
    assert (forall x, x ∈ l -> cd_version x <> cd_version d) as Hd.
    { intros x Hx He. apply not_true_iff_false in Ee. apply Ee, existsb_exists. exists x.
      split; [by apply list_elem_of_In|by apply bool_decide_eq_true]. }
    split; [|split; [by apply insert_version_sorted|]].
    + intros Hn. assert (d ∈ insert_version d l) as Hin by (apply insert_version_elem; by left).
      rewrite Hn in Hin. by apply elem_of_nil in Hin.
    + intros x. rewrite insert_version_elem, Hl, elem_of_app, list_elem_of_singleton. intuition congruence.
  - rewrite lookup_insert_ne by done. destruct (r !! k) as [l|].
    + destruct Hr as (H1 & H2 & H3). do 2 (split; [done|]). intros x.
      rewrite H3, elem_of_app, list_elem_of_singleton. intuition congruence.
    + intros x [Hx|Hx]%elem_of_app; [auto|]. apply list_elem_of_singleton in Hx as ->. congruence.
Qed.

Lemma registry_new_of ds r : registry_new ds = Ok r -> registry_of ds r.
Proof. intros E. apply (registry_loop_of [] ∅ ds r); [|done]. intros k. rewrite lookup_empty. by intros d ?%elem_of_nil. Qed.

(** ** Resolution *)

Lemma find_filter {A} (f g : A -> bool) l : List.find g (List.filter f l) = List.find (fun x => f x && g x) l.
Proof. induction l as [|x l IH]; cbn; [done|]. destruct (f x); cbn; [by destruct (g x)|done]. Qed.

Lemma find_rev_newest (f : CapabilityDescriptor -> bool) l :
  StronglySorted older l ->
  match List.find f (rev l) with
  | Some d => d ∈ l /\ f d = true /\ forall x, x ∈ l -> f x = true -> ~ older d x
  | None => forall x, x ∈ l -> f x = false
  end.
Proof.
  intros Hs. destruct (List.find f (rev l)) as [d|] eqn:E.
  - assert (forall m, List.find f m = Some d -> exists m1 m2, m = m1 ++ d :: m2 /\ f d = true
      /\ forall x, x ∈ m1 -> f x = false) as Hfind.
    { induction m as [|y m IH]; cbn; [done|]. destruct (f y) eqn:Ey.
      - intros [= ->]. exists [], m. split; [done|]. split; [done|]. by intros x ?%elem_of_nil.
      - intros (m1 & m2 & -> & Hd & Hm)%IH. exists (y :: m1), m2. split; [done|]. split; [done|].
        by intros x [->|Hx]%elem_of_cons; [|apply Hm]. }
    destruct (Hfind _ E) as (m1 & m2 & Hrev & Hd & Hm).
    assert (l = rev m2 ++ d :: rev m1) as ->.
    { rewrite <- (rev_involutive l), Hrev, rev_app_distr. cbn. by rewrite <- app_assoc. }
    split; [apply elem_of_app; right; left|]. split; [done|]. intros x Hx Hfx Hold.
    apply elem_of_app in Hx as [Hx|[->|Hx]%elem_of_cons].
    + apply (older_irrefl d). etransitivity; [exact Hold|].
      apply (StronglySorted_app_1_elem_of _ _ _ x d Hs Hx). left.
    + by apply (older_irrefl d).
    + rewrite Hm in Hfx; [done|]. apply list_elem_of_In. apply list_elem_of_In in Hx. by apply in_rev.
  - intros x Hx. apply (List.find_none _ _ E). rewrite <- in_rev. by apply list_elem_of_In.
Qed.

Lemma sorted_compare l x y :
  StronglySorted older l -> x ∈ l -> y ∈ l -> x <> y -> ~ older y x -> older x y.
Proof.
  induction 1 as [|z l Hs IH Hz]; intros Hx Hy Hne Hn; [by apply elem_of_nil in Hx|].
  rewrite list.Forall_forall in Hz.
  apply elem_of_cons in Hx as [->|Hx], Hy as [->|Hy]; [done|by apply Hz|by destruct Hn; apply Hz|by apply IH].
Qed.

(** A provider of the requested interface, one compatible with the request, and one
    the caller's trust mode may use. *)
Definition provides (ds : list CapabilityDescriptor) (requested : CapabilityImport) (d : CapabilityDescriptor) : Prop :=
  d ∈ ds /\ cd_key d = (ci_id requested, ci_interface requested).
Definition fits (ds : list CapabilityDescriptor) (requested : CapabilityImport) (d : CapabilityDescriptor) : Prop :=
  provides ds requested d /\ is_compatible_provider_for (cd_version d) (ci_version requested) = true.
Definition usable (ds : list CapabilityDescriptor) (requested : CapabilityImport) (mode : TrustMode)
    (d : CapabilityDescriptor) : Prop :=
  fits ds requested d /\ mode ∈ cd_trust_modes d.

(** C31. Resolution is exact and fails closed: it answers with the newest of the
    registered providers of the interface that are compatible with the request and
    open to the caller's trust mode, and only when the capability is granted; each
    error names the first of its conditions that fails. *)
Theorem resolve_exact ds r requested mode grants :
  registry_new ds = Ok r ->
  match resolve r requested mode grants with
  | Ok d => ci_id requested ∈ grants /\ usable ds requested mode d
      /\ forall d', usable ds requested mode d' -> d' <> d -> older d' d
  | Err (Denied s) => s = import_to_string requested
      /\ (ci_id requested ∉ grants
          \/ ((exists d, fits ds requested d) /\ forall d, ~ usable ds requested mode d))
  | Err (Unknown s) => s = import_to_string requested /\ ci_id requested ∈ grants /\ forall d, ~ provides ds requested d
  | Err (Incompatible s) => s = import_to_string requested /\ ci_id requested ∈ grants
      /\ (exists d, provides ds requested d) /\ forall d, ~ fits ds requested d
  | Err _ => False
  end.
Proof.
  intros Hn. pose proof (registry_new_of _ _ Hn (ci_id requested, ci_interface requested)) as Hr. unfold resolve.
  case_bool_decide as Hg; cbn [negb]; [|auto].
  destruct (r !! _) as [l|]; [|split; [done|]; split; [done|]; intros d [H1 H2]; exact (Hr d H1 H2)].
  destruct Hr as (Hne & Hs & Hl). assert (forall d, provides ds requested d <-> d ∈ l) as Hp by (intros d; symmetry; apply Hl).
  unfold usable, fits.
  set (compatible := fun d => is_compatible_provider_for (cd_version d) (ci_version requested)).
  destruct (existsb compatible l) eqn:Ee; cbn [negb].
  2: { split; [done|]. split; [done|]. split; [destruct l as [|x l]; [done|]; exists x; apply Hp; left|].
    intros d [Hd%Hp Hc]. apply not_true_iff_false in Ee. apply Ee, existsb_exists. exists d. by rewrite <- list_elem_of_In. }
  rewrite find_filter. pose proof (find_rev_newest (fun d => compatible d && bool_decide (mode ∈ cd_trust_modes d)) l Hs) as Hf.
  destruct (List.find _ (rev l)) as [d|]; cbn [ok_or].
  - destruct Hf as (Hd & [Hc Hm%bool_decide_eq_true]%andb_true_iff & Hnew). split; [done|]. split; [by rewrite Hp|].
    intros d' [[Hd'%Hp Hc'] Hm'] Hne'. apply (sorted_compare l d' d Hs Hd' Hd Hne').
    apply Hnew; [done|]. subst compatible. cbn. rewrite Hc'. by apply bool_decide_eq_true.
  - split; [done|]. right. split.
    + apply existsb_exists in Ee as (x & Hx & Hc). exists x. by rewrite Hp, list_elem_of_In.
    + intros d [[Hd%Hp Hc] Hm]. specialize (Hf d Hd). subst compatible. cbn in Hf. rewrite Hc in Hf.
      by rewrite bool_decide_true in Hf.
Qed.

Definition sample_descriptor (minor_ patch_ : Z) (modes : list TrustMode) : CapabilityDescriptor := {|
  cd_import := {| ci_id := "tysel:http"; ci_interface := "outgoing";
                  ci_version := {| major := 0; minor := minor_; patch := patch_ |} |};
  cd_trust_modes := modes |}.
Definition sample_descriptors : list CapabilityDescriptor :=
  [sample_descriptor 4 3 [TrustedService]; sample_descriptor 5 0 [TrustedService]; sample_descriptor 4 1 [TrustedService]].

(** The newest version of the requested minor is chosen. *)
Lemma resolve_exact_witness :
  let requested := cd_import (sample_descriptor 4 0 []) in
  ci_id requested ∈ ({["tysel:http"]} : gset string)
  /\ usable sample_descriptors requested TrustedService (sample_descriptor 4 3 [TrustedService]).
Proof.
  pose proof (resolve_exact sample_descriptors
    (match registry_new sample_descriptors with Ok r => r | Err _ => ∅ end)
    (cd_import (sample_descriptor 4 0 [])) TrustedService {["tysel:http"%string]} ltac:(vm_compute; reflexivity)) as H.
  replace (resolve _ _ _ _) with (Ok (E := CapabilityRegistryError) (sample_descriptor 4 3 [TrustedService])) in H
    by (vm_compute; reflexivity).
  destruct H as (H1 & H2 & _). exact (conj H1 H2).
Defined.

(** ** Import names *)

(** Documented behaviour of [semver]: three [u64] numbers with dots between parse to
    the version they print, with no prerelease and no build metadata. *)
Class SemverLaws (SV : Semver) : Prop := {
  semver_plain : forall v, 0 <= major v <= u64_max -> 0 <= minor v <= u64_max -> 0 <= patch v <= u64_max ->
    semver_parse (version_to_string v)
    = Some {| sv_major := major v; sv_minor := minor v; sv_patch := patch v; sv_pre := ""; sv_build := "" |};
}.

Lemma append_cons x a b : (String x a ++ b)%string = String x (a ++ b).
Proof. done. Qed.

Lemma split_once_app c a b :
  str_all (fun x => negb (Ascii.eqb x c)) a = true -> split_once c (a ++ String c b) = Some (a, b).
Proof.
  induction a as [|x a IH]; [intros _; change (EmptyString ++ ?y)%string with y|];
    rewrite ?append_cons; cbn [split_once str_all]; [by rewrite Ascii.eqb_refl|].
  intros [Hx%negb_true_iff Ha]%andb_true_iff. by rewrite Hx, IH.
Qed.

Lemma rsplit_once_none c b : str_all (fun x => negb (Ascii.eqb x c)) b = true -> rsplit_once c b = None.
Proof.
  induction b as [|x b IH]; cbn [rsplit_once str_all]; [done|].
  intros [Hx%negb_true_iff Hb]%andb_true_iff. by rewrite IH, Hx.
Qed.

Lemma rsplit_once_app c a b :
  str_all (fun x => negb (Ascii.eqb x c)) b = true -> rsplit_once c (a ++ String c b) = Some (a, b).
Proof.
  intros Hb. induction a as [|x a IH]; [change (EmptyString ++ ?y)%string with y|];
    rewrite ?append_cons; cbn [rsplit_once]; [by rewrite rsplit_once_none, Ascii.eqb_refl|by rewrite IH].
Qed.

Lemma str_all_impl (p q : ascii -> bool) s :
  (forall c, p c = true -> q c = true) -> str_all p s = true -> str_all q s = true.
Proof. intros H. induction s as [|c s IH]; cbn; [done|]. intros [Hc Hs]%andb_true_iff. rewrite H, IH; done. Qed.

Lemma dec_string_digits z : 0 <= z -> str_all is_ascii_digit (dec_string z) = true.
Proof.
  unfold dec_string. generalize (digits_needed 10 39 z). intros w. revert z.
  induction w as [|w IH]; intros z Hz; cbn [format_fixed]; [done|].
  rewrite str_all_append, IH by (apply Z.div_pos; lia). cbn.
  pose proof (Z.mod_pos_bound z 10 ltac:(lia)) as Hb. revert Hb. generalize (z mod 10). intros d Hd.
  assert (d = 0 \/ d = 1 \/ d = 2 \/ d = 3 \/ d = 4 \/ d = 5 \/ d = 6 \/ d = 7 \/ d = 8 \/ d = 9) as Hc by lia.
  repeat destruct Hc as [->|Hc]; [reflexivity..|]. by subst d.
Qed.

Lemma digits_needed_le f (k : nat) z : 0 <= z < 10 ^ Z.of_nat k -> (1 <= k)%nat -> (digits_needed 10 f z <= k)%nat.
Proof.
  revert k z. induction f as [|f IH]; intros k z Hz Hk; cbn [digits_needed]; [lia|].
  destruct (Z.ltb_spec z 10); [lia|]. destruct k as [|[|k]]; [lia|change (10 ^ Z.of_nat 1) with 10 in Hz; lia|].
  apply le_n_S, IH; [|lia]. split; [apply Z.div_pos; lia|]. apply Z.div_lt_upper_bound; [lia|].
  rewrite <- Z.pow_succ_r by lia. rewrite <- Nat2Z.inj_succ. apply Hz.
Qed.

Lemma dec_string_len z : 0 <= z <= u64_max -> len (dec_string z) <= 20.
Proof.
  intros Hz. unfold len, dec_string. rewrite format_fixed_length.
  pose proof (digits_needed_le 39 20 z). change (10 ^ Z.of_nat 20) with 100000000000000000000 in *. unfold u64_max in Hz. lia.
Qed.

Definition u64_version (v : AbiVersion) : Prop :=
  0 <= major v <= u64_max /\ 0 <= minor v <= u64_max /\ 0 <= patch v <= u64_max.

Lemma version_chars v (c : ascii) :
  u64_version v -> is_ascii_digit c = false -> c <> "."%char ->
  str_all (fun x => negb (Ascii.eqb x c)) (version_to_string v) = true.
Proof.
  intros (H1 & H2 & H3) Hd Hc. unfold version_to_string.
  assert (forall z, 0 <= z <= u64_max -> str_all (fun x => negb (Ascii.eqb x c)) (dec_string z) = true) as Hz.
  { intros z Hz. eapply str_all_impl; [|apply dec_string_digits; lia]. intros x Hx. apply negb_true_iff, Ascii.eqb_neq. congruence. }
  assert (str_all (fun x => negb (Ascii.eqb x c)) "." = true) as Hdot.
  { cbn [str_all]. rewrite andb_true_r. apply negb_true_iff, Ascii.eqb_neq. congruence. }
  by rewrite !str_all_append, !Hz, !Hdot by done.
Qed.

Lemma version_len v : u64_version v -> len (version_to_string v) <= 62.
Proof.
  intros (H1 & H2 & H3). unfold version_to_string. rewrite !len_append.
  change (len ".") with 1. pose proof (dec_string_len _ H1). pose proof (dec_string_len _ H2).
  pose proof (dec_string_len _ H3). lia.
Qed.

Lemma identifier_chars s (c : ascii) :
  valid_identifier s = true -> is_ascii_lowercase c = false -> is_ascii_digit c = false -> c <> "-"%char ->
  str_all (fun x => negb (Ascii.eqb x c)) s = true.
Proof.
  unfold valid_identifier. intros [_ Hs]%andb_true_iff Hl Hd Hc. eapply str_all_impl; [|exact Hs]. intros x Hx.
  apply negb_true_iff, Ascii.eqb_neq. intros ->. rewrite Hl, Hd in Hx. cbn [orb] in Hx. by apply Ascii.eqb_eq in Hx.
Qed.

Lemma split_once_Some c s a b : split_once c s = Some (a, b) -> s = (a ++ String c b)%string.
Proof.
  revert a. induction s as [|x s IH]; intros a; cbn [split_once]; [done|].
  destruct (Ascii.eqb x c) eqn:E; [apply Ascii.eqb_eq in E as ->; by intros [= <- <-]|].
  destruct (split_once c s) as [[l r]|]; [|done]. intros [= <- ->]. rewrite append_cons. f_equal. by apply IH.
Qed.

Lemma capability_id_chars id :
  validate_capability_id id = Ok () ->
  str_all (fun x => negb (Ascii.eqb x "/")) id = true /\ len id <= MAX_CAPABILITY_ID_BYTES.
Proof.
  unfold validate_capability_id. destruct (split_once ":" id) as [[ns name]|] eqn:E; [|done].
  destruct (_ || _) eqn:Eo; [done|]. intros _. apply split_once_Some in E as ->.
  apply orb_false_iff in Eo as [[Hl Hns%negb_false_iff]%orb_false_iff Hname%negb_false_iff].
  split; [|lia]. rewrite str_all_append, (identifier_chars ns) by done. cbn [str_all andb].
  by rewrite (identifier_chars name).
Qed.

(** Printing and parsing an import gives it back, for every import whose parts are
    valid; its text is within the limits of the parser. *)
Theorem import_roundtrip `{SV : Semver, !SemverLaws SV} i :
  validate_capability_id (ci_id i) = Ok () ->
  validate_identifier "interface" (ci_interface i) MAX_INTERFACE_BYTES = Ok () -> u64_version (ci_version i) ->
  import_from_str (import_to_string i) = Ok i.
Proof.
  intros Hid Hif Hv. destruct (capability_id_chars _ Hid) as [Hslash Hlen].
  assert (len (ci_interface i) <= MAX_INTERFACE_BYTES) as Hlif.
  { revert Hif. unfold validate_identifier. destruct (_ <? _) eqn:E; [done|lia]. }
  pose proof (version_len _ Hv) as Hlv. unfold import_from_str, import_to_string.
  rewrite !len_append. change (len "/") with 1. change (len "@") with 1.
  unfold MAX_CAPABILITY_ID_BYTES, MAX_INTERFACE_BYTES, MAX_CAPABILITY_IMPORT_BYTES in *.
  replace (384 <? _) with false by lia.
  replace (ci_id i ++ "/" ++ ci_interface i ++ "@" ++ version_to_string (ci_version i))%string
    with ((ci_id i ++ String "/" (ci_interface i)) ++ String "@" (version_to_string (ci_version i)))%string
    by (by rewrite append_assoc).
  rewrite rsplit_once_app by (by apply version_chars). rewrite split_once_app by done.
  rewrite Hid. cbn [mbind result_bind]. rewrite Hif. unfold version_from_str, MAX_ABI_VERSION_BYTES.
  replace (64 <? _) with false by lia. destruct Hv as (H1 & H2 & H3). rewrite (semver_plain _ H1 H2 H3).
  by destruct i as [? ? []].
Qed.
