(* ===== verification/FsCap.v ===== *)
(** * The filesystem capability ([crates/tysel-cap-fs/src/lib.rs])

    Paths are compared with the allowed roots by their components and opened
    relative to the root's directory. The kernel is a parameter: its answers may
    depend on the number of calls before, so other processes may change the tree
    between any two of them. Every file the process opens, reads, truncates or writes
    is in the trace. *)

From Stdlib Require Import ZArith Lia Ascii String.
From stdpp Require Import base tactics gmap strings list.
From S2P Require Import Prelude Bytes.
Open Scope Z_scope.

Definition MAX_BYTES : Z := 1048576.
Definition MAX_ROOTS_PER_OPERATION : Z := 64.

(** The flags the source passes, beside [O_CLOEXEC]. *)
Record OpenFlags := { of_nofollow : bool; of_directory : bool; of_write : bool; of_create : bool; of_nonblock : bool }.

(** System calls on open files; [None] is an error of that number's text. *)
Class Kernel := {
  node : Type;
  os_error : nat -> string;
  sys_current_dir : nat -> option string;
  sys_open : nat -> string -> OpenFlags -> option node;
  sys_openat : nat -> node -> string -> OpenFlags -> option node;
  (** with [RESOLVE_BENEATH], [RESOLVE_NO_SYMLINKS] and [RESOLVE_NO_MAGICLINKS] *)
  sys_openat2 : nat -> node -> string -> OpenFlags -> option node;
  sys_dup : nat -> node -> option node;
  sys_fstat : nat -> node -> option (bool * Z);
  sys_read : nat -> node -> option string;
  sys_truncate : nat -> node -> bool;
  sys_write : nat -> node -> string -> bool;
}.

(** ** Paths *)

Inductive Component := RootDir | CurDir | ParentDir | Normal (name : string).

(** [Path::components] of a Unix path: empty pieces and inner dots are skipped. *)
Definition piece_component (piece : string) : option Component :=
  if str_is_empty piece then None
  else if String.eqb piece "." then None
  else if String.eqb piece ".." then Some ParentDir
  else Some (Normal piece).
Definition components (path : string) : list Component :=
  let pieces := str_split "/" path in
  (if starts_with "/" path then [RootDir]
   else match pieces with p :: _ => if String.eqb p "." then [CurDir] else [] | [] => [] end)
  ++ omap piece_component pieces.

(** [lexical_components] *)
Fixpoint lexical_loop (cs : list Component) (out : list string) : result string (list string) :=
  match cs with
  | [] => Ok out
  | RootDir :: cs' | CurDir :: cs' => lexical_loop cs' out
  | ParentDir :: _ => Err "path is not permitted"%string
  | Normal name :: cs' =>
      if str_is_empty name || String.eqb name ".." then Err "path is not permitted"%string
      else lexical_loop cs' (out ++ [name])
  end.
Definition lexical_components (path : string) : result string (list string) := lexical_loop (components path) [].

(** [strip_prefix] *)
Definition strip_parts (path root : list string) : option (list string) :=
  if (length path <? length root)%nat then None
  else if existsb (fun p => negb (String.eqb p.1 p.2)) (zip path root) then None
  else Some (drop (length root) path).

(** [PathBuf::join] of a relative path, and [absolute] *)
Definition join_path (base path : string) : string :=
  match last (list_ascii_of_string base) with
  | Some c => if Ascii.eqb c "/" then base ++ path else base ++ "/" ++ path
  | None => path
  end.
Definition absolute (path base : string) : string := if starts_with "/" path then path else join_path base path.

(** [CString::new] *)
Definition cstring (s : string) : result string string :=
  if str_contains_char (byte_of 0) s then Err "path must not contain NUL"%string else Ok s.

Fixpoint join_parts (parts : list string) : string :=
  match parts with
  | [] => ""
  | [p] => p
  | p :: parts' => p ++ "/" ++ join_parts parts'
  end.
(** [join_relative] *)
Definition join_relative (parts : list string) : result string string := cstring (join_parts parts).

(** [String::from_utf8] *)
Fixpoint utf8_valid (fuel : nat) (s : string) : bool :=
  match fuel, s with
  | S fuel', String c s' =>
      match utf8_more (byte_code c) with
      | None => false
      | Some (lo, hi, n) => (utf8_tail lo hi n s' =? n)%nat && utf8_valid fuel' (str_drop n s')
      end
  | _, _ => true
  end.
Definition from_utf8 (s : string) : option string := if utf8_valid (String.length s) s then Some s else None.

(** ** Policies *)

Section Fs.
Context {K : Kernel}.

Record AllowedRoot := { ar_parts : list string; ar_dir : result string node }.
Record FsPolicy := { fp_base : string; fp_read : list AllowedRoot; fp_write : list AllowedRoot }.

Inductive Access := AcOpen (n : node) | AcRead (n : node) | AcTruncate (n : node) | AcWrite (n : node) (data : string).

(** The process: its system calls so far, its policy and its trace. *)
Record FsState := { fs_calls : nat; fs_policy : option FsPolicy; fs_trace : list Access }.
Definition Fm (A : Type) : Type := M FsState string A.

Definition called (accesses : list Access) (s : FsState) : FsState :=
  {| fs_calls := S (fs_calls s); fs_policy := fs_policy s; fs_trace := fs_trace s ++ accesses |}.

(** [owned_file] of a call that opens *)
Definition opening (call : nat -> option node) : Fm node := fun s =>
  match call (fs_calls s) with
  | Some n => (Ok n, called [AcOpen n] s)
  | None => (Err (os_error (fs_calls s)), called [] s)
  end.
Definition calling {A} (call : nat -> option A) (accesses : list Access) : Fm A := fun s =>
  match call (fs_calls s) with
  | Some a => (Ok a, called accesses s)
  | None => (Err (os_error (fs_calls s)), called accesses s)
  end.
Definition asserting (call : nat -> bool) (accesses : list Access) : Fm () :=
  calling (fun k => if call k then Some () else None) accesses.

(** [unix::open_root] *)
Definition open_root (path : string) : Fm node :=
  c ← lift (cstring path);
  opening (fun k => sys_open k c {| of_nofollow := false; of_directory := true; of_write := false; of_create := false;
                                    of_nonblock := false |}).

(** [validate_roots] *)
Definition validate_roots (operation : string) (roots : list string) : result string () :=
  let unique : gset string := list_to_set (List.filter (fun r => negb (str_is_empty r)) (map trim roots)) in
  if negb (Z.of_nat (size unique) =? vec_len roots)
  then Err ("filesystem " ++ operation ++ " roots must be non-empty and unique")%string
  else if MAX_ROOTS_PER_OPERATION <? Z.of_nat (size unique)
  then Err ("filesystem " ++ operation ++ " roots exceed " ++ dec_string MAX_ROOTS_PER_OPERATION ++ " entries")%string
  else Ok ().

(** [resolve_roots]; a root that cannot be opened keeps its error. *)
Fixpoint resolve_roots (paths : list string) (base : string) (s : FsState) : list AllowedRoot * FsState :=
  match paths with
  | [] => ([], s)
  | raw :: paths' =>
      if str_is_empty (trim raw) then resolve_roots paths' base s
      else
        let path := absolute (trim raw) base in
        match lexical_components path with
        | Err _ => resolve_roots paths' base s
        | Ok parts =>
            let '(dir, s) := open_root path s in
            let '(roots, s) := resolve_roots paths' base s in
            ({| ar_parts := parts; ar_dir := dir |} :: roots, s)
        end
  end.

(** [policy]: the base and the roots, once both lists are valid. *)
Definition resolve_policy (read write : list string) (root : option string) : Fm FsPolicy := fun s =>
  let '(base, s) :=
    match root with
    | Some r => (r, s)
    | None => (default "."%string (sys_current_dir (fs_calls s)), called [] s)
    end in
  let '(r, s) := resolve_roots read base s in
  let '(w, s) := resolve_roots write base s in
  (Ok {| fp_base := base; fp_read := r; fp_write := w |}, s).
Definition make_policy (read write : list string) (root : option string) : Fm FsPolicy :=
  lift (validate_roots "read" read);;
  lift (validate_roots "write" write);;
  resolve_policy read write root.

(** [configure] *)
Definition configure (read write : list string) (root : option string) (s : FsState) : FsState :=
  let '(r, s) := make_policy read write root s in
  {| fs_calls := fs_calls s; fs_policy := match r with Ok p => Some p | Err _ => None end; fs_trace := fs_trace s |}.

(** ** Opening beneath a root *)

(** [unix::openat2_beneath] *)
Definition openat2_beneath (dir : node) (relative : list string) (write : bool) : Fm node :=
  rel ← lift (join_relative relative);
  opening (fun k => sys_openat2 k dir rel
    {| of_nofollow := true; of_directory := false; of_write := write; of_create := write; of_nonblock := true |}).

(** The loop of [unix::openat_walk] *)
Fixpoint walk (current : node) (relative : list string) (write : bool) : Fm node :=
  match relative with
  | [] => mret current
  | name :: rest =>
      let last_ := match rest with [] => true | _ => false end in
      c ← lift (cstring name);
      next ← opening (fun k => sys_openat k current c
        {| of_nofollow := true; of_directory := negb last_; of_write := last_ && write;
           of_create := last_ && write; of_nonblock := last_ |});
      walk next rest write
  end.
(** [unix::openat_walk]; the clone of the root is the same open directory. *)
Definition openat_walk (dir : node) (relative : list string) (write : bool) : Fm node :=
  current ← calling (fun k => sys_dup k dir) [];
  walk current relative write.

(** [unix::open_beneath] on Linux: the walk is tried when [openat2] fails. *)
Definition open_beneath (root : AllowedRoot) (relative : list string) (write : bool) : Fm node := fun s =>
  match ar_dir root with
  | Err e => (Err e, s)
  | Ok dir =>
      match openat2_beneath dir relative write s with
      | (Ok n, s) => (Ok n, s)
      | (Err _, s) => openat_walk dir relative write s
      end
  end.

(** The loop of [open_confined] over the roots *)
Fixpoint open_first (request : list string) (roots : list AllowedRoot) (write : bool) : Fm node :=
  match roots with
  | [] => throw "path is not permitted"%string
  | root :: roots' =>
      match strip_parts request (ar_parts root) with
      | Some [] => throw "path is not permitted"%string
      | Some relative => open_beneath root relative write
      | None => open_first request roots' write
      end
  end.

(** [open_confined] *)
Definition open_confined (path base : string) (roots : list AllowedRoot) (write : bool) : Fm node :=
  if str_is_empty (trim path) then throw "path must not be empty"%string
  else
    match roots with
    | [] => throw "path is not permitted"%string
    | _ => request ← lift (lexical_components (absolute path base)); open_first request roots write
    end.

(** ** Reading and writing *)

Definition too_large (what : string) : string := (what ++ " exceeds " ++ dec_string MAX_BYTES ++ " bytes")%string.

(** [read_with] *)
Definition read_with (path : string) (policy : option FsPolicy) : Fm string :=
  p ← lift (ok_or policy "filesystem is not configured"%string);
  file ← open_confined path (fp_base p) (fp_read p) false;
  meta ← calling (fun k => sys_fstat k file) [];
  if negb meta.1 then throw "path is not a regular file"%string
  else if MAX_BYTES <? meta.2 then throw (too_large "file")
  else
    all ← calling (fun k => sys_read k file) [AcRead file];
    let bytes := str_take (Z.to_nat (MAX_BYTES + 1)) all in
    if MAX_BYTES <? len bytes then throw (too_large "file")
    else lift (ok_or (from_utf8 bytes) "file is not valid utf-8"%string).

(** [write_with] *)
Definition write_with (path data : string) (policy : option FsPolicy) : Fm () :=
  p ← lift (ok_or policy "filesystem is not configured"%string);
  if MAX_BYTES <? len data then throw (too_large "write")
  else
    file ← open_confined path (fp_base p) (fp_write p) true;
    meta ← calling (fun k => sys_fstat k file) [];
    if negb meta.1 then throw "path is not a regular file"%string
    else
      asserting (fun k => sys_truncate k file) [AcTruncate file];;
      asserting (fun k => sys_write k file data) [AcWrite file data].

(** [read], [write] on the process-wide policy *)
Definition fs_read (path : string) : Fm string := s ← get_state; read_with path (fs_policy s).
Definition fs_write (path data : string) : Fm () := s ← get_state; write_with path data (fs_policy s).

End Fs.
