(* ===== verification/FsCapThms.v ===== *)
(** * Confinement of the filesystem capability

    Everything a read or a write touches lies beneath the directory of an allowed
    root, reached by the plain components of the request without following a link,
    however the tree changes meanwhile. *)

From Stdlib Require Import ZArith Lia Ascii String.
From stdpp Require Import base tactics gmap strings list.
From S2P Require Import Prelude Bytes FsCap.
Open Scope Z_scope.

(** ** Components *)

(** A name that is one entry of a directory. *)
Definition plain (name : string) : Prop :=
  name <> EmptyString /\ name <> "."%string /\ name <> ".."%string /\ str_contains_char "/" name = false.

Lemma str_split_pieces c s : Forall (fun p => str_contains_char c p = false) (str_split c s).
Proof.
  unfold str_contains_char. induction s as [|a s IH]; cbn [str_split]; [by repeat constructor|].
  destruct (Ascii.eqb a c) eqn:E; [by constructor|].
  destruct (str_split c s) as [|p ps]; [constructor; [|done]; cbn [str_any]; by rewrite Ascii.eqb_sym, E|].
  inversion_clear IH. constructor; [|done]. cbn [str_any]. rewrite Ascii.eqb_sym, E. done.
Qed.

Lemma components_plain path : Forall (fun c => forall name, c = Normal name -> plain name) (components path).
Proof.
  unfold components. apply list.Forall_app. split.
  { destruct (starts_with "/" path); [by repeat constructor|].
    destruct (str_split "/" path); [done|]. destruct (String.eqb _ _); by repeat constructor. }
  pose proof (str_split_pieces "/" path) as H. induction H as [|p ps Hp _ IH]; cbn; [done|].
  unfold piece_component at 1. destruct (str_is_empty p) eqn:E0; [done|].
  destruct (String.eqb p ".") eqn:E1; [done|]. destruct (String.eqb p "..") eqn:E2; (constructor; [|done]); [done|].
  intros name [= <-]. split; [by intros ->|]. by rewrite String.eqb_neq in E1, E2.
Qed.

Lemma lexical_loop_plain cs out parts :
  Forall (fun c => forall name, c = Normal name -> plain name) cs -> Forall plain out ->
  lexical_loop cs out = Ok parts -> Forall plain parts.
Proof.
  intros Hcs. revert out. induction Hcs as [|c cs Hc _ IH]; intros out Hout; cbn; [by intros [= <-]|].
  destruct c as [| | |name]; [apply IH; done|apply IH; done|done|].
  destruct (_ || _); [done|]. apply IH. apply list.Forall_app. split; [done|]. constructor; [by apply Hc|done].
Qed.

Lemma lexical_plain path parts : lexical_components path = Ok parts -> Forall plain parts.
Proof. apply lexical_loop_plain; [apply components_plain|done]. Qed.

Lemma strip_parts_Some path root rel : strip_parts path root = Some rel -> path = root ++ rel.
Proof.
  unfold strip_parts. destruct (_ <? _)%nat eqn:El; [done|]. apply Nat.ltb_ge in El.
  destruct (existsb _ _) eqn:Ee; [done|]. intros [= <-].
  revert path El Ee. induction root as [|x root IH]; intros path El Ee; [done|].
  destruct path as [|y path]; [cbn in El; lia|]. cbn in Ee |- *.
  apply orb_false_iff in Ee as [Hxy%negb_false_iff%String.eqb_eq Ee]. cbn in Hxy. subst y.
  f_equal. apply IH; [cbn in El; lia|done].
Qed.

Lemma str_split_app c a b :
  str_contains_char c a = false -> str_split c (a ++ String c b) = a :: str_split c b.
Proof.
  unfold str_contains_char. induction a as [|x a IH]; intros Ha.
  - change (EmptyString ++ ?y)%string with y. cbn [str_split]. by rewrite Ascii.eqb_refl.
  - change (String x a ++ ?y)%string with (String x (a ++ y)). cbn [str_any] in Ha.
    apply orb_false_iff in Ha as [Hx Ha]. cbn [str_split]. by rewrite Ascii.eqb_sym, Hx, IH.
Qed.

Lemma str_split_single c a : str_contains_char c a = false -> str_split c a = [a].
Proof.
  unfold str_contains_char. induction a as [|x a IH]; intros Ha; cbn [str_split]; [done|]. cbn [str_any] in Ha.
  apply orb_false_iff in Ha as [Hx Ha]. by rewrite Ascii.eqb_sym, Hx, IH.
Qed.

Lemma split_join_parts parts : parts <> [] -> Forall plain parts -> str_split "/" (join_parts parts) = parts.
Proof.
  intros Hne H. induction H as [|p parts (_ & _ & _ & Hp) _ IH]; [done|].
  destruct parts as [|q parts]; [by apply str_split_single|].
  cbn [join_parts]. change ("/" ++ ?y)%string with (String "/" y). rewrite str_split_app by done. f_equal. by apply IH.
Qed.

(** ** The kernel *)

Section Confined.
Context {K : Kernel}.

(** Documented behaviour of the calls, over the relation of a directory to an entry
    that is not a symbolic link, at the moment the call resolves it: [openat] with
    [O_NOFOLLOW] opens the entry of that name; [openat2] beneath a directory with no
    links goes from entry to entry; a duplicate is the same open file. *)
Inductive descends (child : node -> string -> node -> Prop) : node -> list string -> node -> Prop :=
| descends_here d : descends child d [] d
| descends_into d name m rest n : child d name m -> descends child m rest n -> descends child d (name :: rest) n.

Class KernelLaws (child : node -> string -> node -> Prop) : Prop := {
  openat_entry : forall k d name flags n,
    of_nofollow flags = true -> plain name -> sys_openat k d name flags = Some n -> child d name n;
  openat2_entries : forall k d rel flags n,
    of_nofollow flags = true -> Forall plain (str_split "/" rel) -> sys_openat2 k d rel flags = Some n ->
    descends child d (str_split "/" rel) n;
  dup_same : forall k d n, sys_dup k d = Some n -> n = d;
}.

(** ** A logic for what a run adds to the trace *)

Definition adds {A} (P : Access -> Prop) (m : Fm A) (Q : A -> Prop) : Prop := forall s,
  (exists acc, fs_trace (m s).2 = fs_trace s ++ acc /\ Forall P acc) /\ forall a, (m s).1 = Ok a -> Q a.

Lemma adds_bind {A B} P (m : Fm A) (k : A -> Fm B) Q R :
  adds P m Q -> (forall a, Q a -> adds P (k a) R) -> adds P (mbind k m) R.
Proof.
  intros Hm Hk s. destruct (Hm s) as [(acc & Ha & HP) HQ]. unfold mbind, M_bind.
  destruct (m s) as [[a|e] s1]; cbn in *; [|split; [by exists acc|done]].
  destruct (Hk a (HQ a eq_refl) s1) as [(acc2 & Ha2 & HP2) HR]. split; [|done].
  exists (acc ++ acc2). rewrite Ha2, Ha, <- app_assoc. split; [done|]. by apply list.Forall_app.
Qed.

Lemma adds_pure {A} P (r : result string A) (Q : A -> Prop) : (forall a, r = Ok a -> Q a) -> adds P (lift r) Q.
Proof. intros H s. split; [exists []; by rewrite app_nil_r|]. cbn. auto. Qed.
Lemma adds_throw {A} P e (Q : A -> Prop) : adds P (throw e) Q.
Proof. intros s. split; [exists []; by rewrite app_nil_r|done]. Qed.
Lemma adds_ret {A} P (a : A) (Q : A -> Prop) : Q a -> adds P (mret a) Q.
Proof. intros H s. split; [exists []; by rewrite app_nil_r|]. by intros b [= <-]. Qed.

Lemma adds_opening P call Q :
  (forall k n, call k = Some n -> P (AcOpen n) /\ Q n) -> adds P (opening call) Q.
Proof.
  intros H s. unfold opening. destruct (call _) as [n|] eqn:E; cbn.
  - destruct (H _ _ E). split; [exists [AcOpen n]; by repeat constructor|]. by intros a [= <-].
  - split; [exists []; by rewrite app_nil_r|done].
Qed.

Lemma adds_calling {A} P (call : nat -> option A) acc Q :
  Forall P acc -> (forall k a, call k = Some a -> Q a) -> adds P (calling call acc) Q.
Proof.
  intros HP H s. unfold calling. destruct (call _) as [a|] eqn:E; cbn; (split; [by exists acc|]); [|done].
  intros b [= <-]. eauto.
Qed.

Lemma adds_weaken {A} P (m : Fm A) (Q R : A -> Prop) : (forall a, Q a -> R a) -> adds P m Q -> adds P m R.
Proof. intros H Hm s. destruct (Hm s). split; auto. Qed.

(** ** Confinement *)

Context (child : node -> string -> node -> Prop).

(** [n] is reached from the directory of a root of the list by the components of
    [rel], where the request is the root's path followed by [full]. *)
Definition beneath (roots : list AllowedRoot) (request rel full : list string) (n : node) : Prop :=
  exists root dir, root ∈ roots /\ ar_dir root = Ok dir /\ request = ar_parts root ++ full
    /\ rel `prefix_of` full /\ rel <> [] /\ descends child dir rel n.

(** Opens go along the components of the request; data is only touched at its end. *)
Definition confined_access (write : bool) (data : string) (roots : list AllowedRoot) (request : list string)
    (a : Access) : Prop :=
  Forall plain request /\ exists full,
    match a with
    | AcOpen n => exists rel, beneath roots request rel full n
    | AcRead n => write = false /\ beneath roots request full full n
    | AcTruncate n => write = true /\ beneath roots request full full n
    | AcWrite n text => write = true /\ text = data /\ beneath roots request full full n
    end.

Context `{!KernelLaws child}.

Lemma descends_snoc d rel m name n :
  descends child d rel m -> child m name n -> descends child d (rel ++ [name]) n.
Proof. induction 1; intros Hc; cbn; econstructor; eauto. constructor. Qed.

Section Root.
Context (write : bool) (data : string) (roots : list AllowedRoot) (root : AllowedRoot) (dir : node) (full : list string).
Context (Hroot : root ∈ roots) (Hdir : ar_dir root = Ok dir) (Hplain : Forall plain (ar_parts root ++ full)).

#[local] Abbreviation P := (confined_access write data roots (ar_parts root ++ full)).
#[local] Abbreviation here := (beneath roots (ar_parts root ++ full) full full).

Lemma beneath_root rel n :
  rel `prefix_of` full -> rel <> [] -> descends child dir rel n -> beneath roots (ar_parts root ++ full) rel full n.
Proof. intros. by exists root, dir. Qed.

Lemma walk_adds rel rest m :
  full = rel ++ rest -> rest <> [] \/ rel <> [] -> descends child dir rel m -> adds P (walk m rest write) here.
Proof.
  revert rel m. induction rest as [|name rest IH]; intros rel m Hf Hne Hd; cbn [walk].
  { rewrite app_nil_r in Hf. subst rel. apply adds_ret, beneath_root; [done| |done]. by destruct Hne. }
  assert (plain name) as Hname.
  { rewrite Hf in Hplain. rewrite !list.Forall_app, list.Forall_cons in Hplain. tauto. }
  eapply adds_bind; [apply adds_pure; intros c Hc; exact Hc|]. intros c Hc.
  assert (c = name) as -> by (revert Hc; unfold cstring; by case_match; intros [= <-]).
  eapply (adds_bind _ _ _ (fun n => descends child dir (rel ++ [name]) n)).
  - apply adds_opening. intros k n Hn. apply openat_entry in Hn; [|done|done].
    pose proof (descends_snoc _ _ _ _ _ Hd Hn) as Hd'. split; [|done]. split; [done|]. exists full, (rel ++ [name]).
    apply beneath_root; [|by destruct rel|done]. rewrite Hf. exists rest. by rewrite <- app_assoc.
  - intros n Hn. apply (IH (rel ++ [name])); [by rewrite <- app_assoc|right; by destruct rel|done].
Qed.

Lemma open_beneath_adds : full <> [] -> adds P (open_beneath root full write) here.
Proof.
  intros Hne. assert (Forall plain full) as Hpf by (by apply list.Forall_app in Hplain as [_ ?]).
  assert (adds P (openat2_beneath dir full write) here) as H2.
  { unfold openat2_beneath. eapply adds_bind; [apply adds_pure; intros c Hc; exact Hc|]. intros c Hc.
    assert (c = join_parts full) as -> by (revert Hc; unfold join_relative, cstring; by case_match; intros [= <-]).
    apply adds_opening. intros k n Hn. apply openat2_entries in Hn; rewrite ?split_join_parts in * by done; [|done|done].
    assert (here n) by (by apply beneath_root). split; [|done]. split; [done|]. by exists full, full. }
  assert (adds P (openat_walk dir full write) here) as H1.
  { unfold openat_walk. eapply (adds_bind _ _ _ (fun n => n = dir)).
    - apply adds_calling; [done|]. intros k n Hn. by eapply dup_same.
    - intros n ->. apply (walk_adds []); [done|by left|constructor]. }
  intros s. unfold open_beneath. rewrite Hdir. destruct (H2 s) as [(acc & Ha & HP) HQ].
  destruct (openat2_beneath dir full write s) as [[n|e] s1]; cbn in *; [split; [by exists acc|done]|].
  destruct (H1 s1) as [(acc2 & Ha2 & HP2) HR]. split; [|done].
  exists (acc ++ acc2). rewrite Ha2, Ha, <- app_assoc. split; [done|]. by apply list.Forall_app.
Qed.

End Root.

Lemma open_first_adds write data all roots request :
  Forall plain request -> (forall r, r ∈ roots -> r ∈ all) ->
  adds (confined_access write data all request) (open_first request roots write)
    (fun n => exists full, beneath all request full full n).
Proof.
  intros Hp Hin. induction roots as [|root roots IH]; cbn [open_first]; [apply adds_throw|].
  destruct (strip_parts request (ar_parts root)) as [rel|] eqn:Es.
  2: { apply IH. intros r Hr. apply Hin. by right. }
  apply strip_parts_Some in Es as ->. destruct rel as [|x rel]; [apply adds_throw|].
  destruct (ar_dir root) as [dir|e] eqn:Ed.
  - eapply adds_weaken; [|by eapply (open_beneath_adds _ _ _ _ dir); [apply Hin; left|..]]. intros n Hn. by exists (x :: rel).
  - intros s. unfold open_beneath. rewrite Ed. split; [exists []; by rewrite app_nil_r|done].
Qed.

Lemma open_confined_adds write data path base roots :
  adds (fun a => exists request, lexical_components (absolute path base) = Ok request
                 /\ confined_access write data roots request a)
    (open_confined path base roots write)
    (fun n => exists request full, lexical_components (absolute path base) = Ok request
              /\ Forall plain request /\ beneath roots request full full n).
Proof.
  unfold open_confined. destruct (str_is_empty _); [apply adds_throw|].
  destruct roots as [|root roots]; [apply adds_throw|].
  eapply adds_bind; [apply adds_pure; intros r Hr; exact Hr|]. intros request Hr.
  pose proof (lexical_plain _ _ Hr) as Hp.
  intros s. destruct (open_first_adds write data (root :: roots) (root :: roots) request Hp (fun _ H => H) s)
    as [(acc & Ha & HP) HQ]. split.
  - exists acc. split; [done|]. eapply list.Forall_impl; [exact HP|]. intros a Hc. by exists request.
  - intros n Hn. destruct (HQ n Hn) as [full Hb]. by exists request, full.
Qed.

(** An access of a request on [path] under the roots of one operation. *)
Definition permitted (write : bool) (data path base : string) (roots : list AllowedRoot) (a : Access) : Prop :=
  exists request, lexical_components (absolute path base) = Ok request /\ confined_access write data roots request a.

Lemma read_with_adds path data p :
  adds (permitted false data path (fp_base p) (fp_read p)) (read_with path (Some p)) (fun text => len text <= MAX_BYTES).
Proof.
  unfold read_with. eapply adds_bind; [apply adds_pure; intros q Hq; exact Hq|]. intros q [= <-].
  eapply adds_bind; [apply open_confined_adds|]. intros n (request & full & Hr & Hp & Hb).
  eapply (adds_bind _ _ _ (fun _ => True)); [apply adds_calling; [done|done]|]. intros meta _.
  destruct (negb meta.1); [apply adds_throw|]. destruct (MAX_BYTES <? meta.2); [apply adds_throw|].
  eapply (adds_bind _ _ _ (fun _ => True)).
  - apply adds_calling; [|done]. constructor; [|done]. exists request. split; [done|]. split; [done|]. by exists full.
  - intros all _. cbn zeta. generalize (str_take (Z.to_nat (MAX_BYTES + 1)) all). intros bytes.
    destruct (MAX_BYTES <? _) eqn:El; [apply adds_throw|]. apply adds_pure.
    intros text. unfold from_utf8. case_match; [|done]. intros [= <-]. apply Z.ltb_ge in El. exact El.
Qed.

Lemma write_with_adds path data p :
  adds (permitted true data path (fp_base p) (fp_write p)) (write_with path data (Some p)) (fun _ => len data <= MAX_BYTES).
Proof.
  unfold write_with. eapply adds_bind; [apply adds_pure; intros q Hq; exact Hq|]. intros q [= <-].
  destruct (MAX_BYTES <? len data) eqn:El; [apply adds_throw|]. apply Z.ltb_ge in El.
  eapply adds_bind; [apply open_confined_adds|]. intros n (request & full & Hr & Hp & Hb).
  eapply (adds_bind _ _ _ (fun _ => True)); [apply adds_calling; [done|done]|]. intros meta _.
  destruct (negb meta.1); [apply adds_throw|].
  eapply (adds_bind _ _ _ (fun _ => True)); [|intros _ _]; apply adds_calling; try done.
  all: constructor; [|done]; exists request; split; [done|]; split; [done|]; by exists full.
Qed.

(** The directory of a root was opened at a path of the list the root is from. *)
Definition configured (raws : list string) (base : string) (root : AllowedRoot) : Prop := exists raw,
  raw ∈ raws /\ lexical_components (absolute (trim raw) base) = Ok (ar_parts root)
  /\ forall dir, ar_dir root = Ok dir -> exists k flags, sys_open k (absolute (trim raw) base) flags = Some dir.

Lemma resolve_roots_configured all raws base s :
  (forall raw, raw ∈ raws -> raw ∈ all) -> Forall (configured all base) (resolve_roots raws base s).1.
Proof.
  revert s. induction raws as [|raw raws IH]; intros s Hin; cbn [resolve_roots]; [done|].
  assert (forall r, r ∈ raws -> r ∈ all) as Hin' by (intros r Hr; apply Hin; by right).
  destruct (str_is_empty _); [by apply IH|]. destruct (lexical_components _) as [parts|] eqn:El; [|by apply IH].
  destruct (open_root _ s) as [dir s1] eqn:Eo. specialize (IH s1 Hin').
  destruct (resolve_roots raws base s1) as [roots s2]. constructor; [|done].
  exists raw. split; [apply Hin; left|]. split; [done|]. cbn. intros d ->. revert Eo. unfold open_root. unfold_monad.
  unfold cstring. destruct (str_contains_char _ _); [done|]. unfold opening.
  destruct (sys_open _ _ _) eqn:Es; [|done]. intros [= <- _]. eauto.
Qed.

Lemma make_policy_configured read write root s p s' :
  make_policy read write root s = (Ok p, s') ->
  Forall (configured read (fp_base p)) (fp_read p) /\ Forall (configured write (fp_base p)) (fp_write p).
Proof.
  unfold make_policy, resolve_policy. unfold_monad.
  destruct (validate_roots "read" read); [|done]. destruct (validate_roots "write" write); [|done].
  destruct (match root with Some _ => _ | None => _ end) as [base s1].
  pose proof (resolve_roots_configured read read base s1 (fun _ H => H)) as Hr.
  destruct (resolve_roots read base s1) as [r s2].
  pose proof (resolve_roots_configured write write base s2 (fun _ H => H)) as Hw.
  destruct (resolve_roots write base s2) as [w s3]. by intros [= <- _].
Qed.

End Confined.

(** C12. The filesystem capability is confined. Under a policy made of configured
    paths, whatever else changes the tree between two system calls, a read or a write
    of any path opens, reads, truncates and writes nothing but files reached from the
    directory of a configured root of that operation, along the request's own
    components, each a plain name and none a symbolic link; reads write nothing,
    writes write the given data only, and neither passes a mebibyte. *)
Theorem fs_confined `{K : Kernel} child `{!KernelLaws child} read write root s0 p s1 path data s :
  make_policy read write root s0 = (Ok p, s1) ->
  (Forall (configured read (fp_base p)) (fp_read p) /\ Forall (configured write (fp_base p)) (fp_write p))
  /\ (let '(r, s') := read_with path (Some p) s in
      (exists acc, fs_trace s' = fs_trace s ++ acc
        /\ Forall (permitted child false data path (fp_base p) (fp_read p)) acc)
      /\ forall text, r = Ok text -> len text <= MAX_BYTES)
  /\ (let '(r, s') := write_with path data (Some p) s in
      (exists acc, fs_trace s' = fs_trace s ++ acc
        /\ Forall (permitted child true data path (fp_base p) (fp_write p)) acc)
      /\ forall u, r = Ok u -> len data <= MAX_BYTES).
Proof.
  intros Hp. split; [by eapply make_policy_configured|]. split.
  - pose proof (read_with_adds child path data p s) as H. by destruct (read_with path (Some p) s).
  - pose proof (write_with_adds child path data p s) as H. by destruct (write_with path data (Some p) s).
Qed.

(** ** A read of one file *)

(** Files are the lists of names that lead to them; there are no links. *)
#[local] Instance sample_kernel : Kernel := {|
  node := list string; os_error _ := "error"; sys_current_dir _ := None;
  sys_open _ path _ := Some (List.filter (fun x => negb (str_is_empty x)) (str_split "/" path));
  sys_openat _ d name _ := Some (d ++ [name])%list; sys_openat2 _ d rel _ := Some (d ++ str_split "/" rel)%list;
  sys_dup _ d := Some d; sys_fstat _ _ := Some (true, 5); sys_read _ _ := Some "hello";
  sys_truncate _ _ := true; sys_write _ _ _ := true |}%string.

Definition sample_child (d : node) (name : string) (n : node) : Prop := n = d ++ [name].
#[local] Instance sample_kernel_laws : KernelLaws sample_child.
Proof.
  split; cbn.
  - by intros k d name flags n _ _ [= <-].
  - intros k d rel flags n _ _ [= <-]. generalize (str_split "/" rel). intros l. revert d.
    induction l as [|x l IH]; intros d; [rewrite app_nil_r; constructor|].
    econstructor; [reflexivity|]. rewrite (cons_middle x d l), app_assoc. apply IH.
  - by intros k d n [= <-].
Qed.

Definition fresh_process : FsState := {| fs_calls := 0; fs_policy := None; fs_trace := [] |}.
Definition sample_policy : FsPolicy :=
  {| fp_base := "/app"; fp_read := [{| ar_parts := ["app"; "data"]; ar_dir := Ok ["app"; "data"] |}]; fp_write := [] |}%string.

Lemma fs_confined_witness :
  (read_with "data/a.txt" (Some sample_policy) fresh_process).1 = Ok "hello"%string
  /\ exists acc, fs_trace (read_with "data/a.txt" (Some sample_policy) fresh_process).2 = acc
     /\ Forall (permitted sample_child false "" "data/a.txt" "/app" (fp_read sample_policy)) acc.
Proof.
  split; [vm_compute; reflexivity|].
  destruct (fs_confined sample_child ["data"%string] [] (Some "/app"%string) fresh_process sample_policy
    (make_policy ["data"%string] [] (Some "/app"%string) fresh_process).2 "data/a.txt" "" fresh_process) as (_ & H & _).
  - vm_compute. reflexivity.
  - destruct (read_with "data/a.txt" (Some sample_policy) fresh_process) as [r s'].
    destruct H as ((acc & H1 & H2) & _). exists acc. split; [exact H1|exact H2].
Defined.
