(* ===== verification/HostStreams.v ===== *)
(** * Host operations and response bodies ([crates/tysel-engine-qjs/src/queue.rs])

    The capability an operation needs and the gate in front of it, the registry of
    cancellable operations, and the registry of response bodies with its reads, which
    other tasks run in between. *)

From Stdlib Require Import ZArith Lia Ascii String.
From stdpp Require Import base tactics relations gmap strings list.
From S2P Require Import Prelude Bytes Capability.
Open Scope Z_scope.

(** ** Operations *)

Inductive IoRequest :=
| Sleep (id millis : Z)
| Echo (id : Z) (value : string)
| SecretRef (id : Z) (name : string)
| ReadBody (id : Z)
| HttpGet (id : Z) (url method headers_json body : string)
| HttpRead (id body_id : Z)
| ResponseClosed (id : Z)
| ResponseWrite (id : Z) (bytes : string)
| WsRead (id : Z)
| WsSend (id : Z) (data : string)
| WsClose (id : Z)
| WsConnect (id : Z) (url : string)
| WsClientRead (id : Z)
| WsClientSend (id : Z) (data : string)
| WsClientClose (id : Z)
| SqliteExec (id : Z) (sql params_json : string)
| SqliteQuery (id : Z) (sql params_json : string)
| PostgresExec (id : Z) (sql params_json : string)
| PostgresQuery (id : Z) (sql params_json : string)
| RedisGet (id : Z) (key : string)
| RedisSet (id : Z) (key value : string) (ttl_seconds : option Z)
| RedisDel (id : Z) (keys_json : string)
| RedisExists (id : Z) (key : string)
| RedisExpire (id : Z) (key : string) (ttl_seconds : Z)
| FsRead (id : Z) (path : string)
| FsWrite (id : Z) (path data : string)
| LlmGenerate (id : Z) (request_json : string).

(** [IoRequest::id] *)
Definition request_id_of (r : IoRequest) : Z :=
  match r with
  | Sleep id _ | Echo id _ | SecretRef id _ | ReadBody id | HttpGet id _ _ _ _ | HttpRead id _
  | ResponseClosed id | ResponseWrite id _ | WsRead id | WsSend id _ | WsClose id | WsConnect id _
  | WsClientRead id | WsClientSend id _ | WsClientClose id | SqliteExec id _ _ | SqliteQuery id _ _
  | PostgresExec id _ _ | PostgresQuery id _ _ | RedisGet id _ | RedisSet id _ _ _ | RedisDel id _
  | RedisExists id _ | RedisExpire id _ _ | FsRead id _ | FsWrite id _ _ | LlmGenerate id _ => id
  end.

(** [IoRequest::capability] *)
Definition capability (r : IoRequest) : Policy.Cap :=
  match r with
  | Sleep _ _ => Policy.Sleep
  | Echo _ _ => Policy.Echo
  | SecretRef _ _ => Policy.SecretRef
  | ReadBody _ | ResponseWrite _ _ | ResponseClosed _ => Policy.ReadBody
  | HttpGet _ _ _ _ _ | HttpRead _ _ => Policy.Fetch
  | WsRead _ | WsSend _ _ | WsClose _ | WsConnect _ _ | WsClientRead _ | WsClientSend _ _ | WsClientClose _ =>
      Policy.WebSocket
  | SqliteExec _ _ _ | SqliteQuery _ _ _ => Policy.Sqlite
  | PostgresExec _ _ _ | PostgresQuery _ _ _ => Policy.Postgres
  | RedisGet _ _ | RedisSet _ _ _ _ | RedisDel _ _ | RedisExists _ _ | RedisExpire _ _ _ => Policy.Redis
  | FsRead _ _ | FsWrite _ _ _ => Policy.Fs
  | LlmGenerate _ _ => Policy.Llm
  end.

(** [IoRequest::audit_target] *)
Definition audit_target (r : IoRequest) : option (string * string) :=
  match r with
  | HttpGet _ _ _ _ _ => Some ("fetch", "request")
  | SqliteExec _ _ _ => Some ("sqlite", "exec")
  | SqliteQuery _ _ _ => Some ("sqlite", "query")
  | PostgresExec _ _ _ => Some ("postgres", "exec")
  | PostgresQuery _ _ _ => Some ("postgres", "query")
  | RedisGet _ _ => Some ("redis", "get")
  | RedisSet _ _ _ _ => Some ("redis", "set")
  | RedisDel _ _ => Some ("redis", "del")
  | RedisExists _ _ => Some ("redis", "exists")
  | RedisExpire _ _ _ => Some ("redis", "expire")
  | FsRead _ _ => Some ("fs", "read")
  | FsWrite _ _ _ => Some ("fs", "write")
  | LlmGenerate _ _ => Some ("llm", "generate")
  | SecretRef _ _ => Some ("secrets", "ref")
  | WsSend _ _ => Some ("websocket", "send")
  | WsClose _ => Some ("websocket", "close")
  | WsConnect _ _ => Some ("websocket", "connect")
  | WsClientSend _ _ => Some ("websocket", "client_send")
  | WsClientClose _ => Some ("websocket", "client_close")
  | Sleep _ _ | Echo _ _ | ReadBody _ | HttpRead _ _ | ResponseClosed _ | ResponseWrite _ _ | WsRead _
  | WsClientRead _ => None
  end%string.

(** [trust::require]; an unconfigured process is trusted. *)
Definition trust_require (configured : option TrustMode) (cap : Policy.Cap) : result string () :=
  Policy.require (default TrustedService configured) cap.

(** The gate and the audit record of [execute]: whether the operation runs, and what
    is logged with it, [run] being the operation. *)
Definition execute {A} (configured : option TrustMode) (run : IoRequest -> result string A) (r : IoRequest)
    : result string A * option (string * string * string) :=
  let logged outcome := (fun t : string * string => (t.1, t.2, outcome)) <$> audit_target r in
  let open := match r with ResponseWrite _ _ | ResponseClosed _ => true | _ => false end in
  match (if open then Ok () else trust_require configured (capability r)) with
  | Err e => (Err e, logged "denied"%string)
  | Ok _ =>
      let result := run r in
      (result, logged (if is_ok result then "ok" else "error")%string)
  end.

(** ** Cancellable operations *)

Record OperationControl := { oc_request_id : Z; oc_cancel : bool }.
Record IoHandle := { ih_next_id : Z; ih_request_id : Z; ih_operations : gmap Z OperationControl; ih_sent : list IoRequest }.

Definition bind_request (request_id : Z) (h : IoHandle) : IoHandle :=
  {| ih_next_id := ih_next_id h; ih_request_id := request_id; ih_operations := ih_operations h; ih_sent := ih_sent h |}.
Definition set_operations (ops : gmap Z OperationControl) (h : IoHandle) : IoHandle :=
  {| ih_next_id := ih_next_id h; ih_request_id := ih_request_id h; ih_operations := ops; ih_sent := ih_sent h |}.

(** [IoHandle::finish] *)
Definition finish (id : Z) (h : IoHandle) : IoHandle := set_operations (delete id (ih_operations h)) h.

(** [IoHandle::submit]; [open] is whether the reactor still receives. *)
Definition submit (open : bool) (request : Z -> IoRequest) (h : IoHandle) : Z * IoHandle :=
  let id := ih_next_id h in
  let h' := {|
    ih_next_id := (id + 1) mod 2 ^ 64; ih_request_id := ih_request_id h;
    ih_operations := <[id := {| oc_request_id := ih_request_id h; oc_cancel := false |}]> (ih_operations h);
    ih_sent := if open then ih_sent h ++ [request id] else ih_sent h |} in
  (id, if open then h' else finish id h').

Definition flag (c : OperationControl) : OperationControl := {| oc_request_id := oc_request_id c; oc_cancel := true |}.

(** [IoHandle::cancel], [IoHandle::cancel_request] *)
Definition cancel (id : Z) (h : IoHandle) : bool * IoHandle :=
  match ih_operations h !! id with
  | None => (false, h)
  | Some c => (true, set_operations (<[id := flag c]> (ih_operations h)) h)
  end.
Definition cancel_request (request_id : Z) (h : IoHandle) : list Z * IoHandle :=
  let own := filter (fun kv => oc_request_id kv.2 = request_id) (ih_operations h) in
  ((map_to_list own).*1,
   set_operations ((fun c => if oc_request_id c =? request_id then flag c else c) <$> ih_operations h) h).

(** ** Response bodies *)

(** A receiver: the messages its channel will deliver before it closes. *)
Definition BodyRx : Type := list (result string string).

Record StreamRegistry := {
  sr_streams : gmap Z BodyRx;
  sr_in_flight : gset Z;
  sr_cancelled : gset Z;
  sr_generation : Z;
  sr_next_id : Z;
}.
Definition empty_registry : StreamRegistry :=
  {| sr_streams := ∅; sr_in_flight := ∅; sr_cancelled := ∅; sr_generation := 0; sr_next_id := 1 |}.

Definition set_streams (f : gmap Z BodyRx -> gmap Z BodyRx) (s : StreamRegistry) : StreamRegistry :=
  {| sr_streams := f (sr_streams s); sr_in_flight := sr_in_flight s; sr_cancelled := sr_cancelled s;
     sr_generation := sr_generation s; sr_next_id := sr_next_id s |}.

(** [StreamRegistry::clear], [StreamRegistry::clear_async] *)
Definition clear (id : Z) (s : StreamRegistry) : StreamRegistry :=
  match sr_streams s !! id with
  | Some _ => set_streams (delete id) s
  | None =>
      if bool_decide (id ∈ sr_in_flight s)
      then {| sr_streams := sr_streams s; sr_in_flight := sr_in_flight s; sr_cancelled := {[id]} ∪ sr_cancelled s;
              sr_generation := sr_generation s; sr_next_id := sr_next_id s |}
      else s
  end.

(** [StreamRegistry::clear_all] *)
Definition clear_all (s : StreamRegistry) : StreamRegistry :=
  {| sr_streams := ∅; sr_in_flight := sr_in_flight s; sr_cancelled := ∅;
     sr_generation := saturating_add u64_max (sr_generation s) 1; sr_next_id := sr_next_id s |}.

(** [StreamRegistry::install] *)
Definition install (rx : BodyRx) (s : StreamRegistry) : Z * StreamRegistry :=
  (sr_next_id s,
   {| sr_streams := <[sr_next_id s := rx]> (sr_streams s); sr_in_flight := sr_in_flight s;
      sr_cancelled := sr_cancelled s; sr_generation := sr_generation s; sr_next_id := (sr_next_id s + 1) mod 2 ^ 64 |}).

(** [StreamRegistry::read] up to its wait. *)
Definition read_begin (id : Z) (s : StreamRegistry) : result string (Z * BodyRx) * StreamRegistry :=
  match sr_streams s !! id with
  | None => (Err "unknown or consumed response body"%string, s)
  | Some rx =>
      (Ok (sr_generation s, rx),
       {| sr_streams := delete id (sr_streams s); sr_in_flight := {[id]} ∪ sr_in_flight s;
          sr_cancelled := sr_cancelled s; sr_generation := sr_generation s; sr_next_id := sr_next_id s |})
  end.

(** [StreamRegistry::read] after its wait: [interrupted] is the text of an interrupt
    that ended it, and the receiver has not been polled then. *)
Definition read_end (id generation : Z) (rx : BodyRx) (interrupted : option string) (s : StreamRegistry)
    : result string (option string) * StreamRegistry :=
  let explicitly_cancelled := bool_decide (id ∈ sr_cancelled s) in
  let s' := {| sr_streams := sr_streams s; sr_in_flight := sr_in_flight s ∖ {[id]};
               sr_cancelled := sr_cancelled s ∖ {[id]}; sr_generation := sr_generation s; sr_next_id := sr_next_id s |} in
  match interrupted with
  | Some e => (Err e, s')
  | None =>
      if negb (sr_generation s =? generation) || explicitly_cancelled then (Err "Cancelled"%string, s')
      else
        match rx with
        | Ok chunk :: rx' => (Ok (Some chunk), set_streams (<[id := rx']>) s')
        | Err e :: _ => (Err e, s')
        | [] => (Ok None, s')
        end
  end.
