(* ===== verification/HostStreamsThms.v ===== *)
(** * Response bodies that are cleared stay cleared

    Reads of response bodies run while other tasks install and clear bodies. *)

From Stdlib Require Import ZArith Lia Ascii String.
From stdpp Require Import base tactics relations gmap strings list.
From S2P Require Import Prelude Bytes Capability HostStreams.
Open Scope Z_scope.

(** A read that waits for its channel. *)
Record Waiting := { wt_id : Z; wt_generation : Z; wt_rx : BodyRx }.
Record Bodies := { bd_registry : StreamRegistry; bd_waiting : list Waiting }.

(** What tasks do to the registry, in any order. The generation and the next id are
    64-bit counters: the steps are those before either is exhausted. *)
Inductive body_step : Bodies -> Bodies -> Prop :=
| body_install rx s ws :
    sr_next_id s < u64_max ->
    body_step {| bd_registry := s; bd_waiting := ws |} {| bd_registry := (install rx s).2; bd_waiting := ws |}
| body_clear id s ws :
    body_step {| bd_registry := s; bd_waiting := ws |} {| bd_registry := clear id s; bd_waiting := ws |}
| body_clear_all s ws :
    sr_generation s < u64_max ->
    body_step {| bd_registry := s; bd_waiting := ws |} {| bd_registry := clear_all s; bd_waiting := ws |}
| body_read id s ws generation rx s' :
    read_begin id s = (Ok (generation, rx), s') ->
    body_step {| bd_registry := s; bd_waiting := ws |}
      {| bd_registry := s'; bd_waiting := ws ++ [{| wt_id := id; wt_generation := generation; wt_rx := rx |}] |}
| body_answer s ws1 w ws2 interrupted :
    body_step {| bd_registry := s; bd_waiting := ws1 ++ w :: ws2 |}
      {| bd_registry := (read_end (wt_id w) (wt_generation w) (wt_rx w) interrupted s).2; bd_waiting := ws1 ++ ws2 |}.

(** A body has one reader or is in the registry; ids are used once. *)
Record bodies_ok (b : Bodies) : Prop := {
  bo_once : NoDup (wt_id <$> bd_waiting b);
  bo_waiting : forall id, id ∈ wt_id <$> bd_waiting b -> sr_streams (bd_registry b) !! id = None
    /\ id ∈ sr_in_flight (bd_registry b) /\ 0 <= id < sr_next_id (bd_registry b);
  bo_streams : forall id rx, sr_streams (bd_registry b) !! id = Some rx -> 0 <= id < sr_next_id (bd_registry b);
  bo_generation : forall w, w ∈ bd_waiting b -> wt_generation w <= sr_generation (bd_registry b);
  bo_next : 0 <= sr_next_id (bd_registry b);
}.

(** The body [id] is not in the registry, and whoever reads it will be refused. *)
Record gone (id : Z) (b : Bodies) : Prop := {
  gn_streams : sr_streams (bd_registry b) !! id = None;
  gn_used : id < sr_next_id (bd_registry b);
  gn_waiting : forall w, w ∈ bd_waiting b -> wt_id w = id ->
    wt_generation w <> sr_generation (bd_registry b) \/ id ∈ sr_cancelled (bd_registry b);
}.

Lemma next_id_mod n : 0 <= n -> n < u64_max -> (n + 1) mod 2 ^ 64 = n + 1.
Proof. unfold u64_max. intros. apply Z.mod_small. lia. Qed.

(** What [read_end] does to the registry. *)
Lemma read_end_registry id g rx interrupted s :
  let s' := (read_end id g rx interrupted s).2 in
  sr_generation s' = sr_generation s /\ sr_next_id s' = sr_next_id s
  /\ sr_in_flight s' = difference (sr_in_flight s) {[id]} /\ sr_cancelled s' = difference (sr_cancelled s) {[id]}
  /\ (forall i, i <> id -> sr_streams s' !! i = sr_streams s !! i)
  /\ (sr_streams s' = sr_streams s
      \/ (sr_generation s = g /\ (id ∉ sr_cancelled s) /\ exists rx', sr_streams s' = <[id := rx']> (sr_streams s))).
Proof.
  unfold read_end. destruct interrupted; [cbn; repeat split; by left|].
  destruct (negb _ || _) eqn:E; [cbn; repeat split; by left|].
  apply orb_false_iff in E as [Eg%negb_false_iff%Z.eqb_eq Ec%bool_decide_eq_false].
  destruct rx as [|[chunk|e] rx]; cbn; [repeat split; by left| |repeat split; by left].
  repeat split; [intros i Hi; by rewrite lookup_insert_ne|]. right. eauto.
Qed.

Lemma answer_ok s ws1 w ws2 i :
  bodies_ok {| bd_registry := s; bd_waiting := ws1 ++ w :: ws2 |} ->
  bodies_ok {| bd_registry := (read_end (wt_id w) (wt_generation w) (wt_rx w) i s).2; bd_waiting := ws1 ++ ws2 |}.
Proof.
  intros [H1 H2 H3 H4 H5]. cbn in *. destruct (read_end_registry (wt_id w) (wt_generation w) (wt_rx w) i s) as (Eg & En & Ef & Ec & Ei & Es).
  rewrite fmap_app, fmap_cons in H1, H2. apply NoDup_app in H1 as (Hd1 & Hdis & [Hnw Hd2]%NoDup_cons).
  assert (forall j, j ∈ wt_id <$> (ws1 ++ ws2) -> j ∈ (wt_id <$> ws1) ++ wt_id w :: (wt_id <$> ws2) /\ j <> wt_id w) as Hrest.
  { intros j. rewrite fmap_app, !elem_of_app, elem_of_cons. intros [Hj|Hj]; (split; [tauto|]); intros ->.
    - apply (Hdis _ Hj). left.
    - done. }
  destruct (H2 (wt_id w)) as (Hsw & _ & Hlw); [rewrite elem_of_app; right; left|].
  split; cbn; rewrite ?Eg, ?En; auto.
  - rewrite fmap_app. apply NoDup_app. split; [done|]. split; [|done]. intros x Hx Hx'. apply (Hdis x Hx). by right.
  - intros j Hj. destruct (Hrest j Hj) as [Hj' Hne]. destruct (H2 j Hj') as (Hs & Hf & Hl).
    rewrite Ei, Ef by done. split; [done|]. split; [set_solver|done].
  - intros j r. destruct (decide (j = wt_id w)) as [->|Hne]; [auto|]. rewrite Ei by done. eauto.
  - intros x Hx. apply H4. rewrite elem_of_app, elem_of_cons. rewrite elem_of_app in Hx. tauto.
Qed.

Lemma body_step_ok b b' : body_step b b' -> bodies_ok b -> bodies_ok b'.
Proof.
  intros Hs Hok. destruct Hs as [rx s ws Hn|id s ws|s ws Hg|id s ws g rx s' Hr|s ws1 w ws2 i];
    [destruct Hok as [H1 H2 H3 H4 H5]; cbn in *..|by apply answer_ok].
  - rewrite (next_id_mod _ H5 Hn). split; cbn; auto; try lia.
    + intros id Hid. destruct (H2 id Hid) as (Hs & Hf & Hl). rewrite lookup_insert_ne by lia. split; [done|]. split; [done|lia].
    + intros id r. destruct (decide (id = sr_next_id s)) as [->|]; [lia|].
      rewrite lookup_insert_ne by done. intros Hid%H3. lia.
  - unfold clear. destruct (sr_streams s !! id) eqn:E; [|case_bool_decide]; split; cbn; auto.
    + intros i Hi. destruct (H2 i Hi) as (Hs & Hf & Hl). by rewrite lookup_delete_None; auto.
    + intros i r [_ Hi]%lookup_delete_Some. eauto.
  - split; cbn; auto.
    + intros i Hi. destruct (H2 i Hi) as (_ & Hf & Hl). by rewrite lookup_empty.
    + intros i r Hi. by rewrite lookup_empty in Hi.
    + intros w Hw. specialize (H4 w Hw). unfold saturating_add. lia.
  - unfold read_begin in Hr. destruct (sr_streams s !! id) as [r|] eqn:E; [|done]. injection Hr as <- <- <-.
    assert (id ∉ wt_id <$> ws) as Hni by (intros Hi; destruct (H2 id Hi); congruence).
    split; cbn; auto.
    + rewrite fmap_app. apply NoDup_app. split; [done|]. split; [|apply NoDup_singleton].
      intros x Hx Hx'. apply list_elem_of_singleton in Hx' as ->. done.
    + intros i. rewrite fmap_app, elem_of_app. intros [Hi|Hi%list_elem_of_singleton].
      * destruct (H2 i Hi) as (Hs & Hf & Hl). rewrite lookup_delete_None. split; [auto|]. split; [set_solver|done].
      * cbn in Hi. subst i. rewrite lookup_delete_eq. split; [done|]. split; [set_solver|eauto].
    + intros i r' [_ Hi]%lookup_delete_Some. eauto.
    + intros w [Hw|Hw%list_elem_of_singleton]%elem_of_app; [auto|]. subst w. cbn. lia.
Qed.

Lemma body_step_gone id b b' : body_step b b' -> bodies_ok b -> gone id b -> gone id b'.
Proof.
  intros Hs [H1 H2 H3 H4 H5] [G1 G2 G3].
  destruct Hs as [rx s ws Hn|i s ws|s ws Hg|i s ws g rx s' Hr|s ws1 w ws2 i]; cbn in *.
  - split; cbn; [rewrite lookup_insert_ne; [done|lia]|rewrite (next_id_mod _ H5 Hn); lia|done].
  - unfold clear. destruct (sr_streams s !! i) eqn:E; [|case_bool_decide]; split; cbn; auto.
    + rewrite lookup_delete_None. auto.
    + intros w Hw Hid. destruct (G3 w Hw Hid); set_solver.
  - split; cbn; [apply lookup_empty|done|]. intros w Hw _. left. specialize (H4 w Hw).
    unfold saturating_add. lia.
  - unfold read_begin in Hr. destruct (sr_streams s !! i) as [r|] eqn:E; [|done]. injection Hr as <- <- <-.
    split; cbn; [rewrite lookup_delete_None; auto|done|].
    intros w [Hw|Hw%list_elem_of_singleton]%elem_of_app; [auto|]. subst w. cbn. congruence.
  - destruct (read_end_registry (wt_id w) (wt_generation w) (wt_rx w) i s) as (Eg & En & Ef & Ec & Ei & Es).
    rewrite fmap_app, fmap_cons in H1. apply NoDup_app in H1 as (_ & Hdis & [Hnw _]%NoDup_cons).
    assert (w ∈ ws1 ++ w :: ws2) as Hw by (rewrite elem_of_app; right; left).
    split; cbn; rewrite ?Eg, ?En; [|done|].
    + destruct (decide (id = wt_id w)) as [->|]; [|by rewrite Ei].
      destruct Es as [->|(Hg & Hc & _)]; [done|]. destruct (G3 w Hw eq_refl); congruence.
    + intros x Hx Hid. assert (id <> wt_id w) as Hne.
      { intros ->. apply elem_of_app in Hx as [Hx|Hx].
        - apply (Hdis (wt_id x)); [by apply list_elem_of_fmap_2|rewrite Hid; left].
        - apply Hnw. rewrite <- Hid. by apply list_elem_of_fmap_2. }
      rewrite Ec. destruct (G3 x) as [|Hc]; [|done|by left|right; set_solver].
      rewrite elem_of_app, elem_of_cons. rewrite elem_of_app in Hx. tauto.
Qed.

Lemma body_steps_gone id b b' : rtc body_step b b' -> bodies_ok b -> gone id b -> gone id b' /\ bodies_ok b'.
Proof. induction 1 as [|x y z Hs _ IH]; [done|]. intros. apply IH; [by eapply body_step_ok|by eapply body_step_gone]. Qed.

Lemma body_steps_ok b b' : rtc body_step b b' -> bodies_ok b -> bodies_ok b'.
Proof. induction 1 as [|x y z Hs _ IH]; [done|]. intros. by eapply IH, body_step_ok. Qed.

Definition no_bodies : Bodies := {| bd_registry := empty_registry; bd_waiting := [] |}.

Lemma no_bodies_ok : bodies_ok no_bodies.
Proof.
  split; cbn.
  - constructor.
  - intros id Hid. by apply elem_of_nil in Hid.
  - intros id rx Hid. by rewrite lookup_empty in Hid.
  - intros w Hw. by apply elem_of_nil in Hw.
  - lia.
Qed.

(** [clear] of an id that was given out, and [clear_all]. *)
Lemma clear_gone id s ws :
  bodies_ok {| bd_registry := s; bd_waiting := ws |} -> id < sr_next_id s ->
  gone id {| bd_registry := clear id s; bd_waiting := ws |}.
Proof.
  intros [H1 H2 H3 H4 H5] Hid. cbn in *. unfold clear. destruct (sr_streams s !! id) eqn:E; [|case_bool_decide as Hf];
    split; cbn; auto.
  - apply lookup_delete_eq.
  - intros w Hw <-. destruct (H2 (wt_id w)); [by apply list_elem_of_fmap_2|congruence].
  - intros w Hw <-. right. set_solver.
  - intros w Hw <-. destruct Hf. by apply H2, list_elem_of_fmap_2.
Qed.

Lemma clear_all_gone id s ws :
  bodies_ok {| bd_registry := s; bd_waiting := ws |} -> id < sr_next_id s -> sr_generation s < u64_max ->
  gone id {| bd_registry := clear_all s; bd_waiting := ws |}.
Proof.
  intros [H1 H2 H3 H4 H5] Hid Hg. cbn in *. split; cbn; [apply lookup_empty|done|].
  intros w Hw _. left. specialize (H4 w Hw). unfold saturating_add. lia.
Qed.

(** A response body that is cleared is never read again. At any moment of any
    interleaving, once a body is cleared by its id or with all others, then however
    the tasks go on, reads that were waiting for it are refused without a chunk and
    do not put it back, and new reads do not find it. *)
Theorem cleared_body_is_gone s ws id b :
  rtc body_step no_bodies {| bd_registry := s; bd_waiting := ws |} -> id < sr_next_id s ->
  rtc body_step {| bd_registry := clear id s; bd_waiting := ws |} b
  \/ (sr_generation s < u64_max /\ rtc body_step {| bd_registry := clear_all s; bd_waiting := ws |} b) ->
  (read_begin id (bd_registry b)).1 = Err "unknown or consumed response body"%string
  /\ forall w interrupted, w ∈ bd_waiting b -> wt_id w = id ->
       let '(r, s') := read_end (wt_id w) (wt_generation w) (wt_rx w) interrupted (bd_registry b) in
       r = Err (default "Cancelled"%string interrupted) /\ sr_streams s' !! id = None.
Proof.
  intros Hr Hid Hafter. pose proof (body_steps_ok _ _ Hr no_bodies_ok) as Hok.
  assert (gone id b) as [G1 G2 G3].
  { destruct Hafter as [Ha|[Hg Ha]]; eapply (body_steps_gone id _ _ Ha).
    - eapply body_step_ok, Hok. constructor.
    - by apply clear_gone.
    - eapply body_step_ok, Hok. by constructor.
    - by apply clear_all_gone. }
  split; [unfold read_begin; by rewrite G1|]. intros w interrupted Hw Hwid. unfold read_end.
  destruct interrupted; [by split|]. rewrite Hwid. specialize (G3 w Hw Hwid).
  destruct (negb _ || _) eqn:E; [by split|].
  apply orb_false_iff in E as [Eg%negb_false_iff%Z.eqb_eq Ec%bool_decide_eq_false].
  destruct G3; congruence.
Qed.

Lemma cleared_body_is_gone_witness :
  (read_end 1 0 [Ok "chunk"%string] None (clear 1 (read_begin 1 (install [Ok "chunk"%string] empty_registry).2).2)).1
  = Err "Cancelled"%string.
Proof.
  pose proof (cleared_body_is_gone (read_begin 1 (install [Ok "chunk"%string] empty_registry).2).2
    [{| wt_id := 1; wt_generation := 0; wt_rx := [Ok "chunk"%string] |}] 1
    {| bd_registry := clear 1 (read_begin 1 (install [Ok "chunk"%string] empty_registry).2).2;
       bd_waiting := [{| wt_id := 1; wt_generation := 0; wt_rx := [Ok "chunk"%string] |}] |}) as H.
  destruct H as [_ H].
  - eapply rtc_l; [apply (body_install [Ok "chunk"%string]); vm_compute; reflexivity|].
    eapply rtc_l; [|apply rtc_refl].
    apply (body_read 1 _ [] 0 [Ok "chunk"%string]). vm_compute. reflexivity.
  - vm_compute. reflexivity.
  - left. apply rtc_refl.
  - specialize (H {| wt_id := 1; wt_generation := 0; wt_rx := [Ok "chunk"%string] |} None
      ltac:(left) eq_refl). cbn [wt_id wt_generation wt_rx bd_registry default] in H.
    destruct (read_end 1 0 _ None _) as [r s']. exact (proj1 H).
Defined.
