(* ===== verification/Fetch.v ===== *)
(** * Outbound fetch of the trusted path

    Secret handles ([crates/tysel-engine-qjs/src/secrets.rs]), the fetch policy
    ([fetch_policy.rs]) and the redirect loop of [outbound_fetch] ([queue.rs]). The
    URI parser, the JSON of header lists and the network are parameters; every
    connection and every request sent is in the trace. *)

From Stdlib Require Import ZArith Lia Ascii String.
From stdpp Require Import base tactics gmap strings list.
From S2P Require Import Prelude Bytes SourceMap Capability HostStreams.
Open Scope Z_scope.

(** ** Secrets *)

Fixpoint any_whitespace (s : string) : bool :=
  negb (ws_prefix s =? 0)%nat || match s with EmptyString => false | String _ s' => any_whitespace s' end.

(** [handle_for] *)
Definition handle_for (name : string) (configured : option (gmap string string)) : result string string :=
  if str_is_empty name || str_contains_char ":" name || any_whitespace name then Err "invalid secret name"%string
  else
    match configured with
    | Some m => if bool_decide (is_Some (m !! name)) then Ok ("secret:" ++ name)%string else Err ("unknown secret " ++ name)%string
    | None => Ok ("secret:" ++ name)%string
    end.

(** [resolve] *)
Definition resolve_secret (secrets : option (gmap string string)) (handle : string) : result string string :=
  match strip_prefix "secret:" handle with
  | None => Err "invalid secret handle"%string
  | Some name =>
      match secrets with
      | None => Err ("unknown secret " ++ name)%string
      | Some m => ok_or (m !! name) ("unknown secret " ++ name)%string
      end
  end.

(** [load_declared]; [env] is the environment of the process. *)
Fixpoint load_declared (env : string -> option string) (names : list string) (file_values out : gmap string string)
    : gmap string string :=
  match names with
  | [] => out
  | name :: names' =>
      let from_file :=
        match file_values !! name with
        | Some v => if str_is_empty v then out else <[name := v]> out
        | None => out
        end in
      let out' :=
        match env name with
        | Some v => if str_is_empty v then from_file else <[name := v]> out
        | None => from_file
        end in
      load_declared env names' file_values out'
  end.

(** [unquote] *)
Definition unquote (value : string) : string :=
  let quote := byte_of 34 in
  match value, str_rev value with
  | String a rest, String b _ =>
      if (2 <=? len value)
         && ((Ascii.eqb a quote && Ascii.eqb b quote) || (Ascii.eqb a "'" && Ascii.eqb b "'"))
      then str_take (String.length rest - 1) rest else value
  | _, _ => value
  end.

(** [parse_dotenv] *)
Definition dotenv_line (out : gmap string string) (raw : string) : gmap string string :=
  let line := trim raw in
  if str_is_empty line || starts_with "#" line then out
  else
    let line := trim (default line (strip_prefix "export " line)) in
    match split_once "=" line with
    | None => out
    | Some (key, value) =>
        if str_is_empty (trim key) then out else <[trim key := unquote (trim value)]> out
    end.
Definition parse_dotenv (text : string) : gmap string string := foldl dotenv_line ∅ (str_lines text).

(** ** Hosts *)

(** [str::trim_end_matches('.')] *)
Fixpoint drop_dots (s : string) : string :=
  match s with String c s' => if Ascii.eqb c "." then drop_dots s' else s | EmptyString => s end.
Definition trim_end_dots (s : string) : string := str_rev (drop_dots (str_rev s)).

Fixpoint count_char (c : ascii) (s : string) : Z :=
  match s with EmptyString => 0 | String a s' => (if Ascii.eqb a c then 1 else 0) + count_char c s' end.

(** [normalize_host] *)
Definition strip_port (host : string) : string :=
  match rsplit_once ":" host with
  | Some (name, _) => if negb (str_is_empty name) && (count_char ":" host =? 1) then name else host
  | None => host
  end.
Definition normalize_host (value : string) : string :=
  let host := to_ascii_lowercase (trim value) in
  let host :=
    match strip_prefix "https://" host with
    | Some rest => rest
    | None => default host (strip_prefix "http://" host)
    end in
  let host := match split_once "/" host with Some (name, _) => name | None => host end in
  match (rest ← strip_prefix "[" host; split_once "]" rest) with
  | Some (inner, _) => inner
  | None => trim_end_dots (strip_port host)
  end.

(** [check_host] *)
Definition check_host (host : string) (configured : option (list string)) : result string () :=
  match configured with
  | None => Ok ()
  | Some allowed =>
      let host := normalize_host host in
      if str_is_empty host then Err "missing host"%string
      else if existsb (fun pattern => String.eqb (normalize_host pattern) host) allowed then Ok ()
      else Err ("host " ++ host ++ " is not permitted")%string
  end.

(** ** Headers *)

Definition skip_request_header (name : string) : bool :=
  existsb (String.eqb name)
    ["host"; "connection"; "keep-alive"; "proxy-authenticate"; "proxy-authorization"; "te"; "trailer";
     "transfer-encoding"; "upgrade"; "content-length"]%string.
Definition skip_response_header (name : string) : bool :=
  existsb (String.eqb name)
    ["connection"; "keep-alive"; "proxy-authenticate"; "proxy-authorization"; "te"; "trailer"; "transfer-encoding";
     "upgrade"]%string.

(** [is_secret_handle_value] *)
Definition is_secret_handle_value (value : string) : bool :=
  match strip_prefix "Bearer " (trim value) with
  | Some rest => starts_with "secret:" (trim rest)
  | None => starts_with "secret:" (trim value)
  end.

Section Headers.
Context (resolve : string -> result string string).

(** [expand_header_value_with] *)
Definition expand_plain (value : string) : result string string :=
  if starts_with "secret:" (trim value) then resolve (trim value) else Ok value.
Definition expand_header_value_with (value : string) : result string string :=
  match strip_prefix "Bearer " (trim value) with
  | Some rest =>
      if starts_with "secret:" (trim rest)
      then match resolve (trim rest) with Ok v => Ok ("Bearer " ++ v)%string | Err e => Err e end
      else expand_plain value
  | None => expand_plain value
  end.

Record RequestHeaders := { rh_headers : list (string * string); rh_secret_names : list string }.

(** The loop of [expand_headers_json_with] *)
Fixpoint expand_loop (pairs : list (string * string)) (out : RequestHeaders) : result string RequestHeaders :=
  match pairs with
  | [] => Ok out
  | (name, value) :: pairs' =>
      let lower := to_ascii_lowercase name in
      if skip_request_header lower then expand_loop pairs' out
      else
        let names :=
          if is_secret_handle_value value && negb (existsb (String.eqb lower) (rh_secret_names out))
          then rh_secret_names out ++ [lower] else rh_secret_names out in
        match expand_header_value_with value with
        | Err e => Err e
        | Ok v => expand_loop pairs' {| rh_headers := rh_headers out ++ [(name, v)]; rh_secret_names := names |}
        end
  end.

End Headers.

(** [strip_credentials_for_cross_origin] *)
Definition strip_credentials_for_cross_origin (h : RequestHeaders) : RequestHeaders := {|
  rh_headers := List.filter (fun p =>
    let lower := to_ascii_lowercase p.1 in
    negb (String.eqb lower "authorization") && negb (existsb (String.eqb lower) (rh_secret_names h))) (rh_headers h);
  rh_secret_names := rh_secret_names h;
|}.

(** ** The network *)

(** [hyper::Uri] as the source reads it. *)
Record Uri := {
  uri_scheme : option string;
  uri_host : option string;
  uri_port : option Z;
  uri_authority : option string;
  uri_path : string;
  uri_path_and_query : option string;
}.

(** The head of a response; a header value that is no text has none. *)
Record Response := { rs_status : Z; rs_headers : list (string * option string) }.

Record Sent := {
  sn_https : bool; sn_host : string; sn_port : Z; sn_url : string;
  sn_method : string; sn_path : string; sn_host_header : string; sn_headers : list (string * string); sn_body : string;
}.

(** The parser of URIs, the JSON of header lists, and the network at the [n]-th
    step: connecting, the TLS and HTTP handshakes, and the answer to a request, each
    of which may fail or be interrupted. [net_body] is what the body delivers and
    [flagged] the interrupt of a raised cancellation flag. *)
Class Net := {
  uri_parse : string -> result string Uri;
  header_pairs : string -> result string (list (string * string));
  header_json : list (string * string) -> string;
  net_connect : nat -> string -> Z -> result string ();
  net_handshake : nat -> bool -> string -> result string ();
  net_answer : nat -> Sent -> result string Response;
  net_body : nat -> BodyRx;
  flagged : nat -> option string;
}.

Section Fetch.
Context {N : Net}.

(** [expand_headers_json_with] *)
Definition expand_headers_json (secrets : option (gmap string string)) (headers_json : string) : result string RequestHeaders :=
  if str_is_empty headers_json then Ok {| rh_headers := []; rh_secret_names := [] |}
  else
    match header_pairs headers_json with
    | Err e => Err ("invalid fetch headers: " ++ e)%string
    | Ok pairs => expand_loop (resolve_secret secrets) pairs {| rh_headers := []; rh_secret_names := [] |}
    end.

(** [origin_of] *)
Definition origin_of (url : string) : result string (string * string * Z) :=
  uri ← uri_parse url;
  scheme ← ok_or (uri_scheme uri) "missing scheme"%string;
  let scheme := to_ascii_lowercase scheme in
  if negb (String.eqb scheme "http") && negb (String.eqb scheme "https")
  then Err "outbound fetch only supports http and https"%string
  else
    host ← ok_or (uri_host uri) "missing host"%string;
    let host := trim_end_dots (to_ascii_lowercase host) in
    Ok (scheme, host, default (if String.eqb scheme "https" then 443 else 80) (uri_port uri)).

(** [same_origin] *)
Definition same_origin (current next : string) : result string bool :=
  a ← origin_of current;
  b ← origin_of next;
  Ok (bool_decide (a = b)).

Definition MAX_REDIRECTS : nat := 20.
Definition MAX_OUTBOUND_BODY : Z := 16 * 1024 * 1024.

(** [normalize_method] *)
Definition normalize_method (method : string) : result string string :=
  let method := to_ascii_uppercase method in
  if existsb (String.eqb method) ["GET"; "HEAD"; "POST"; "PUT"; "PATCH"; "DELETE"]%string then Ok method
  else Err "outbound fetch only supports GET, HEAD, POST, PUT, PATCH, and DELETE"%string.

(** [request_body] *)
Definition request_body (method body : string) : result string string :=
  if String.eqb method "GET" || String.eqb method "HEAD" then Ok EmptyString
  else if MAX_OUTBOUND_BODY <? len body
  then Err ("request body exceeds " ++ dec_string MAX_OUTBOUND_BODY ++ " bytes")%string
  else Ok body.

(** [resolve_redirect] *)
Definition resolve_redirect (current location : string) : result string string :=
  let location := trim location in
  if starts_with "http://" location || starts_with "https://" location then Ok location
  else
    base ← uri_parse current;
    scheme ← ok_or (uri_scheme base) "missing scheme"%string;
    authority ← ok_or (uri_authority base) "missing host"%string;
    match strip_prefix "/" location with
    | Some rest => Ok (scheme ++ "://" ++ authority ++ "/" ++ rest)%string
    | None =>
        let prefix := match rsplit_once "/" (uri_path base) with Some (head, _) => head | None => ""%string end in
        Ok (scheme ++ "://" ++ authority ++ prefix ++ "/" ++ location)%string
    end.

(** [response_headers_json] *)
Definition response_headers_json (headers : list (string * option string)) : string :=
  header_json (omap (fun p => if skip_response_header p.1 then None else (fun v => (p.1, v)) <$> p.2) headers).

Inductive NetEvent := Connected (host : string) (port : Z) | Requested (s : Sent).
Record FetchState := { ft_steps : nat; ft_trace : list NetEvent; ft_outbound : StreamRegistry }.
Definition Nm (A : Type) : Type := M FetchState string A.

Definition acted (es : list NetEvent) (s : FetchState) : FetchState :=
  {| ft_steps := S (ft_steps s); ft_trace := ft_trace s ++ es; ft_outbound := ft_outbound s |}.
Definition step {A} (f : nat -> result string A) (es : list NetEvent) : Nm A := fun s => (f (ft_steps s), acted es s).

(** [fetch_hop] with [tls_connect] and [handshake_and_send] *)
Definition fetch_hop (hosts : option (list string)) (method url : string) (headers : list (string * string)) (body : string)
    : Nm Response :=
  uri ← lift (uri_parse url);
  https ← lift (match uri_scheme uri with
                | Some s => if String.eqb s "http" then Ok false else if String.eqb s "https" then Ok true
                            else Err "outbound fetch only supports http and https"%string
                | None => Err "outbound fetch only supports http and https"%string
                end);
  host ← lift (ok_or (uri_host uri) "missing host"%string);
  lift (check_host host hosts);;
  let port := default (if https : bool then 443 else 80) (uri_port uri) in
  step (fun n => net_connect n host port) [Connected host port];;
  let path := default "/"%string (uri_path_and_query uri) in
  let host_header := if (negb https && (port =? 80)) || (https && (port =? 443)) then host
                     else (host ++ ":" ++ dec_string port)%string in
  step (fun n => net_handshake n https host) [];;
  let sent := {| sn_https := https; sn_host := host; sn_port := port; sn_url := url; sn_method := method; sn_path := path;
                 sn_host_header := host_header; sn_headers := headers; sn_body := body |} in
  step (fun n => net_answer n sent) [Requested sent].

Definition is_redirection (status : Z) : bool := in_range 300 399 status.
Definition location (r : Response) : option string :=
  match List.find (fun p => String.eqb p.1 "location") (rs_headers r) with Some p => p.2 | None => None end.

Record Fetched := { fd_status : Z; fd_headers : string; fd_body_id : Z }.

(** [StreamRegistry::install] and [clear_async] between two looks at the flag. *)
Definition install_body (r : Response) : Nm Fetched := fun s =>
  let n := ft_steps s in
  match flagged n with
  | Some e => (Err e, acted [] s)
  | None =>
      let '(id, outbound) := install (net_body n) (ft_outbound s) in
      match flagged (S n) with
      | Some e => (Err e, {| ft_steps := S (S n); ft_trace := ft_trace s; ft_outbound := clear id outbound |})
      | None => (Ok {| fd_status := rs_status r; fd_headers := response_headers_json (rs_headers r); fd_body_id := id |},
                 {| ft_steps := S (S n); ft_trace := ft_trace s; ft_outbound := outbound |})
      end
  end.

(** The loop of [outbound_fetch] *)
Fixpoint hops (hosts : option (list string)) (left : nat) (method url : string) (headers : RequestHeaders) (body : string)
    : Nm Fetched :=
  match left with
  | O => throw "too many redirects"%string
  | S left' =>
      r ← fetch_hop hosts method url (rh_headers headers) body;
      match (if is_redirection (rs_status r) then location r else None) with
      | None => install_body r
      | Some loc =>
          next ← lift (resolve_redirect url loc);
          same ← lift (same_origin url next);
          let headers := if same : bool then headers else strip_credentials_for_cross_origin headers in
          let to_get := in_range 301 303 (rs_status r) && negb (String.eqb method "HEAD") in
          hops hosts left' (if to_get then "GET"%string else method) next headers (if to_get then EmptyString else body)
      end
  end.

(** [outbound_fetch] *)
Definition outbound_fetch (secrets : option (gmap string string)) (hosts : option (list string))
    (method url headers_json body : string) : Nm Fetched :=
  method ← lift (normalize_method method);
  headers ← lift (expand_headers_json secrets headers_json);
  body ← lift (request_body method body);
  hops hosts (S MAX_REDIRECTS) method url headers body.

End Fetch.
