(* ===== verification/FetchThms.v ===== *)
(** * Confinement of outbound fetch

    Requests go only to permitted hosts, redirects are bounded, and secret values and
    authorization never leave the origin the script asked for. *)

From Stdlib Require Import ZArith Lia Ascii String.
From stdpp Require Import base tactics gmap strings list.
From S2P Require Import Prelude Bytes SourceMap Capability HostStreams Fetch.
Open Scope Z_scope.

(** ** Headers *)

Lemma expand_not_secret resolve value :
  is_secret_handle_value value = false -> expand_header_value_with resolve value = Ok value.
Proof.
  unfold is_secret_handle_value, expand_header_value_with, expand_plain.
  destruct (strip_prefix "Bearer " (trim value)) as [rest|] eqn:E; [|by intros ->].
  intros ->. destruct (starts_with "secret:" (trim value)) eqn:Es; [|done]. exfalso.
  revert E Es. unfold starts_with. destruct (trim value) as [|c t]; [done|]. cbn [strip_prefix].
  destruct (Ascii.eqb "B" c) eqn:Eb; [|done]. apply Ascii.eqb_eq in Eb as <-. done.
Qed.

(** A header as the script wrote it, whose value is no secret handle. *)
Definition literal (pairs : list (string * string)) (p : string * string) : Prop :=
  p ∈ pairs /\ is_secret_handle_value p.2 = false.

(** Every header is literal or its name is marked. *)
Definition marked (pairs : list (string * string)) (h : RequestHeaders) : Prop :=
  Forall (fun p => literal pairs p \/ to_ascii_lowercase p.1 ∈ rh_secret_names h) (rh_headers h).

Lemma existsb_elem x l : existsb (String.eqb x) l = true <-> x ∈ l.
Proof.
  rewrite existsb_exists. setoid_rewrite String.eqb_eq. setoid_rewrite <- list_elem_of_In. split.
  - by intros (y & Hy & ->).
  - intros H. by exists x.
Qed.

Lemma expand_loop_marked resolve all pairs out h :
  (forall p, p ∈ pairs -> p ∈ all) -> marked all out -> expand_loop resolve pairs out = Ok h -> marked all h.
Proof.
  revert out. induction pairs as [|[name value] pairs IH]; intros out Hall Hout; cbn [expand_loop]; [by intros [= <-]|].
  assert (forall p, p ∈ pairs -> p ∈ all) as Hall' by (intros p Hp; apply Hall; by right).
  destruct (skip_request_header _); [by apply IH|].
  set (lower := to_ascii_lowercase name). set (names := if is_secret_handle_value value && _ then _ else _).
  destruct (expand_header_value_with resolve value) as [v|] eqn:Ev; [|done]. apply IH; [done|].
  assert (forall x, x ∈ rh_secret_names out -> x ∈ names) as Hgrow.
  { intros x Hx. subst names. case_match; [|done]. rewrite elem_of_app. by left. }
  apply list.Forall_app. split.
  - eapply list.Forall_impl; [exact Hout|]. intros p [Hp|Hp]; [by left|right; by apply Hgrow].
  - constructor; [|done]. cbn. destruct (is_secret_handle_value value) eqn:Es.
    + right. subst names. destruct (existsb (String.eqb lower) (rh_secret_names out)) eqn:Ee; cbn.
      * by apply existsb_elem.
      * rewrite elem_of_app. right. by apply list_elem_of_singleton.
    + left. rewrite expand_not_secret in Ev by done. injection Ev as <-. split; [apply Hall; left|done].
Qed.

(** Headers without credentials: literal, and none is [Authorization]. *)
Definition public (pairs : list (string * string)) (hs : list (string * string)) : Prop :=
  Forall (fun p => literal pairs p /\ to_ascii_lowercase p.1 <> "authorization"%string) hs.

Lemma strip_public pairs h : marked pairs h -> public pairs (rh_headers (strip_credentials_for_cross_origin h)).
Proof.
  intros H. apply list.Forall_forall. intros p Hp. apply list_elem_of_In, filter_In in Hp as [Hp Hk].
  apply andb_true_iff in Hk as [Ha%negb_true_iff%String.eqb_neq Hs%negb_true_iff].
  apply list_elem_of_In in Hp. unfold marked in H. rewrite list.Forall_forall in H. destruct (H p Hp) as [Hl|Hm]; [done|].
  apply existsb_elem in Hm. congruence.
Qed.

Lemma strip_marked pairs h : marked pairs h -> marked pairs (strip_credentials_for_cross_origin h).
Proof.
  intros H. apply list.Forall_forall. intros p Hp. apply list_elem_of_In, filter_In in Hp as [Hp _].
  apply list_elem_of_In in Hp. unfold marked in H. rewrite list.Forall_forall in H. by apply H.
Qed.

(** ** Traces *)

Section Traces.
Context {N : Net}.

Definition requests (es : list NetEvent) : nat := length (List.filter (fun e => match e with Requested _ => true | _ => false end) es).

(** Events of [m], all of which satisfy [P], with at most [k] requests. *)
Definition emits {A} (P : NetEvent -> Prop) (k : nat) (m : Nm A) : Prop := forall s,
  exists es, ft_trace (m s).2 = ft_trace s ++ es /\ Forall P es /\ (requests es <= k)%nat.

Lemma requests_app a b : requests (a ++ b) = (requests a + requests b)%nat.
Proof. unfold requests. by rewrite List.filter_app, length_app. Qed.

Lemma emits_bind {A B} P i j (m : Nm A) (f : A -> Nm B) :
  emits P i m -> (forall a, emits P j (f a)) -> emits P (i + j) (mbind f m).
Proof.
  intros Hm Hf s. destruct (Hm s) as (es & He & HP & Hk). unfold mbind, M_bind.
  destruct (m s) as [[a|e] s1]; cbn in *; [|exists es; split; [done|]; split; [done|lia]].
  destruct (Hf a s1) as (es2 & He2 & HP2 & Hk2). exists (es ++ es2). rewrite He2, He, <- app_assoc.
  split; [done|]. split; [by apply list.Forall_app|]. rewrite requests_app. lia.
Qed.

Lemma emits_lift_bind {A B} P k (r : result string A) (f : A -> Nm B) :
  (forall a, r = Ok a -> emits P k (f a)) -> emits P k (mbind f (lift r)).
Proof.
  intros H s. unfold mbind, M_bind, lift. destruct r as [a|e]; [by apply H|]. exists []. rewrite app_nil_r.
  split; [done|]. split; [done|cbn; lia].
Qed.

Lemma emits_throw {A} P k e : emits P k (throw e : Nm A).
Proof. intros s. exists []. rewrite app_nil_r. split; [done|]. split; [done|cbn; lia]. Qed.

Lemma emits_step {A} P (f : nat -> result string A) es : Forall P es -> emits P (requests es) (step f es).
Proof. intros H s. by exists es. Qed.

Lemma emits_le {A} P i k (m : Nm A) : (i <= k)%nat -> emits P i m -> emits P k m.
Proof. intros Hle H s. destruct (H s) as (es & ? & ? & ?). exists es. split; [done|]. split; [done|lia]. Qed.

(** A host the allowlist permits: any host of an unconfigured process, else one whose
    normal form is that of an entry. *)
Definition permitted_host (hosts : option (list string)) (host : string) : Prop :=
  match hosts with
  | None => True
  | Some allowed => normalize_host host <> EmptyString
      /\ exists pattern, pattern ∈ allowed /\ normalize_host pattern = normalize_host host
  end.

Lemma check_host_permitted host hosts : check_host host hosts = Ok () -> permitted_host hosts host.
Proof.
  unfold check_host, permitted_host. destruct hosts as [allowed|]; [|done].
  destruct (str_is_empty (normalize_host host)) eqn:Ee; [done|]. destruct (existsb _ _) eqn:Ex; [|done]. intros _.
  split; [by intros Hn; rewrite Hn in Ee|]. apply existsb_exists in Ex as (x & Hx & He%String.eqb_eq).
  exists x. by rewrite list_elem_of_In.
Qed.

(** What an event of a fetch of [url] with the header list [pairs] may be. *)
Definition allowed_event (hosts : option (list string)) (url : string) (pairs : list (string * string)) (e : NetEvent) : Prop :=
  match e with
  | Connected host _ => permitted_host hosts host
  | Requested s => permitted_host hosts (sn_host s)
      /\ (origin_of (sn_url s) = origin_of url \/ public pairs (sn_headers s))
  end.

Lemma fetch_hop_emits hosts url0 pairs method url headers body :
  origin_of url = origin_of url0 \/ public pairs headers ->
  emits (allowed_event hosts url0 pairs) 1 (fetch_hop hosts method url headers body).
Proof.
  intros Hok. unfold fetch_hop. do 3 (apply emits_lift_bind; intros ? _).
  apply emits_lift_bind. intros [] Hh. apply check_host_permitted in Hh. cbn zeta.
  apply (emits_bind _ 0 1).
  { eapply (emits_step _ _ [Connected _ _]). constructor; [exact Hh|constructor]. }
  intros _. apply (emits_bind _ 0 1); [apply (emits_step _ _ []); constructor|]. intros _.
  eapply (emits_step _ _ [Requested _]). constructor; [|constructor]. split; [exact Hh|exact Hok].
Qed.

Lemma install_body_emits P r : emits P 0 (install_body r).
Proof.
  intros s. exists []. rewrite app_nil_r. split; [|split; [constructor|cbn; lia]].
  unfold install_body. destruct (flagged _); [apply app_nil_r|].
  destruct (install _ _) as [id o]. by destruct (flagged _).
Qed.

Lemma hops_emits hosts url0 pairs left method url headers body :
  marked pairs headers -> origin_of url = origin_of url0 \/ public pairs (rh_headers headers) ->
  emits (allowed_event hosts url0 pairs) left (hops hosts left method url headers body).
Proof.
  revert method url headers body. induction left as [|left IH]; intros method url headers body Hm Hok; cbn [hops];
    [apply emits_throw|].
  apply (emits_bind _ 1 left); [by apply fetch_hop_emits|]. intros r.
  destruct (if is_redirection _ then _ else _) as [loc|]; [|eapply emits_le, install_body_emits; lia].
  apply emits_lift_bind. intros next _. apply emits_lift_bind. intros same Hs. cbn zeta.
  assert (same = true -> origin_of next = origin_of url) as Hsame.
  { intros ->. revert Hs. unfold same_origin. destruct (origin_of url) as [a|]; [|done].
    destruct (origin_of next) as [b|]; [|done]. cbn. case_bool_decide; [by subst|done]. }
  apply IH; destruct same; auto using strip_marked, strip_public.
  rewrite Hsame by done. done.
Qed.

(** C11. Outbound fetch is confined. Whatever servers answer, a fetch connects only
    to hosts the allowlist permits and sends at most 21 requests; and a request for an
    origin other than the one the script asked for carries only headers the script
    wrote literally, with no secret value and no authorization, also when it is
    redirected on or back. *)
Theorem outbound_fetch_confined secrets hosts method url headers_json body s :
  let pairs := match header_pairs headers_json with Ok pairs => pairs | Err _ => [] end in
  exists es, ft_trace (outbound_fetch secrets hosts method url headers_json body s).2 = ft_trace s ++ es
    /\ Forall (allowed_event hosts url pairs) es /\ (requests es <= 21)%nat.
Proof.
  cbn zeta. set (pairs := match header_pairs headers_json with Ok pairs => pairs | Err _ => [] end).
  cut (emits (allowed_event hosts url pairs) 21 (outbound_fetch secrets hosts method url headers_json body)).
  { intros H. apply H. }
  unfold outbound_fetch. apply emits_lift_bind. intros m _. apply emits_lift_bind. intros h Hh.
  apply emits_lift_bind. intros b _. apply hops_emits; [|by left].
  revert Hh. unfold expand_headers_json. destruct (str_is_empty headers_json); [intros [= <-]; constructor|].
  subst pairs. destruct (header_pairs headers_json) as [pairs|]; [|done].
  apply expand_loop_marked; [done|]. constructor.
Qed.

End Traces.
