(* ===== verification/Distribution.v ===== *)
(** * Release metadata ([crates/tysel-distribution/src])

    Targets and build identities ([lib.rs]), release manifests and channel pointers
    ([manifest.rs]), the managed installation and its state ([layout.rs]). The
    documents are the typed values serde gives; semantic versions are parsed by the
    parameter of [Capability]. *)

From Stdlib Require Import ZArith Lia Ascii String.
From stdpp Require Import base tactics gmap strings list.
From S2P Require Import Prelude Bytes Capability FsCap.
Open Scope Z_scope.

Definition BUILD_INFO_SCHEMA_VERSION : Z := 1.
Definition RELEASE_MANIFEST_SCHEMA_VERSION : Z := 1.
Definition CHANNEL_POINTER_SCHEMA_VERSION : Z := 1.
Definition INSTALL_STATE_SCHEMA_VERSION : Z := 1.
Definition EXPECTED_BINARIES : list string := ["tysel"; "tysel-service"; "tysel-worker"]%string.

(** ** Targets *)

#[global] Instance SemVersion_eq_dec : EqDecision SemVersion.
Proof. solve_decision. Defined.

Inductive Target := LinuxX64 | LinuxArm64 | DarwinX64 | DarwinArm64 | Unsupported.
#[global] Instance Target_eq_dec : EqDecision Target.
Proof. solve_decision. Defined.

Definition canonical (t : Target) : string :=
  match t with
  | LinuxX64 => "linux-x64" | LinuxArm64 => "linux-arm64" | DarwinX64 => "darwin-x64"
  | DarwinArm64 => "darwin-arm64" | Unsupported => "unsupported"
  end.
Definition aliases (t : Target) : list string :=
  match t with
  | LinuxX64 => ["linux-x64"; "linux-amd64"; "x86_64-unknown-linux-gnu"]
  | LinuxArm64 => ["linux-arm64"; "aarch64-unknown-linux-gnu"]
  | DarwinX64 => ["darwin-x64"; "macos-x64"; "x86_64-apple-darwin"]
  | DarwinArm64 => ["darwin-arm64"; "macos-arm64"; "aarch64-apple-darwin"]
  | Unsupported => []
  end%string.
Definition accepts (t : Target) (requested : string) : bool :=
  existsb (fun alias => eq_ignore_ascii_case alias requested) (aliases t).
(** [Target::parse], [Target::from_canonical] *)
Definition target_parse (value : string) : option Target :=
  List.find (fun t => accepts t value) [LinuxX64; LinuxArm64; DarwinX64; DarwinArm64].
Definition from_canonical (value : string) : option Target :=
  if String.eqb value "linux-x64" then Some LinuxX64
  else if String.eqb value "linux-arm64" then Some LinuxArm64
  else if String.eqb value "darwin-x64" then Some DarwinX64
  else if String.eqb value "darwin-arm64" then Some DarwinArm64
  else None.

Record BuildInfo := {
  bi_schema_version : Z; bi_binary : string; bi_version : string; bi_target : string;
  bi_source_commit : option string; bi_release_id : option string;
}.
(** [BuildInfo::same_release_as] *)
Definition same_release_as (a b : BuildInfo) : bool :=
  (bi_schema_version a =? bi_schema_version b) && String.eqb (bi_version a) (bi_version b)
  && String.eqb (bi_target a) (bi_target b) && bool_decide (bi_source_commit a = bi_source_commit b)
  && bool_decide (bi_release_id a = bi_release_id b).

(** ** Documents *)

Inductive Channel := Stable | Canary.
Inductive RequiredFeature := AtomicBinLink | BuildInfoV1 | Ed25519Manifest.
#[global] Instance RequiredFeature_eq_dec : EqDecision RequiredFeature.
Proof. solve_decision. Defined.

Inductive SignatureAlgorithm := Ed25519.
Record ManifestSignature := { ms_algorithm : SignatureAlgorithm; ms_url : string; ms_key_id : string }.
Record ExpectedFile := { ef_path : string; ef_sha256 : string }.
Record PlatformRequirements := { minimum_glibc : option string; minimum_kernel : option string; minimum_macos : option string }.
Record Compatibility := {
  minimum_tap_version : Z; maximum_tap_version : Z; capability_abi_version : string; types_version : string;
}.
Record ReleaseAsset := {
  ra_target : Target; ra_archive_url : string; ra_byte_size : Z; ra_sha256 : string; ra_signature : ManifestSignature;
  ra_files : list ExpectedFile; ra_build_info : list BuildInfo; ra_platform : PlatformRequirements;
}.
(** [rm_optional_features] holds JSON values, of which nothing is read: [J] stands for them. *)
Record ReleaseManifest {J : Type} := {
  rm_schema_version : Z; rm_version : string; rm_source_commit : string; rm_published_at : string; rm_channel : Channel;
  rm_minimum_updater_version : string; rm_compatibility : Compatibility; rm_required_features : list RequiredFeature;
  rm_optional_features : gmap string J; rm_assets : list ReleaseAsset;
}.
Arguments ReleaseManifest : clear implicits.
Record ChannelPointer := {
  cp_schema_version : Z; cp_channel : Channel; cp_version : string; cp_published_at : string; cp_manifest_url : string;
  cp_manifest_byte_size : Z; cp_manifest_sha256 : string; cp_manifest_signature : ManifestSignature;
  cp_required_features : list RequiredFeature;
}.

Inductive ManifestError :=
| MeSchema (document : string) (actual expected : Z)
| MeVersion (field value : string)
| MeSourceCommit
| MePublishedAt
| MeNoAssets
| MeTarget (t : Target)
| MeUrl (field : string)
| MeSha256 (field : string)
| MeKeyId
| MeEmptyAsset
| MeFiles (t : Target) (reason : string)
| MeBuildInfo (t : Target) (reason : string)
| MeCompatibility (reason : string)
| MePlatform (t : Target)
| MeDuplicateFeature
| MeChannelVersion (document : string) (channel : Channel) (version : string).

Definition ensure {E} (b : bool) (e : E) : result E () := if b then Ok () else Err e.

(** ** Field checks *)

Definition is_lower_hex (value : string) (length : Z) : bool :=
  (len value =? length) && str_all (fun c => is_ascii_digit c || in_range 97 102 (byte_code c)) value.
Definition check_schema (document : string) (actual expected : Z) : result ManifestError () :=
  ensure (actual =? expected) (MeSchema document actual expected).
Definition check_commit (value : string) : result ManifestError () := ensure (is_lower_hex value 40) MeSourceCommit.
Definition check_sha256 (value field : string) : result ManifestError () := ensure (is_lower_hex value 64) (MeSha256 field).

(** [u8::is_ascii_whitespace]: not the vertical tab. *)
Definition is_ascii_whitespace (c : ascii) : bool :=
  let z := byte_code c in (z =? 32) || (z =? 9) || (z =? 10) || (z =? 12) || (z =? 13).
Definition https_ok (value : string) : bool :=
  starts_with "https://" value && negb (len value <=? len "https://") && negb (str_any is_ascii_whitespace value).
Definition check_https (value field : string) : result ManifestError () := ensure (https_ok value) (MeUrl field).

Definition ends_with_char (c : ascii) (s : string) : bool :=
  match str_rev s with String a _ => Ascii.eqb a c | EmptyString => false end.
Definition timestamp_ok (value : string) : bool :=
  negb (len value <? 20) && str_contains_char "T" value && ends_with_char "Z" value.
Definition check_timestamp (value : string) : result ManifestError () := ensure (timestamp_ok value) MePublishedAt.

Definition valid_platform_version (value : string) : bool :=
  let parts := str_split "." value in
  in_range 2 4 (vec_len parts)
  && forallb (fun part => negb (str_is_empty part) && (len part <=? 4) && str_all is_ascii_digit part) parts.

(** [any(|feature| !found.insert(feature))] *)
Fixpoint distinct {A} `{EqDecision A} (found l : list A) : bool :=
  match l with
  | [] => true
  | x :: l' => if bool_decide (x ∈ found) then false else distinct (x :: found) l'
  end.
Definition check_features (features : list RequiredFeature) : result ManifestError () :=
  ensure (distinct [] features) MeDuplicateFeature.

(** [ManifestSignature::validate] *)
Definition signature_validate (s : ManifestSignature) : result ManifestError () :=
  check_https (ms_url s) "signature.url";; ensure (is_lower_hex (ms_key_id s) 64) MeKeyId.

(** [PlatformRequirements::validate] *)
Definition some_version (o : option string) : bool := match o with Some v => valid_platform_version v | None => false end.
Definition absent {A} (o : option A) : bool := match o with Some _ => false | None => true end.
Definition platform_ok (p : PlatformRequirements) (t : Target) : bool :=
  match t with
  | LinuxX64 | LinuxArm64 => some_version (minimum_glibc p) && some_version (minimum_kernel p) && absent (minimum_macos p)
  | DarwinX64 | DarwinArm64 => some_version (minimum_macos p) && absent (minimum_glibc p) && absent (minimum_kernel p)
  | Unsupported => false
  end.
Definition platform_validate (p : PlatformRequirements) (t : Target) : result ManifestError () :=
  ensure (platform_ok p t) (MePlatform t).

(** ** Assets *)

Section Assets.
Context {J : Type}.

(** [ReleaseAsset::validate_files]: its loop, then the count. *)
Fixpoint files_loop (t : Target) (files : list ExpectedFile) (found : list string) : result ManifestError (list string) :=
  match files with
  | [] => Ok found
  | f :: files' =>
      if negb (existsb (fun binary => String.eqb (ef_path f) ("bin/" ++ binary)) EXPECTED_BINARIES)
      then Err (MeFiles t "only the three managed binary paths are allowed")
      else if bool_decide (ef_path f ∈ found) then Err (MeFiles t "duplicate binary path")
      else check_sha256 (ef_sha256 f) "asset.files.sha256";; files_loop t files' (ef_path f :: found)
  end.
Definition validate_files (a : ReleaseAsset) : result ManifestError () :=
  found ← files_loop (ra_target a) (ra_files a) [];
  ensure (vec_len found =? vec_len EXPECTED_BINARIES) (MeFiles (ra_target a) "all three managed binaries are required").

(** [ReleaseAsset::validate_build_info] *)
Definition identity_matches (t : Target) (m : ReleaseManifest J) (info : BuildInfo) : bool :=
  String.eqb (bi_version info) (rm_version m) && String.eqb (bi_target info) (canonical t)
  && bool_decide (bi_source_commit info = Some (rm_source_commit m))
  && bool_decide (bi_release_id info = Some (rm_version m)).
Fixpoint infos_loop (t : Target) (m : ReleaseManifest J) (infos : list BuildInfo) (binaries : list string)
    : result ManifestError () :=
  match infos with
  | [] => Ok ()
  | info :: infos' =>
      if negb (bi_schema_version info =? BUILD_INFO_SCHEMA_VERSION)
         || negb (existsb (String.eqb (bi_binary info)) EXPECTED_BINARIES)
         || bool_decide (bi_binary info ∈ binaries) || negb (identity_matches t m info)
      then Err (MeBuildInfo t "identity does not match the release")
      else infos_loop t m infos' (bi_binary info :: binaries)
  end.
Definition validate_build_info (a : ReleaseAsset) (m : ReleaseManifest J) : result ManifestError () :=
  if negb (vec_len (ra_build_info a) =? vec_len EXPECTED_BINARIES)
  then Err (MeBuildInfo (ra_target a) "all three build identities are required")
  else
    infos_loop (ra_target a) m (ra_build_info a) [];;
    match ra_build_info a with
    | first :: rest =>
        ensure (negb (existsb (fun info => negb (same_release_as first info)) rest))
          (MeBuildInfo (ra_target a) "mixed release identities")
    | [] => Ok ()
    end.

(** [ReleaseAsset::validate] *)
Definition asset_validate (a : ReleaseAsset) (m : ReleaseManifest J) : result ManifestError () :=
  check_https (ra_archive_url a) "archiveUrl";;
  ensure (negb (ra_byte_size a =? 0)) MeEmptyAsset;;
  check_sha256 (ra_sha256 a) "asset.sha256";;
  signature_validate (ra_signature a);;
  validate_files a;;
  validate_build_info a m;;
  platform_validate (ra_platform a) (ra_target a).

Fixpoint assets_loop (m : ReleaseManifest J) (assets : list ReleaseAsset) (targets : list Target) : result ManifestError () :=
  match assets with
  | [] => Ok ()
  | a :: assets' =>
      if bool_decide (ra_target a = Unsupported) || bool_decide (ra_target a ∈ targets)
      then Err (MeTarget (ra_target a))
      else asset_validate a m;; assets_loop m assets' (ra_target a :: targets)
  end.

End Assets.

(** [impl Display for semver::Version] *)
Class SemverDisplay := { semver_to_string : SemVersion -> string }.

Section Versions.
Context {SV : Semver} {SD : SemverDisplay} {J : Type}.

Definition parse_version (field value : string) : result ManifestError SemVersion :=
  ok_or (semver_parse value) (MeVersion field value).

Definition channel_matches (channel : Channel) (v : SemVersion) : bool :=
  str_is_empty (sv_build v)
  && match channel with Stable => str_is_empty (sv_pre v) | Canary => negb (str_is_empty (sv_pre v)) end.
Definition check_channel_version (document : string) (channel : Channel) (v : SemVersion) : result ManifestError () :=
  ensure (channel_matches channel v) (MeChannelVersion document channel (semver_to_string v)).

(** [Compatibility::validate] *)
Definition compatibility_validate (c : Compatibility) : result ManifestError () :=
  if (minimum_tap_version c =? 0) || (minimum_tap_version c >? maximum_tap_version c)
  then Err (MeCompatibility "invalid TAP version range")
  else
    _ ← parse_version "capabilityAbiVersion" (capability_abi_version c);
    _ ← parse_version "typesVersion" (types_version c);
    Ok ().

(** [ReleaseManifest::validate] *)
Definition manifest_validate (m : ReleaseManifest J) : result ManifestError () :=
  check_schema "release manifest" (rm_schema_version m) RELEASE_MANIFEST_SCHEMA_VERSION;;
  v ← parse_version "version" (rm_version m);
  check_channel_version "release manifest" (rm_channel m) v;;
  _ ← parse_version "minimumUpdaterVersion" (rm_minimum_updater_version m);
  check_commit (rm_source_commit m);;
  check_timestamp (rm_published_at m);;
  check_features (rm_required_features m);;
  compatibility_validate (rm_compatibility m);;
  match rm_assets m with [] => Err MeNoAssets | _ => assets_loop m (rm_assets m) [] end.

(** [ChannelPointer::validate] *)
Definition pointer_validate (p : ChannelPointer) : result ManifestError () :=
  check_schema "channel pointer" (cp_schema_version p) CHANNEL_POINTER_SCHEMA_VERSION;;
  v ← parse_version "version" (cp_version p);
  check_channel_version "channel pointer" (cp_channel p) v;;
  check_timestamp (cp_published_at p);;
  check_https (cp_manifest_url p) "manifestUrl";;
  ensure (negb (cp_manifest_byte_size p =? 0)) MeEmptyAsset;;
  check_sha256 (cp_manifest_sha256 p) "manifestSha256";;
  signature_validate (cp_manifest_signature p);;
  check_features (cp_required_features p).

(** ** Managed installations *)

Inductive InstallMethod := Installer | Upgrade.
Record InstallState := {
  is_schema_version : Z; is_active_version : string; is_previous_version : option string; is_channel : Channel;
  is_target : Target; is_install_method : InstallMethod; is_manifest_sha256 : string;
}.
Record ManagedLayout := { root : string }.
Inductive LayoutError :=
| NonAbsoluteRoot
| MissingHome
| LeSchema (actual : Z)
| LeVersion (field : string)
| SameVersion
| UnsupportedTarget
| LeManifestSha256
| LeChannelVersion.

(** [ManagedLayout::new], [from_environment] over the values of [TYSEL_HOME] and [HOME] *)
Definition layout_new (r : string) : result LayoutError ManagedLayout :=
  if negb (starts_with "/" r) then Err NonAbsoluteRoot else Ok {| root := r |}.
Definition from_environment (tysel_home home : option string) : result LayoutError ManagedLayout :=
  match (r ← tysel_home; if str_is_empty r then None else Some r) with
  | Some r => layout_new r
  | None => h ← ok_or home MissingHome; layout_new (join_path h ".tysel")
  end.

Definition versions_dir (l : ManagedLayout) : string := join_path (root l) "versions".
Definition version_dir (l : ManagedLayout) (v : SemVersion) : string :=
  join_path (versions_dir l) ("v" ++ semver_to_string v).
Definition version_bin_dir (l : ManagedLayout) (v : SemVersion) : string := join_path (version_dir l v) "bin".
Definition version_manifest (l : ManagedLayout) (v : SemVersion) : string :=
  join_path (version_dir l v) "release-manifest.json".
Definition active_bin_link (l : ManagedLayout) : string := join_path (root l) "bin".
Definition state_file (l : ManagedLayout) : string := join_path (root l) "state.json".
Definition upgrade_lock (l : ManagedLayout) : string := join_path (root l) "upgrade.lock".
Definition transaction_byte (c : ascii) : bool := is_ascii_alphanumeric c || Ascii.eqb c "-" || Ascii.eqb c "_".
Definition staging_dir (l : ManagedLayout) (transaction_id : string) : result LayoutError string :=
  if str_is_empty transaction_id || negb (str_all transaction_byte transaction_id)
  then Err (LeVersion "transaction ID")
  else Ok (join_path (join_path (root l) ".staging") transaction_id).
Definition active_bin_target (v : SemVersion) : string :=
  join_path (join_path "versions" ("v" ++ semver_to_string v)) "bin".

(** [InstallState::active_semver], [InstallState::validate] *)
Definition active_semver (s : InstallState) : result LayoutError SemVersion :=
  ok_or (semver_parse (is_active_version s)) (LeVersion "activeVersion").
Definition state_validate (s : InstallState) : result LayoutError () :=
  ensure (is_schema_version s =? INSTALL_STATE_SCHEMA_VERSION) (LeSchema (is_schema_version s));;
  active ← ok_or (semver_parse (is_active_version s)) (LeVersion "activeVersion");
  ensure (channel_matches (is_channel s) active) LeChannelVersion;;
  match is_previous_version s with
  | Some p =>
      previous ← ok_or (semver_parse p) (LeVersion "previousVersion");
      ensure (negb (bool_decide (active = previous))) SameVersion
  | None => Ok ()
  end;;
  ensure (negb (bool_decide (is_target s = Unsupported))) UnsupportedTarget;;
  ensure (is_lower_hex (is_manifest_sha256 s) 64) LeManifestSha256.

(** ** Loading: [serde_json::from_slice] is the argument, its errors of type [JE]. *)

Inductive LoadError (JE CE : Type) := LoadJson (e : JE) | LoadContract (e : CE).
Arguments LoadJson {JE CE} e.
Arguments LoadContract {JE CE} e.

Definition from_json {JE CE D} (from_slice : string -> result JE D) (validate : D -> result CE ()) (bytes : string)
    : result (LoadError JE CE) D :=
  d ← map_err LoadJson (from_slice bytes);
  map_err LoadContract (validate d);;
  Ok d.
Definition manifest_from_json {JE} (from_slice : string -> result JE (ReleaseManifest J)) := from_json from_slice manifest_validate.
Definition pointer_from_json {JE} (from_slice : string -> result JE ChannelPointer) := from_json from_slice pointer_validate.
Definition state_from_json {JE} (from_slice : string -> result JE InstallState) := from_json from_slice state_validate.

End Versions.

(** [BuildInfo::current]: the target and the two environment variables of the build are its arguments. *)
Definition build_info_current (target : Target) (source_commit release_id : option string) (binary version : string) : BuildInfo :=
  {| bi_schema_version := BUILD_INFO_SCHEMA_VERSION; bi_binary := binary; bi_version := version;
     bi_target := canonical target; bi_source_commit := source_commit; bi_release_id := release_id |}.
(** [metadata_output_for]; [to_json] is [serde_json::to_string] of the identity. *)
Definition metadata_output_for (to_json : BuildInfo -> string) (current : string -> string -> BuildInfo)
    (binary version : string) (args : list string) : option string :=
  match args with
  | [argument] =>
      if String.eqb argument "--version" then Some (binary ++ " " ++ version)%string
      else if String.eqb argument "--build-info-json" then Some (to_json (current binary version))
      else None
  | _ => None
  end.
