(* ===== verification/DistributionThms.v ===== *)
(** * What a validated release promises

    Validation of release manifests and of the installation state against
    declarative descriptions, and the names of targets. *)

From Stdlib Require Import ZArith Lia Ascii String.
From stdpp Require Import base tactics gmap strings list.
From S2P Require Import Prelude Bytes Capability FsCap Distribution.
Open Scope Z_scope.

(** ** Checks in sequence *)

Lemma ensure_holds {E} b (e : E) : ensure b e = Ok () <-> b = true.
Proof. destruct b; cbn; naive_solver. Qed.

Lemma distinct_spec {A} `{EqDecision A} (l found : list A) :
  distinct found l = true <-> NoDup l /\ forall x, x ∈ l -> x ∉ found.
Proof.
  revert found. induction l as [|x l IH]; intros found; cbn.
  - split; [intros _; split; [constructor | set_solver] | done].
  - rewrite NoDup_cons. case_bool_decide as Hx; [set_solver|]. rewrite IH. set_solver.
Qed.

(** A list without repetitions among three names, of length three, holds each once. *)
Lemma exactly_once (l k : list string) :
  NoDup l -> (forall x, x ∈ l -> x ∈ k) -> length l = length k -> l ≡ₚ k.
Proof.
  intros Hn Hs Hl. apply submseteq_length_Permutation; [|lia].
  by apply NoDup_submseteq.
Qed.

(** ** Well-formed releases *)

Definition managed_paths : list string := (fun b => "bin/" ++ b)%string <$> EXPECTED_BINARIES.

Section Releases.
Context {SV : Semver} {SD : SemverDisplay} {J : Type}.
Implicit Types m : ReleaseManifest J.

(** The identity every binary of target [t] in release [m] reports. *)
Definition identity_of (t : Target) m (binary : string) : BuildInfo :=
  {| bi_schema_version := 1; bi_binary := binary; bi_version := rm_version m; bi_target := canonical t;
     bi_source_commit := Some (rm_source_commit m); bi_release_id := Some (rm_version m) |}.

Definition signature_ok (s : ManifestSignature) : Prop :=
  https_ok (ms_url s) = true /\ is_lower_hex (ms_key_id s) 64 = true.

Record asset_ok m (a : ReleaseAsset) : Prop := {
  ao_url : https_ok (ra_archive_url a) = true;
  ao_size : ra_byte_size a <> 0;
  ao_sha : is_lower_hex (ra_sha256 a) 64 = true;
  ao_signature : signature_ok (ra_signature a);
  ao_paths : ef_path <$> ra_files a ≡ₚ managed_paths;
  ao_hashes : Forall (fun f => is_lower_hex (ef_sha256 f) 64 = true) (ra_files a);
  ao_identities : ra_build_info a ≡ₚ identity_of (ra_target a) m <$> EXPECTED_BINARIES;
  ao_platform : platform_ok (ra_platform a) (ra_target a) = true;
}.

Record release_ok m : Prop := {
  ro_schema : rm_schema_version m = 1;
  ro_version : exists v, semver_parse (rm_version m) = Some v /\ sv_build v = ""%string
    /\ (rm_channel m = Stable <-> sv_pre v = ""%string);
  ro_updater : is_Some (semver_parse (rm_minimum_updater_version m));
  ro_commit : is_lower_hex (rm_source_commit m) 40 = true;
  ro_published : timestamp_ok (rm_published_at m) = true;
  ro_features : NoDup (rm_required_features m);
  ro_tap : minimum_tap_version (rm_compatibility m) <> 0
    /\ minimum_tap_version (rm_compatibility m) <= maximum_tap_version (rm_compatibility m);
  ro_abi : is_Some (semver_parse (capability_abi_version (rm_compatibility m)));
  ro_types : is_Some (semver_parse (types_version (rm_compatibility m)));
  ro_some_asset : rm_assets m <> [];
  ro_targets : NoDup (ra_target <$> rm_assets m) /\ Unsupported ∉ (ra_target <$> rm_assets m);
  ro_assets : Forall (asset_ok m) (rm_assets m);
}.

(** ** Assets *)

Lemma managed_path_spec p :
  existsb (fun binary => String.eqb p ("bin/" ++ binary)) EXPECTED_BINARIES = true <-> p ∈ managed_paths.
Proof.
  unfold managed_paths. rewrite existsb_exists, list_elem_of_fmap.
  split; intros (b & H); exists b; rewrite <- list_elem_of_In, String.eqb_eq in *; naive_solver.
Qed.

Lemma files_loop_spec t fs found out :
  files_loop t fs found = Ok out <->
  (out = reverse (ef_path <$> fs) ++ found /\ Forall (fun f => is_lower_hex (ef_sha256 f) 64 = true) fs
   /\ (forall p, p ∈ ef_path <$> fs -> p ∈ managed_paths)
   /\ NoDup (ef_path <$> fs) /\ forall p, p ∈ ef_path <$> fs -> p ∉ found).
Proof.
  revert found. induction fs as [|f fs IH]; intros found; cbn [files_loop fmap list_fmap].
  { rewrite NoDup_nil. cbn. split; [intros [= <-]; repeat split; auto; set_solver | intros (-> & _); done]. }
  rewrite reverse_cons, NoDup_cons, list.Forall_cons, <- (assoc_L (++)).
  destruct (existsb _ _) eqn:He; cbn [negb].
  2:{ split; [done|]. intros (_ & _ & Hp & _). specialize (Hp (ef_path f) ltac:(set_solver)).
      apply managed_path_spec in Hp. congruence. }
  apply managed_path_spec in He. case_bool_decide as Hf; [split; [done | set_solver]|].
  rewrite then_ok, IH. unfold check_sha256. rewrite ensure_holds. set_solver.
Qed.

Lemma validate_files_spec a :
  validate_files a = Ok () <->
  (ef_path <$> ra_files a ≡ₚ managed_paths
   /\ Forall (fun f => is_lower_hex (ef_sha256 f) 64 = true) (ra_files a)).
Proof.
  unfold validate_files. rewrite result_bind_ok. setoid_rewrite files_loop_spec. setoid_rewrite ensure_holds. split.
  - intros (out & (-> & Hh & Hs & Hn & _) & Hl). split; [|done]. apply exactly_once; [done..|].
    apply Z.eqb_eq in Hl. unfold vec_len in Hl. rewrite app_nil_r, length_reverse in Hl. cbn in *. lia.
  - intros [Hp Hh]. eexists. split; [split; [reflexivity|]; split; [done|]; split; [|split]|].
    + intros p. by rewrite Hp.
    + rewrite Hp. apply (bool_decide_unpack _). vm_compute. exact I.
    + set_solver.
    + apply Permutation_length in Hp. unfold vec_len. rewrite app_nil_r, length_reverse, Hp. done.
Qed.

Lemma identity_matches_spec t m info :
  (bi_schema_version info =? BUILD_INFO_SCHEMA_VERSION) = true /\ identity_matches t m info = true
  <-> info = identity_of t m (bi_binary info).
Proof.
  unfold identity_matches, identity_of, BUILD_INFO_SCHEMA_VERSION.
  rewrite !andb_true_iff, !bool_decide_eq_true, !String.eqb_eq, Z.eqb_eq.
  destruct info; cbn. split; [intros (-> & ((-> & ->) & ->) & ->); done | intros [=]; subst; auto].
Qed.

Lemma expected_binary_spec b : existsb (String.eqb b) EXPECTED_BINARIES = true <-> b ∈ EXPECTED_BINARIES.
Proof.
  rewrite existsb_exists. split.
  - intros (x & Hx & ->%String.eqb_eq). by apply list_elem_of_In.
  - intros Hb. exists b. split; [by apply list_elem_of_In | apply String.eqb_refl].
Qed.

Lemma infos_loop_spec t m infos found :
  infos_loop t m infos found = Ok () <->
  (infos = identity_of t m <$> (bi_binary <$> infos)
   /\ (forall b, b ∈ bi_binary <$> infos -> b ∈ EXPECTED_BINARIES)
   /\ NoDup (bi_binary <$> infos) /\ forall b, b ∈ bi_binary <$> infos -> b ∉ found).
Proof.
  revert found. induction infos as [|i infos IH]; intros found; cbn [infos_loop fmap list_fmap].
  { rewrite NoDup_nil. split; [intros _; repeat split; auto; set_solver | done]. }
  pose proof (identity_matches_spec t m i) as Hi. pose proof (expected_binary_spec (bi_binary i)) as Hb.
  rewrite NoDup_cons.
  destruct (bi_schema_version i =? _), (existsb _ _), (identity_matches t m i); case_bool_decide; cbn;
    try (split; [done|]; intros ([=] & Hs & _ & Hd); set_solver).
  rewrite IH. split.
  - intros (He & Hs & Hn & Hd). split; [f_equal; [tauto | exact He]|]. set_solver.
  - intros (He & Hs & Hn & Hd). injection He as _ He. split; [exact He|]. set_solver.
Qed.

Lemma same_release_identities t m a b : same_release_as (identity_of t m a) (identity_of t m b) = true.
Proof.
  unfold same_release_as. cbn. rewrite !String.eqb_refl, !bool_decide_eq_true_2 by done. done.
Qed.

(** The comparison of the identities with each other refuses nothing the loop accepts. *)
Lemma identities_agree t m (l : list string) :
  match identity_of t m <$> l with
  | first :: rest => existsb (fun info => negb (same_release_as first info)) rest = false
  | [] => True
  end.
Proof.
  destruct l as [|b l]; cbn; [done|]. induction l as [|c l IH]; cbn; [done|].
  by rewrite same_release_identities.
Qed.

Lemma validate_build_info_spec a m :
  validate_build_info a m = Ok () <-> ra_build_info a ≡ₚ identity_of (ra_target a) m <$> EXPECTED_BINARIES.
Proof.
  unfold validate_build_info. destruct (_ =? _) eqn:Hl; cbn [negb].
  2:{ split; [done|]. intros Hp%Permutation_length. apply Z.eqb_neq in Hl. unfold vec_len in Hl. by rewrite Hp in Hl. }
  apply Z.eqb_eq in Hl. unfold vec_len in Hl. rewrite then_ok, infos_loop_spec. split.
  - intros ((He & Hs & Hn & _) & _). rewrite He. apply fmap_Permutation, exactly_once; [done..|].
    rewrite length_fmap. lia.
  - intros Hp. assert (bi_binary <$> ra_build_info a ≡ₚ EXPECTED_BINARIES) as Hb by (rewrite Hp; reflexivity).
    assert (ra_build_info a = identity_of (ra_target a) m <$> (bi_binary <$> ra_build_info a)) as He.
    { rewrite <- list_fmap_compose. rewrite <- (list_fmap_id (ra_build_info a)) at 1.
      apply list_fmap_ext. intros k i Hi. apply list_elem_of_lookup_2 in Hi. rewrite Hp in Hi.
      apply list_elem_of_fmap in Hi as (b & -> & _). done. }
    split; [split; [exact He|]; split; [intros b; by rewrite Hb|]; split; [|set_solver]|].
    + rewrite Hb. apply (bool_decide_unpack _). vm_compute. exact I.
    + pose proof (identities_agree (ra_target a) m (bi_binary <$> ra_build_info a)) as Ha. rewrite <- He in Ha.
      destruct (ra_build_info a); [done|]. by rewrite Ha.
Qed.

Lemma asset_validate_spec m a : asset_validate a m = Ok () <-> asset_ok m a.
Proof.
  unfold asset_validate, check_https, check_sha256, signature_validate, platform_validate, check_https.
  rewrite !then_ok, !ensure_holds, validate_files_spec, validate_build_info_spec, negb_true_iff, Z.eqb_neq.
  split; [intros; destruct_and!; constructor; unfold signature_ok; auto | intros []; unfold signature_ok in *; tauto].
Qed.

Lemma assets_loop_spec m l found :
  assets_loop m l found = Ok () <->
  (NoDup (ra_target <$> l) /\ (Unsupported ∉ (ra_target <$> l)) /\ Forall (asset_ok m) l
   /\ forall t, t ∈ ra_target <$> l -> t ∉ found).
Proof.
  revert found. induction l as [|a l IH]; intros found; cbn [assets_loop fmap list_fmap].
  { rewrite NoDup_nil. split; [intros _; repeat split; auto; set_solver | done]. }
  rewrite NoDup_cons, list.Forall_cons, not_elem_of_cons.
  case_bool_decide as Hu; cbn [orb]; [split; [done | intros (_ & [Hn _] & _); congruence]|].
  case_bool_decide as Hf; [split; [done | set_solver]|].
  rewrite then_ok, IH, asset_validate_spec. set_solver.
Qed.

Lemma compatibility_validate_spec c :
  compatibility_validate c = Ok () <->
  (minimum_tap_version c <> 0 /\ minimum_tap_version c <= maximum_tap_version c
   /\ is_Some (semver_parse (capability_abi_version c)) /\ is_Some (semver_parse (types_version c))).
Proof.
  unfold compatibility_validate, parse_version, is_Some.
  destruct (minimum_tap_version c =? 0) eqn:H0; cbn [orb]; [split; [done | lia]|].
  destruct (Z.gtb_spec (minimum_tap_version c) (maximum_tap_version c)); [split; [done | lia]|].
  rewrite result_bind_ok. setoid_rewrite result_bind_ok. setoid_rewrite ok_or_ok. apply Z.eqb_neq in H0. naive_solver.
Qed.

Lemma channel_matches_spec channel v :
  channel_matches channel v = true <-> sv_build v = ""%string /\ (channel = Stable <-> sv_pre v = ""%string).
Proof. unfold channel_matches. destruct channel, (sv_build v), (sv_pre v); cbn; intuition congruence. Qed.

Lemma manifest_validate_spec m : manifest_validate m = Ok () <-> release_ok m.
Proof.
  unfold manifest_validate, check_schema, parse_version, check_channel_version, check_commit, check_timestamp, check_features.
  rewrite then_ok, result_bind_ok. setoid_rewrite then_ok. setoid_rewrite result_bind_ok.
  repeat setoid_rewrite then_ok. repeat setoid_rewrite ensure_holds. setoid_rewrite ok_or_ok.
  setoid_rewrite channel_matches_spec. setoid_rewrite distinct_spec. setoid_rewrite compatibility_validate_spec.
  assert (match rm_assets m with [] => Err MeNoAssets | _ => assets_loop m (rm_assets m) [] end = Ok ()
    <-> rm_assets m <> [] /\ assets_loop m (rm_assets m) [] = Ok ()) as Ha by (destruct (rm_assets m); naive_solver).
  setoid_rewrite Ha. setoid_rewrite assets_loop_spec. rewrite Z.eqb_eq. split.
  - intros (? & v & ? & ? & u & ? & ?). destruct_and!. constructor; eauto.
  - intros [? (v & ? & ?) [u ?]]. split; [done|]. exists v. split; [done|]. split; [done|]. exists u.
    destruct_and!. repeat split; auto; set_solver.
Qed.

(** C32. A release manifest is accepted exactly when it is well formed: its version
    fits its channel, its features and targets are distinct and supported, and every
    asset lists each of the three managed binaries once with its hash and reports
    for each of them the one identity of this release on this target. *)
Theorem release_manifest_exact m : manifest_validate m = Ok () <-> release_ok m.
Proof. apply manifest_validate_spec. Qed.

(** ** Installation state *)

(** An installation state is accepted exactly when the active version fits the
    channel, a retained version is another version, and target and hash are sound. *)
Theorem install_state_exact s :
  state_validate s = Ok () <->
  (is_schema_version s = 1 /\ is_target s <> Unsupported /\ is_lower_hex (is_manifest_sha256 s) 64 = true
   /\ exists v, semver_parse (is_active_version s) = Some v /\ sv_build v = ""%string
        /\ (is_channel s = Stable <-> sv_pre v = ""%string)
        /\ forall p, is_previous_version s = Some p -> exists w, semver_parse p = Some w /\ v <> w).
Proof.
  assert (forall v, match is_previous_version s with
      | Some p => w ← ok_or (semver_parse p) (LeVersion "previousVersion");
                  ensure (negb (bool_decide (v = w))) SameVersion
      | None => Ok ()
      end = Ok () <-> forall p, is_previous_version s = Some p -> exists w, semver_parse p = Some w /\ v <> w) as Hp.
  { intros v. destruct (is_previous_version s) as [p|]; [|naive_solver].
    rewrite result_bind_ok. setoid_rewrite ok_or_ok. setoid_rewrite ensure_holds. setoid_rewrite negb_true_iff.
    setoid_rewrite bool_decide_eq_false. naive_solver. }
  unfold state_validate. rewrite then_ok, result_bind_ok. repeat setoid_rewrite then_ok. repeat setoid_rewrite ensure_holds.
  setoid_rewrite Hp. setoid_rewrite ok_or_ok. setoid_rewrite channel_matches_spec. setoid_rewrite negb_true_iff.
  setoid_rewrite bool_decide_eq_false. rewrite Z.eqb_eq. unfold INSTALL_STATE_SCHEMA_VERSION. naive_solver.
Qed.

End Releases.

(** ** Targets *)

(** No request names two targets, so [Target::parse] answers with the one that accepts it. *)
Theorem target_parse_exact s t : target_parse s = Some t <-> accepts t s = true.
Proof.
  unfold target_parse, accepts, eq_ignore_ascii_case. cbn [List.find aliases existsb].
  generalize (to_ascii_lowercase s). intros x.
  repeat match goal with |- context [to_ascii_lowercase ?y] => let z := eval vm_compute in (to_ascii_lowercase y) in
    change (to_ascii_lowercase y) with z end.
  split.
  - intros H. repeat case_match; simplify_eq; cbn [aliases existsb]; assumption.
  - destruct t; cbn [aliases existsb]; rewrite ?orb_true_iff, ?orb_false_r, ?String.eqb_eq; intros H;
      destruct_or?; subst; try done; by vm_compute.
Qed.

(** The canonical name of a supported target reads back as that target. *)
Theorem canonical_roundtrip t s : from_canonical s = Some t <-> s = canonical t /\ t <> Unsupported.
Proof.
  unfold from_canonical. split.
  - intros H. repeat (case_match; [simplify_eq; split; [by apply String.eqb_eq | done]|]). done.
  - intros [-> Ht]. by destruct t.
Qed.

(** ** A release that is accepted, and two that are not *)

Section Sample.

Definition sample_semver : Semver := {| semver_parse s :=
  if String.eqb s "1.0.0" then Some {| sv_major := 1; sv_minor := 0; sv_patch := 0; sv_pre := ""; sv_build := "" |}
  else None |}.
Definition sample_display : SemverDisplay := {| semver_to_string _ := "1.0.0"%string |}.
Definition hex40 : string := "0123456789abcdef0123456789abcdef01234567".
Definition hex64 : string := "0123456789abcdef0123456789abcdef0123456789abcdef0123456789abcdef".
Definition sample_info (b : string) : BuildInfo :=
  build_info_current LinuxX64 (Some hex40) (Some "1.0.0"%string) b "1.0.0".
Definition sample_asset (paths : list string) : ReleaseAsset :=
  {| ra_target := LinuxX64; ra_archive_url := "https://e.org/a"; ra_byte_size := 7; ra_sha256 := hex64;
     ra_signature := {| ms_algorithm := Ed25519; ms_url := "https://e.org/s"; ms_key_id := hex64 |};
     ra_files := (fun p => {| ef_path := p; ef_sha256 := hex64 |}) <$> paths;
     ra_build_info := sample_info <$> ["tysel-worker"; "tysel"; "tysel-service"]%string;
     ra_platform := {| minimum_glibc := Some "2.31"%string; minimum_kernel := Some "5.13"%string; minimum_macos := None |} |}.
Definition sample_release (channel : Channel) (paths : list string) : ReleaseManifest () :=
  {| rm_schema_version := 1; rm_version := "1.0.0"; rm_source_commit := hex40; rm_published_at := "2026-01-01T00:00:00Z";
     rm_channel := channel; rm_minimum_updater_version := "1.0.0";
     rm_compatibility := {| minimum_tap_version := 1; maximum_tap_version := 1;
       capability_abi_version := "1.0.0"; types_version := "1.0.0" |};
     rm_required_features := [BuildInfoV1; Ed25519Manifest]; rm_optional_features := ∅;
     rm_assets := [sample_asset paths] |}.

Example sample_releases :
  let validate := manifest_validate (SV := sample_semver) (SD := sample_display) in
  validate (sample_release Stable ["bin/tysel"; "bin/tysel-worker"; "bin/tysel-service"]%string) = Ok ()
  /\ validate (sample_release Stable ["bin/tysel"; "bin/tysel-worker"; "bin/tysel"]%string)
     = Err (MeFiles LinuxX64 "duplicate binary path")
  /\ validate (sample_release Canary []) = Err (MeChannelVersion "release manifest" Canary "1.0.0").
Proof. vm_compute. auto. Qed.

End Sample.
