(* ===== verification/Files.v ===== *)
(** * Files and their failures ([std::fs], as releases and upgrades use it)

    A tree maps paths to nodes. Every operation takes the next fault of the
    state: it works, fails without effect, or is torn half way, which only a
    write, a copy and a recursive removal can be. A process that dies has every
    later operation fail, so what holds after every list of faults also holds
    after a crash at any point. A missing parent, permissions and a full disk are
    faults too. The last component of a path may be a link, which reads follow. *)

From Stdlib Require Import ZArith Lia Ascii String.
From stdpp Require Import base tactics gmap strings list.
From S2P Require Import Prelude Bytes FsCap.
Open Scope Z_scope.

Inductive IoKind := NotFound | AlreadyExists | PermissionDenied | OtherIo.
#[global] Instance IoKind_eq_dec : EqDecision IoKind.
Proof. solve_decision. Defined.

(** [anyhow::Error]: a message of [ensure!] and [bail!], an error of [std::io] or of
    another library, and a context around an error. *)
Inductive Failure :=
| Bail (message : string)
| Io (kind : IoKind)
| Foreign (library : string)
| Context (what : string) (e : Failure).

Inductive Node := File (bytes : string) | Link (target : string) | Directory.
#[global] Instance Node_eq_dec : EqDecision Node.
Proof. solve_decision. Defined.

Abbreviation Tree := (gmap string Node).

(** A fault is never reported as [NotFound] or [AlreadyExists], which tell the truth
    about the path. *)
Inductive Fault := Works | Fails (denied : bool) | Torn (done : nat) (denied : bool).
Definition fault_kind (denied : bool) : IoKind := if denied then PermissionDenied else OtherIo.

Record Fs := { tree : Tree; faults : list Fault }.

Abbreviation IO A := (M Fs Failure A).

(** ** Steps *)

Definition next_fault : IO Fault := fun s =>
  match faults s with
  | [] => (Ok Works, s)
  | f :: fs => (Ok f, {| tree := tree s; faults := fs |})
  end.

Definition set_tree (t : Tree) : IO () := modify (fun s => {| tree := t; faults := faults s |}).
Definition get_tree : IO Tree := fun s => (Ok (tree s), s).

(** An operation on the tree: [act] answers, [torn] is what is left when it is torn. *)
Definition operation {A} (act : Tree -> result IoKind (A * Tree)) (torn : nat -> Tree -> Tree) : IO A :=
  f ← next_fault; t ← get_tree;
  match f with
  | Works =>
      match act t with
      | Ok (a, t') => set_tree t';; mret a
      | Err k => throw (Io k)
      end
  | Fails k => throw (Io (fault_kind k))
  | Torn n k => set_tree (torn n t);; throw (Io (fault_kind k))
  end.

Definition untorn (_ : nat) (t : Tree) : Tree := t.

(** [let _ = op], [.context(what)], [ensure!], [is_ok()] *)
Definition ignore {A} (op : IO A) : IO () := fun s => (Ok (), snd (op s)).
Definition context {A} (what : string) (op : IO A) : IO A := fun s =>
  match op s with (Ok a, s') => (Ok a, s') | (Err e, s') => (Err (Context what e), s') end.
Definition require (b : bool) (message : string) : IO () := if b then mret () else throw (Bail message).
Definition attempt {A} (op : IO A) : IO (result Failure A) := fun s =>
  match op s with (r, s') => (Ok r, s') end.
(** Values that are dropped when the operation returns early *)
Definition on_error {A} (cleanup : IO ()) (op : IO A) : IO A := fun s =>
  match op s with (Ok a, s') => (Ok a, s') | (Err e, s') => (Err e, snd (cleanup s')) end.
Definition some_or {A} (o : option A) (e : Failure) : IO A := lift (ok_or o e).

Definition newline : string := String (byte_of 10) EmptyString.

(** ** Paths *)

(** [p] is [base] or a path beneath it; the rest after [base]. *)
Definition beneath (base p : string) : option string :=
  match strip_prefix base p with
  | Some EmptyString => Some EmptyString
  | Some (String c rest) => if Ascii.eqb c "/" then Some (String c rest) else None
  | None => None
  end.

(** [Path::with_file_name], [Path::file_name] of a path that ends in a name *)
Definition with_file_name (p name : string) : string :=
  match rsplit_once "/" p with Some (dir, _) => dir ++ "/" ++ name | None => name end.
Definition file_name (p : string) : string := match rsplit_once "/" p with Some (_, name) => name | None => p end.
(** A string pushed onto the path: [OsString::push] *)
Definition sidecar_path (output suffix : string) : string := output ++ suffix.

(** ** Reading *)

(** The node a path names after links of its last component, as many as Linux follows. *)
Fixpoint resolve_link (fuel : nat) (t : Tree) (p : string) : option (string * Node) :=
  match fuel with
  | O => None
  | S fuel' =>
      match t !! p with
      | Some (Link target) => resolve_link fuel' t (if starts_with "/" target then target else with_file_name p target)
      | Some n => Some (p, n)
      | None => None
      end
  end.
Definition MAX_LINKS : nat := 40.

(** [fs::read] *)
Definition read_act (p : string) (t : Tree) : result IoKind (string * Tree) :=
  match resolve_link MAX_LINKS t p with
  | Some (_, File b) => Ok (b, t)
  | Some (_, _) => Err OtherIo
  | None => Err NotFound
  end.
Definition fs_read (p : string) : IO string := operation (read_act p) untorn.

(** [fs::metadata]: [is_file] and [len]; the length of a directory is not a file's. *)
Record Metadata := { is_file : bool; is_dir : bool; is_symlink : bool; file_len : Z }.
Definition metadata_of (n : Node) : Metadata :=
  match n with
  | File b => {| is_file := true; is_dir := false; is_symlink := false; file_len := len b |}
  | Directory => {| is_file := false; is_dir := true; is_symlink := false; file_len := 4096 |}
  | Link target => {| is_file := false; is_dir := false; is_symlink := true; file_len := len target |}
  end.
Definition fs_metadata (p : string) : IO Metadata :=
  operation (fun t => match resolve_link MAX_LINKS t p with Some (_, n) => Ok (metadata_of n, t) | None => Err NotFound end) untorn.
Definition fs_symlink_metadata (p : string) : IO Metadata :=
  operation (fun t => match t !! p with Some n => Ok (metadata_of n, t) | None => Err NotFound end) untorn.
(** [fs::read_link] *)
Definition fs_read_link (p : string) : IO string :=
  operation (fun t => match t !! p with Some (Link target) => Ok (target, t) | Some _ => Err OtherIo | None => Err NotFound end) untorn.
(** [Path::exists], [Path::is_file]: an error is [false]. *)
Definition path_exists (p : string) : IO bool :=
  r ← attempt (fs_metadata p); mret (is_ok r).
Definition path_is_file (p : string) : IO bool :=
  r ← attempt (fs_metadata p); mret (match r with Ok m => is_file m | Err _ => false end).

(** ** Writing *)

(** [OpenOptions::new().write(true).create_new(true).open] *)
Definition create_new (p : string) : IO () :=
  operation (fun t => match t !! p with Some _ => Err AlreadyExists | None => Ok ((), <[p := File ""]> t) end) untorn.
(** [write_all] on a file that was just created; torn, it holds a prefix. *)
Definition write_all (p bytes : string) : IO () :=
  operation (fun t => Ok ((), <[p := File bytes]> t)) (fun n t => <[p := File (str_take n bytes)]> t).
(** [sync_all]: nothing but a chance to fail *)
Definition sync_all : IO () := operation (fun t => Ok ((), t)) untorn.
(** [os::unix::fs::symlink] *)
Definition fs_symlink (target p : string) : IO () :=
  operation (fun t => match t !! p with Some _ => Err AlreadyExists | None => Ok ((), <[p := Link target]> t) end) untorn.
(** [fs::remove_file] *)
Definition fs_remove_file (p : string) : IO () :=
  operation (fun t => match t !! p with Some Directory => Err OtherIo | Some _ => Ok ((), delete p t) | None => Err NotFound end) untorn.
(** [fs::create_dir] *)
Definition fs_create_dir (p : string) : IO () :=
  operation (fun t => match t !! p with Some _ => Err AlreadyExists | None => Ok ((), <[p := Directory]> t) end) untorn.
(** [fs::create_dir_all]: every directory of the path that is missing, the outermost first *)
Fixpoint dir_prefixes (acc s : string) : list string :=
  match s with
  | EmptyString => [acc]
  | String c s' =>
      (if Ascii.eqb c "/" && negb (str_is_empty acc) then [acc] else []) ++ dir_prefixes (acc ++ String c "") s'
  end.
Definition ensure_dir (p : string) (t : Tree) : result IoKind Tree :=
  match t !! p with
  | Some (File _) => Err AlreadyExists
  | Some _ => Ok t
  | None => Ok (<[p := Directory]> t)
  end.
Fixpoint ensure_dirs (ps : list string) (t : Tree) : result IoKind Tree :=
  match ps with [] => Ok t | p :: ps' => t' ← ensure_dir p t; ensure_dirs ps' t' end.
Definition fs_create_dir_all (p : string) : IO () :=
  operation (fun t => t' ← ensure_dirs (dir_prefixes "" p) t; Ok ((), t'))
    (fun n t => match ensure_dirs (take n (dir_prefixes "" p)) t with Ok t' => t' | Err _ => t end).

(** [fs::remove_dir_all]: a link itself, a directory with all beneath it; torn, some
    of the entries are left. *)
Definition entries_beneath (p : string) (t : Tree) : list string :=
  filter (fun q => is_Some (beneath p q)) (map_to_list t).*1.
Definition delete_all (ps : list string) (t : Tree) : Tree := foldr delete t ps.
Definition fs_remove_dir_all (p : string) : IO () :=
  operation (fun t => match t !! p with
      | Some Directory => Ok ((), delete_all (entries_beneath p t) t)
      | Some (Link _) => Ok ((), delete p t)
      | Some (File _) => Err OtherIo
      | None => Err NotFound
      end)
    (fun n t => match t !! p with
      | Some Directory => delete_all (take n (filter (fun q => q <> p) (entries_beneath p t))) t
      | _ => t
      end).

(** [fs::rename]: a file or a link takes the place of another, a directory moves with
    all beneath it onto a path that is free or an empty directory. *)
Definition move_tree (a b : string) (t : Tree) : Tree :=
  list_to_map (omap (fun '(p, n) => r ← beneath a p; Some (b ++ r, n)%string) (map_to_list t))
  ∪ delete_all (entries_beneath a t) t.
Definition rename_act (a b : string) (t : Tree) : result IoKind (() * Tree) :=
  match t !! a with
  | None => Err NotFound
  | Some Directory =>
      match t !! b with
      | None => Ok ((), move_tree a b t)
      | Some Directory => if bool_decide (entries_beneath b t = [b]) then Ok ((), move_tree a b t) else Err OtherIo
      | Some _ => Err OtherIo
      end
  | Some n =>
      match t !! b with
      | Some Directory => Err OtherIo
      | _ => Ok ((), <[b := n]> (delete a t))
      end
  end.
Definition fs_rename (a b : string) : IO () := operation (rename_act a b) untorn.

(** [fs::copy] of a file, through a link at its destination, whose parent is no file;
    torn, the copy holds a prefix. *)
Definition in_file (b : string) (t : Tree) : bool :=
  match rsplit_once "/" b with Some (d, _) => match t !! d with Some (File _) => true | _ => false end | None => false end.
Definition copy_act (cut : string -> string) (a b : string) (t : Tree) : result IoKind (() * Tree) :=
  '(bytes, _) ← read_act a t;
  if in_file b t then Err OtherIo
  else match resolve_link MAX_LINKS t b with
  | Some (q, File _) => Ok ((), <[q := File (cut bytes)]> t)
  | Some (_, _) => Err OtherIo
  | None => match t !! b with None => Ok ((), <[b := File (cut bytes)]> t) | Some _ => Err OtherIo end
  end.
Definition fs_copy (a b : string) : IO () :=
  operation (copy_act (fun s => s) a b)
    (fun n t => match copy_act (str_take n) a b t with Ok (_, t') => t' | Err _ => t end).
