(* ===== verification/FilesThms.v ===== *)
(** * What file operations leave alone

    [keeps P op]: the operation changes no path in [P], whatever fails. The rules
    follow the composition of operations; the hints of [files] apply them. *)

From Stdlib Require Import ZArith Lia Ascii String.
From stdpp Require Import base tactics gmap strings list.
From S2P Require Import Prelude Bytes FsCap Files.
Open Scope Z_scope.

(** ** Runs *)

Lemma bind_run {S E A B} (m : M S E A) (f : A -> M S E B) s :
  mbind f m s = match m s with (Ok a, s') => f a s' | (Err e, s') => (Err e, s') end.
Proof. reflexivity. Qed.

Lemma bind_ok_run {S E A B} (m : M S E A) (f : A -> M S E B) s b s2 :
  mbind f m s = (Ok b, s2) <-> exists a s1, m s = (Ok a, s1) /\ f a s1 = (Ok b, s2).
Proof. rewrite bind_run. destruct (m s) as [[a|e] s1]; naive_solver. Qed.

Lemma bind_err_run {S E A B} (m : M S E A) (f : A -> M S E B) s e s2 :
  mbind f m s = (Err e, s2) <->
  m s = (Err e, s2) \/ exists a s1, m s = (Ok a, s1) /\ f a s1 = (Err e, s2).
Proof. rewrite bind_run. destruct (m s) as [[a|e'] s1]; naive_solver. Qed.

Lemma require_run b message s : require b message s = (if b then Ok () else Err (Bail message), s).
Proof. by destruct b. Qed.

Lemma context_run {A} what (op : IO A) s :
  context what op s = (map_err (Context what) (op s).1, (op s).2).
Proof. unfold context. by destruct (op s) as [[a|e] s']. Qed.

Lemma context_ok_run {A} what (op : IO A) s a s' : context what op s = (Ok a, s') <-> op s = (Ok a, s').
Proof. rewrite context_run. destruct (op s) as [[b|e] s2]; cbn; naive_solver. Qed.

Lemma on_error_ok_run {A} cleanup (op : IO A) s a s' : on_error cleanup op s = (Ok a, s') <-> op s = (Ok a, s').
Proof. unfold on_error. destruct (op s) as [[b|e] s2]; naive_solver. Qed.

Lemma attempt_run {A} (op : IO A) s : attempt op s = (Ok (op s).1, (op s).2).
Proof. unfold attempt. by destruct (op s). Qed.

Lemma ret_run {S E A} (a : A) (s : S) : (mret a : M S E A) s = (Ok a, s).
Proof. reflexivity. Qed.

Lemma lift_run {S E A} (r : result E A) (s : S) : lift r s = (r, s).
Proof. reflexivity. Qed.

Lemma lift_bind {S E A B} (r : result E A) (f : A -> M S E B) s :
  (lift r ≫= f) s = match r with Ok a => f a s | Err e => (Err e, s) end.
Proof. by destruct r. Qed.
Lemma some_or_bind {A B} (o : option A) e (f : A -> IO B) s :
  (some_or o e ≫= f) s = match o with Some a => f a s | None => (Err e, s) end.
Proof. by destruct o. Qed.
Lemma require_bind {B} b message (f : () -> IO B) s :
  (require b message ≫= f) s = if b then f () s else (Err (Bail message), s).
Proof. by destruct b. Qed.

(** An operation works on the tree, or fails and leaves it or tears it. *)
Lemma operation_inv {A} act torn s r s' :
  operation (A:=A) act torn s = (r, s') ->
  (exists a, r = Ok a /\ act (tree s) = Ok (a, tree s'))
  \/ (exists k, r = Err (Io k) /\ (tree s' = tree s \/ exists n, tree s' = torn n (tree s))).
Proof.
  unfold operation, next_fault, get_tree, set_tree. unfold_monad. intros H.
  destruct s as [t [|[|k|n k] fs]]; cbn in H; try destruct (act t) as [[a t']|k'] eqn:Ha; simplify_eq/=; eauto 10.
Qed.

(** [NotFound] and [AlreadyExists] are the action's own answer. *)
Lemma operation_truthful {A} act torn s k s' :
  operation (A:=A) act torn s = (Err (Io k), s') -> k = NotFound \/ k = AlreadyExists ->
  act (tree s) = Err k /\ tree s' = tree s.
Proof.
  unfold operation, next_fault, get_tree, set_tree. unfold_monad. intros H Hk.
  destruct s as [t [|[|d|n d] fs]]; cbn in H; try destruct (act t) as [[a t']|k'] eqn:Ha; simplify_eq/=; try done;
    unfold fault_kind in Hk; destruct d; naive_solver.
Qed.

(** Without faults an operation is its action. *)
Lemma operation_clean {A} act torn t :
  operation (A:=A) act torn {| tree := t; faults := [] |} =
  match act t with
  | Ok (a, t') => (Ok a, {| tree := t'; faults := [] |})
  | Err k => (Err (Io k), {| tree := t; faults := [] |})
  end.
Proof. unfold operation, next_fault, get_tree, set_tree. unfold_monad. cbn. by destruct (act t) as [[a t']|k]. Qed.

(** ** Paths an operation keeps *)

Definition keeps {A} (P : string -> Prop) (op : IO A) : Prop :=
  forall s q, P q -> tree (op s).2 !! q = tree s !! q.

Section Keeps.
Context (P : string -> Prop).

Lemma keeps_ret {A} (a : A) : keeps P (mret a).
Proof. by intros s q. Qed.
Lemma keeps_throw {A} e : keeps (A:=A) P (throw e).
Proof. by intros s q. Qed.
Lemma keeps_lift {A} (r : result Failure A) : keeps P (lift r).
Proof. by intros s q. Qed.
Lemma keeps_some_or {A} (o : option A) e : keeps P (some_or o e).
Proof. by intros s q. Qed.
Lemma keeps_require b message : keeps P (require b message).
Proof. intros s q. by rewrite require_run. Qed.

Lemma keeps_bind {A B} (m : IO A) (f : A -> IO B) : keeps P m -> (forall a, keeps P (f a)) -> keeps P (mbind f m).
Proof.
  intros Hm Hf s q Hq. specialize (Hm s q Hq). rewrite bind_run.
  destruct (m s) as [[a|e] s1]; cbn in *; [rewrite Hf|]; auto.
Qed.
Lemma keeps_context {A} what (op : IO A) : keeps P op -> keeps P (context what op).
Proof. intros H s q Hq. rewrite context_run. by apply H. Qed.
Lemma keeps_attempt {A} (op : IO A) : keeps P op -> keeps P (attempt op).
Proof. intros H s q Hq. rewrite attempt_run. by apply H. Qed.
Lemma keeps_ignore {A} (op : IO A) : keeps P op -> keeps P (ignore op).
Proof. intros H s q Hq. by apply H. Qed.
Lemma keeps_on_error {A} cleanup (op : IO A) : keeps P cleanup -> keeps P op -> keeps P (on_error cleanup op).
Proof.
  intros Hc Ho s q Hq. unfold on_error. specialize (Ho s q Hq).
  destruct (op s) as [[a|e] s1]; cbn in *; [done|]. by rewrite Hc.
Qed.
Lemma keeps_match_result {A B} (r : result Failure A) (f : A -> IO B) (g : Failure -> IO B) :
  (forall a, keeps P (f a)) -> (forall e, keeps P (g e)) -> keeps P (match r with Ok a => f a | Err e => g e end).
Proof. by destruct r. Qed.

Lemma keeps_operation {A} act torn :
  (forall t a t' q, act t = Ok (a, t') -> P q -> t' !! q = t !! q) ->
  (forall n t q, P q -> torn n t !! q = t !! q) -> keeps P (operation (A:=A) act torn).
Proof.
  intros Ha Ht s q Hq. destruct (operation act torn s) as [r s'] eqn:H.
  cbn. apply operation_inv in H as [(a & -> & H)|(k & -> & [->|[n ->]])]; eauto.
Qed.

Lemma keeps_fs_read p : keeps P (fs_read p).
Proof. apply keeps_operation; [|done]. unfold read_act. intros t a t' q H _. by repeat case_match; simplify_eq. Qed.
Lemma keeps_metadata p : keeps P (fs_metadata p).
Proof. apply keeps_operation; [|done]. intros t a t' q H _. by repeat case_match; simplify_eq. Qed.
Lemma keeps_symlink_metadata p : keeps P (fs_symlink_metadata p).
Proof. apply keeps_operation; [|done]. intros t a t' q H _. by repeat case_match; simplify_eq. Qed.
Lemma keeps_read_link p : keeps P (fs_read_link p).
Proof. apply keeps_operation; [|done]. intros t a t' q H _. by repeat case_match; simplify_eq. Qed.
Lemma keeps_sync : keeps P sync_all.
Proof. apply keeps_operation; [|done]. intros t a t' q H _. by simplify_eq. Qed.

End Keeps.

Create HintDb files.
#[export] Hint Resolve keeps_ret keeps_throw keeps_lift keeps_some_or keeps_require keeps_bind keeps_context keeps_attempt
  keeps_ignore keeps_on_error keeps_match_result keeps_fs_read keeps_metadata keeps_symlink_metadata keeps_read_link
  keeps_sync : files.

Section KeepsWrites.
Context (P : string -> Prop).

Lemma keeps_create_new p : ~ P p -> keeps P (create_new p).
Proof. intros Hp. apply keeps_operation; [|done]. intros t a t' q H Hq. case_match; simplify_eq. by rewrite lookup_insert_ne by congruence. Qed.
Lemma keeps_write_all p bytes : ~ P p -> keeps P (write_all p bytes).
Proof.
  intros Hp. apply keeps_operation.
  - intros t a t' q H Hq. simplify_eq. by rewrite lookup_insert_ne by congruence.
  - intros n t q Hq. by rewrite lookup_insert_ne by congruence.
Qed.
Lemma keeps_symlink target p : ~ P p -> keeps P (fs_symlink target p).
Proof. intros Hp. apply keeps_operation; [|done]. intros t a t' q H Hq. case_match; simplify_eq. by rewrite lookup_insert_ne by congruence. Qed.
Lemma keeps_remove_file p : ~ P p -> keeps P (fs_remove_file p).
Proof.
  intros Hp. apply keeps_operation; [|done]. intros t a t' q H Hq.
  repeat case_match; simplify_eq; by rewrite lookup_delete_ne by congruence.
Qed.
Lemma keeps_create_dir p : ~ P p -> keeps P (fs_create_dir p).
Proof. intros Hp. apply keeps_operation; [|done]. intros t a t' q H Hq. case_match; simplify_eq. by rewrite lookup_insert_ne by congruence. Qed.

End KeepsWrites.

#[export] Hint Resolve keeps_create_new keeps_write_all keeps_symlink keeps_remove_file keeps_create_dir : files.

(** ** Renaming a file *)

Lemma rename_file_run a b s s' :
  fs_rename a b s = (Ok (), s') -> tree s !! a <> Some Directory ->
  tree s' = <[b := default Directory (tree s !! a)]> (delete a (tree s)) /\ is_Some (tree s !! a).
Proof.
  intros H Hd. apply operation_inv in H as [([] & _ & H)|(k & ? & _)]; [|done].
  unfold rename_act in H. repeat case_match; simplify_eq/=; eauto.
Qed.

Lemma rename_err_run a b s e s' : fs_rename a b s = (Err e, s') -> tree s' = tree s.
Proof. intros H. by apply operation_inv in H as [(? & ? & _)|(k & _ & [->|[n ->]])]. Qed.

(** ** Single operations *)

Lemma create_new_run p s s' :
  create_new p s = (Ok (), s') -> tree s !! p = None /\ tree s' = <[p := File ""]> (tree s).
Proof. intros H. apply operation_inv in H as [([] & _ & H)|(k & ? & _)]; [|done]. by case_match; simplify_eq. Qed.

Lemma write_all_run p bytes s s' : write_all p bytes s = (Ok (), s') -> tree s' = <[p := File bytes]> (tree s).
Proof. intros H. apply operation_inv in H as [([] & _ & H)|(k & ? & _)]; [|done]. congruence. Qed.

Lemma sync_run s r s' : sync_all s = (r, s') -> tree s' = tree s.
Proof. intros H. apply operation_inv in H as [([] & _ & H)|(k & _ & [?|[n ?]])]; [congruence|done..]. Qed.

Lemma fs_read_run p s b s' : fs_read p s = (Ok b, s') -> read_act p (tree s) = Ok (b, tree s) /\ tree s' = tree s.
Proof.
  intros H. apply operation_inv in H as [(b' & [= <-] & H)|(k & ? & _)]; [|done].
  assert (tree s' = tree s) as Hs by (unfold read_act in H; by repeat case_match; simplify_eq). by rewrite Hs in H.
Qed.

Lemma fs_read_err p s e s' : fs_read p s = (Err e, s') -> tree s' = tree s.
Proof. intros H. by apply operation_inv in H as [(? & ? & _)|(k & _ & [?|[n ?]])]. Qed.

(** A state without faults *)
Definition still (t : Tree) : Fs := {| tree := t; faults := [] |}.

Lemma read_file_still t p b : t !! p = Some (File b) -> fs_read p (still t) = (Ok b, still t).
Proof. intros H. unfold fs_read, still. rewrite operation_clean. unfold read_act. cbn [resolve_link MAX_LINKS]. by rewrite H. Qed.

Lemma utf8_ascii s : str_all (fun c => byte_code c <? 128) s = true -> from_utf8 s = Some s.
Proof.
  intros H. unfold from_utf8. enough (utf8_valid (String.length s) s = true) as -> by done.
  induction s as [|c s IH]; [done|]. cbn [str_all] in H. apply andb_true_iff in H as [Hc Hs].
  cbn [String.length utf8_valid]. unfold utf8_more. rewrite Hc. cbn. by apply IH.
Qed.

(** What keeps every path keeps the tree. *)
Lemma keeps_tree {A} (op : IO A) s r s' : keeps (fun _ => True) op -> op s = (r, s') -> tree s' = tree s.
Proof. intros Hk H. apply map_eq. intros q. specialize (Hk s q I). by rewrite H in Hk. Qed.

Lemma metadata_run p s m s' b :
  fs_metadata p s = (Ok m, s') -> tree s !! p = Some (File b) -> m = metadata_of (File b) /\ tree s' = tree s.
Proof.
  intros H Hp. split; [|by eapply keeps_tree; [apply keeps_metadata|]].
  apply operation_inv in H as [(m' & [= <-] & H)|(k & ? & _)]; [|done].
  cbn [resolve_link MAX_LINKS] in H. rewrite Hp in H. by injection H.
Qed.

Lemma metadata_still t p b : t !! p = Some (File b) -> fs_metadata p (still t) = (Ok (metadata_of (File b)), still t).
Proof. intros H. unfold fs_metadata, still. rewrite operation_clean. cbn [resolve_link MAX_LINKS]. by rewrite H. Qed.

(** ** Without faults there are none later *)

Definition clean {A} (op : IO A) : Prop := forall t, exists r t', op (still t) = (r, still t').

Lemma clean_operation {A} act torn : clean (operation (A:=A) act torn).
Proof. intros t. unfold still. rewrite operation_clean. destruct (act t) as [[a t']|k]; eauto. Qed.
Lemma clean_ret {A} (a : A) : clean (mret a).
Proof. by eexists _, _. Qed.
Lemma clean_throw {A} e : clean (A:=A) (throw e).
Proof. by eexists _, _. Qed.
Lemma clean_bind {A B} (m : IO A) (f : A -> IO B) : clean m -> (forall a, clean (f a)) -> clean (mbind f m).
Proof. intros Hm Hf t. rewrite bind_run. destruct (Hm t) as ([a|e] & t' & ->); [apply Hf|eauto]. Qed.
Lemma clean_attempt {A} (op : IO A) : clean op -> clean (attempt op).
Proof. intros H t. rewrite attempt_run. destruct (H t) as (r & t' & ->). eauto. Qed.
#[export] Hint Resolve clean_operation clean_ret clean_throw clean_bind clean_attempt : files.
