(* ===== verification/PathsThms.v ===== *)
(** * Paths and the trees beneath them

    [entry_of r p] is the entry of the directory [r] that [p] lies in: two paths in
    different entries are apart, so an operation on the tree of one leaves the other
    alone. *)

From Stdlib Require Import ZArith Lia Ascii String.
From stdpp Require Import base tactics gmap strings list.
From S2P Require Import Prelude Bytes Capability FsCap Files CapabilityThms FilesThms.
Open Scope Z_scope.

(** ** Prefixes *)

Lemma strip_prefix_app p s : strip_prefix p (p ++ s) = Some s.
Proof. induction p as [|c p IH]; [done|]. rewrite append_cons. cbn [strip_prefix]. by rewrite Ascii.eqb_refl. Qed.

Lemma strip_prefix_some p s r : strip_prefix p s = Some r -> s = (p ++ r)%string.
Proof.
  revert s. induction p as [|c p IH]; intros s; cbn [strip_prefix]; [by intros [= ->]|].
  destruct s as [|d s]; [done|]. destruct (Ascii.eqb c d) eqn:E; [|done].
  apply Ascii.eqb_eq in E as ->. intros H. by rewrite append_cons, (IH _ H).
Qed.

Lemma append_cancel p a b : (p ++ a)%string = (p ++ b)%string -> a = b.
Proof. intros H. assert (strip_prefix p (p ++ a) = strip_prefix p (p ++ b)) as E by by rewrite H. by rewrite !strip_prefix_app in E; injection E. Qed.

(** ** Joined paths *)

(** A name: not empty, without a slash *)
Definition plain (a : string) : bool := negb (str_is_empty a) && str_all (fun x => negb (Ascii.eqb x "/")) a.

Lemma join_prefix r a : join_path r a = (join_path r "" ++ a)%string.
Proof.
  unfold join_path. destruct (last (list_ascii_of_string r)) as [c|]; [|done].
  destruct (Ascii.eqb c "/"); [by rewrite append_nil_r|]. by rewrite !append_assoc.
Qed.

Lemma join_inj r a b : join_path r a = join_path r b -> a = b.
Proof. rewrite (join_prefix r a), (join_prefix r b). apply append_cancel. Qed.

Lemma list_ascii_app a b : list_ascii_of_string (a ++ b) = list_ascii_of_string a ++ list_ascii_of_string b.
Proof. induction a as [|c a IH]; [done|]. rewrite append_cons. cbn. by rewrite IH. Qed.

Lemma str_all_list p s : str_all p s = forallb p (list_ascii_of_string s).
Proof. induction s as [|c s IH]; [done|]. cbn. by rewrite IH. Qed.

Lemma join_after r a b : plain a = true -> join_path (join_path r a) b = (join_path r "" ++ a ++ "/" ++ b)%string.
Proof.
  intros [Hn Ha]%andb_true_iff. rewrite (join_prefix r a). unfold join_path at 1. rewrite list_ascii_app, last_app.
  destruct (last (list_ascii_of_string a)) as [c|] eqn:E.
  - rewrite str_all_list, forallb_forall in Ha.
    apply last_Some_elem_of, list_elem_of_In, Ha, negb_true_iff in E. rewrite E. by rewrite !append_assoc.
  - apply last_None in E. by destruct a.
Qed.

(** The prefix of a joined path is empty or ends in a slash. *)
Lemma join_prefix_shape r : join_path r "" = ""%string \/ exists d, join_path r "" = (d ++ "/")%string.
Proof.
  unfold join_path. destruct (last (list_ascii_of_string r)) as [c|] eqn:E; [|by left]. right.
  destruct (Ascii.eqb c "/") eqn:Ec; [|by exists r].
  apply Ascii.eqb_eq in Ec as ->. apply last_Some in E as [l' E].
  exists (string_of_list_ascii l'). rewrite append_nil_r, <- (string_of_list_ascii_of_string r), E.
  clear. induction l' as [|c l IH]; [done|]. cbn. by rewrite append_cons, <- IH.
Qed.

Lemma rsplit_join r a : plain a = true ->
  (rsplit_once "/" (join_path r a) = None /\ join_path r "" = ""%string)
  \/ exists d, rsplit_once "/" (join_path r a) = Some (d, a) /\ join_path r "" = (d ++ "/")%string.
Proof.
  intros [_ Ha]%andb_true_iff. rewrite join_prefix. destruct (join_prefix_shape r) as [->|[d ->]].
  - left. by rewrite rsplit_once_none.
  - right. exists d. rewrite append_assoc. split; [|done]. by apply rsplit_once_app.
Qed.

Lemma with_file_name_join r a b : plain a = true -> with_file_name (join_path r a) b = join_path r b.
Proof.
  intros Ha. rewrite (join_prefix r b). unfold with_file_name.
  destruct (rsplit_join r a Ha) as [[-> ->]|(d & -> & ->)]; [done|]. by rewrite append_assoc.
Qed.

Lemma file_name_join r a : plain a = true -> file_name (join_path r a) = a.
Proof.
  intros Ha. unfold file_name. destruct (rsplit_join r a Ha) as [[-> E]|(d & -> & _)]; [|done].
  by rewrite join_prefix, E.
Qed.

Lemma rsplit_once_some c s a b : rsplit_once c s = Some (a, b) -> s = (a ++ String c b)%string.
Proof.
  revert a b. induction s as [|x s IH]; intros a b; cbn [rsplit_once]; [done|].
  destruct (rsplit_once c s) as [[a' b']|].
  - intros [= <- <-]. rewrite append_cons. f_equal. by apply IH.
  - destruct (Ascii.eqb x c) eqn:E; [|done]. apply Ascii.eqb_eq in E as ->. by intros [= <- <-].
Qed.

(** A suffix given to the name of a file is given to its path. *)
Lemma with_suffix p suffix : with_file_name p (file_name p ++ suffix) = (p ++ suffix)%string.
Proof.
  unfold with_file_name, file_name. destruct (rsplit_once "/" p) as [[a b]|] eqn:E; [|done].
  apply rsplit_once_some in E as ->. by rewrite append_assoc.
Qed.

(** ** Entries *)

Fixpoint component (s : string) : string :=
  match s with String c s' => if Ascii.eqb c "/" then EmptyString else String c (component s') | EmptyString => EmptyString end.
Definition entry_of (r p : string) : option string := component <$> strip_prefix (join_path r "") p.

Lemma component_plain a rest : plain a = true -> component (a ++ String "/" rest) = a /\ component a = a.
Proof.
  intros [_ Ha]%andb_true_iff. induction a as [|c a IH]; [done|]. rewrite append_cons. cbn [component str_all] in *.
  apply andb_true_iff in Ha as [Hc Ha]. apply negb_true_iff in Hc as ->. destruct (IH Ha) as [-> ->]. done.
Qed.

Lemma entry_name r a : entry_of r (join_path r a) = Some (component a).
Proof. unfold entry_of. by rewrite (join_prefix r a), strip_prefix_app. Qed.

Lemma entry_join r a : plain a = true -> entry_of r (join_path r a) = Some a.
Proof. intros Ha. rewrite entry_name. f_equal. by apply (component_plain a ""). Qed.

Lemma entry_join2 r a b : plain a = true -> entry_of r (join_path (join_path r a) b) = Some a.
Proof. intros Ha. unfold entry_of. rewrite join_after, strip_prefix_app by done. cbn. f_equal. by apply component_plain. Qed.

Lemma beneath_some base p rest :
  beneath base p = Some rest -> p = (base ++ rest)%string /\ (rest = ""%string \/ exists r, rest = String "/" r).
Proof.
  unfold beneath. destruct (strip_prefix base p) as [[|c r]|] eqn:E; [| |done].
  - intros [= <-]. split; [by apply strip_prefix_some|by left].
  - destruct (Ascii.eqb c "/") eqn:Ec; [|done]. intros [= <-]. apply Ascii.eqb_eq in Ec as ->.
    split; [by apply strip_prefix_some|eauto].
Qed.

Lemma beneath_self p : beneath p p = Some ""%string.
Proof. unfold beneath. by rewrite <- (append_nil_r p) at 2; rewrite strip_prefix_app. Qed.

Lemma entry_beneath r a p : plain a = true -> is_Some (beneath (join_path r a) p) -> entry_of r p = Some a.
Proof.
  intros Ha [rest [-> Hr]%beneath_some]. unfold entry_of. rewrite (join_prefix r a), append_assoc, strip_prefix_app. cbn. f_equal.
  destruct Hr as [->|[x ->]]; [rewrite append_nil_r; by apply (component_plain a "")|by apply component_plain].
Qed.

Lemma beneath_apart r a p : plain a = true -> entry_of r p <> Some a -> beneath (join_path r a) p = None.
Proof. intros Ha Hp. destruct (beneath (join_path r a) p) eqn:E; [|done]. destruct Hp. eapply entry_beneath; eauto. Qed.

Lemma component_app x rest :
  rest = ""%string \/ (exists y, rest = String "/" y) \/ str_contains_char "/" x = true -> component (x ++ rest) = component x.
Proof.
  induction x as [|c x IH]; intros H.
  - by destruct H as [->|[[y ->]|H]].
  - rewrite append_cons. cbn [component]. destruct (Ascii.eqb c "/") eqn:E; [done|]. f_equal. apply IH.
    destruct H as [?|[?|H]]; [auto..|]. right. right. unfold str_contains_char in *. cbn [str_any] in H.
    by rewrite Ascii.eqb_sym, E in H.
Qed.

(** What lies beneath a path, and what is joined to it, is in the path's entry. *)
Lemma entry_deeper r p q a : entry_of r p = Some a -> is_Some (beneath p q) -> entry_of r q = Some a.
Proof.
  unfold entry_of. intros (x & Hx & ->)%fmap_Some [rest [-> Hr]%beneath_some].
  apply strip_prefix_some in Hx as ->. rewrite append_assoc, strip_prefix_app. cbn. f_equal.
  apply component_app. naive_solver.
Qed.

Lemma entry_joined r p a b : a <> ""%string -> entry_of r p = Some a -> entry_of r (join_path p b) = Some a.
Proof.
  unfold entry_of. intros Hne (x & Hx & ->)%fmap_Some.
  apply strip_prefix_some in Hx as ->.
  assert (exists rest, join_path (join_path r "" ++ x) b = join_path r "" ++ x ++ rest
    /\ (rest = "" \/ (exists y, rest = String "/" y) \/ str_contains_char "/" x = true))%string as (rest & -> & Hr).
  { unfold join_path at 1. rewrite list_ascii_app, last_app.
    destruct (last (list_ascii_of_string x)) as [c|] eqn:E; [|apply last_None in E; by destruct x].
    rewrite !append_assoc. destruct (Ascii.eqb c "/") eqn:Ec; [|by eauto 10]. exists b. split; [done|]. right. right.
    apply last_Some_elem_of in E. clear Hne. unfold str_contains_char.
    induction x as [|d x IH]; cbn [str_any list_ascii_of_string] in *; [by apply not_elem_of_nil in E|].
    apply elem_of_cons in E as [->|E]; [by rewrite Ascii.eqb_sym, Ec|].
    rewrite IH by done. apply orb_true_r. }
  rewrite strip_prefix_app. cbn. f_equal. by apply component_app.
Qed.

Lemma beneath_other r p q a : entry_of r p = Some a -> entry_of r q <> Some a -> beneath p q = None.
Proof. intros Hp Hq. destruct (beneath p q) eqn:E; [|done]. destruct Hq. eapply entry_deeper; eauto. Qed.

(** ** Operations on trees *)

Lemma delete_all_lookup ps (t : Tree) q : q ∉ ps -> delete_all ps t !! q = t !! q.
Proof.
  induction ps as [|p ps IH]; intros Hq; [done|]. cbn [delete_all foldr] in *.
  apply not_elem_of_cons in Hq as [Hp Hq]. rewrite lookup_delete_ne by done. by apply IH.
Qed.

Lemma entries_beneath_elem p (t : Tree) q : q ∈ entries_beneath p t -> is_Some (beneath p q).
Proof. unfold entries_beneath. by intros [? _]%list_elem_of_filter. Qed.

Lemma move_tree_lookup a b (t : Tree) q :
  beneath a q = None -> beneath b q = None -> move_tree a b t !! q = t !! q.
Proof.
  intros Ha Hb. unfold move_tree. rewrite lookup_union_r.
  - apply delete_all_lookup. intros Hq%entries_beneath_elem. rewrite Ha in Hq. by destruct Hq.
  - apply not_elem_of_list_to_map_1. intros ([p n] & -> & Hp)%list_elem_of_fmap.
    apply list_elem_of_omap in Hp as ([p' n'] & _ & Hp). cbn in *.
    destruct (beneath a p') as [rest|] eqn:E; [|done]. injection Hp as <- <-.
    apply beneath_some in E as [_ Hr]. revert Hb. unfold beneath. rewrite strip_prefix_app.
    by destruct Hr as [->|[x ->]].
Qed.

Section KeepsTrees.
Context (P : string -> Prop).

Lemma keeps_rename a b :
  (forall q, P q -> beneath a q = None /\ beneath b q = None) -> keeps P (fs_rename a b).
Proof.
  intros HP. apply keeps_operation; [|done]. intros t [] t' q H Hq. destruct (HP q Hq) as [Ha Hb].
  assert (q <> a /\ q <> b) as [Hqa Hqb] by (split; intros ->; by rewrite beneath_self in *).
  unfold rename_act in H.
  repeat case_match; simplify_eq; rewrite ?move_tree_lookup by done; rewrite ?lookup_insert_ne, ?lookup_delete_ne by done; done.
Qed.

Lemma keeps_remove_dir_all p : (forall q, P q -> beneath p q = None) -> keeps P (fs_remove_dir_all p).
Proof.
  intros HP. assert (forall t q, P q -> q ∉ entries_beneath p t) as Hno.
  { intros t q Hq Hin%entries_beneath_elem. rewrite HP in Hin by done. by destruct Hin. }
  apply keeps_operation.
  - intros t [] t' q H Hq. assert (q <> p) by (intros ->; specialize (HP p Hq); by rewrite beneath_self in HP).
    repeat case_match; simplify_eq; [by rewrite lookup_delete_ne|by rewrite delete_all_lookup by eauto].
  - intros n t q Hq. repeat case_match; [done| done| |done]. apply delete_all_lookup.
    intros Hin. apply elem_of_take in Hin as (i & Hi & _). apply list_elem_of_lookup_2, list_elem_of_filter in Hi as [_ Hi]. by eapply Hno.
Qed.

Lemma dir_prefixes_prefix acc s q : q ∈ dir_prefixes acc s -> exists rest, (acc ++ s = q ++ rest)%string.
Proof.
  revert acc. induction s as [|c s IH]; intros acc; cbn [dir_prefixes].
  - intros ->%list_elem_of_singleton. by exists ""%string.
  - intros [Hq|Hq]%elem_of_app.
    + destruct (_ && _); [|by apply not_elem_of_nil in Hq]. apply list_elem_of_singleton in Hq as ->. by exists (String c s).
    + destruct (IH _ Hq) as [rest E]. exists rest. by rewrite append_assoc in E.
Qed.

Lemma ensure_dirs_lookup ps (t t' : Tree) q : ensure_dirs ps t = Ok t' -> q ∉ ps -> t' !! q = t !! q.
Proof.
  revert t. induction ps as [|p ps IH]; intros t; cbn [ensure_dirs]; [by intros [= <-]|].
  intros (t1 & H1 & H)%result_bind_ok [Hp Hq]%not_elem_of_cons. rewrite (IH _ H Hq). unfold ensure_dir in H1.
  repeat case_match; simplify_eq; try done. by rewrite lookup_insert_ne.
Qed.

Lemma keeps_create_dir_all p : (forall q, P q -> q ∉ dir_prefixes "" p) -> keeps P (fs_create_dir_all p).
Proof.
  intros HP. apply keeps_operation.
  - intros t [] t' q (t1 & H1 & [= <-])%result_bind_ok Hq. by eapply ensure_dirs_lookup; eauto.
  - intros n t q Hq. case_match eqn:E; [|done]. eapply ensure_dirs_lookup; [exact E|].
    intros Hin. apply (HP q Hq). by eapply (sublist_subseteq _ _ (sublist_take _ n)).
Qed.

End KeepsTrees.

#[export] Hint Resolve keeps_rename keeps_remove_dir_all : files.

(** ** Trees that move *)

Definition below (rest : string) : Prop := rest = ""%string \/ exists r, rest = String "/" r.

Lemma beneath_below p rest : below rest -> beneath p (p ++ rest) = Some rest.
Proof. unfold beneath. rewrite strip_prefix_app. by intros [->|[r ->]]. Qed.

Lemma beneath_rest p q : is_Some (beneath p q) -> exists rest, below rest /\ q = (p ++ rest)%string.
Proof. intros [rest [-> H]%beneath_some]. by exists rest. Qed.

Lemma delete_all_gone ps (t : Tree) q : q ∈ ps -> delete_all ps t !! q = None.
Proof.
  induction ps as [|p ps IH]; intros Hq; [by apply not_elem_of_nil in Hq|]. cbn [delete_all foldr].
  destruct (decide (p = q)) as [->|Hn]; [apply lookup_delete_eq|]. rewrite lookup_delete_ne by done. apply IH. set_solver.
Qed.

Lemma entries_gone p (t : Tree) q : is_Some (beneath p q) -> delete_all (entries_beneath p t) t !! q = None.
Proof.
  intros Hq. destruct (t !! q) as [n|] eqn:E.
  - apply delete_all_gone. unfold entries_beneath. apply list_elem_of_filter. split; [done|].
    apply (list_elem_of_fmap_2 fst _ (q, n)). by apply elem_of_map_to_list.
  - rewrite delete_all_lookup; [done|]. unfold entries_beneath. intros [_ ([x n] & -> & Hx%elem_of_map_to_list)%list_elem_of_fmap]%list_elem_of_filter.
    cbn in E. congruence.
Qed.

Lemma entries_none p (t : Tree) q : entries_beneath p t = [] -> is_Some (beneath p q) -> t !! q = None.
Proof. intros He Hq. pose proof (entries_gone p t q Hq) as H. by rewrite He in H. Qed.

Section Moves.
Context (a b : string) (t : Tree).
Let moved : Tree := list_to_map (omap (fun '(p, n) => r ← beneath a p; Some (b ++ r, n)%string) (map_to_list t)).

Lemma moved_elem rest n :
  below rest -> (b ++ rest, n)%string ∈ omap (fun '(p, n) => r ← beneath a p; Some (b ++ r, n)%string) (map_to_list t)
  <-> t !! (a ++ rest)%string = Some n.
Proof.
  intros Hrest. rewrite list_elem_of_omap. split.
  - intros ([p m] & Hp%elem_of_map_to_list & H). destruct (beneath a p) as [r|] eqn:E; [|done]. injection H as H <-.
    apply append_cancel in H as <-. by apply beneath_some in E as [-> _].
  - intros H. exists ((a ++ rest)%string, n). rewrite elem_of_map_to_list, beneath_below by done. done.
Qed.

Lemma moved_lookup rest : below rest -> moved !! (b ++ rest)%string = t !! (a ++ rest)%string.
Proof.
  intros Hrest. apply option_eq. intros n. rewrite <- (moved_elem rest n Hrest). split; [apply elem_of_list_to_map_2|].
  intros Hn. apply elem_of_list_to_map_1'; [|done]. intros m Hm. apply moved_elem in Hn; [|done]. apply moved_elem in Hm; [|done]. congruence.
Qed.

(** What was beneath [a] is beneath [b], where nothing was, and gone from [a]. *)
Lemma move_tree_moved rest :
  below rest -> beneath a (b ++ rest) = None -> t !! (b ++ rest)%string = None -> move_tree a b t !! (b ++ rest)%string = t !! (a ++ rest)%string.
Proof.
  intros Hrest Ha Hb. unfold move_tree. fold moved. rewrite <- moved_lookup by done.
  destruct (moved !! (b ++ rest)%string) as [n|] eqn:E; [by apply lookup_union_Some_l|].
  rewrite lookup_union_r by done. rewrite delete_all_lookup; [done|].
  intros Hq%entries_beneath_elem. rewrite Ha in Hq. by destruct Hq.
Qed.

Lemma move_tree_gone q : is_Some (beneath a q) -> beneath b q = None -> move_tree a b t !! q = None.
Proof.
  intros Ha Hb. unfold move_tree. rewrite lookup_union_None. split; [|by apply entries_gone].
  apply not_elem_of_list_to_map_1. intros ([p n] & -> & Hp)%list_elem_of_fmap.
  apply list_elem_of_omap in Hp as ([p' n'] & _ & Hp). cbn in *.
  destruct (beneath a p') as [rest|] eqn:E; [|done]. injection Hp as <- <-. apply beneath_some in E as [_ Hr]. by rewrite beneath_below in Hb.
Qed.

End Moves.
