(* ===== verification/Evidence.v ===== *)
(** * Release evidence ([crates/tysel-build/src/supply_chain.rs], [evidence.rs])

    The inventory of a runtime, the bill of materials and the licenses derived from
    it, the evidence index that ties them to an executable, the order in which the
    five files beside the executable are published, and their verification. JSON is a
    parameter; the ids of temporary files and the process id are arguments. *)

From Stdlib Require Import ZArith Lia Ascii String.
From stdpp Require Import base tactics gmap strings list.
From S2P Require Import Prelude Bytes DurableTypes Tap FsCap Files.
Open Scope Z_scope.

Definition RELEASE_EVIDENCE_VERSION : Z := 2.
Definition MAX_RELEASE_SIDECAR_BYTES : Z := 32 * 1024 * 1024.
Definition SUPPLY_CHAIN_VERSION : Z := 1.

#[global] Instance TapCompatibilityStatus_eq_dec : EqDecision TapCompatibilityStatus.
Proof. solve_decision. Defined.
#[global] Instance TapCompatibilityReport_eq_dec : EqDecision TapCompatibilityReport.
Proof. solve_decision. Defined.

(** ** The supply chain *)

Record SupplyChainComponent := {
  sc_name : string; sc_version : string; sc_license : string; sc_purl : string; sc_source : string;
  sc_checksum : option string }.
Record RuntimeInventory := {
  ri_inventory_version : Z; ri_cargo_lock_sha256 : string; ri_roots : list string;
  ri_components : list SupplyChainComponent }.

Record BomHash := { alg : string; content : string }.
Record BomLicenseChoice := { expression : string }.
Record BomComponent := {
  component_type : string; bom_ref : string; bc_name : string; bc_version : option string;
  bc_hashes : list BomHash; bc_licenses : list BomLicenseChoice; bc_purl : option string }.
Record BomMetadata := { bm_component : BomComponent }.
Record CycloneDxBom := {
  bom_format : string; spec_version : string; bom_version : Z; bom_metadata : BomMetadata;
  bom_components : list BomComponent }.
Record LicensedComponent := { lc_name : string; lc_version : string; lc_license : string; lc_purl : string }.
Record LicenseInventory := {
  li_inventory_version : Z; li_cargo_lock_sha256 : string; li_components : list LicensedComponent }.

#[global] Instance BomHash_eq_dec : EqDecision BomHash.
Proof. solve_decision. Defined.
#[global] Instance BomLicenseChoice_eq_dec : EqDecision BomLicenseChoice.
Proof. solve_decision. Defined.
#[global] Instance BomComponent_eq_dec : EqDecision BomComponent.
Proof. solve_decision. Defined.
#[global] Instance BomMetadata_eq_dec : EqDecision BomMetadata.
Proof. solve_decision. Defined.
#[global] Instance CycloneDxBom_eq_dec : EqDecision CycloneDxBom.
Proof. solve_decision. Defined.
#[global] Instance LicensedComponent_eq_dec : EqDecision LicensedComponent.
Proof. solve_decision. Defined.
#[global] Instance LicenseInventory_eq_dec : EqDecision LicenseInventory.
Proof. solve_decision. Defined.

Definition check (b : bool) (message : string) : result Failure () := if b then Ok () else Err (Bail message).

(** [validate_inventory]: its loop, with the previous component *)
Fixpoint validate_components (previous : option string) (l : list SupplyChainComponent) : result Failure () :=
  match l with
  | [] => Ok ()
  | c :: l' =>
      check (negb (str_is_empty (trim (sc_license c)))) (sc_purl c ++ " has no license");;
      check (starts_with "pkg:cargo/" (sc_purl c) || starts_with "pkg:github/" (sc_purl c)) "invalid component purl";;
      match previous with
      | Some p => check (String.ltb p (sc_purl c)) "components are duplicated or unsorted"
      | None => Ok ()
      end;;
      validate_components (Some (sc_purl c)) l'
  end.
Definition validate_inventory (i : RuntimeInventory) : result Failure () :=
  check (ri_inventory_version i =? SUPPLY_CHAIN_VERSION) "unsupported inventory version";;
  check (len (ri_cargo_lock_sha256 i) =? 64) "invalid Cargo.lock digest";;
  check (match ri_roots i with [] => false | _ => true end) "runtime inventory has no roots";;
  check (match ri_components i with [] => false | _ => true end) "runtime inventory has no components";;
  validate_components None (ri_components i).

(** [release_supply_chain_for_inventory] *)
Definition bom_component (c : SupplyChainComponent) : BomComponent := {|
  component_type := "library"; bom_ref := sc_purl c; bc_name := sc_name c; bc_version := Some (sc_version c);
  bc_hashes := match sc_checksum c with Some h => [{| alg := "SHA-256"; content := h |}] | None => [] end;
  bc_licenses := [{| expression := sc_license c |}]; bc_purl := Some (sc_purl c) |}.
Definition licensed_component (c : SupplyChainComponent) : LicensedComponent := {|
  lc_name := sc_name c; lc_version := sc_version c; lc_license := sc_license c; lc_purl := sc_purl c |}.
Definition release_supply_chain_for_inventory (tap : Tap) (artifact_sha256 : string) (i : RuntimeInventory)
    : result Failure (CycloneDxBom * LicenseInventory) :=
  validate_inventory i;;
  let application := {|
    component_type := "application"; bom_ref := "tysel-application:" ++ artifact_sha256;
    bc_name := pm_application_id (tap_manifest tap); bc_version := None;
    bc_hashes := [{| alg := "SHA-256"; content := artifact_sha256 |}]; bc_licenses := []; bc_purl := None |} in
  Ok ({| bom_format := "CycloneDX"; spec_version := "1.5"; bom_version := 1;
         bom_metadata := {| bm_component := application |}; bom_components := bom_component <$> ri_components i |},
      {| li_inventory_version := SUPPLY_CHAIN_VERSION; li_cargo_lock_sha256 := ri_cargo_lock_sha256 i;
         li_components := licensed_component <$> ri_components i |}).

(** ** The index *)

Record ReleaseArtifactEvidence := { ae_kind : string; ae_target : string; ae_size_bytes : Z; ae_sha256 : string }.
Record ReleaseDocumentEvidence := { de_kind : string; de_size_bytes : Z; de_sha256 : string }.
Record ReleaseSupplyChainEvidence := {
  runtime_inventory_sha256 : string; se_sbom : ReleaseDocumentEvidence; se_licenses : ReleaseDocumentEvidence }.
Record ReleaseEvidenceIndex := {
  ei_evidence_version : Z; ei_artifact : ReleaseArtifactEvidence; ei_application_id : string;
  ei_execution_profile : string; ei_compatibility : TapCompatibilityReport;
  ei_supply_chain : ReleaseSupplyChainEvidence }.

Record ReleaseSidecars := {
  checksum_path : string; compatibility_path : string; sbom_path : string; licenses_path : string; evidence_path : string }.
Definition sidecars_of (output : string) : ReleaseSidecars := {|
  checksum_path := sidecar_path output ".sha256"; compatibility_path := sidecar_path output ".compat.json";
  sbom_path := sidecar_path output ".sbom.cdx.json"; licenses_path := sidecar_path output ".licenses.json";
  evidence_path := sidecar_path output ".evidence.json" |}.

(** [serde_json]: pretty printing, and reading of a document. [inventory_stream] is the
    first value of a stream with the offset behind it. *)
Class EvidenceJson := {
  index_pretty : ReleaseEvidenceIndex -> option string; index_read : string -> option ReleaseEvidenceIndex;
  compat_pretty : TapCompatibilityReport -> option string; compat_read : string -> option TapCompatibilityReport;
  bom_pretty : CycloneDxBom -> option string; bom_read : string -> option CycloneDxBom;
  licenses_pretty : LicenseInventory -> option string; licenses_read : string -> option LicenseInventory;
  inventory_stream : string -> option (RuntimeInventory * Z);
}.

(** What derived serialization promises: reading a printed document, and the newline
    after it, gives the document. *)
Class EvidenceJsonLaws (EJ : EvidenceJson) : Prop := {
  printed_index : forall d s, index_pretty d = Some s -> index_read (s ++ newline) = Some d;
  printed_compat : forall d s, compat_pretty d = Some s -> compat_read (s ++ newline) = Some d;
  printed_bom : forall d s, bom_pretty d = Some s -> bom_read (s ++ newline) = Some d;
  printed_licenses : forall d s, licenses_pretty d = Some s -> licenses_read (s ++ newline) = Some d;
}.

(** ** Writing *)

Section Evidence.
Context {TS : TapSerde} {SH : Sha256} {EJ : EvidenceJson}.

Definition remove_file_if_present (path : string) : IO () :=
  r ← attempt (fs_remove_file path);
  match r with
  | Ok () => mret ()
  | Err (Io NotFound) => mret ()
  | Err e => throw (Context ("failed to replace release evidence " ++ path) e)
  end.

(** [StagedFile]; dropping one that was not committed removes its temporary. *)
Record StagedFile := { temporary : string; destination : string }.
#[global] Instance StagedFile_eq_dec : EqDecision StagedFile.
Proof. solve_decision. Defined.

Definition drop_staged (f : StagedFile) : IO () := ignore (fs_remove_file (temporary f)).
Fixpoint drop_all (l : list StagedFile) : IO () :=
  match l with [] => mret () | f :: l' => drop_staged f;; drop_all l' end.

Definition temporary_path (pid id : Z) (dest : string) : string :=
  sidecar_path dest (".tmp-" ++ dec_string pid ++ "-" ++ dec_string id).
(** [StagedFile::new] with the ids its attempts take from the counter *)
Fixpoint stage (pid : Z) (ids : list Z) (dest contents : string) : IO StagedFile :=
  match ids with
  | [] => throw (Bail "failed to allocate temporary release evidence file")
  | id :: ids' =>
      let staged := {| temporary := temporary_path pid id dest; destination := dest |} in
      r ← attempt (create_new (temporary staged));
      match r with
      | Err (Io AlreadyExists) => stage pid ids' dest contents
      | Err e => throw (Context ("failed to stage release evidence " ++ dest) e)
      | Ok () => on_error (drop_staged staged) (write_all (temporary staged) contents;; sync_all);; mret staged
      end
  end.
(** [StagedFile::commit] *)
Definition commit (f : StagedFile) : IO () :=
  on_error (drop_staged f)
    (context ("failed to publish release evidence " ++ destination f) (fs_rename (temporary f) (destination f))).

Definition json_bytes (printed : option string) : result Failure string :=
  match printed with Some s => Ok (s ++ newline)%string | None => Err (Foreign "serde_json") end.

(** The five files staged one after the other, [alive] those staged so far, the last first. *)
Fixpoint stage_all (pid : Z) (ids : list (list Z)) (files : list (string * result Failure string)) (alive : list StagedFile)
    : IO (list StagedFile) :=
  match files with
  | [] => mret alive
  | (dest, contents) :: files' =>
      f ← on_error (drop_all alive) (c ← lift contents; stage pid (hd [] ids) dest c);
      stage_all pid (tl ids) files' (f :: alive)
  end.
(** Commits in the order of [todo]; a failure drops what is still alive. *)
Fixpoint commit_all (todo alive : list StagedFile) : IO () :=
  match todo with
  | [] => mret ()
  | f :: todo' =>
      let alive' := filter (fun g => g <> f) alive in
      on_error (drop_all alive') (commit f);; commit_all todo' alive'
  end.

(** [Tap::from_path] on a file of the tree *)
Definition tap_from_path (path : string) : IO Tap :=
  b ← fs_read path; lift (map_err (fun _ => Foreign "tysel_package") (from_path b)).

(** The first bytes of an inventory: an open brace, a newline, two spaces and a quoted name *)
Definition INVENTORY_PREFIX : string :=
  String "{" (newline ++ "  " ++ String (byte_of 34) ("inventory_version" ++ String (byte_of 34) ":")).

(** [runtime_inventory]: its loop over the offsets of the stub *)
Definition inventory_at (candidate : string) : option (RuntimeInventory * string) :=
  if negb (starts_with INVENTORY_PREFIX candidate) then None
  else
    '(inventory, offset) ← inventory_stream candidate;
    let consumed := if starts_with newline (str_drop (Z.to_nat offset) candidate) then offset + 1 else offset in
    match validate_inventory inventory with
    | Ok () => Some (inventory, str_take (Z.to_nat consumed) candidate)
    | Err _ => None
    end.
Fixpoint inventory_loop (stub : string) (found : option (RuntimeInventory * string))
    : result Failure (option (RuntimeInventory * string)) :=
  match stub with
  | EmptyString => Ok found
  | String _ stub' =>
      match inventory_at stub with
      | None => inventory_loop stub' found
      | Some f =>
          match found with
          | Some _ => Err (Bail "release runtime stub embeds multiple runtime inventories")
          | None => inventory_loop stub' (Some f)
          end
      end
  end.
Definition runtime_inventory (artifact : string) : result Failure (RuntimeInventory * string) :=
  check (16 <=? len artifact) "release artifact contains no TAP footer";;
  let footer := len artifact - 16 in
  check (String.eqb (str_drop (Z.to_nat (footer + 8)) artifact) END_MAGIC) "release artifact contains no TAP footer";;
  let payload_len := from_le_bytes (str_take 8 (str_drop (Z.to_nat footer) artifact)) in
  check (payload_len <=? footer) "TAP payload length exceeds release artifact";;
  let stub := str_take (Z.to_nat (footer - payload_len)) artifact in
  check (len INVENTORY_PREFIX <=? len stub) "release runtime stub does not embed a valid runtime inventory";;
  found ← inventory_loop stub None;
  ok_or found (Bail "release runtime stub does not embed a valid runtime inventory").

Definition document_evidence (kind contents : string) : ReleaseDocumentEvidence :=
  {| de_kind := kind; de_size_bytes := len contents; de_sha256 := bundle_hash contents |}.

(** The contents of the five files, in the order they are staged *)
Record EvidenceDocuments := {
  ed_index : ReleaseEvidenceIndex; ed_compat : TapCompatibilityReport; ed_sbom : string; ed_licenses : string }.
Definition staged_files (output : string) (d : EvidenceDocuments) : list (string * result Failure string) :=
  let s := sidecars_of output in
  [(compatibility_path s, json_bytes (compat_pretty (ed_compat d)));
   (sbom_path s, Ok (ed_sbom d));
   (licenses_path s, Ok (ed_licenses d));
   (evidence_path s, json_bytes (index_pretty (ed_index d)));
   (checksum_path s, Ok (ae_sha256 (ei_artifact (ed_index d)) ++ newline)%string)].

(** [write_release_evidence_inner], from the artifact to the documents *)
Definition evidence_documents (embedded : string) (verified_target_runtime : bool) (target artifact : string) (tap : Tap)
    : result Failure EvidenceDocuments :=
  '(inventory, inventory_bytes) ← runtime_inventory artifact;
  check (verified_target_runtime || String.eqb inventory_bytes embedded)
    "release runtime stub does not embed the current locked runtime inventory";;
  tap_payload ← map_err (fun _ => Context "failed to encode embedded TAP for release evidence" (Foreign "tysel_package")) (encode tap);
  let compatibility := compatibility_report tap_payload in
  check (compatible compatibility) "release TAP is not compatible with this runtime";;
  let digest := bundle_hash artifact in
  '(sbom, licenses) ← release_supply_chain_for_inventory tap digest inventory;
  sbom_bytes ← json_bytes (bom_pretty sbom);
  license_bytes ← json_bytes (licenses_pretty licenses);
  Ok {| ed_compat := compatibility; ed_sbom := sbom_bytes; ed_licenses := license_bytes;
        ed_index := {|
          ei_evidence_version := RELEASE_EVIDENCE_VERSION;
          ei_artifact := {| ae_kind := "tysel-single-executable"; ae_target := target; ae_size_bytes := len artifact; ae_sha256 := digest |};
          ei_application_id := pm_application_id (tap_manifest tap);
          ei_execution_profile := execution_profile (tap_manifest tap); ei_compatibility := compatibility;
          ei_supply_chain := {| runtime_inventory_sha256 := bundle_hash inventory_bytes;
            se_sbom := document_evidence "cyclonedx-1.5" sbom_bytes;
            se_licenses := document_evidence "spdx-license-inventory" license_bytes |} |} |}.

(** The commits of [write_release_evidence_inner]: the index last *)
Definition publish (staged : list StagedFile) : IO () :=
  match staged with
  | [checksum; evidence; licenses; sbom; compatibility] =>
      commit_all [compatibility; sbom; licenses; checksum; evidence] staged
  | _ => mret ()
  end.

(** [write_release_evidence_inner]; [embedded] is the inventory compiled into this program. *)
Definition write_release_evidence_inner (embedded : string) (pid : Z) (ids : list (list Z)) (output target : string)
    (verified_target_runtime : bool) : IO ReleaseSidecars :=
  let s := sidecars_of output in
  remove_file_if_present (evidence_path s);;
  artifact ← context ("failed to read release artifact " ++ output) (fs_read output);
  tap ← context ("release artifact " ++ output ++ " contains an invalid TAP") (tap_from_path output);
  d ← lift (evidence_documents embedded verified_target_runtime target artifact tap);
  staged ← stage_all pid ids (staged_files output d) [];
  publish staged;;
  mret s.

(** ** Verification *)

Definition read_bounded (max_bytes : Z) (path : string) : IO string :=
  m ← context ("failed to inspect " ++ path) (fs_metadata path);
  require (file_len m <=? max_bytes) ("release sidecar " ++ path ++ " is oversized");;
  context ("failed to read " ++ path) (fs_read path).
Definition read_json {D} (from_slice : string -> option D) (path : string) : IO D :=
  bytes ← read_bounded MAX_RELEASE_SIDECAR_BYTES path;
  some_or (from_slice bytes) (Context ("invalid JSON in " ++ path) (Foreign "serde_json")).

Definition verify_document (output suffix : string) (e : ReleaseDocumentEvidence) : IO string :=
  bytes ← read_bounded MAX_RELEASE_SIDECAR_BYTES (sidecar_path output suffix);
  require (len bytes =? de_size_bytes e) (de_kind e ++ " size does not match evidence");;
  require (String.eqb (bundle_hash bytes) (de_sha256 e)) (de_kind e ++ " digest does not match evidence");;
  mret bytes.

(** The comparison of one component of the bill of materials with its license *)
Definition component_licensed (p : BomComponent * LicensedComponent) : bool :=
  let '(c, l) := p in
  String.eqb (bc_name c) (lc_name l) && bool_decide (bc_version c = Some (lc_version l))
  && bool_decide (bc_purl c = Some (lc_purl l)) && bool_decide (bc_licenses c = [{| expression := lc_license l |}]).

(** The last checks of [verify_release_evidence], on documents read *)
Definition check_documents (index : ReleaseEvidenceIndex) (tap : Tap) (inventory : RuntimeInventory) (inventory_bytes : string)
    (sbom : CycloneDxBom) (licenses : LicenseInventory) : result Failure ReleaseEvidenceIndex :=
  '(expected_sbom, expected_licenses) ← release_supply_chain_for_inventory tap (ae_sha256 (ei_artifact index)) inventory;
  check (bool_decide (sbom = expected_sbom)) "SBOM does not match the embedded TAP and runtime inventory";;
  check (bool_decide (licenses = expected_licenses)) "license inventory does not match the embedded runtime inventory";;
  check (existsb (fun h => String.eqb (alg h) "SHA-256" && String.eqb (content h) (ae_sha256 (ei_artifact index)))
      (bc_hashes (bm_component (bom_metadata sbom))))
    "SBOM does not identify the release artifact";;
  check (length (bom_components sbom) =? length (li_components licenses))%nat
    "SBOM and license inventory component counts differ";;
  check (forallb component_licensed (zip (bom_components sbom) (li_components licenses)))
    "SBOM and license inventory components differ";;
  check (String.eqb (runtime_inventory_sha256 (ei_supply_chain index)) (bundle_hash inventory_bytes))
    "embedded runtime inventory does not match evidence";;
  Ok index.

(** [verify_release_evidence] *)
Definition verify_release_evidence (output : string) : IO ReleaseEvidenceIndex :=
  index ← read_json index_read (sidecar_path output ".evidence.json");
  require (ei_evidence_version index =? RELEASE_EVIDENCE_VERSION) "unsupported release evidence version";;
  artifact ← context ("failed to read release artifact " ++ output) (fs_read output);
  require (len artifact =? ae_size_bytes (ei_artifact index)) "release artifact size does not match evidence";;
  require (String.eqb (bundle_hash artifact) (ae_sha256 (ei_artifact index))) "release artifact digest does not match evidence";;
  require (String.eqb (ae_kind (ei_artifact index)) "tysel-single-executable") "unexpected artifact kind";;
  require (negb (str_is_empty (ae_target (ei_artifact index)))) "release target is empty";;
  tap ← context "release artifact contains an invalid TAP" (tap_from_path output);
  '(inventory, inventory_bytes) ← lift (runtime_inventory artifact);
  require (String.eqb (pm_application_id (tap_manifest tap)) (ei_application_id index)) "application identity does not match evidence";;
  require (String.eqb (execution_profile (tap_manifest tap)) (ei_execution_profile index)) "execution profile does not match evidence";;
  tap_payload ← lift (map_err (fun _ => Context "failed to encode embedded TAP during verification" (Foreign "tysel_package")) (encode tap));
  require (bool_decide (compatibility_report tap_payload = ei_compatibility index))
    "embedded TAP compatibility does not match evidence";;
  checksum_bytes ← read_bounded MAX_RELEASE_SIDECAR_BYTES (sidecar_path output ".sha256");
  checksum ← some_or (from_utf8 checksum_bytes) (Context "checksum sidecar is not UTF-8" (Foreign "utf8"));
  require (String.eqb checksum (ae_sha256 (ei_artifact index) ++ newline)) "checksum sidecar does not match evidence";;
  compatibility ← read_json compat_read (sidecar_path output ".compat.json");
  require (bool_decide (compatibility = ei_compatibility index)) "compatibility sidecar does not match evidence";;
  sbom_bytes ← verify_document output ".sbom.cdx.json" (se_sbom (ei_supply_chain index));
  license_bytes ← verify_document output ".licenses.json" (se_licenses (ei_supply_chain index));
  sbom ← some_or (bom_read sbom_bytes) (Foreign "serde_json");
  licenses ← some_or (licenses_read license_bytes) (Foreign "serde_json");
  lift (check_documents index tap inventory inventory_bytes sbom licenses).

End Evidence.
