(* ===== verification/EvidenceThms.v ===== *)
(** * Evidence is published as a whole

    The evidence index is removed first and published last, so at no point, whatever
    operation fails or is torn, does an index stand beside files it does not
    describe; and evidence that was written verifies. *)

From Stdlib Require Import ZArith Lia Ascii String.
From stdpp Require Import base tactics gmap strings list.
From S2P Require Import Prelude Bytes DurableTypes Tap TapThms FsCap Files FilesThms Evidence.
Open Scope Z_scope.

(** ** Names *)

Definition suffixes : list string := [".compat.json"; ".sbom.cdx.json"; ".licenses.json"; ".evidence.json"; ".sha256"]%string.
(** The executable, and the files beside it *)
Definition is_sidecar (output p : string) : Prop := exists x, x ∈ EmptyString :: suffixes /\ p = (output ++ x)%string.

Lemma append_inj (a b c : string) : append a b = append a c -> b = c.
Proof. intros H. by apply append_inj_l in H as [_ ?]. Qed.

(** No temporary has the name of a file that is published. *)
Lemma temporary_not_sidecar output pid id dest q :
  is_sidecar output dest -> is_sidecar output q -> temporary_path pid id dest <> q.
Proof.
  intros (x & Hx & ->) (y & Hy & ->). unfold temporary_path, sidecar_path. rewrite append_assoc. intros H%append_inj.
  unfold suffixes in Hx, Hy. rewrite !elem_of_cons in Hx, Hy.
  destruct_or! Hx; try (by apply not_elem_of_nil in Hx); subst x;
    (destruct_or! Hy; try (by apply not_elem_of_nil in Hy); subst y; discriminate H).
Qed.

Lemma Forall2_impl_in {A B} (P Q : A -> B -> Prop) l k :
  Forall2 P l k -> (forall x y, x ∈ l -> P x y -> Q x y) -> Forall2 Q l k.
Proof. induction 1; intros H'; constructor; [apply H'; [left | done] | apply IHForall2; intros; apply H'; [by right | done]]. Qed.

Lemma evidence_not_output output : evidence_path (sidecars_of output) <> output.
Proof. cbn. unfold sidecar_path. intros He. rewrite <- (append_nil_r output) in He at 2. by apply append_inj in He. Qed.

Section Publication.
Context {TS : TapSerde} {SH : Sha256} {EJ : EvidenceJson} (output : string).

Abbreviation sidecar := (is_sidecar output).

(** ** Staging *)

Lemma keeps_drop_staged f : ~ sidecar (temporary f) -> keeps sidecar (drop_staged f).
Proof. unfold drop_staged. eauto with files. Qed.

Lemma keeps_drop_all l : Forall (fun f => ~ sidecar (temporary f)) l -> keeps sidecar (drop_all l).
Proof.
  induction 1 as [|f l Hf Hl IH]; cbn [drop_all]; [auto with files|].
  apply keeps_bind; [apply keeps_drop_staged, Hf | done].
Qed.

Lemma temporary_fresh pid id dest : sidecar dest -> ~ sidecar (temporary_path pid id dest).
Proof. intros Hd Ht. by apply (temporary_not_sidecar output pid id dest _ Hd Ht). Qed.

Lemma keeps_stage pid ids dest contents : sidecar dest -> keeps sidecar (stage pid ids dest contents).
Proof.
  intros Hd. induction ids as [|id ids IH]; cbn [stage]; [auto with files|].
  pose proof (temporary_fresh pid id dest Hd).
  apply keeps_bind; [auto with files|]. intros [[]|[| [] | |]]; cbn; auto with files.
  apply keeps_bind; [|auto with files]. apply keeps_on_error; [by apply keeps_drop_staged|].
  apply keeps_bind; auto with files.
Qed.

(** What is staged: the file under its temporary name. *)
Definition staged_as (t : Tree) (f : StagedFile) (c : string) : Prop := t !! temporary f = Some (File c).

Lemma stage_run pid ids dest contents s f s' :
  stage pid ids dest contents s = (Ok f, s') ->
  exists id, f = {| temporary := temporary_path pid id dest; destination := dest |}
    /\ tree s !! temporary f = None /\ tree s' = <[temporary f := File contents]> (tree s).
Proof.
  revert s. induction ids as [|id ids IH]; intros s; cbn [stage]; [done|].
  rewrite bind_run, attempt_run. destruct (create_new _ s) as [[[]|e] s1] eqn:Hc; cbn.
  - rewrite bind_ok_run. intros ([] & s2 & H & [= <- <-]). apply create_new_run in Hc as [Hn Ht].
    rewrite on_error_ok_run in H. apply bind_ok_run in H as ([] & s4 & Hw & Hs%sync_run). apply write_all_run in Hw.
    exists id. cbn. split; [done|]. split; [done|]. by rewrite Hs, Hw, Ht, insert_insert_eq.
  - assert (tree s1 = tree s) as Hs.
    { by apply operation_inv in Hc as [(? & ? & _)|(k & _ & [?|[n ?]])]. }
    destruct e as [|[]| |]; try done. intros H%IH. by rewrite Hs in H.
Qed.

(** ** Commits *)

Definition targets_sidecars (l : list StagedFile) : Prop :=
  Forall (fun f => sidecar (destination f) /\ ~ sidecar (temporary f)) l.

Lemma targets_in l g : targets_sidecars l -> g ∈ l -> sidecar (destination g) /\ ~ sidecar (temporary g).
Proof. intros H. by apply (proj1 (list.Forall_forall _ _) H). Qed.

Lemma keeps_temporaries l : targets_sidecars l -> Forall (fun f => ~ sidecar (temporary f)) l.
Proof. intros H. eapply list.Forall_impl; [exact H | cbn; tauto]. Qed.

Lemma commit_ok_run f c s s' :
  staged_as (tree s) f c -> commit f s = (Ok (), s') ->
  tree s' = <[destination f := File c]> (delete (temporary f) (tree s)).
Proof.
  unfold staged_as, commit. intros Hc. rewrite on_error_ok_run, context_ok_run. intros H.
  apply rename_file_run in H as [-> _]; rewrite Hc; done.
Qed.

(** A commit that fails has published nothing. *)
Lemma commit_err_run f s e s' :
  ~ sidecar (temporary f) -> commit f s = (Err e, s') -> forall q, sidecar q -> tree s' !! q = tree s !! q.
Proof.
  intros Hf H q Hq. unfold commit, on_error in H. rewrite context_run in H.
  destruct (fs_rename _ _ s) as [[[]|k] s1] eqn:Hr; cbn [fst snd map_err] in H; [done|]. injection H as _ <-.
  rewrite (keeps_remove_file sidecar _ Hf s1 q Hq). by apply rename_err_run in Hr as ->.
Qed.

Lemma commit_all_run todo cs alive s r s' :
  targets_sidecars todo -> targets_sidecars alive -> NoDup (destination <$> todo) -> NoDup (temporary <$> todo) ->
  Forall2 (staged_as (tree s)) todo cs -> commit_all todo alive s = (r, s') ->
  (forall q, sidecar q -> q ∉ destination <$> todo -> tree s' !! q = tree s !! q)
  /\ match r with
     | Ok () => Forall2 (fun f c => tree s' !! destination f = Some (File c)) todo cs
     | Err _ => forall f, last todo = Some f -> tree s' !! destination f = tree s !! destination f
     end.
Proof.
  intros Ht Ha Hd Hn Hc. revert alive s Ha Hc. induction todo as [|f todo IH] in cs, Ht, Hd, Hn |- *; intros alive s Ha Hc H.
  { apply Forall2_nil_inv_l in Hc as ->. injection H as <- <-. split; [by intros | constructor]. }
  apply Forall2_cons_inv_l in Hc as (c & cs' & Hf & Hc & ->).
  apply list.Forall_cons in Ht as [[Hfd Hft] Ht]. cbn [fmap list_fmap] in Hd, Hn.
  apply NoDup_cons in Hd as [Hfd' Hd], Hn as [Hft' Hn]. cbn [commit_all] in H.
  assert (targets_sidecars (filter (fun g => g <> f) alive)) as Ha'.
  { apply list.Forall_forall. intros g [_ Hg]%list_elem_of_filter. by eapply targets_in. }
  rewrite bind_run in H. unfold on_error in H. destruct (commit f s) as [[[]|e] s1] eqn:Hcm.
  - apply (commit_ok_run _ _ _ _ Hf) in Hcm.
    assert (Forall2 (staged_as (tree s1)) todo cs') as Hc1.
    { eapply Forall2_impl_in; [exact Hc|]. intros g d Hg Hgd. unfold staged_as in *.
      rewrite Hcm, lookup_insert_ne, lookup_delete_ne; [done|..].
      - intros Heq. apply Hft'. rewrite Heq. by apply list_elem_of_fmap_2.
      - intros Heq. destruct (targets_in _ _ Ht Hg) as [_ Hgt]. by rewrite <- Heq in Hgt. }
    destruct (IH cs' Ht Hd Hn _ s1 Ha' Hc1 H) as [Hk Hr]. split.
    + intros q Hq Hnq. cbn [fmap list_fmap] in Hnq. apply not_elem_of_cons in Hnq as [Hqf Hqt].
      rewrite Hk, Hcm, lookup_insert_ne, lookup_delete_ne by congruence. done.
    + destruct r as [[]|e].
      * constructor; [|exact Hr]. rewrite Hk, Hcm, lookup_insert_eq by done. done.
      * intros g Hg. destruct todo as [|h todo]; [by cbn in H|].
        change (last (h :: todo) = Some g) in Hg. rewrite Hr by exact Hg.
        apply last_Some_elem_of in Hg. rewrite Hcm, lookup_insert_ne, lookup_delete_ne; [done|..].
        -- intros Heq. destruct (targets_in _ _ Ht Hg) as [Hgd _]. by rewrite Heq in Hft.
        -- intros Heq. apply Hfd'. rewrite Heq. by apply list_elem_of_fmap_2.
  - injection H as <- <-. cbn. pose proof (keeps_drop_all _ (keeps_temporaries _ Ha')) as Hk.
    split; [intros q Hq _; rewrite Hk by done; by eapply commit_err_run|].
    intros g Hg. assert (sidecar (destination g)).
    { apply last_Some_elem_of, elem_of_cons in Hg as [->|Hg]; [done|]. by apply (targets_in _ _ Ht Hg). }
    rewrite Hk by done. by eapply commit_err_run.
Qed.

(** ** Staging as a whole *)

Lemma keeps_stage_all pid ids files alive :
  Forall (fun x => sidecar x.1) files -> targets_sidecars alive -> keeps sidecar (stage_all pid ids files alive).
Proof.
  revert ids alive. induction files as [|[dest contents] files IH]; intros ids alive Hf Ha; cbn [stage_all]; [auto with files|].
  apply list.Forall_cons in Hf as [Hd Hf]. cbn in Hd.
  intros s q Hq. rewrite bind_run. pose proof (keeps_stage pid (hd [] ids) dest) as Hst.
  assert (keeps sidecar (on_error (drop_all alive) (c ← lift contents; stage pid (hd [] ids) dest c))) as Hk.
  { apply keeps_on_error; [by apply keeps_drop_all, keeps_temporaries|]. apply keeps_bind; auto with files. }
  specialize (Hk s q Hq). destruct (on_error _ _ s) as [[f|e] s1] eqn:Ho; cbn in *; [|done].
  rewrite IH; [done|done| |done]. constructor; [|done].
  apply on_error_ok_run in Ho. rewrite bind_run, lift_run in Ho. destruct contents as [c|]; [|done].
  apply stage_run in Ho as (id & -> & _). cbn. eauto using temporary_fresh.
Qed.

Lemma stage_all_run pid ids files alive cs0 s staged s' :
  stage_all pid ids files alive s = (Ok staged, s') ->
  Forall2 (staged_as (tree s)) alive cs0 -> NoDup (temporary <$> alive) ->
  Forall (fun x => sidecar x.1) files -> targets_sidecars alive ->
  exists cs, files.*2 = Ok <$> cs /\ Forall2 (staged_as (tree s')) staged (reverse cs ++ cs0)
    /\ NoDup (temporary <$> staged) /\ targets_sidecars staged
    /\ destination <$> staged = reverse files.*1 ++ (destination <$> alive).
Proof.
  revert ids alive cs0 s. induction files as [|[dest contents] files IH]; intros ids alive cs0 s H Hs Hn Hf Ha; cbn [stage_all] in H.
  { injection H as <- <-. exists []. cbn. auto. }
  apply list.Forall_cons in Hf as [Hd Hf]. cbn in Hd.
  apply bind_ok_run in H as (f & s1 & H1 & H). rewrite on_error_ok_run, bind_run, lift_run in H1.
  destruct contents as [c|]; [|done]. pose proof H1 as Hst. apply stage_run in H1 as (id & Hfe & Hfn & Ht).
  assert (Forall2 (staged_as (tree s1)) alive cs0) as Hs1.
  { eapply Forall2_impl_in; [exact Hs|]. intros g d _ Hg. unfold staged_as in *.
    rewrite Ht, lookup_insert_ne; [done|]. intros Heq. congruence. }
  assert (temporary f ∉ temporary <$> alive) as Hnf.
  { intros (g & Hg & Hin)%list_elem_of_fmap. apply list_elem_of_lookup in Hin as [k Hk].
    destruct (Forall2_lookup_l _ _ _ _ _ Hs Hk) as (d & _ & Hgd). unfold staged_as in Hgd. congruence. }
  apply (IH _ _ (c :: cs0)) in H as (cs & H2 & H3 & H4 & H5 & H6).
  - exists (c :: cs). cbn [fmap list_fmap]. rewrite !reverse_cons, <- !(assoc_L (++)). split; [by f_equal|].
    rewrite H6, Hfe. auto.
  - constructor; [|done]. unfold staged_as. by rewrite Ht, lookup_insert_eq.
  - cbn [fmap list_fmap]. by constructor.
  - done.
  - constructor; [|done]. subst f. cbn. eauto using temporary_fresh.
Qed.

Lemma staged_files_sidecars d : Forall (fun x => sidecar x.1) (staged_files output d).
Proof.
  unfold staged_files. repeat constructor; cbn; eexists; (split; [|reflexivity]); unfold suffixes; set_solver.
Qed.

Lemma output_sidecar : sidecar output.
Proof. exists EmptyString. split; [left | by rewrite append_nil_r]. Qed.

Lemma output_not_staged d : output ∉ (staged_files output d).*1.
Proof.
  change (staged_files output d).*1 with ((fun x => output ++ x)%string <$> suffixes).
  intros (x & Hx & Hin)%list_elem_of_fmap. rewrite <- (append_nil_r output) in Hx at 1. apply append_inj in Hx. subst x.
  revert Hin. apply (bool_decide_unpack _). vm_compute. exact I.
Qed.

Lemma sidecars_distinct d : NoDup (staged_files output d).*1.
Proof.
  change (staged_files output d).*1 with ((fun x => output ++ x)%string <$> suffixes).
  apply NoDup_fmap_2; [intros x y; apply append_inj|]. apply (bool_decide_unpack _). vm_compute. exact I.
Qed.

(** ** Publication *)

(** The five files are those of [d]. *)
Definition published (t : Tree) (d : EvidenceDocuments) : Prop :=
  Forall (fun x => exists c, x.2 = Ok c /\ t !! x.1 = Some (File c)) (staged_files output d).

Lemma publish_run pid ids d s staged s1 r s' :
  stage_all pid ids (staged_files output d) [] s = (Ok staged, s1) -> publish staged s1 = (r, s') ->
  tree s' !! output = tree s1 !! output
  /\ match r with
     | Ok () => published (tree s') d
     | Err _ => tree s' !! evidence_path (sidecars_of output) = tree s1 !! evidence_path (sidecars_of output)
     end.
Proof.
  intros Hst Hp. pose proof (staged_files_sidecars d) as Hf. pose proof (sidecars_distinct d) as Hd.
  apply (stage_all_run _ _ _ _ []) in Hst as (cs & Hcs & Hs & Hn & Ht & Hds); [|constructor..| exact Hf | constructor].
  rewrite app_nil_r in Hs, Hds. assert (length staged = 5%nat) as Hl.
  { apply (f_equal length) in Hds. by rewrite length_fmap in Hds. }
  do 5 (destruct staged as [|? staged]; [done|]). destruct staged; [|done]. clear Hl.
  do 5 (destruct cs as [|? cs]; [done|]). destruct cs; [|done].
  cbn in Hds. injection Hds as H1 H2 H3 H4 H5. cbn in Hs. rewrite !Forall2_cons in Hs. destruct_and! Hs.
  unfold publish in Hp.
  assert ([s5; s4; s3; s0; s2] ≡ₚ [s0; s2; s3; s4; s5]) as Hperm by solve_Permutation.
  eapply (commit_all_run _ [s6; s7; s8; s10; s9]) in Hp as [Hout Hp]; [..|by repeat constructor].
  - split.
    { apply Hout; [apply output_sidecar|]. rewrite Hperm. cbn [fmap list_fmap]. rewrite H1, H2, H3, H4, H5.
      pose proof (output_not_staged d) as Hno. rewrite <- reverse_Permutation in Hno. exact Hno. }
    destruct r as [[]|e]; [|specialize (Hp s2 eq_refl); rewrite H2 in Hp; exact Hp].
    rewrite !Forall2_cons, H1, H2, H3, H4, H5 in Hp. destruct_and! Hp. unfold published, staged_files in *.
    cbn in Hcs. injection Hcs as Hc1 Hc2 Hc3 Hc4 Hc5. rewrite Hc1, Hc4. subst. repeat constructor; cbn; eauto.
  - unfold targets_sidecars. by rewrite Hperm.
  - exact Ht.
  - rewrite Hperm. cbn [fmap list_fmap]. rewrite H1, H2, H3, H4, H5.
    rewrite <- (reverse_Permutation (staged_files output d).*1) in Hd. exact Hd.
  - by rewrite Hperm.
Qed.

Lemma remove_if_present_run p s r s' :
  remove_file_if_present p s = (r, s') ->
  match r with Ok () => tree s' = delete p (tree s) | Err _ => tree s' = tree s end.
Proof.
  unfold remove_file_if_present. rewrite bind_run, attempt_run.
  destruct (fs_remove_file p s) as [[[]|e] s1] eqn:H; cbn.
  - intros [= <- <-]. apply operation_inv in H as [([] & _ & H)|(k & ? & _)]; [|done]. by repeat case_match; simplify_eq.
  - assert (tree s1 = tree s) as Hs by (by apply operation_inv in H as [(? & ? & _)|(k & _ & [?|[n ?]])]).
    destruct e as [|[]| |]; intros [= <- <-]; try done.
    apply operation_truthful in H as [H _]; [|by left]. rewrite Hs, delete_id; [done|]. by repeat case_match.
Qed.

Lemma tap_from_path_run p s r s' :
  tap_from_path p s = (r, s') ->
  tree s' = tree s /\ match r with
    | Ok tap => exists b, read_act p (tree s) = Ok (b, tree s) /\ from_path b = Ok tap
    | Err _ => True
    end.
Proof.
  unfold tap_from_path. rewrite bind_run. destruct (fs_read p s) as [[b|e] s1] eqn:H; [|intros [= <- <-]; by apply fs_read_err in H].
  apply fs_read_run in H as [Hb Hs]. rewrite lift_run. intros [= <- <-]. split; [done|].
  destruct (from_path b) as [tap|e] eqn:Ht; cbn; eauto.
Qed.

(** The index and its files stand or fall together. *)
Definition evidence_outcome (embedded target : string) (verified : bool) (t : Tree) (r : result Failure ReleaseSidecars) (t' : Tree) : Prop :=
  t' !! output = t !! output /\
  match r with
  | Ok _ => exists artifact tap d,
      read_act output (delete (evidence_path (sidecars_of output)) t) = Ok (artifact, delete (evidence_path (sidecars_of output)) t)
      /\ from_path artifact = Ok tap /\ evidence_documents embedded verified target artifact tap = Ok d
      /\ published t' d
  | Err _ => t' !! evidence_path (sidecars_of output) = None \/ forall q, sidecar q -> t' !! q = t !! q
  end.

Lemma write_evidence_run embedded pid ids target verified s r s' :
  write_release_evidence_inner embedded pid ids output target verified s = (r, s') ->
  evidence_outcome embedded target verified (tree s) r (tree s').
Proof.
  intros H. unfold write_release_evidence_inner in H. cbv zeta in H. set (ev := evidence_path (sidecars_of output)) in *.
  assert (sidecar ev) as Hev by (eexists; split; [|reflexivity]; unfold suffixes; set_solver).
  pose proof (evidence_not_output output : ev <> output) as Hne.
  rewrite bind_run in H. destruct (remove_file_if_present ev s) as [[[]|e] s1] eqn:Hr; apply remove_if_present_run in Hr;
    [|injection H as <- <-; split; [by rewrite Hr | right; intros q _; by rewrite Hr]].
  assert (tree s1 !! output = tree s !! output /\ tree s1 !! ev = None) as [Ho Hn]
    by (by rewrite Hr, lookup_delete_ne, lookup_delete_eq).
  rewrite bind_run, context_run in H. destruct (fs_read output s1) as [[artifact|e] s2] eqn:Ha; cbn [fst snd map_err] in H.
  2:{ injection H as <- <-. apply fs_read_err in Ha. split; [|left]; by rewrite Ha. }
  apply fs_read_run in Ha as [Ha Hs2]. rewrite bind_run, context_run in H.
  destruct (tap_from_path output s2) as [rt s3] eqn:Ht. apply tap_from_path_run in Ht as [Hs3 Ht]. cbn [fst snd] in H.
  rewrite Hs2 in Hs3, Ht. destruct rt as [tap|e]; cbn [map_err] in H; [|injection H as <- <-; split; [|left]; by rewrite Hs3].
  destruct Ht as (b & Hb & Ht). rewrite Ha in Hb. injection Hb as <-.
  rewrite bind_run, lift_run in H.
  destruct (evidence_documents _ _ _ _ _) as [d|e] eqn:Hd; [|injection H as <- <-; split; [|left]; by rewrite Hs3].
  pose proof (keeps_stage_all pid ids (staged_files output d) [] (staged_files_sidecars d) ltac:(constructor) s3) as Hk.
  pose proof (Hk ev Hev) as Hke. pose proof (Hk output output_sidecar) as Hko. rewrite Hs3 in Hke, Hko.
  rewrite bind_run in H. destruct (stage_all _ _ _ _ s3) as [[staged|e] s4] eqn:Hst; cbn [snd] in Hke, Hko;
    [|injection H as <- <-; split; [|left]; unfold ev in *; congruence].
  rewrite bind_run in H. destruct (publish staged s4) as [[[]|e] s5] eqn:Hp;
    destruct (publish_run _ _ _ _ _ _ _ _ Hst Hp) as [Hpo Hpub]; injection H as <- <-; (split; [congruence|]).
  - exists artifact, tap, d. rewrite Hr in Ha. auto.
  - left. unfold ev in *. congruence.
Qed.

End Publication.

(** C9. Whatever operation fails or is torn half way, a crash included: when evidence
    is reported written, the five files beside the executable are those computed from
    its bytes; when it is not, there is no evidence index, or none of the five files
    has changed. The executable is what it was. *)
Theorem evidence_published_whole `{TS : TapSerde, SH : Sha256, EJ : EvidenceJson} embedded pid ids output target verified s :
  let '(r, s') := write_release_evidence_inner embedded pid ids output target verified s in
  evidence_outcome output embedded target verified (tree s) r (tree s').
Proof. destruct (write_release_evidence_inner _ _ _ _ _ _ s) as [r s'] eqn:H. by eapply write_evidence_run. Qed.

(** ** Verification of what was written *)

Lemma read_bounded_still t p b max :
  t !! p = Some (File b) -> len b <= max -> read_bounded max p (still t) = (Ok b, still t).
Proof.
  intros H Hl. unfold read_bounded. rewrite bind_run, context_run. unfold fs_metadata, still at 1 2.
  rewrite operation_clean. cbn [resolve_link MAX_LINKS]. rewrite H. cbn [fst snd map_err metadata_of file_len].
  rewrite bind_run, require_run, (proj2 (Z.leb_le _ _) Hl), context_run. fold (still t). by rewrite (read_file_still _ _ _ H).
Qed.

Lemma nibble_ranges c : 0 <= Z.shiftr (byte_code c) 4 < 16 /\ 0 <= Z.land (byte_code c) 15 < 16.
Proof.
  pose proof (byte_code_range c). change 15 with (Z.ones 4). rewrite Z.land_ones, Z.shiftr_div_pow2 by lia.
  split; [split; [apply Z.div_pos; lia | apply Z.div_lt_upper_bound; lia] | apply Z.mod_pos_bound; lia].
Qed.

Lemma hex_ascii s : str_all (fun c => byte_code c <? 128) (hex_encode s) = true.
Proof.
  assert (forall d, 0 <= d < 16 -> (byte_code (hex_char d) <? 128) = true) as Hd.
  { intros d Hd. unfold hex_char. destruct (Z.ltb_spec d 10); rewrite byte_code_of by lia; lia. }
  induction s as [|c s IH]; [done|]. cbn [hex_encode str_all]. destruct (nibble_ranges c). by rewrite IH, !Hd.
Qed.

Section Verification.
Context {TS : TapSerde} {SH : Sha256} {EJ : EvidenceJson} {EL : EvidenceJsonLaws EJ}.

Lemma check_ok b message : check b message = Ok () <-> b = true.
Proof. destruct b; cbn; naive_solver. Qed.

Lemma read_json_still {D} (from_slice : string -> option D) t p b d :
  t !! p = Some (File b) -> len b <= MAX_RELEASE_SIDECAR_BYTES -> from_slice b = Some d ->
  read_json from_slice p (still t) = (Ok d, still t).
Proof. intros H Hl Hd. unfold read_json. rewrite bind_run, (read_bounded_still _ _ _ _ H Hl). unfold some_or. by rewrite Hd. Qed.

Lemma verify_document_still t output suffix b kind :
  t !! sidecar_path output suffix = Some (File b) -> len b <= MAX_RELEASE_SIDECAR_BYTES ->
  verify_document output suffix (document_evidence kind b) (still t) = (Ok b, still t).
Proof.
  intros H Hl. unfold verify_document. rewrite bind_run, (read_bounded_still _ _ _ _ H Hl).
  unfold document_evidence. cbn. by rewrite bind_run, require_run, Z.eqb_refl, bind_run, require_run, String.eqb_refl.
Qed.

Lemma components_licensed l : forallb component_licensed (zip (bom_component <$> l) (licensed_component <$> l)) = true.
Proof.
  induction l as [|c l IH]; [done|]. cbn [fmap list_fmap zip zip_with forallb]. rewrite IH.
  unfold component_licensed. cbn. rewrite String.eqb_refl, !bool_decide_eq_true_2 by done. done.
Qed.

(** The documents derived from an executable pass the comparison with it. *)
Lemma check_documents_ok index tap inventory bytes sbom licenses :
  release_supply_chain_for_inventory tap (ae_sha256 (ei_artifact index)) inventory = Ok (sbom, licenses) ->
  runtime_inventory_sha256 (ei_supply_chain index) = bundle_hash bytes ->
  check_documents index tap inventory bytes sbom licenses = Ok index.
Proof.
  intros H Hb. unfold check_documents. rewrite H, Hb. unfold release_supply_chain_for_inventory in H.
  apply then_ok in H as [_ [= <- <-]]. unfold_monad.
  rewrite !bool_decide_eq_true_2, String.eqb_refl by done. cbn -[String.eqb].
  by rewrite !String.eqb_refl, !length_fmap, Nat.eqb_refl, components_licensed.
Qed.

(** Every way [evidence_documents] can succeed. *)
Lemma evidence_documents_ok embedded verified target artifact tap d :
  evidence_documents embedded verified target artifact tap = Ok d ->
  exists inventory bytes payload sbom licenses sbom_text license_text,
    runtime_inventory artifact = Ok (inventory, bytes) /\ encode tap = Ok payload
    /\ release_supply_chain_for_inventory tap (bundle_hash artifact) inventory = Ok (sbom, licenses)
    /\ bom_pretty sbom = Some sbom_text /\ licenses_pretty licenses = Some license_text
    /\ d = {| ed_compat := compatibility_report payload; ed_sbom := sbom_text ++ newline; ed_licenses := license_text ++ newline;
        ed_index := {|
          ei_evidence_version := RELEASE_EVIDENCE_VERSION;
          ei_artifact := {| ae_kind := "tysel-single-executable"; ae_target := target; ae_size_bytes := len artifact;
            ae_sha256 := bundle_hash artifact |};
          ei_application_id := pm_application_id (tap_manifest tap);
          ei_execution_profile := execution_profile (tap_manifest tap); ei_compatibility := compatibility_report payload;
          ei_supply_chain := {| runtime_inventory_sha256 := bundle_hash bytes;
            se_sbom := document_evidence "cyclonedx-1.5" (sbom_text ++ newline);
            se_licenses := document_evidence "spdx-license-inventory" (license_text ++ newline) |} |} |}.
Proof.
  unfold evidence_documents. intros H.
  apply result_bind_ok in H as ([inventory bytes] & Hi & H). apply then_ok in H as [_ H].
  apply result_bind_ok in H as (payload & Hp & H). cbv zeta in H. apply then_ok in H as [_ H].
  apply result_bind_ok in H as ([sbom licenses] & Hsc & H).
  apply result_bind_ok in H as (sb & Hsb & H). apply result_bind_ok in H as (lb & Hlb & H). injection H as <-.
  unfold json_bytes in Hsb, Hlb. destruct (bom_pretty sbom) as [st|] eqn:Hst; [|done].
  destruct (licenses_pretty licenses) as [lt|] eqn:Hlt; [|done]. injection Hsb as <-. injection Hlb as <-.
  destruct (encode tap) as [pl|] eqn:He; [|done]. injection Hp as <-.
  exists inventory, bytes, pl, sbom, licenses, st, lt. auto 10.
Qed.

Lemma published_lookup output t d dest c :
  published output t d -> (dest, Ok c) ∈ staged_files output d -> t !! dest = Some (File c).
Proof. intros H Hin. apply (proj1 (list.Forall_forall _ _) H) in Hin as (c' & [= <-] & Hc). exact Hc. Qed.

(** The five files of a published index, with their contents. *)
Lemma published_files output t d :
  published output t d ->
  exists compat index,
    compat_pretty (ed_compat d) = Some compat /\ index_pretty (ed_index d) = Some index
    /\ t !! sidecar_path output ".compat.json" = Some (File (compat ++ newline))
    /\ t !! sidecar_path output ".sbom.cdx.json" = Some (File (ed_sbom d))
    /\ t !! sidecar_path output ".licenses.json" = Some (File (ed_licenses d))
    /\ t !! sidecar_path output ".evidence.json" = Some (File (index ++ newline))
    /\ t !! sidecar_path output ".sha256" = Some (File (ae_sha256 (ei_artifact (ed_index d)) ++ newline)).
Proof.
  unfold published, staged_files. rewrite !list.Forall_cons. cbn [fst snd].
  intros ((c1 & H1 & L1) & (c2 & [= <-] & L2) & (c3 & [= <-] & L3) & (c4 & H4 & L4) & (c5 & [= <-] & L5) & _).
  unfold json_bytes in H1, H4. destruct (compat_pretty _) as [compat|]; [|done]. destruct (index_pretty _) as [index|]; [|done].
  injection H1 as <-. injection H4 as <-. exists compat, index. auto 10.
Qed.

Lemma written_verifies embedded verified target output t artifact tap d :
  from_path artifact = Ok tap -> evidence_documents embedded verified target artifact tap = Ok d ->
  published output t d -> t !! output = Some (File artifact) -> target <> ""%string ->
  (forall suffix c, t !! sidecar_path output suffix = Some (File c) -> suffix ∈ suffixes -> len c <= MAX_RELEASE_SIDECAR_BYTES) ->
  verify_release_evidence output (still t) = (Ok (ed_index d), still t).
Proof.
  intros Htap Hd Hp Ho Hne Hb. apply published_files in Hp as (compat & index & Hc & Hi & L1 & L2 & L3 & L4 & L5).
  pose proof (Hb _ _ L1 ltac:(unfold suffixes; set_solver)) as B1. pose proof (Hb _ _ L2 ltac:(unfold suffixes; set_solver)) as B2.
  pose proof (Hb _ _ L3 ltac:(unfold suffixes; set_solver)) as B3. pose proof (Hb _ _ L4 ltac:(unfold suffixes; set_solver)) as B4.
  pose proof (Hb _ _ L5 ltac:(unfold suffixes; set_solver)) as B5. clear Hb.
  apply evidence_documents_ok in Hd as (inventory & bytes & payload & sbom & licenses & st & lt & Hr & He & Hsc & Hst & Hlt & ->).
  cbn [ed_compat ed_index ed_sbom ed_licenses ei_artifact ae_sha256] in *.
  unfold verify_release_evidence.
  rewrite bind_run, (read_json_still _ _ _ _ _ L4 B4 (printed_index _ _ Hi)). cbn [ei_evidence_version].
  rewrite bind_run, require_run, Z.eqb_refl, bind_run, context_run, (read_file_still _ _ _ Ho). cbn [fst snd map_err ei_artifact].
  rewrite bind_run, require_run, Z.eqb_refl, bind_run, require_run, String.eqb_refl, bind_run, require_run, String.eqb_refl.
  rewrite bind_run, require_run. cbn [ae_target]. replace (negb (str_is_empty target)) with true by (by destruct target).
  rewrite bind_run, context_run. unfold tap_from_path. rewrite bind_run, (read_file_still _ _ _ Ho), lift_run, Htap. cbn [fst snd map_err].
  rewrite bind_run, lift_run, Hr. cbn [ei_application_id ei_execution_profile].
  rewrite bind_run, require_run, String.eqb_refl, bind_run, require_run, String.eqb_refl, bind_run, lift_run, He. cbn [map_err].
  rewrite bind_run, require_run, bool_decide_eq_true_2 by done.
  rewrite bind_run, (read_bounded_still _ _ _ _ L5 B5), bind_run. unfold some_or at 1.
  rewrite utf8_ascii by (unfold bundle_hash; rewrite str_all_append, hex_ascii; reflexivity). cbn [ok_or]. rewrite lift_run.
  rewrite bind_run, require_run, String.eqb_refl, bind_run, (read_json_still _ _ _ _ _ L1 B1 (printed_compat _ _ Hc)).
  rewrite bind_run, require_run, bool_decide_eq_true_2 by done. cbn [ei_supply_chain se_sbom se_licenses].
  rewrite bind_run, (verify_document_still _ _ _ _ _ L2 B2), bind_run, (verify_document_still _ _ _ _ _ L3 B3).
  rewrite bind_run. unfold some_or at 1. rewrite (printed_bom _ _ Hst). cbn [ok_or]. rewrite lift_run, bind_run.
  unfold some_or. rewrite (printed_licenses _ _ Hlt). cbn [ok_or]. rewrite !lift_run. rewrite check_documents_ok; [reflexivity | exact Hsc | reflexivity].
Qed.

End Verification.

(** C33. What was written verifies: when evidence for a named target was reported
    written, whatever faults were met on the way, and the five files fit the limit of
    the reader, verification of the executable succeeds and answers with the index
    whose text is the evidence file; it names the target and the digest of the
    executable. *)
Theorem evidence_roundtrip `{TS : TapSerde, SH : Sha256, EJ : EvidenceJson, EL : !EvidenceJsonLaws EJ}
    embedded pid ids output target verified s sidecars s' artifact :
  write_release_evidence_inner embedded pid ids output target verified s = (Ok sidecars, s') ->
  tree s !! output = Some (File artifact) -> target <> ""%string ->
  (forall suffix c, tree s' !! sidecar_path output suffix = Some (File c) -> suffix ∈ suffixes -> len c <= MAX_RELEASE_SIDECAR_BYTES) ->
  exists index text, verify_release_evidence output (still (tree s')) = (Ok index, still (tree s'))
    /\ index_pretty index = Some text /\ tree s' !! sidecar_path output ".evidence.json" = Some (File (text ++ newline))
    /\ ae_target (ei_artifact index) = target /\ ae_sha256 (ei_artifact index) = bundle_hash artifact.
Proof.
  intros H Ho Hne Hb. apply write_evidence_run in H as (Hout & a & tap & d & Ha & Htap & Hd & Hp).
  assert (a = artifact) as ->.
  { unfold read_act in Ha. cbn [resolve_link MAX_LINKS] in Ha. rewrite lookup_delete_ne, Ho in Ha by apply evidence_not_output.
    by injection Ha. }
  destruct (published_files _ _ _ Hp) as (_ & text & _ & Hi & _ & _ & _ & Hf & _).
  exists (ed_index d), text. split; [eapply written_verifies; [done..| by rewrite Hout | done | done]|]. split; [done|]. split; [done|].
  apply evidence_documents_ok in Hd as (? & ? & ? & ? & ? & ? & ? & _ & _ & _ & _ & _ & ->). done.
Qed.

(** ** An executable with its evidence *)

Section Sample.
#[local] Existing Instance sample_sha.
#[local] Existing Instance sample_tap_serde.

Definition sample_inventory : RuntimeInventory := {|
  ri_inventory_version := 1; ri_cargo_lock_sha256 := hex_encode (sha256 "lock"); ri_roots := ["tysel-runtime"]%string;
  ri_components := [{| sc_name := "tokio"; sc_version := "1.0.0"; sc_license := "MIT"; sc_purl := "pkg:cargo/tokio@1.0.0";
    sc_source := "registry"; sc_checksum := None |}] |}.
Definition sample_executable : string :=
  INVENTORY_PREFIX ++ match encode sample_tap with Ok b => b ++ to_le_bytes 8 (len b) ++ END_MAGIC | Err _ => "" end.

#[local] Instance document_evidence_eq : EqDecision ReleaseDocumentEvidence.
Proof. solve_decision. Defined.
#[local] Instance artifact_evidence_eq : EqDecision ReleaseArtifactEvidence.
Proof. solve_decision. Defined.
#[local] Instance supply_chain_evidence_eq : EqDecision ReleaseSupplyChainEvidence.
Proof. solve_decision. Defined.
#[local] Instance evidence_index_eq : EqDecision ReleaseEvidenceIndex.
Proof. solve_decision. Defined.

Definition sample_supply_chain : option (CycloneDxBom * LicenseInventory) :=
  match release_supply_chain_for_inventory sample_tap (bundle_hash sample_executable) sample_inventory with
  | Ok p => Some p
  | Err _ => None
  end.
Definition sample_compat : TapCompatibilityReport :=
  compatibility_report (match encode sample_tap with Ok b => b | Err _ => "" end).
Definition sample_evidence : ReleaseEvidenceIndex := {|
  ei_evidence_version := 2;
  ei_artifact := {| ae_kind := "tysel-single-executable"; ae_target := "linux-x64"; ae_size_bytes := len sample_executable;
    ae_sha256 := bundle_hash sample_executable |};
  ei_application_id := "app"; ei_execution_profile := "component"; ei_compatibility := sample_compat;
  ei_supply_chain := {| runtime_inventory_sha256 := bundle_hash INVENTORY_PREFIX;
    se_sbom := document_evidence "cyclonedx-1.5" ("B" ++ newline);
    se_licenses := document_evidence "spdx-license-inventory" ("L" ++ newline) |} |}.

(** A serializer for these documents. *)
Definition sample_evidence_json : EvidenceJson := {|
  index_pretty d := if decide (d = sample_evidence) then Some "E" else None;
  index_read s := if String.eqb s ("E" ++ newline) then Some sample_evidence else None;
  compat_pretty d := if decide (d = sample_compat) then Some "C" else None;
  compat_read s := if String.eqb s ("C" ++ newline) then Some sample_compat else None;
  bom_pretty d := if decide (Some d = fst <$> sample_supply_chain) then Some "B" else None;
  bom_read s := if String.eqb s ("B" ++ newline) then fst <$> sample_supply_chain else None;
  licenses_pretty d := if decide (Some d = snd <$> sample_supply_chain) then Some "L" else None;
  licenses_read s := if String.eqb s ("L" ++ newline) then snd <$> sample_supply_chain else None;
  inventory_stream s := Some (sample_inventory, len INVENTORY_PREFIX) |}%string.
#[local] Existing Instance sample_evidence_json.

Lemma sample_evidence_json_laws : EvidenceJsonLaws sample_evidence_json.
Proof.
  constructor; cbn [index_pretty index_read compat_pretty compat_read bom_pretty bom_read licenses_pretty licenses_read
    sample_evidence_json]; intros d s; case_decide; intros [= <-]; subst; cbn [String.eqb]; auto.
Qed.

(** The first attempt to stage a file meets a name that is taken. *)
Definition sample_tree : Tree := <["app" := File sample_executable]> (<["app.sbom.cdx.json.tmp-7-1" := File "?"]> ∅).
Definition sample_write : result Failure ReleaseSidecars * Fs :=
  write_release_evidence_inner "" 7 [[1]; [1; 2]; [3]; [4]; [5]] "app" "linux-x64" true (still sample_tree).

Lemma sizes_checked (t : Tree) output :
  forallb (fun x => match t !! sidecar_path output x with
    | Some (File c) => len c <=? MAX_RELEASE_SIDECAR_BYTES | _ => true end) suffixes = true ->
  forall suffix c, t !! sidecar_path output suffix = Some (File c) -> suffix ∈ suffixes -> len c <= MAX_RELEASE_SIDECAR_BYTES.
Proof. rewrite forallb_forall. intros H suffix c Hc Hs%list_elem_of_In%H. rewrite Hc in Hs. by apply Z.leb_le. Qed.

Lemma evidence_roundtrip_witness :
  exists index text, verify_release_evidence "app" (still (tree sample_write.2)) = (Ok index, still (tree sample_write.2))
    /\ index_pretty index = Some text /\ tree sample_write.2 !! sidecar_path "app" ".evidence.json" = Some (File (text ++ newline))
    /\ ae_target (ei_artifact index) = "linux-x64"%string /\ ae_sha256 (ei_artifact index) = bundle_hash sample_executable.
Proof.
  pose proof sample_evidence_json_laws as L.
  apply (evidence_roundtrip (EJ := sample_evidence_json) "" 7 [[1]; [1; 2]; [3]; [4]; [5]] "app" "linux-x64" true
    (still sample_tree) (sidecars_of "app") sample_write.2 sample_executable).
  - vm_compute. reflexivity.
  - vm_compute. reflexivity.
  - discriminate.
  - apply sizes_checked. vm_compute. reflexivity.
Defined.

End Sample.
