(* ===== verification/Signing.v ===== *)
(** * Release signatures and trust ([crates/tysel-release-signing/src/lib.rs],
      [crates/tysel-build/src/signing.rs])

    Signatures over executables, archives and metadata, the trust policy that says
    which keys count and when, and how one policy may follow another. Ed25519 and
    JSON are parameters; file permissions, process ids and the ids of temporary
    files are arguments. *)

From Stdlib Require Import ZArith Lia Ascii String.
From stdpp Require Import base tactics gmap strings list.
From S2P Require Import Prelude Bytes DurableTypes Capability Distribution Tap FsCap Files Evidence.
Open Scope Z_scope.

Definition RELEASE_SIGNATURE_VERSION : Z := 1.
Definition RELEASE_ARTIFACT_SIGNATURE_VERSION : Z := 1.
Definition RELEASE_METADATA_SIGNATURE_VERSION : Z := 1.
Definition TRUST_POLICY_VERSION : Z := 1.
Definition MAX_CLOCK_SKEW_SECONDS : Z := 300.
Definition MAX_POLICY_LIFETIME_SECONDS : Z := 90 * 24 * 60 * 60.
Definition MAX_SIGNING_DOCUMENT_BYTES : Z := 1024 * 1024.
Definition MAX_SIGNED_ARTIFACT_BYTES : Z := 256 * 1024 * 1024.

(** ** Documents *)

Record ReleaseSignature := {
  rs_signature_version : Z; rs_algorithm : string; rs_key_id : string; rs_issued_at_unix : Z;
  rs_evidence_sha256 : string; rs_signature : string }.
Record ReleaseArtifactSignature := {
  as_signature_version : Z; as_algorithm : string; as_key_id : string; as_issued_at_unix : Z; as_target : string;
  as_artifact_sha256 : string; as_signature : string }.
Record ReleaseMetadataSignature := {
  mt_signature_version : Z; mt_algorithm : string; mt_key_id : string; mt_issued_at_unix : Z;
  mt_document_sha256 : string; mt_signature : string }.
Record ReleaseKeyInfo := { ki_key_id : string; ki_algorithm : string; ki_public_key : string }.

Inductive ReleaseKeyStatus := Active | Retired | Revoked.
#[global] Instance ReleaseKeyStatus_eq_dec : EqDecision ReleaseKeyStatus.
Proof. solve_decision. Defined.
Record TrustedReleaseKey := {
  tk_key_id : string; tk_algorithm : string; tk_public_key : string; tk_status : ReleaseKeyStatus;
  tk_valid_from_unix : Z; tk_valid_until_unix : option Z }.
Record TrustPolicy := {
  tp_policy_version : Z; tp_issued_at_unix : Z; tp_expires_at_unix : Z; tp_keys : list TrustedReleaseKey }.

(** [ed25519_dalek]: the public key of a seed, signing, [VerifyingKey::from_bytes] and
    [verify_strict] *)
Class Ed25519 := {
  verifying_key : string -> string;
  ed_sign : string -> string -> string;
  valid_key : string -> bool;
  verify_strict : string -> string -> string -> bool;
}.

Class SigningJson := {
  evidence_sig_read : string -> option ReleaseSignature; evidence_sig_pretty : ReleaseSignature -> option string;
  artifact_sig_read : string -> option ReleaseArtifactSignature; artifact_sig_pretty : ReleaseArtifactSignature -> option string;
  metadata_sig_read : string -> option ReleaseMetadataSignature; metadata_sig_pretty : ReleaseMetadataSignature -> option string;
  policy_read : string -> option TrustPolicy;
}.

(** ** Hexadecimal *)

Definition hex_nibble (message : string) (c : ascii) : result Failure Z :=
  let v := byte_code c in
  if in_range 48 57 v then Ok (v - 48)
  else if in_range 97 102 v then Ok (v - 97 + 10)
  else Err (Bail message).
Fixpoint decode_pairs (message s : string) : result Failure string :=
  match s with
  | String a (String b s') =>
      h ← hex_nibble message a; l ← hex_nibble message b;
      rest ← decode_pairs message s';
      Ok (String (byte_of (Z.lor (Z.shiftl h 4) l)) rest)
  | _ => Ok EmptyString
  end.
Definition decode_hex (message : string) (n : Z) (encoded : string) : result Failure string :=
  check (len encoded =? n * 2) "hex value has the wrong length";;
  decode_pairs message encoded.
Definition CANONICAL_HEX : string := "hex values must use canonical lowercase encoding".
Definition LOWERCASE_HEX : string := "hex value must be lowercase".

(** ** Messages *)

Definition NUL : string := String (byte_of 0) EmptyString.
Definition SIGNATURE_DOMAIN : string := "tysel-release-evidence-signature-v1" ++ NUL.
Definition ARTIFACT_SIGNATURE_DOMAIN : string := "tysel-release-artifact-signature-v1" ++ NUL.
Definition METADATA_SIGNATURE_DOMAIN : string := "tysel-release-metadata-signature-v1" ++ NUL.

Definition signature_message (key_id : string) (issued_at_unix : Z) (evidence_sha256 : string) : string :=
  SIGNATURE_DOMAIN ++ key_id ++ NUL ++ dec_string issued_at_unix ++ NUL ++ evidence_sha256.
Definition artifact_signature_message (key_id : string) (issued_at_unix : Z) (target artifact_sha256 : string) : string :=
  ARTIFACT_SIGNATURE_DOMAIN ++ key_id ++ NUL ++ dec_string issued_at_unix ++ NUL ++ target ++ NUL ++ artifact_sha256.
Definition metadata_signature_message (key_id : string) (issued_at_unix : Z) (document_sha256 : string) : string :=
  METADATA_SIGNATURE_DOMAIN ++ key_id ++ NUL ++ dec_string issued_at_unix ++ NUL ++ document_sha256.

Definition validate_release_target (target : string) : result Failure () :=
  check (match from_canonical target with Some _ => true | None => false end) "unsupported production release target".

(** ** Trust policies *)

Section Trust.
Context {SH : Sha256}.

(** [validate_trust_policy]: its loop over the keys *)
Fixpoint validate_keys (previous : option string) (keys : list TrustedReleaseKey) : result Failure () :=
  match keys with
  | [] => Ok ()
  | k :: keys' =>
      check (String.eqb (tk_algorithm k) "ed25519") "unsupported trusted-key algorithm";;
      match tk_valid_until_unix k with
      | Some valid_until => check (tk_valid_from_unix k <=? valid_until) "trusted-key validity window is inverted"
      | None => Ok ()
      end;;
      check (negb (bool_decide (tk_status k = Retired)) || match tk_valid_until_unix k with Some _ => true | None => false end)
        "retired release keys require valid_until_unix";;
      public_key ← decode_hex CANONICAL_HEX 32 (tk_public_key k);
      check (String.eqb (bundle_hash public_key) (tk_key_id k)) "trusted key ID does not match public key";;
      match previous with
      | Some p => check (String.ltb p (tk_key_id k)) "trusted keys are duplicated or unsorted"
      | None => Ok ()
      end;;
      validate_keys (Some (tk_key_id k)) keys'
  end.
Definition validate_trust_policy (p : TrustPolicy) : result Failure () :=
  check (tp_policy_version p =? TRUST_POLICY_VERSION) "unsupported trust policy version";;
  check (tp_expires_at_unix p >? tp_issued_at_unix p) "trust policy validity is empty";;
  check (tp_expires_at_unix p - tp_issued_at_unix p <=? MAX_POLICY_LIFETIME_SECONDS) "trust policy validity exceeds 90 days";;
  check (match tp_keys p with [] => false | _ => true end) "trust policy contains no keys";;
  validate_keys None (tp_keys p).

Definition find_key (key_id : string) (p : TrustPolicy) : option TrustedReleaseKey :=
  List.find (fun k => String.eqb (tk_key_id k) key_id) (tp_keys p).

Definition key_status_rank (s : ReleaseKeyStatus) : Z := match s with Active => 0 | Retired => 1 | Revoked => 2 end.

(** [validate_trust_policy_transition]: one key of the current policy *)
Definition transition_key (successor : TrustPolicy) (c : TrustedReleaseKey) : result Failure () :=
  match find_key (tk_key_id c) successor with
  | None =>
      match tk_status c with
      | Active => Err (Bail "active release key was removed without retirement")
      | Retired =>
          deadline ← ok_or (tk_valid_until_unix c) (Bail "retired release key has no retirement deadline");
          check (tp_issued_at_unix successor >? deadline) "retired release key was removed before its retirement deadline"
      | Revoked => Err (Bail "revoked release-key tombstone was removed")
      end
  | Some k =>
      check (String.eqb (tk_algorithm k) (tk_algorithm c) && String.eqb (tk_public_key k) (tk_public_key c))
        "trusted release-key identity changed";;
      check (tk_valid_from_unix k =? tk_valid_from_unix c) "trusted release-key inception changed";;
      check (key_status_rank (tk_status k) >=? key_status_rank (tk_status c)) "trusted release-key status regressed";;
      if negb (bool_decide (tk_status c = Active))
      then check (bool_decide (tk_valid_until_unix k = tk_valid_until_unix c)) "retired or revoked release-key deadline changed"
      else match tk_valid_until_unix c with
           | Some d => check (bool_decide (tk_valid_until_unix k = Some d)) "trusted release-key deadline changed"
           | None => Ok ()
           end
  end.
Fixpoint transition_keys (successor : TrustPolicy) (l : list TrustedReleaseKey) : result Failure () :=
  match l with [] => Ok () | c :: l' => transition_key successor c;; transition_keys successor l' end.
Fixpoint new_keys_active (current : TrustPolicy) (l : list TrustedReleaseKey) : result Failure () :=
  match l with
  | [] => Ok ()
  | k :: l' =>
      (if negb (existsb (fun c => String.eqb (tk_key_id c) (tk_key_id k)) (tp_keys current))
       then check (bool_decide (tk_status k = Active)) "new release keys must enter the policy as active"
       else Ok ());;
      new_keys_active current l'
  end.
Definition validate_trust_policy_transition (current successor : TrustPolicy) : result Failure () :=
  map_err (Context "current trust policy is invalid") (validate_trust_policy current);;
  map_err (Context "successor trust policy is invalid") (validate_trust_policy successor);;
  check (tp_issued_at_unix successor >? tp_issued_at_unix current) "successor trust policy does not advance issued_at_unix";;
  transition_keys successor (tp_keys current);;
  new_keys_active current (tp_keys successor).

(** [trusted_release_key] *)
Definition trusted_release_key (policy : TrustPolicy) (key_id : string) (issued_at_unix now_unix : Z)
    : result Failure TrustedReleaseKey :=
  validate_trust_policy policy;;
  check (tp_issued_at_unix policy <=? saturating_add u64_max now_unix MAX_CLOCK_SKEW_SECONDS) "release trust policy is from the future";;
  check (now_unix <=? tp_expires_at_unix policy) "release trust policy has expired";;
  check (issued_at_unix <=? tp_expires_at_unix policy) "release signature postdates the trust policy";;
  trusted ← ok_or (find_key key_id policy) (Bail "release signature key is not trusted");
  check (negb (bool_decide (tk_status trusted = Revoked))) "release signature key is revoked";;
  check (now_unix >=? tk_valid_from_unix trusted) "release key is not active yet";;
  match tk_valid_until_unix trusted with
  | Some valid_until =>
      check (now_unix <=? valid_until) "release key validity has expired";;
      check (issued_at_unix <=? valid_until) "release signature postdates key validity"
  | None => Ok ()
  end;;
  check (issued_at_unix >=? tk_valid_from_unix trusted) "release signature predates key validity";;
  Ok trusted.

End Trust.

(** ** Verification *)

Section Verify.
Context {SH : Sha256} {ED : Ed25519} {SJ : SigningJson}.

(** [read_bounded], [read_json] and [read_bounded_artifact] of [signing.rs] *)
Definition read_signing_document (path : string) : IO string :=
  m ← context ("failed to inspect " ++ path) (fs_metadata path);
  require (file_len m <=? MAX_SIGNING_DOCUMENT_BYTES) ("signing document " ++ path ++ " is oversized");;
  context ("failed to read " ++ path) (fs_read path).
Definition read_signing_json {D} (from_slice : string -> option D) (path : string) : IO D :=
  bytes ← read_signing_document path;
  some_or (from_slice bytes) (Context ("invalid JSON in " ++ path) (Foreign "serde_json")).
Definition read_bounded_artifact (path : string) : IO string :=
  m ← context ("failed to inspect " ++ path) (fs_metadata path);
  require (is_file m) "release artifact is not a regular file";;
  require (file_len m >? 0) "release artifact is empty";;
  require (file_len m <=? MAX_SIGNED_ARTIFACT_BYTES) "release artifact is oversized";;
  context ("failed to read " ++ path) (fs_read path).

(** The last steps of the three verifications: key, signature, [verify_strict] *)
Definition verify_with (trusted : TrustedReleaseKey) (signature message failure : string) : result Failure () :=
  key ← decode_hex CANONICAL_HEX 32 (tk_public_key trusted);
  (if valid_key key then Ok () else Err (Context "trusted Ed25519 public key is invalid" (Foreign "ed25519_dalek")));;
  sig ← decode_hex CANONICAL_HEX 64 signature;
  if verify_strict key message sig then Ok () else Err (Context failure (Foreign "ed25519_dalek")).

Definition from_future (issued_at_unix now_unix : Z) : bool :=
  issued_at_unix >? saturating_add u64_max now_unix MAX_CLOCK_SKEW_SECONDS.

(** [verify_release_artifact_signature] *)
Definition verify_release_artifact_signature (artifact_path trust_policy_path expected_target : string) (now_unix : Z)
    : IO ReleaseArtifactSignature :=
  lift (validate_release_target expected_target);;
  document ← read_signing_json artifact_sig_read (sidecar_path artifact_path ".sig.json");
  require (as_signature_version document =? RELEASE_ARTIFACT_SIGNATURE_VERSION) "unsupported release artifact signature version";;
  require (String.eqb (as_algorithm document) "ed25519") "unsupported signature algorithm";;
  lift (validate_release_target (as_target document));;
  require (String.eqb (as_target document) expected_target)
    "release artifact target does not match the expected deployment target";;
  require (negb (from_future (as_issued_at_unix document) now_unix)) "release artifact signature is from the future";;
  artifact ← read_bounded_artifact artifact_path;
  require (String.eqb (bundle_hash artifact) (as_artifact_sha256 document)) "release artifact signature does not bind this artifact";;
  policy ← read_signing_json policy_read trust_policy_path;
  trusted ← lift (trusted_release_key policy (as_key_id document) (as_issued_at_unix document) now_unix);
  lift (verify_with trusted (as_signature document)
    (artifact_signature_message (as_key_id document) (as_issued_at_unix document) (as_target document) (as_artifact_sha256 document))
    "release artifact signature verification failed");;
  mret document.

(** [verify_release_metadata_signature] *)
Definition verify_release_metadata_signature (document_path signature_path trust_policy_path : string) (now_unix : Z)
    : IO ReleaseMetadataSignature :=
  signature ← read_signing_json metadata_sig_read signature_path;
  require (mt_signature_version signature =? RELEASE_METADATA_SIGNATURE_VERSION) "unsupported release metadata signature version";;
  require (String.eqb (mt_algorithm signature) "ed25519") "unsupported signature algorithm";;
  require (negb (from_future (mt_issued_at_unix signature) now_unix)) "release metadata signature is from the future";;
  document ← read_signing_document document_path;
  require (String.eqb (bundle_hash document) (mt_document_sha256 signature)) "release metadata signature does not bind this document";;
  policy ← read_signing_json policy_read trust_policy_path;
  trusted ← lift (trusted_release_key policy (mt_key_id signature) (mt_issued_at_unix signature) now_unix);
  lift (verify_with trusted (mt_signature signature)
    (metadata_signature_message (mt_key_id signature) (mt_issued_at_unix signature) (mt_document_sha256 signature))
    "release metadata signature verification failed");;
  mret signature.

(** [verify_release_signature], which repeats the checks of [trusted_release_key] *)
Definition verify_release_signature `{TS : TapSerde, EJ : EvidenceJson} (output trust_policy_path : string) (now_unix : Z)
    : IO ReleaseSignature :=
  _ ← verify_release_evidence output;
  document ← read_signing_json evidence_sig_read (sidecar_path output ".evidence.sig.json");
  require (rs_signature_version document =? RELEASE_SIGNATURE_VERSION) "unsupported release signature version";;
  require (String.eqb (rs_algorithm document) "ed25519") "unsupported signature algorithm";;
  require (negb (from_future (rs_issued_at_unix document) now_unix)) "release signature is from the future";;
  evidence ← read_signing_document (sidecar_path output ".evidence.json");
  require (String.eqb (bundle_hash evidence) (rs_evidence_sha256 document)) "release signature does not bind this evidence index";;
  policy ← read_signing_json policy_read trust_policy_path;
  trusted ← lift (trusted_release_key policy (rs_key_id document) (rs_issued_at_unix document) now_unix);
  lift (verify_with trusted (rs_signature document)
    (signature_message (rs_key_id document) (rs_issued_at_unix document) (rs_evidence_sha256 document))
    "release evidence signature verification failed");;
  mret document.

End Verify.

(** ** Signing *)

Section Sign.
Context {SH : Sha256} {ED : Ed25519} {SJ : SigningJson}.

(** [hash_file] of the signer *)
Definition hash_file (path : string) : IO string :=
  _ ← context ("failed to open release artifact " ++ path) (fs_metadata path);
  m ← context ("failed to inspect release artifact " ++ path) (fs_metadata path);
  require (is_file m) "release artifact is not a regular file";;
  require (file_len m >? 0) "release artifact is empty";;
  require (file_len m <=? MAX_SIGNED_ARTIFACT_BYTES) "release artifact is oversized";;
  bytes ← context ("failed to read release artifact " ++ path) (fs_read path);
  mret (hex_encode (sha256 bytes)).

(** [read_signing_key]; [mode] gives the permission bits of a file. *)
Definition read_signing_key (message : string) (mode : string -> Z) (path : string) : IO string :=
  _ ← context ("failed to open private key " ++ path) (fs_metadata path);
  m ← context ("failed to inspect private key " ++ path) (fs_metadata path);
  require (is_file m) "release private key is not a regular file";;
  require (file_len m <=? 256) "release private key file is oversized";;
  require (Z.land (mode path) 63 =? 0) "release private key permissions must deny group and other access";;
  bytes ← context ("failed to read private key " ++ path) (fs_read path);
  encoded ← some_or (from_utf8 bytes) (Context "release private key is not UTF-8" (Foreign "utf8"));
  lift (decode_hex message 32 (trim encoded)).

(** [write_json_atomically] of the signer, with the ids its attempts take from the counter *)
Fixpoint write_signature (pid : Z) (ids : list Z) (path contents : string) : IO () :=
  match ids with
  | [] => throw (Bail "failed to allocate temporary release signature file")
  | id :: ids' =>
      let temporary := temporary_path pid id path in
      r ← attempt (create_new temporary);
      match r with
      | Err (Io AlreadyExists) => write_signature pid ids' path contents
      | Err e => throw (Context ("failed to stage release signature " ++ path) e)
      | Ok () =>
          on_error (ignore (fs_remove_file temporary))
            (write_all temporary contents;; sync_all;;
             context ("failed to publish release signature " ++ path) (fs_rename temporary path))
      end
  end.
Definition write_json_atomically (pid : Z) (ids : list Z) (path : string) (printed : option string) : IO () :=
  contents ← lift (json_bytes printed); write_signature pid ids path contents.

Definition release_key_info (mode : string -> Z) (private_key_path : string) : IO ReleaseKeyInfo :=
  signing_key ← read_signing_key LOWERCASE_HEX mode private_key_path;
  let public_key := verifying_key signing_key in
  mret {| ki_key_id := hex_encode (sha256 public_key); ki_algorithm := "ed25519"; ki_public_key := hex_encode public_key |}.

(** [sign_release_artifact] *)
Definition artifact_signature (signing_key : string) (issued_at_unix : Z) (target artifact_sha256 : string)
    : ReleaseArtifactSignature :=
  let key_id := hex_encode (sha256 (verifying_key signing_key)) in
  {| as_signature_version := RELEASE_ARTIFACT_SIGNATURE_VERSION; as_algorithm := "ed25519"; as_key_id := key_id;
     as_issued_at_unix := issued_at_unix; as_target := target; as_artifact_sha256 := artifact_sha256;
     as_signature := hex_encode (ed_sign signing_key (artifact_signature_message key_id issued_at_unix target artifact_sha256)) |}.
Definition sign_release_artifact (mode : string -> Z) (pid : Z) (ids : list Z) (artifact_path target private_key_path : string)
    (issued_at_unix : Z) : IO string :=
  lift (validate_release_target target);;
  artifact_sha256 ← hash_file artifact_path;
  signing_key ← read_signing_key LOWERCASE_HEX mode private_key_path;
  let signature_path := sidecar_path artifact_path ".sig.json" in
  write_json_atomically pid ids signature_path
    (artifact_sig_pretty (artifact_signature signing_key issued_at_unix target artifact_sha256));;
  mret signature_path.

(** [sign_release_metadata] *)
Definition metadata_signature (signing_key : string) (issued_at_unix : Z) (document_sha256 : string) : ReleaseMetadataSignature :=
  let key_id := hex_encode (sha256 (verifying_key signing_key)) in
  {| mt_signature_version := RELEASE_METADATA_SIGNATURE_VERSION; mt_algorithm := "ed25519"; mt_key_id := key_id;
     mt_issued_at_unix := issued_at_unix; mt_document_sha256 := document_sha256;
     mt_signature := hex_encode (ed_sign signing_key (metadata_signature_message key_id issued_at_unix document_sha256)) |}.
Definition sign_release_metadata (mode : string -> Z) (pid : Z) (ids : list Z) (document_path private_key_path : string)
    (issued_at_unix : Z) : IO string :=
  document_sha256 ← hash_file document_path;
  signing_key ← read_signing_key LOWERCASE_HEX mode private_key_path;
  let signature_path := sidecar_path document_path ".sig.json" in
  write_json_atomically pid ids signature_path
    (metadata_sig_pretty (metadata_signature signing_key issued_at_unix document_sha256));;
  mret signature_path.

(** [sign_release_evidence] *)
Definition evidence_signature (signing_key : string) (issued_at_unix : Z) (evidence_sha256 : string) : ReleaseSignature :=
  let key_id := bundle_hash (verifying_key signing_key) in
  {| rs_signature_version := RELEASE_SIGNATURE_VERSION; rs_algorithm := "ed25519"; rs_key_id := key_id;
     rs_issued_at_unix := issued_at_unix; rs_evidence_sha256 := evidence_sha256;
     rs_signature := hex_encode (ed_sign signing_key (signature_message key_id issued_at_unix evidence_sha256)) |}.
Definition sign_release_evidence `{TS : TapSerde, EJ : EvidenceJson} (mode : string -> Z) (pid : Z) (ids : list Z)
    (output private_key_path : string) (issued_at_unix : Z) : IO string :=
  _ ← verify_release_evidence output;
  evidence ← read_signing_document (sidecar_path output ".evidence.json");
  signing_key ← read_signing_key CANONICAL_HEX mode private_key_path;
  let signature_path := sidecar_path output ".evidence.sig.json" in
  contents ← lift (json_bytes (evidence_sig_pretty (evidence_signature signing_key issued_at_unix (bundle_hash evidence))));
  staged ← stage pid ids signature_path contents;
  commit staged;;
  mret signature_path.

End Sign.

(** What the libraries promise: a key pair verifies its own signatures, the sizes of
    keys and signatures, and reading back what was printed. *)
Class Ed25519Laws (ED : Ed25519) : Prop := {
  verifying_key_length : forall k, String.length (verifying_key k) = 32%nat;
  signature_length : forall k m, String.length (ed_sign k m) = 64%nat;
  own_key_valid : forall k, String.length k = 32%nat -> valid_key (verifying_key k) = true;
  own_signature : forall k m, String.length k = 32%nat -> verify_strict (verifying_key k) m (ed_sign k m) = true;
}.
Class SigningJsonLaws (SJ : SigningJson) : Prop := {
  printed_artifact_sig : forall d s, artifact_sig_pretty d = Some s -> artifact_sig_read (s ++ newline) = Some d;
  printed_metadata_sig : forall d s, metadata_sig_pretty d = Some s -> metadata_sig_read (s ++ newline) = Some d;
  printed_evidence_sig : forall d s, evidence_sig_pretty d = Some s -> evidence_sig_read (s ++ newline) = Some d;
}.
