(* ===== verification/SigningThms.v ===== *)
(** * What signatures and trust policies guarantee

    A revoked key stays revoked through every accepted sequence of policies; a
    retired one may come back. A signature binds one statement; what was signed
    verifies under a policy that trusts its key. *)

From Stdlib Require Import ZArith Lia Ascii String.
From stdpp Require Import base tactics gmap strings list relations.
From S2P Require Import Prelude Bytes DurableTypes Capability CapabilityThms Distribution Tap FsCap Files FilesThms Evidence EvidenceThms Signing.
Open Scope Z_scope.

(** ** Sequences of policies *)

Section Chains.
Context {SH : Sha256}.

(** [successor] may replace [current]. *)
Definition succeeds (current successor : TrustPolicy) : Prop := validate_trust_policy_transition current successor = Ok ().

Lemma find_key_spec id p k : find_key id p = Some k -> k ∈ tp_keys p /\ tk_key_id k = id.
Proof. intros [Hin He]%find_some. split; [by apply list_elem_of_In | by apply String.eqb_eq]. Qed.

Lemma transition_keys_in successor l c : transition_keys successor l = Ok () -> c ∈ l -> transition_key successor c = Ok ().
Proof.
  induction l as [|x l IH]; intros H Hin; [by apply not_elem_of_nil in Hin|].
  cbn [transition_keys] in H. apply then_ok in H as [Hx H]. apply elem_of_cons in Hin as [->|Hin]; auto.
Qed.

Lemma succeeds_key p q c : succeeds p q -> c ∈ tp_keys p -> transition_key q c = Ok ().
Proof.
  unfold succeeds, validate_trust_policy_transition. rewrite !then_ok. intros (_ & _ & _ & H & _). by apply transition_keys_in.
Qed.

(** A key that stays keeps its identity and its window, and its status only worsens. *)
Lemma succeeds_keeps p q id c k :
  succeeds p q -> find_key id p = Some c -> find_key id q = Some k ->
  tk_public_key k = tk_public_key c /\ tk_valid_from_unix k = tk_valid_from_unix c
  /\ key_status_rank (tk_status c) <= key_status_rank (tk_status k)
  /\ (forall d, tk_valid_until_unix c = Some d -> tk_valid_until_unix k = Some d).
Proof.
  intros Hs Hc Hk. apply find_key_spec in Hc as [Hin <-]. apply (succeeds_key _ _ _ Hs) in Hin. unfold transition_key in Hin.
  rewrite Hk, !then_ok, !check_ok, andb_true_iff, !String.eqb_eq, Z.eqb_eq in Hin.
  destruct Hin as ((_ & Hp) & Hf & Hr & Hd). split_and!; [done..| |].
  - destruct (tk_status c), (tk_status k); cbn in *; lia || done.
  - intros d Hu. destruct (negb _); [apply check_ok, bool_decide_eq_true in Hd; congruence|].
    rewrite Hu in Hd. by apply check_ok, bool_decide_eq_true in Hd.
Qed.

(** A revoked key cannot leave the policy, and stays revoked. *)
Lemma succeeds_revoked p q id c :
  succeeds p q -> find_key id p = Some c -> tk_status c = Revoked ->
  exists k, find_key id q = Some k /\ tk_status k = Revoked.
Proof.
  intros Hs Hc Hr. destruct (find_key id q) as [k|] eqn:Hk.
  - exists k. split; [done|]. destruct (succeeds_keeps _ _ _ _ _ Hs Hc Hk) as (_ & _ & Hrank & _). rewrite Hr in Hrank.
    by destruct (tk_status k).
  - apply find_key_spec in Hc as [Hin <-]. apply (succeeds_key _ _ _ Hs) in Hin. unfold transition_key in Hin.
    by rewrite Hk, Hr in Hin.
Qed.

Lemma chain_revoked p q id c :
  rtc succeeds p q -> find_key id p = Some c -> tk_status c = Revoked ->
  exists k, find_key id q = Some k /\ tk_status k = Revoked.
Proof.
  intros H. revert c. induction H as [|p p' q Hs _ IH]; intros c Hc Hr; [eauto|].
  destruct (succeeds_revoked _ _ _ _ Hs Hc Hr) as (k & Hk & Hkr). eauto.
Qed.

(** ** Trusted keys *)

(** Every condition under which a signature of a key counts. *)
Record trusts (p : TrustPolicy) (id : string) (issued now : Z) (k : TrustedReleaseKey) : Prop := {
  tr_valid : validate_trust_policy p = Ok ();
  tr_issued : tp_issued_at_unix p <= saturating_add u64_max now MAX_CLOCK_SKEW_SECONDS;
  tr_unexpired : now <= tp_expires_at_unix p /\ issued <= tp_expires_at_unix p;
  tr_key : find_key id p = Some k;
  tr_status : tk_status k <> Revoked;
  tr_from : tk_valid_from_unix k <= now /\ tk_valid_from_unix k <= issued;
  tr_until : forall u, tk_valid_until_unix k = Some u -> now <= u /\ issued <= u;
}.

Lemma trusted_release_key_spec p id issued now k :
  trusted_release_key p id issued now = Ok k <-> trusts p id issued now k.
Proof.
  assert (forall x, match tk_valid_until_unix x with
      | Some u => check (now <=? u) "release key validity has expired";; check (issued <=? u) "release signature postdates key validity"
      | None => Ok ()
      end = Ok () <-> forall u, tk_valid_until_unix x = Some u -> now <= u /\ issued <= u) as Hu.
  { intros x. destruct (tk_valid_until_unix x) as [u|]; [|naive_solver]. rewrite then_ok, !check_ok, !Z.leb_le. naive_solver. }
  unfold trusted_release_key. destruct (validate_trust_policy p) as [[]|e] eqn:Hv.
  2:{ split; [done | intros []; congruence]. }
  rewrite !then_ok, result_bind_ok. setoid_rewrite ok_or_ok.
  repeat setoid_rewrite then_ok. setoid_rewrite Hu. rewrite !check_ok, !Z.leb_le. setoid_rewrite check_ok.
  setoid_rewrite negb_true_iff. setoid_rewrite bool_decide_eq_false. setoid_rewrite Z.geb_le. split.
  - intros (_ & ? & ? & ? & x & ? & ? & ? & ? & ? & [= <-]). by constructor.
  - intros []. destruct_and!. split_and!; [done..|]. exists k. split_and!; done.
Qed.

End Chains.

(** Revocation is permanent: after any sequence of accepted policies, a key that
    was revoked is still in the policy and revoked, and no signature of it counts,
    whenever it was issued and whenever it is checked. *)
Theorem revocation_permanent `{SH : Sha256} p q id c :
  rtc succeeds p q -> find_key id p = Some c -> tk_status c = Revoked ->
  (exists k, find_key id q = Some k /\ tk_status k = Revoked)
  /\ forall issued now k, trusted_release_key q id issued now <> Ok k.
Proof.
  intros Hc Hf Hr. destruct (chain_revoked _ _ _ _ Hc Hf Hr) as (k & Hk & Hkr). split; [eauto|].
  intros issued now k' [_ _ _ Hk' Hs _ _]%trusted_release_key_spec. congruence.
Qed.

(** ** Sample policies *)

Section Policies.

(** A digest that keeps the first 32 bytes. *)
Definition prefix_sha : Sha256 := {| sha256 s := str_take 32 (s ++ format_fixed 16 32 0) |}.
#[local] Existing Instance prefix_sha.

Definition sample_public (c : ascii) : string := String c (format_fixed 16 31 0).
Definition sample_key (c : ascii) (status : ReleaseKeyStatus) (until : option Z) : TrustedReleaseKey := {|
  tk_key_id := bundle_hash (sample_public c); tk_algorithm := "ed25519"; tk_public_key := hex_encode (sample_public c);
  tk_status := status; tk_valid_from_unix := 100; tk_valid_until_unix := until |}.
Definition sample_policy (issued : Z) (keys : list TrustedReleaseKey) : TrustPolicy := {|
  tp_policy_version := 1; tp_issued_at_unix := issued; tp_expires_at_unix := issued + 5000; tp_keys := keys |}.

Definition revoked_policy : TrustPolicy := sample_policy 1000 [sample_key "a" Revoked None; sample_key "b" Active None].
Definition later_policy : TrustPolicy := sample_policy 2000 [sample_key "a" Revoked None; sample_key "b" Retired (Some 9000)].

Lemma revocation_permanent_witness :
  (exists k, find_key (bundle_hash (sample_public "a")) later_policy = Some k /\ tk_status k = Revoked)
  /\ forall issued now k, trusted_release_key later_policy (bundle_hash (sample_public "a")) issued now <> Ok k.
Proof.
  apply (revocation_permanent revoked_policy later_policy _ (sample_key "a" Revoked None)).
  - apply rtc_once. vm_compute. reflexivity.
  - vm_compute. reflexivity.
  - reflexivity.
Defined.

(** C34. A retired key can come back. Once its deadline has passed a successor may drop
    it, and a further successor may list the same key again as a new, active one
    without a deadline: signatures it makes after its retirement then count, although
    each policy was accepted as a forward-only successor of the one before. *)
Theorem retired_key_returns :
  let key := bundle_hash (sample_public "a") in
  let retired := sample_policy 1000 [sample_key "a" Retired (Some 1500); sample_key "b" Active None] in
  let dropped := sample_policy 2000 [sample_key "b" Active None] in
  let returned := sample_policy 3000 [sample_key "a" Active None; sample_key "b" Active None] in
  succeeds retired dropped /\ succeeds dropped returned
  /\ (exists e, trusted_release_key retired key 1600 1600 = Err e)
  /\ exists k, trusted_release_key returned key 3100 3200 = Ok k /\ tk_public_key k = hex_encode (sample_public "a").
Proof.
  cbv zeta. split; [vm_compute; reflexivity|]. split; [vm_compute; reflexivity|].
  split; eexists; [vm_compute; reflexivity | split; [vm_compute; reflexivity | reflexivity]].
Qed.

End Policies.

(** ** Messages *)

(** What a signature says: an index of evidence, an archive for a target, or a
    document, of a digest, by a key, at a time. *)
Inductive SignedStatement :=
| SignedEvidence (key_id : string) (issued : Z) (digest : string)
| SignedArtifact (key_id : string) (issued : Z) (target digest : string)
| SignedMetadata (key_id : string) (issued : Z) (digest : string).

Definition message_of (st : SignedStatement) : string :=
  match st with
  | SignedEvidence k i d => signature_message k i d
  | SignedArtifact k i t d => artifact_signature_message k i t d
  | SignedMetadata k i d => metadata_signature_message k i d
  end.

Definition no_nul (s : string) : bool := str_all (fun x => negb (Ascii.eqb x (byte_of 0))) s.

(** Key ids and targets are plain names; the time is a [u64]. *)
Definition plain_statement (st : SignedStatement) : bool :=
  match st with
  | SignedEvidence k i _ | SignedMetadata k i _ => no_nul k && is_u64 i
  | SignedArtifact k i t _ => no_nul k && is_u64 i && no_nul t
  end.

Lemma nul_split a b c d : no_nul a = true -> no_nul c = true -> (a ++ NUL ++ b = c ++ NUL ++ d)%string -> a = c /\ b = d.
Proof.
  intros Ha Hc H. change (NUL ++ ?x)%string with (String (byte_of 0) x) in H.
  apply (f_equal (split_once (byte_of 0))) in H. rewrite !split_once_app in H by done. by injection H.
Qed.

Lemma digits_needed_bound f z : 0 <= z < 10 ^ Z.of_nat f -> z < 10 ^ Z.of_nat (digits_needed 10 f z).
Proof.
  revert z. induction f as [|f IH]; intros z Hz; cbn [digits_needed]; [cbn in *; lia|].
  destruct (Z.ltb_spec z 10); [cbn; lia|]. rewrite Nat2Z.inj_succ, Z.pow_succ_r in * by lia.
  assert (0 <= z / 10 < 10 ^ Z.of_nat f) as Hd by (split; [apply Z.div_pos; lia | apply Z.div_lt_upper_bound; lia]).
  specialize (IH _ Hd). pose proof (Z.div_mod z 10 ltac:(lia)). pose proof (Z.mod_pos_bound z 10 ltac:(lia)). lia.
Qed.

Lemma dec_string_inj x y : is_u64 x = true -> is_u64 y = true -> dec_string x = dec_string y -> x = y.
Proof.
  assert (forall z, is_u64 z = true -> parse_digits 10 u64_max 0 (dec_string z) = Some z) as H.
  { intros z [Hz1 Hz2]%in_range_spec. unfold dec_string. set (w := digits_needed 10 39 z).
    pose proof (parse_format_fixed 10 u64_max w 0 z EmptyString) as Hp. rewrite append_nil_r in Hp. rewrite Hp; [done|lia|lia| |lia].
    split; [done|]. apply digits_needed_bound. split; [done|]. eapply Z.le_lt_trans; [exact Hz2|]. reflexivity. }
  intros Hx Hy He. apply (f_equal (parse_digits 10 u64_max 0)) in He. rewrite !H in He by done. congruence.
Qed.

Lemma dec_string_no_nul z : is_u64 z = true -> no_nul (dec_string z) = true.
Proof.
  intros [Hz _]%in_range_spec. eapply str_all_impl; [|by apply dec_string_digits]. intros c Hc.
  apply negb_true_iff, Ascii.eqb_neq. intros ->. discriminate Hc.
Qed.

(** The common shape of the three messages. *)
Lemma stamped_inj k i r k' i' r' :
  no_nul k && is_u64 i = true -> no_nul k' && is_u64 i' = true ->
  (k ++ NUL ++ dec_string i ++ NUL ++ r = k' ++ NUL ++ dec_string i' ++ NUL ++ r')%string -> k = k' /\ i = i' /\ r = r'.
Proof.
  intros [Hk Hi]%andb_true_iff [Hk' Hi']%andb_true_iff H. apply nul_split in H as [-> H]; [|done..].
  apply nul_split in H as [H ->]; [|by apply dec_string_no_nul..]. apply dec_string_inj in H; auto.
Qed.

(** C35. A signature binds one statement: two statements whose messages are equal are
    equal, so no signature of an archive passes for one of a document or of evidence,
    nor for another target, digest, key or time. *)
Theorem signature_binds a b :
  plain_statement a = true -> plain_statement b = true -> message_of a = message_of b -> a = b.
Proof.
  unfold plain_statement, message_of, signature_message, artifact_signature_message, metadata_signature_message.
  destruct a as [k i d|k i t d|k i d], b as [k' i' d'|k' i' t' d'|k' i' d']; intros Ha Hb H; try discriminate H.
  - apply append_inj, stamped_inj in H as (-> & -> & ->); done.
  - apply andb_true_iff in Ha as [Ha Ht], Hb as [Hb Ht'].
    apply append_inj, stamped_inj in H as (-> & -> & H); [|done..]. apply nul_split in H as [-> ->]; done.
  - apply append_inj, stamped_inj in H as (-> & -> & ->); done.
Qed.

Lemma signature_binds_witness :
  SignedArtifact "ab" 7 "linux-x64" "cd" = SignedArtifact "ab" 7 "linux-x64" "cd".
Proof. apply signature_binds; vm_compute; reflexivity. Defined.

(** ** Signing, then verifying *)

Lemma nibble_char message d : 0 <= d < 16 -> hex_nibble message (hex_char d) = Ok d.
Proof.
  intros Hd. unfold hex_nibble, hex_char, in_range. destruct (Z.ltb_spec d 10); rewrite byte_code_of by lia.
  - rewrite (proj2 (Z.leb_le 48 (48 + d))), (proj2 (Z.leb_le (48 + d) 57)) by lia. cbn. f_equal. lia.
  - rewrite (proj2 (Z.leb_gt (87 + d) 57)), andb_false_r by lia.
    rewrite (proj2 (Z.leb_le 97 (87 + d))), (proj2 (Z.leb_le (87 + d) 102)) by lia. cbn. f_equal. lia.
Qed.

Lemma nibbles_byte c : byte_of (Z.lor (Z.shiftl (Z.shiftr (byte_code c) 4) 4) (Z.land (byte_code c) 15)) = c.
Proof.
  rewrite <- (byte_of_code c) at 3. f_equal. apply Z.bits_inj'. intros n Hn. change 15 with (Z.ones 4).
  rewrite Z.lor_spec, Z.land_spec, Z.shiftl_spec by lia. destruct (Z.lt_ge_cases n 4).
  - rewrite (Z.testbit_neg_r _ (n - 4)), Z.ones_spec_low by lia. by rewrite andb_true_r.
  - rewrite Z.shiftr_spec, Z.ones_spec_high, andb_false_r, orb_false_r by lia. f_equal. lia.
Qed.

Lemma decode_pairs_encode message s : decode_pairs message (hex_encode s) = Ok s.
Proof.
  induction s as [|c s IH]; [done|]. cbn [hex_encode decode_pairs]. destruct (nibble_ranges c).
  rewrite !nibble_char by done. unfold_monad. by rewrite IH, nibbles_byte.
Qed.

Lemma hex_encode_length s : String.length (hex_encode s) = (2 * String.length s)%nat.
Proof. induction s as [|c s IH]; [done|]. cbn [hex_encode String.length]. rewrite IH. lia. Qed.

Lemma decode_hex_encode message n s : Z.of_nat (String.length s) = n -> decode_hex message n (hex_encode s) = Ok s.
Proof.
  intros <-. unfold decode_hex, len. rewrite hex_encode_length.
  replace (Z.of_nat (2 * String.length s) =? Z.of_nat (String.length s) * 2) with true by (symmetry; apply Z.eqb_eq; lia).
  unfold_monad. apply decode_pairs_encode.
Qed.

(** A decoded key has as many bytes as were asked for. *)
Lemma decode_pairs_length message s r : decode_pairs message s = Ok r -> (2 * String.length r <= String.length s)%nat /\
  (String.length s = 2 * Nat.div2 (String.length s) -> String.length s = 2 * String.length r)%nat.
Proof.
  revert s r. fix IH 1. intros [|a [|b s]] r; cbn [decode_pairs].
  - intros [= <-]. done.
  - intros [= <-]. cbn. lia.
  - rewrite !result_bind_ok. intros (h & _ & H). rewrite result_bind_ok in H. destruct H as (l & _ & H).
    rewrite result_bind_ok in H. destruct H as (r' & Hr & [= <-]). apply IH in Hr as [H1 H2]. cbn [String.length Nat.div2]. lia.
Qed.

Lemma decode_hex_length message n s r : decode_hex message (Z.of_nat n) s = Ok r -> String.length r = n.
Proof.
  unfold decode_hex. rewrite then_ok, check_ok, Z.eqb_eq. intros [Hl Hr]. apply decode_pairs_length in Hr as [_ H].
  unfold len in Hl. assert (String.length s = (2 * n)%nat) as Hs by lia. rewrite Hs in H.
  rewrite Nat.div2_double in H. lia.
Qed.

Lemma write_signature_run pid ids path contents s s' :
  write_signature pid ids path contents s = (Ok (), s') ->
  tree s' !! path = Some (File contents)
  /\ forall q, q <> path -> (forall id, q <> temporary_path pid id path) -> tree s' !! q = tree s !! q.
Proof.
  revert s. induction ids as [|id ids IH]; intros s; cbn [write_signature]; [done|].
  rewrite bind_run, attempt_run. destruct (create_new _ s) as [[[]|e] s1] eqn:Hc; cbn [fst snd].
  - rewrite on_error_ok_run, bind_ok_run. intros ([] & s2 & Hw & H). apply bind_ok_run in H as ([] & s3 & Hs%sync_run & H).
    rewrite context_ok_run in H. apply create_new_run in Hc as [_ Hc]. apply write_all_run in Hw.
    assert (tree s3 = <[temporary_path pid id path := File contents]> (tree s)) as Ht by (by rewrite Hs, Hw, Hc, insert_insert_eq).
    apply rename_file_run in H as [H _]; rewrite Ht, lookup_insert_eq in *; [|done]. cbn in H. rewrite H. split.
    + apply lookup_insert_eq.
    + intros q Hq Hqt. by rewrite lookup_insert_ne, lookup_delete_ne, lookup_insert_ne by auto.
  - assert (tree s1 = tree s) as Hs by (by apply operation_inv in Hc as [(? & ? & _)|(k & _ & [?|[n ?]])]).
    destruct e as [|[]| |]; try done. intros H%IH. by rewrite Hs in H.
Qed.

Section SignVerify.
Context {SH : Sha256} {ED : Ed25519} {EL : Ed25519Laws ED} {SJ : SigningJson} {SL : SigningJsonLaws SJ}.

Lemma hash_file_run p s h s' b :
  hash_file p s = (Ok h, s') -> tree s !! p = Some (File b) ->
  h = bundle_hash b /\ tree s' = tree s /\ 0 < len b <= MAX_SIGNED_ARTIFACT_BYTES.
Proof.
  intros H Hp. unfold hash_file in H. apply bind_ok_run in H as (m & s1 & H1 & H).
  apply context_ok_run in H1. apply (metadata_run _ _ _ _ b) in H1 as [_ H1]; [|done].
  apply bind_ok_run in H as (m' & s2 & H2 & H). apply context_ok_run in H2. rewrite <- H1 in Hp.
  apply (metadata_run _ _ _ _ b) in H2 as [-> H2]; [|done]. rewrite bind_run, require_run in H.
  cbn [metadata_of is_file file_len] in H. rewrite bind_run, require_run in H. destruct (Z.gtb_spec (len b) 0) as [Hl|]; [|done]. rewrite bind_run, require_run in H.
  destruct (Z.leb_spec (len b) MAX_SIGNED_ARTIFACT_BYTES) as [Hu|]; [|done].
  apply bind_ok_run in H as (bytes & s3 & H3 & H). apply context_ok_run in H3. apply fs_read_run in H3 as [H3 Ht].
  injection H as <- <-. unfold read_act in H3. cbn [resolve_link MAX_LINKS] in H3. rewrite H2, Hp in H3. injection H3 as ->.
  split; [done|]. split; [congruence | lia].
Qed.

Lemma keeps_read_signing_key P message mode path : keeps P (read_signing_key message mode path).
Proof. unfold read_signing_key. repeat (apply keeps_bind; [auto with files|]; intros); auto with files. Qed.

Lemma read_signing_key_run message mode path s k s' :
  read_signing_key message mode path s = (Ok k, s') ->
  tree s' = tree s /\ forall text, tree s !! path = Some (File text) -> decode_hex message 32 (trim text) = Ok k.
Proof.
  intros H. split; [by eapply keeps_tree; [apply keeps_read_signing_key|]|]. intros text Ht.
  unfold read_signing_key in H.
  apply bind_ok_run in H as (? & s1 & H1 & H). eapply keeps_tree in H1; [|by auto with files].
  apply bind_ok_run in H as (? & s2 & H2 & H). eapply keeps_tree in H2; [|by auto with files].
  do 3 (rewrite bind_run, require_run in H; case_match; [|done]).
  apply bind_ok_run in H as (bytes & s3 & Hr%context_ok_run & H). apply fs_read_run in Hr as [Hr _].
  unfold read_act in Hr. cbn [resolve_link MAX_LINKS] in Hr. rewrite H2, H1, Ht in Hr. injection Hr as <-.
  rewrite bind_run in H. unfold some_or in H. rewrite lift_run in H. destruct (from_utf8 text) as [e|] eqn:He; [|done]. cbn in H.
  unfold from_utf8 in He. case_match; [|done]. injection He as <-. rewrite lift_run in H. by injection H.
Qed.

Lemma read_signing_document_still t p b :
  t !! p = Some (File b) -> len b <= MAX_SIGNING_DOCUMENT_BYTES -> read_signing_document p (still t) = (Ok b, still t).
Proof.
  intros H Hl. unfold read_signing_document. rewrite bind_run, context_run, (metadata_still _ _ _ H). cbn [fst snd map_err metadata_of file_len].
  by rewrite bind_run, require_run, (proj2 (Z.leb_le _ _) Hl), context_run, (read_file_still _ _ _ H).
Qed.

Lemma read_signing_json_still {D} (from_slice : string -> option D) t p b d :
  t !! p = Some (File b) -> len b <= MAX_SIGNING_DOCUMENT_BYTES -> from_slice b = Some d ->
  read_signing_json from_slice p (still t) = (Ok d, still t).
Proof.
  intros H Hl Hd. unfold read_signing_json. rewrite bind_run, (read_signing_document_still _ _ _ H Hl). unfold some_or. by rewrite Hd.
Qed.

Lemma read_artifact_still t p b :
  t !! p = Some (File b) -> 0 < len b <= MAX_SIGNED_ARTIFACT_BYTES -> read_bounded_artifact p (still t) = (Ok b, still t).
Proof.
  intros H [H1 H2]. unfold read_bounded_artifact. rewrite bind_run, context_run, (metadata_still _ _ _ H).
  cbn [fst snd map_err metadata_of file_len is_file]. rewrite bind_run, require_run, bind_run, require_run.
  rewrite (proj2 (Z.gtb_lt _ _) H1), bind_run, require_run, (proj2 (Z.leb_le _ _) H2), context_run, (read_file_still _ _ _ H). done.
Qed.

(** The key of the policy is the one that signed. *)
Lemma verify_with_own k seed message failure :
  String.length seed = 32%nat -> tk_public_key k = hex_encode (verifying_key seed) ->
  verify_with k (hex_encode (ed_sign seed message)) message failure = Ok ().
Proof.
  intros Hs Hk. unfold verify_with.
  rewrite Hk, (decode_hex_encode _ 32 (verifying_key seed)) by (rewrite verifying_key_length; done). unfold_monad.
  rewrite own_key_valid by done. rewrite (decode_hex_encode _ 64) by (rewrite signature_length; done). by rewrite own_signature.
Qed.

Lemma sig_path_not_self p suffix : (p ++ String "." suffix)%string <> p.
Proof. intros H. rewrite <- (append_nil_r p) in H at 2. by apply append_inj in H. Qed.

Lemma sign_artifact_run mode pid ids path target key issued s sig s' b key_text :
  sign_release_artifact mode pid ids path target key issued s = (Ok sig, s') -> tree s !! path = Some (File b) ->
  tree s !! key = Some (File key_text) ->
  exists seed text, decode_hex LOWERCASE_HEX 32 (trim key_text) = Ok seed /\ validate_release_target target = Ok ()
    /\ 0 < len b <= MAX_SIGNED_ARTIFACT_BYTES
    /\ artifact_sig_pretty (artifact_signature seed issued target (bundle_hash b)) = Some text
    /\ tree s' !! sidecar_path path ".sig.json" = Some (File (text ++ newline))
    /\ forall q, q <> sidecar_path path ".sig.json" -> (forall id, q <> temporary_path pid id (sidecar_path path ".sig.json")) ->
         tree s' !! q = tree s !! q.
Proof.
  intros H Hp Hkt. unfold sign_release_artifact in H. rewrite bind_run, lift_run in H.
  destruct (validate_release_target target) as [[]|] eqn:Ht; [|done].
  apply bind_ok_run in H as (h & s1 & Hh & H). apply (hash_file_run _ _ _ _ b) in Hh as (-> & H1 & Hl); [|done].
  apply bind_ok_run in H as (seed & s2 & Hk & H). apply read_signing_key_run in Hk as [H2 Hs].
  specialize (Hs key_text ltac:(by rewrite H1)).
  cbv zeta in H. apply bind_ok_run in H as ([] & s3 & Hw & [= <- <-]). unfold write_json_atomically in Hw.
  rewrite bind_run, lift_run in Hw. unfold json_bytes in Hw.
  destruct (artifact_sig_pretty _) as [text|] eqn:Htext; [|done]. apply write_signature_run in Hw as [Hsig Hq].
  exists seed, text. repeat (split; [done|]).
  intros q H' H''. rewrite Hq by done. congruence.
Qed.

End SignVerify.

(** C36. What is signed verifies: after an archive was signed with a key, whatever was
    tried on the way, its signature is accepted under every policy that lists the
    public half of the key and trusts it at the time, and the answer is the document
    that was signed. *)
Theorem sign_verify_roundtrip `{SH : Sha256, ED : Ed25519, EL : !Ed25519Laws ED, SJ : SigningJson, SL : !SigningJsonLaws SJ}
    mode pid ids path target key issued s sig s' bytes key_text seed trust policy_text policy k now :
  sign_release_artifact mode pid ids path target key issued s = (Ok sig, s') ->
  tree s !! path = Some (File bytes) -> tree s !! key = Some (File key_text) -> tree s !! trust = Some (File policy_text) ->
  decode_hex LOWERCASE_HEX 32 (trim key_text) = Ok seed ->
  trust <> sidecar_path path ".sig.json" -> (forall id, trust <> temporary_path pid id (sidecar_path path ".sig.json")) ->
  policy_read policy_text = Some policy -> len policy_text <= MAX_SIGNING_DOCUMENT_BYTES ->
  (forall c, tree s' !! sidecar_path path ".sig.json" = Some (File c) -> len c <= MAX_SIGNING_DOCUMENT_BYTES) ->
  from_future issued now = false ->
  trusted_release_key policy (bundle_hash (verifying_key seed)) issued now = Ok k ->
  tk_public_key k = hex_encode (verifying_key seed) ->
  verify_release_artifact_signature path trust target now (still (tree s'))
    = (Ok (artifact_signature seed issued target (bundle_hash bytes)), still (tree s')).
Proof.
  intros H Hb Hkt Ht Hseed Hne Htmp Hpol Hpl Hsl Hfut Hk Hpk.
  apply (sign_artifact_run _ _ _ _ _ _ _ _ _ _ bytes key_text) in H as (seed' & text & Hseed' & Htgt & Hl & Htext & Hsig & Hq); [|done..].
  rewrite Hseed in Hseed'. injection Hseed' as <-. apply (decode_hex_length _ 32) in Hseed. pose proof (Hsl _ Hsig) as Hlen.
  assert (tree s' !! trust = Some (File policy_text)) as Ht' by (by rewrite Hq).
  assert (tree s' !! path = Some (File bytes)) as Hb'.
  { rewrite Hq; [done| |].
    - intros E. by apply (sig_path_not_self path "sig.json").
    - intros id E. unfold temporary_path, sidecar_path in E. rewrite append_assoc in E. by apply (sig_path_not_self path _ (eq_sym E)). }
  unfold verify_release_artifact_signature. rewrite bind_run, lift_run, Htgt.
  rewrite bind_run, (read_signing_json_still _ _ _ _ _ Hsig Hlen (printed_artifact_sig _ _ Htext)).
  cbn [artifact_signature as_signature_version as_algorithm as_key_id as_issued_at_unix as_target as_artifact_sha256 as_signature].
  rewrite bind_run, require_run, Z.eqb_refl, bind_run, require_run, String.eqb_refl, bind_run, lift_run, Htgt.
  rewrite bind_run, require_run, String.eqb_refl, bind_run, require_run, Hfut. cbn [negb].
  rewrite bind_run, (read_artifact_still _ _ _ Hb' Hl), bind_run, require_run, String.eqb_refl.
  rewrite bind_run, (read_signing_json_still _ _ _ _ _ Ht' Hpl Hpol), bind_run, lift_run.
  unfold bundle_hash in Hk at 1. rewrite Hk, bind_run, lift_run. by rewrite verify_with_own.
Qed.

(** ** An archive, signed and verified *)

Section SampleSigning.
#[local] Existing Instance prefix_sha.

Definition pad (n : nat) (s : string) : string := str_take n (s ++ format_fixed 16 n 0).

Lemma pad_length n s : String.length (pad n s) = n.
Proof. unfold pad. rewrite str_take_length, append_length, format_fixed_length. lia. Qed.

(** A scheme in which a signature repeats the key and the start of the message. *)
Definition sample_ed25519 : Ed25519 := {|
  verifying_key k := pad 32 k; ed_sign k m := pad 64 (pad 32 k ++ m);
  valid_key _ := true; verify_strict pk m sig := String.eqb sig (pad 64 (pk ++ m)) |}.
#[local] Existing Instance sample_ed25519.

Lemma sample_ed25519_laws : Ed25519Laws sample_ed25519.
Proof. constructor; intros; [apply (pad_length 32) | apply (pad_length 64) | done | apply String.eqb_refl]. Qed.

#[local] Instance artifact_sig_eq : EqDecision ReleaseArtifactSignature.
Proof. solve_decision. Defined.

Definition sample_seed : string := sample_public "k".
Definition sample_signature : ReleaseArtifactSignature := artifact_signature sample_seed 1200 "linux-x64" (bundle_hash "archive").
Definition sample_trust : TrustPolicy := sample_policy 1000 [sample_key "k" Active None].

Definition sample_signing_json : SigningJson := {|
  evidence_sig_read _ := None; evidence_sig_pretty _ := None; metadata_sig_read _ := None; metadata_sig_pretty _ := None;
  artifact_sig_read s := if String.eqb s ("S" ++ newline) then Some sample_signature else None;
  artifact_sig_pretty d := if decide (d = sample_signature) then Some "S" else None;
  policy_read s := if String.eqb s "T" then Some sample_trust else None |}%string.
#[local] Existing Instance sample_signing_json.

Lemma sample_signing_json_laws : SigningJsonLaws sample_signing_json.
Proof.
  constructor; cbn [artifact_sig_pretty artifact_sig_read sample_signing_json metadata_sig_pretty evidence_sig_pretty];
    intros d s; [|done..]. case_decide; intros [= <-]. by subst.
Qed.

Definition signing_tree : Tree :=
  <["app" := File "archive"]> (<["key" := File (hex_encode sample_seed ++ newline)]> (<["trust.json" := File "T"]> ∅)).
Definition sample_sign : result Failure string * Fs :=
  sign_release_artifact (fun _ => 384) 7 [1; 2] "app" "linux-x64" "key" 1200 (still signing_tree).

Lemma size_checked (t : Tree) p limit :
  match t !! p with Some (File c) => len c <=? limit | _ => true end = true -> forall c, t !! p = Some (File c) -> len c <= limit.
Proof. intros H c Hc. rewrite Hc in H. by apply Z.leb_le. Qed.

Lemma sign_verify_roundtrip_witness :
  verify_release_artifact_signature "app" "trust.json" "linux-x64" 1300 (still (tree sample_sign.2))
    = (Ok sample_signature, still (tree sample_sign.2)).
Proof.
  pose proof sample_ed25519_laws. pose proof sample_signing_json_laws.
  apply (sign_verify_roundtrip (fun _ => 384) 7 [1; 2] "app" "linux-x64" "key" 1200 (still signing_tree) "app.sig.json"
    sample_sign.2 "archive" (hex_encode sample_seed ++ newline) sample_seed "trust.json" "T" sample_trust
    (sample_key "k" Active None) 1300).
  - vm_compute. reflexivity.
  - vm_compute. reflexivity.
  - vm_compute. reflexivity.
  - vm_compute. reflexivity.
  - vm_compute. reflexivity.
  - discriminate.
  - intros id. discriminate.
  - vm_compute. reflexivity.
  - vm_compute. discriminate.
  - apply size_checked. vm_compute. reflexivity.
  - vm_compute. reflexivity.
  - vm_compute. reflexivity.
  - vm_compute. reflexivity.
Defined.

End SampleSigning.
