(* ===== verification/Platform.v ===== *)
(** * Installed releases ([crates/tysel-cli/src/platform.rs], [integrity.rs],
      [release.rs: verify_installation])

    Requirements of a platform, the hash of a file, and the check of an extracted
    toolchain against its release manifest. Detected versions, and what a binary
    answers when it is asked for its identity, are arguments. *)

From Stdlib Require Import ZArith Lia Ascii String.
From stdpp Require Import base tactics gmap strings list.
From S2P Require Import Prelude Bytes DurableTypes Capability Distribution Tap FsCap Files Evidence.
Open Scope Z_scope.

(** ** Platform requirements *)

Record RequirementCheck := { rc_name : string; rc_detected : string; rc_required : string; rc_compatible : bool }.

Fixpoint skip_to_digit (s : string) : string :=
  match s with String c s' => if is_ascii_digit c then s else skip_to_digit s' | EmptyString => EmptyString end.
Fixpoint numeric_prefix (s : string) : string :=
  match s with
  | String c s' => if is_ascii_digit c || Ascii.eqb c "." then String c (numeric_prefix s') else EmptyString
  | EmptyString => EmptyString
  end.
Fixpoint parse_parts (l : list string) : result Failure (list Z) :=
  match l with
  | [] => Ok []
  | p :: l' =>
      n ← ok_or (from_str_radix 10 u64_max p) (Context "invalid numeric platform version" (Foreign "ParseIntError"));
      rest ← parse_parts l';
      Ok (n :: rest)
  end.
(** [Vec::resize] to four numbers, of a list that has no more *)
Definition resize4 (l : list Z) : list Z := take 4 (l ++ [0; 0; 0; 0]).
Definition numeric_version (value : string) : result Failure (list Z) :=
  let value := skip_to_digit (trim value) in
  parts ← parse_parts (str_split "." (numeric_prefix value));
  check (match parts with [] => false | _ => (length parts <=? 4)%nat end) ("invalid platform version " ++ value);;
  Ok (resize4 parts).

(** The order of [Vec<u64>] *)
Fixpoint vec_leb (a b : list Z) : bool :=
  match a, b with
  | [], _ => true
  | _ :: _, [] => false
  | x :: a', y :: b' => (x <? y) || ((x =? y) && vec_leb a' b')
  end.

(** [platform::check] *)
Definition platform_check (name detected required : string) : result Failure RequirementCheck :=
  d ← numeric_version detected; r ← numeric_version required;
  Ok {| rc_name := name; rc_detected := detected; rc_required := required; rc_compatible := vec_leb r d |}.

(** What the system answers for [glibc_version], [linux_kernel_version], [macos_version] *)
Record Detected := { glibc : result Failure string; kernel : result Failure string; macos : result Failure string }.

Definition optional_check (name : string) (required : option string) (detected : result Failure string)
    : result Failure (list RequirementCheck) :=
  match required with
  | Some r => d ← detected; c ← platform_check name d r; Ok [c]
  | None => Ok []
  end.
Definition evaluate (d : Detected) (p : PlatformRequirements) (t : Target) : result Failure (list RequirementCheck) :=
  match t with
  | LinuxX64 | LinuxArm64 =>
      a ← optional_check "glibc" (minimum_glibc p) (glibc d);
      b ← optional_check "Linux kernel" (minimum_kernel p) (kernel d);
      Ok (a ++ b)
  | DarwinX64 | DarwinArm64 => optional_check "macOS" (minimum_macos p) (macos d)
  | Unsupported => Err (Bail "unsupported platform")
  end.
Fixpoint all_compatible (l : list RequirementCheck) : result Failure () :=
  match l with
  | [] => Ok ()
  | c :: l' =>
      check (rc_compatible c) (rc_name c ++ " " ++ rc_required c ++ " is required; detected " ++ rc_detected c);;
      all_compatible l'
  end.
Definition ensure_compatible (d : Detected) (p : PlatformRequirements) (t : Target) : result Failure () :=
  l ← evaluate d p t; all_compatible l.

(** ** Installations *)

(** A child process: it cannot be started, runs out of time, or ends with a status
    and what it printed. *)
Inductive ChildOutcome := NotStarted | TimedOut | Exited (success : bool) (output : string).

Class ReleaseJson (J : Type) := {
  manifest_read : string -> option (ReleaseManifest J); pointer_read : string -> option ChannelPointer;
  state_read : string -> option InstallState; state_pretty : InstallState -> option string;
  build_info_read : string -> option BuildInfo;
}.

#[global] Instance BuildInfo_eq_dec : EqDecision BuildInfo.
Proof. solve_decision. Defined.

Section Installation.
Context {SV : Semver} {SD : SemverDisplay} {J : Type} {RJ : ReleaseJson J} {SH : Sha256}.
(** What the binary at a path of the tree answers to [--build-info-json] *)
Context (identity : Tree -> string -> ChildOutcome) (detected : Detected).

(** [integrity::hash_file] *)
Definition hash_file (path : string) : IO string :=
  bytes ← fs_read path; mret (hex_encode (sha256 bytes)).

Definition from_bytes {E D} (from_json : string -> result E D) (bytes : string) : result Failure D :=
  map_err (fun _ => Foreign "tysel_distribution") (from_json bytes).
Definition load_manifest (bytes : string) : result Failure (ReleaseManifest J) :=
  from_bytes (manifest_from_json (fun b => ok_or (manifest_read b) ())) bytes.
Definition load_pointer (bytes : string) : result Failure ChannelPointer :=
  from_bytes (pointer_from_json (fun b => ok_or (pointer_read b) ())) bytes.
Definition load_state (bytes : string) : result Failure InstallState :=
  from_bytes (state_from_json (fun b => ok_or (state_read b) ())) bytes.

Definition read_build_info (path binary : string) : IO string :=
  t ← get_tree;
  match identity t path with
  | NotStarted => throw (Context ("query build identity for " ++ binary) (Io OtherIo))
  | TimedOut => throw (Bail (binary ++ " build identity query timed out"))
  | Exited success output =>
      let output := str_take (Z.to_nat (64 * 1024 + 1)) output in
      require success (binary ++ " rejected build identity query");;
      require (len output <=? 64 * 1024) (binary ++ " build identity is oversized");;
      mret output
  end.

Fixpoint check_files (root : string) (files : list ExpectedFile) : IO () :=
  match files with
  | [] => mret ()
  | f :: files' =>
      let path := join_path root (ef_path f) in
      present ← path_is_file path;
      require present ("required release file is missing: " ++ ef_path f);;
      h ← hash_file path;
      require (String.eqb h (ef_sha256 f)) ("release file hash mismatch: " ++ ef_path f);;
      check_files root files'
  end.
Fixpoint query_identities (root : string) (binaries : list string) : IO (list BuildInfo) :=
  match binaries with
  | [] => mret []
  | b :: binaries' =>
      output ← read_build_info (join_path (join_path root "bin") b) b;
      info ← some_or (build_info_read output) (Context ("parse " ++ b ++ " build identity") (Foreign "serde_json"));
      require (String.eqb (bi_binary info) b) (b ++ " reported the wrong binary identity");;
      rest ← query_identities root binaries';
      mret (info :: rest)
  end.
(** [sort_by] on the name of the binary: stable *)
Fixpoint insert_info (i : BuildInfo) (l : list BuildInfo) : list BuildInfo :=
  match l with
  | [] => [i]
  | j :: l' => if String.leb (bi_binary i) (bi_binary j) then i :: l else j :: insert_info i l'
  end.
Definition sort_infos (l : list BuildInfo) : list BuildInfo := foldr insert_info [] l.

(** [release::verify_installation] *)
Definition verify_installation (manifest_path root target version : string) : IO () :=
  target ← some_or (from_canonical target) (Bail "unsupported canonical target");
  manifest_bytes ← context ("read release manifest " ++ manifest_path) (fs_read manifest_path);
  require (len manifest_bytes <=? 4 * 1024 * 1024) "release manifest is oversized";;
  manifest ← lift (map_err (Context "validate release manifest") (load_manifest manifest_bytes));
  require (String.eqb (rm_version manifest) version) "release manifest version does not match request";;
  asset ← some_or (List.find (fun a => bool_decide (ra_target a = target)) (rm_assets manifest))
    (Bail "release manifest has no asset for requested target");
  lift (ensure_compatible detected (ra_platform asset) target);;
  check_files root (ra_files asset);;
  actual ← query_identities root ["tysel"; "tysel-service"; "tysel-worker"]%string;
  require (bool_decide (sort_infos actual = sort_infos (ra_build_info asset)))
    "extracted binaries do not match release identities".

End Installation.
