(* ===== verification/Upgrade.v ===== *)
(** * Upgrades of a managed installation ([crates/tysel-cli/src/upgrade.rs])

    Resolution of the trust policy, the channel and the manifest, download and
    extraction of the archive, activation with its restoration, and rollback. The
    network, the clock, [tar], the processes that are started and the terminal are
    fields of a [World]; every download names its place in the sequence, so a server
    may answer the same request differently each time. *)

From Stdlib Require Import ZArith Lia Ascii String.
From stdpp Require Import base tactics gmap strings list.
From S2P Require Import Prelude Bytes DurableTypes Capability Distribution Tap FsCap Files Evidence Signing Platform.
Open Scope Z_scope.

Definition DEFAULT_DOWNLOAD_BASE : string := "https://github.com/wangcch/tysel/releases".
Definition MAX_METADATA_BYTES : Z := 4 * 1024 * 1024.
Definition MAX_ARCHIVE_BYTES : Z := 256 * 1024 * 1024.
Definition MAX_EXTRACTED_BYTES : Z := 512 * 1024 * 1024.

Record Options := {
  o_check : bool; o_version : option string; o_channel : option string; o_yes : bool; o_force : bool; o_rollback : bool; o_json : bool }.
Record UpgradeReport := {
  ur_schema_version : Z; ur_action : string; ur_changed : bool; ur_from_version : string; ur_to_version : string; ur_target : string; ur_summary : string }.

(** What [emit] prints: the report as JSON, or its summary *)
Inductive Printed := PrintedJson (report : UpgradeReport) | PrintedLine (summary : string).

#[global] Instance Channel_eq_dec : EqDecision Channel.
Proof. solve_decision. Defined.

(** The downloads, in the order an upgrade makes them *)
Inductive Download := GetTrust | GetTrustSig | GetPointer | GetPointerSig | GetManifest | GetManifestSig | GetArchive | GetArchiveSig.

Record World := {
  fetch : Download -> string -> option (option Z * string);  (** length announced and body, when the status is a success *)
  clock : Download -> result Failure Z;                       (** [now_unix] after a download *)
  client : result Failure ();                                 (** [release_client] *)
  tar_list : string -> option (bool * string);                (** [tar -tzf]: status and output *)
  tar_details : string -> option (bool * string);             (** [tar -tvzf] *)
  tar_extract : string -> string -> Tree -> option bool * Tree;  (** [tar -xzf] of an archive into a directory *)
  identity : Tree -> string -> ChildOutcome;
  detected : Detected;
  doctor : Tree -> ChildOutcome * Tree;                       (** [tysel doctor --install --json] *)
  terminal : bool; answer : result Failure string;            (** whether there is a terminal, and the line read *)
  pid : Z; updater_version : string; download_base : option string; current_target : Target;
}.

(** [Ord] of [semver::Version] *)
Class SemverOrd := { semver_compare : SemVersion -> SemVersion -> comparison }.

Section Upgrade.
Context {SV : Semver} {SD : SemverDisplay} {SO : SemverOrd} {J : Type} {RJ : ReleaseJson J} {SH : Sha256} {ED : Ed25519} {SJ : SigningJson}.
Context (w : World).

Definition version_lt (a b : SemVersion) : bool := match semver_compare a b with Lt => true | _ => false end.
Definition parse_semver (what value : string) : IO SemVersion :=
  some_or (semver_parse value) (Context what (Foreign "semver")).

(** ** Downloads *)

Fixpoint drop_slashes (s : string) : string :=
  match s with String c s' => if Ascii.eqb c "/" then drop_slashes s' else s | EmptyString => EmptyString end.
(** [trim_end_matches('/')] *)
Definition trim_slashes (s : string) : string := str_rev (drop_slashes (str_rev s)).

(** [download_to]: no more than [limit + 1] bytes are copied. *)
Definition download_to (d : Download) (url destination : string) (limit : Z) : IO () :=
  '(announced, body) ← some_or (fetch w d url) (Foreign "reqwest");
  require (match announced with Some l => negb (l >? limit) | None => true end)
    ("download exceeds " ++ dec_string limit ++ " bytes");;
  create_new destination;;
  let copied := str_take (Z.to_nat (Z.min (limit + 1) (len body))) body in
  write_all destination copied;;
  require (len copied <=? limit) ("download exceeds " ++ dec_string limit ++ " bytes");;
  sync_all.

Definition base_url : string := default DEFAULT_DOWNLOAD_BASE (download_base w).
Definition now_unix (d : Download) : IO Z := lift (clock w d).

(** [resolve_trust_policy] *)
Definition resolve_trust_policy (current staging : string) : IO string :=
  let release_base := (trim_slashes base_url ++ "/download/trust")%string in
  let trust := join_path staging "refreshed-trust.json" in
  let signature := join_path staging "refreshed-trust.json.sig.json" in
  download_to GetTrust (release_base ++ "/trust.json") trust (1024 * 1024);;
  download_to GetTrustSig (release_base ++ "/trust.json.sig.json") signature (1024 * 1024);;
  now ← now_unix GetTrustSig;
  _ ← context "authenticate refreshed trust policy with installed trust"
    (verify_release_metadata_signature trust signature current now);
  _ ← context "validate refreshed trust policy and active signing key"
    (verify_release_metadata_signature trust signature trust now);
  current_bytes ← context "read installed trust policy" (fs_read current);
  refreshed_bytes ← context "read refreshed trust policy" (fs_read trust);
  (if String.eqb refreshed_bytes current_bytes then mret ()
   else
     current_policy ← some_or (policy_read current_bytes) (Context "parse installed trust policy" (Foreign "serde_json"));
     refreshed_policy ← some_or (policy_read refreshed_bytes) (Context "parse refreshed trust policy" (Foreign "serde_json"));
     lift (map_err (Context "reject unsafe trust-policy transition")
       (validate_trust_policy_transition current_policy refreshed_policy)));;
  mret trust.

Definition parse_channel (value : string) : result Failure Channel :=
  if String.eqb value "stable" then Ok Stable
  else if String.eqb value "canary" then Ok Canary
  else Err (Bail ("unsupported release channel " ++ value ++ "; expected stable or canary")).
Definition channel_name (c : Channel) : string := match c with Stable => "stable" | Canary => "canary" end.
Definition channel_pointer_url (base : string) (c : Channel) : string :=
  match c with
  | Stable => trim_slashes base ++ "/latest/download/channel-pointer.json"
  | Canary => trim_slashes base ++ "/download/canary/channel-pointer.json"
  end.
Definition ensure_channel (actual expected : Channel) (document : string) : IO () :=
  require (bool_decide (actual = expected))
    (document ++ " is for " ++ channel_name actual ++ ", expected " ++ channel_name expected).

(** [resolve_manifest]: the channel pointer, when no version was requested *)
Definition resolve_pointer (trust staging : string) (selected : Channel) : IO ChannelPointer :=
  let url := channel_pointer_url base_url selected in
  let pointer_path := join_path staging "channel-pointer.json" in
  let pointer_signature := join_path staging "channel-pointer.json.sig.json" in
  download_to GetPointer url pointer_path (1024 * 1024);;
  download_to GetPointerSig (url ++ ".sig.json") pointer_signature (1024 * 1024);;
  now ← now_unix GetPointerSig;
  _ ← verify_release_metadata_signature pointer_path pointer_signature trust now;
  bytes ← fs_read pointer_path;
  pointer ← lift (load_pointer bytes);
  ensure_channel (cp_channel pointer) selected "channel pointer";;
  mret pointer.

(** The manifest against what selected it *)
Definition check_selection (contract : option ChannelPointer) (requested : option string) (selected : Channel)
    (manifest : ReleaseManifest J) (key_id : string) : IO () :=
  match requested with
  | None => ensure_channel (rm_channel manifest) selected "release manifest"
  | Some _ => mret ()
  end;;
  match contract with
  | Some pointer =>
      require (bool_decide (rm_channel manifest = cp_channel pointer)) "channel manifest channel mismatch";;
      require (String.eqb (rm_version manifest) (cp_version pointer)) "channel manifest version mismatch";;
      require (String.eqb key_id (ms_key_id (cp_manifest_signature pointer))) "channel selected an unexpected manifest signing key"
  | None => mret ()
  end;;
  match requested with
  | Some version => require (String.eqb (rm_version manifest) version) "immutable manifest version mismatch"
  | None => mret ()
  end.

(** [resolve_manifest] *)
Definition resolve_manifest (trust staging : string) (requested : option string) (selected : Channel)
    : IO (ReleaseManifest J * string) :=
  '(contract, manifest_url) ← match requested with
    | Some version =>
        _ ← parse_semver "invalid --version semantic version" version;
        mret (None, (trim_slashes base_url ++ "/download/v" ++ version ++ "/release-manifest.json")%string)
    | None =>
        pointer ← resolve_pointer trust staging selected;
        mret (Some pointer, cp_manifest_url pointer)
    end;
  let manifest_path := join_path staging "selected-release-manifest.json" in
  let signature_path := join_path staging "selected-release-manifest.json.sig.json" in
  download_to GetManifest manifest_url manifest_path MAX_METADATA_BYTES;;
  let signature_url := match contract with
    | Some pointer => ms_url (cp_manifest_signature pointer)
    | None => (manifest_url ++ ".sig.json")%string
    end in
  download_to GetManifestSig signature_url signature_path (1024 * 1024);;
  match contract with
  | Some pointer =>
      bytes ← fs_read manifest_path;
      require (len bytes =? cp_manifest_byte_size pointer) "channel manifest size mismatch";;
      require (String.eqb (hex_encode (sha256 bytes)) (cp_manifest_sha256 pointer)) "channel manifest SHA-256 mismatch"
  | None => mret ()
  end;;
  now ← now_unix GetManifestSig;
  signature ← verify_release_metadata_signature manifest_path signature_path trust now;
  bytes ← fs_read manifest_path;
  manifest ← lift (load_manifest bytes);
  check_selection contract requested selected manifest (mt_key_id signature);;
  mret (manifest, manifest_path).

(** ** Extraction *)

(** [str::lines] *)
Definition strip_cr (s : string) : string :=
  match str_rev s with String c r => if Ascii.eqb c (byte_of 13) then str_rev r else s | EmptyString => s end.
Definition lines (s : string) : list string :=
  let parts := str_split (byte_of 10) s in
  strip_cr <$> match last parts with Some EmptyString => take (length parts - 1) parts | _ => parts end.

Definition safe_member (m : string) : bool :=
  negb (starts_with "/" m) && negb (str_contains "//" m)
  && forallb (fun c => negb (String.eqb c ".") && negb (String.eqb c ".."))
       (filter (fun c => c <> ""%string) (str_split "/" m)).
Definition allowed_member (root_name m : string) : bool :=
  String.eqb m root_name
  || existsb (fun suffix => String.eqb m (root_name ++ suffix))
       ["/"; "/bin"; "/bin/"; "/bin/tysel"; "/bin/tysel-service"; "/bin/tysel-worker"; "/LICENSE"; "/README.md"; "/share";
        "/share/"; "/share/acceptance"; "/share/acceptance/"]%string
  || starts_with (root_name ++ "/share/acceptance/") m.
Fixpoint check_members (root_name : string) (l : list string) : result Failure () :=
  match l with
  | [] => Ok ()
  | m :: l' =>
      check (safe_member m) ("archive contains unsafe member " ++ m);;
      check (allowed_member root_name m) ("archive contains unexpected member " ++ m);;
      check_members root_name l'
  end.
Definition plain_entry (line : string) : bool :=
  match line with String c _ => Ascii.eqb c "-" || Ascii.eqb c "d" | EmptyString => false end.
Fixpoint check_details (l : list string) : result Failure () :=
  match l with
  | [] => Ok ()
  | line :: l' => check (plain_entry line) "archive contains a link or device";; check_details l'
  end.

(** [fs::read_dir]: the entries of a directory *)
Definition child_of (p q : string) : bool :=
  match beneath p q with Some (String _ name) => negb (str_is_empty name) && negb (str_contains_char "/" name) | _ => false end.
Definition fs_read_dir (p : string) : IO (list string) :=
  operation (fun t => match t !! p with
    | Some Directory => Ok (filter (fun q => child_of p q = true) (map_to_list t).*1, t)
    | Some _ => Err OtherIo
    | None => Err NotFound
    end) untorn.

Fixpoint sum_sizes (size : string -> IO Z) (total : Z) (l : list string) : IO Z :=
  match l with
  | [] => mret total
  | q :: l' =>
      n ← size q;
      total ← some_or (checked_add u64_max total n) (Bail "extracted release size overflow");
      sum_sizes size total l'
  end.
(** [tree_size]; the fuel is more than the length of any path. *)
Fixpoint tree_size (fuel : nat) (path : string) : IO Z :=
  match fuel with
  | O => throw (Bail "out of fuel")
  | S fuel' =>
      m ← fs_symlink_metadata path;
      require (negb (is_symlink m)) "extracted release contains a link";;
      if is_file m then mret (file_len m)
      else
        require (is_dir m) "extracted release contains a special file";;
        entries ← fs_read_dir path;
        sum_sizes (tree_size fuel') 0 entries
  end.
Definition longest_path (t : Tree) : nat := foldr Nat.max O (String.length <$> (map_to_list t).*1).

(** A command whose output is read *)
Definition run_tar (r : option (bool * string)) (message : string) : IO string :=
  '(success, stdout) ← some_or r (Io OtherIo);
  require success message;;
  mret stdout.

(** [extract_archive]: the extraction of a checked archive *)
Definition unpack (bytes staging root_name : string) : IO string :=
  let extract := join_path staging "extract" in
  fs_create_dir extract;;
  t ← get_tree;
  let '(status, t') := tar_extract w bytes extract t in
  set_tree t';;
  success ← some_or status (Io OtherIo);
  require success "cannot extract release archive";;
  let extracted := join_path extract root_name in
  size ← tree_size (S (longest_path t')) extracted;
  require (size <=? MAX_EXTRACTED_BYTES) "extracted release is oversized";;
  mret extracted.
(** [extract_archive] *)
Definition extract_archive (archive staging version : string) (target : Target) : IO string :=
  let root_name := ("tysel-" ++ version ++ "-" ++ canonical target)%string in
  t ← get_tree;
  let bytes := match read_act archive t with Ok (b, _) => b | Err _ => EmptyString end in
  listing ← run_tar (tar_list w bytes) "cannot list release archive";
  listing ← some_or (from_utf8 listing) (Context "archive member names are not UTF-8" (Foreign "utf8"));
  lift (check_members root_name (lines listing));;
  details ← run_tar (tar_details w bytes) "cannot inspect release archive";
  details ← some_or (from_utf8 details) (Foreign "utf8");
  lift (check_details (lines details));;
  unpack bytes staging root_name.

(** ** Confirmation *)

Definition confirm_with (o : Options) (non_interactive cancelled : string) : IO () :=
  if o_yes o then mret ()
  else
    require (terminal w) non_interactive;;
    line ← lift (answer w);
    require (existsb (String.eqb (trim line)) ["y"; "Y"; "yes"; "YES"]%string) cancelled.
Definition confirm (o : Options) : IO () := confirm_with o "non-interactive upgrade requires --yes" "upgrade cancelled".
Definition confirm_trust_refresh (o : Options) : IO () :=
  confirm_with o "non-interactive trust refresh requires --yes" "trust refresh cancelled".

(** ** Activation *)

Definition trust_file (l : ManagedLayout) : string := join_path (root l) "trust.json".

(** [write_bytes_atomically] *)
Definition new_name (path : string) : string := with_file_name path ("." ++ file_name path ++ "-new-" ++ dec_string (pid w)).
Definition write_bytes_atomically (path bytes : string) : IO () :=
  let temporary := new_name path in
  create_new temporary;;
  write_all temporary bytes;;
  sync_all;;
  fs_rename temporary path.
Definition write_state (l : ManagedLayout) (state : InstallState) : IO () :=
  lift (map_err (fun _ => Foreign "tysel_distribution") (state_validate state));;
  bytes ← lift (json_bytes (state_pretty state));
  write_bytes_atomically (state_file l) bytes.

(** [replace_link_target], [replace_link] *)
Definition new_link (l : ManagedLayout) : string := join_path (root l) (".bin-new-" ++ dec_string (pid w)).
Definition replace_link_target (l : ManagedLayout) (target : string) : IO () :=
  r ← attempt (fs_remove_file (new_link l));
  match r with
  | Ok () => mret ()
  | Err (Io NotFound) => mret ()
  | Err e => throw e
  end;;
  fs_symlink target (new_link l);;
  fs_rename (new_link l) (active_bin_link l).
Definition replace_link (l : ManagedLayout) (v : SemVersion) : IO () := replace_link_target l (active_bin_target v).

(** [post_switch_doctor] *)
Definition diagnostics_path (l : ManagedLayout) : string := join_path (root l) (".post-switch-doctor-" ++ dec_string (pid w)).
Definition run_doctor : IO ChildOutcome :=
  t ← get_tree; let '(o, t') := doctor w t in set_tree t';; mret o.
Definition post_switch_doctor (l : ManagedLayout) : IO () :=
  create_new (diagnostics_path l);;
  (if str_contains_char ":" (active_bin_link l) then throw (Foreign "join_paths") else mret ());;
  o ← run_doctor;
  r ← attempt (fs_read (diagnostics_path l));
  let output := match r with Ok b => default EmptyString (from_utf8 b) | Err _ => EmptyString end in
  ignore (fs_remove_file (diagnostics_path l));;
  match o with
  | NotStarted => throw (Io OtherIo)
  | TimedOut => throw (Bail "post-switch doctor timed out after 15 seconds")
  | Exited success _ =>
      require success ("post-switch doctor failed"
        ++ (if str_is_empty (trim output) then "" else ":" ++ newline ++ trim output))
  end.

(** ** Upgrade *)

Definition downgrade_requires_force (installed selected : Channel) (channel_was_explicit force : bool) : bool :=
  negb force && negb (channel_was_explicit && negb (bool_decide (selected = installed))).

Definition report (action : string) (changed : bool) (from to_ : string) (t : Target) (summary : string) : UpgradeReport :=
  {| ur_schema_version := 1; ur_action := action; ur_changed := changed; ur_from_version := from; ur_to_version := to_;
     ur_target := canonical t; ur_summary := summary |}.
Definition emit (o : Options) (r : UpgradeReport) : IO Printed :=
  mret (if o_json o then PrintedJson r else PrintedLine (ur_summary r)).

Definition installed_manifest_matches (destination selected : string) : IO bool :=
  r ← attempt (fs_read (join_path destination "release-manifest.json"));
  mret (match r with Ok installed => String.eqb installed selected | Err _ => false end).

(** The verified tree takes its place: [true] when it replaced a damaged one. *)
Definition publish_version (manifest_path extracted destination backup : string) (t : Target) (version selected_bytes : string) : IO bool :=
  m ← attempt (fs_symlink_metadata destination);
  match m with
  | Ok metadata =>
      require (is_dir metadata && negb (is_symlink metadata)) "managed version destination is not a directory";;
      verified ← attempt (verify_installation (identity w) (detected w) manifest_path destination (canonical t) version);
      matches ← (if is_ok verified then installed_manifest_matches destination selected_bytes else mret false);
      (if negb matches then
         context "quarantine damaged version directory" (fs_rename destination backup);;
         r ← attempt (fs_rename extracted destination);
         match r with
         | Err e => ignore (fs_rename backup destination);; throw (Context "publish repaired version directory" e)
         | Ok () => mret true
         end
       else mret false)
  | Err (Io NotFound) =>
      context "publish verified version directory" (fs_rename extracted destination);;
      mret false
  | Err e => throw (Context "inspect managed version destination" e)
  end.

(** The switch: link, state, trust, doctor *)
Definition activate (l : ManagedLayout) (next : SemVersion) (new_state : InstallState) (refreshed_trust : string) : IO () :=
  replace_link l next;;
  write_state l new_state;;
  (refreshed ← fs_read refreshed_trust; write_bytes_atomically (trust_file l) refreshed);;
  post_switch_doctor l.
(** What a failed switch puts back *)
Definition restore (l : ManagedLayout) (old_link state_bytes previous_trust destination backup : string) (replaced : bool) : IO () :=
  ignore (replace_link_target l old_link);;
  ignore (write_bytes_atomically (state_file l) state_bytes);;
  ignore (write_bytes_atomically (trust_file l) previous_trust);;
  (if replaced then
     ignore (fs_remove_dir_all destination);;
     ignore (fs_rename backup destination)
   else mret ()).

(** The switch, or what it put back *)
Definition switch (l : ManagedLayout) (next : SemVersion) (new_state : InstallState)
    (refreshed_trust old_link state_bytes previous_trust destination backup : string) (replaced : bool) : IO () :=
  r ← attempt (activate l next new_state refreshed_trust);
  match r with
  | Err e =>
      restore l old_link state_bytes previous_trust destination backup replaced;;
      throw (Context "upgrade activation failed; previous release was restored" e)
  | Ok () => mret ()
  end.

(** The archive of the asset, downloaded and authenticated *)
Definition fetch_archive (staging trust : string) (manifest : ReleaseManifest J) (asset : ReleaseAsset) (t : Target) : IO string :=
  require (ra_byte_size asset <=? MAX_ARCHIVE_BYTES) "release archive is oversized";;
  let archive := join_path staging ("tysel-" ++ rm_version manifest ++ "-" ++ canonical t ++ ".tar.gz") in
  download_to GetArchive (ra_archive_url asset) archive MAX_ARCHIVE_BYTES;;
  m ← fs_metadata archive;
  require (file_len m =? ra_byte_size asset) "archive size mismatch";;
  h ← hash_file archive;
  require (String.eqb h (ra_sha256 asset)) "archive SHA-256 mismatch";;
  let signature := with_file_name archive (file_name archive ++ ".sig.json") in
  download_to GetArchiveSig (ms_url (ra_signature asset)) signature (1024 * 1024);;
  now ← now_unix GetArchiveSig;
  _ ← verify_release_artifact_signature archive trust (canonical t) now;
  mret archive.

(** The verified release in the staging area, with the bytes and the hash of its manifest *)
Definition stage_release (staging trust manifest_path : string) (manifest : ReleaseManifest J) (asset : ReleaseAsset) (t : Target)
    : IO (string * (string * string)) :=
  archive ← fetch_archive staging trust manifest asset t;
  extracted ← extract_archive archive staging (rm_version manifest) t;
  verify_installation (identity w) (detected w) manifest_path extracted (canonical t) (rm_version manifest);;
  fs_copy manifest_path (join_path extracted "release-manifest.json");;
  selected_bytes ← fs_read manifest_path;
  selected_sha ← hash_file (join_path extracted "release-manifest.json");
  mret (extracted, (selected_bytes, selected_sha)).

(** [upgrade], once the user has confirmed *)
Definition install_release (l : ManagedLayout) (state : InstallState) (state_bytes trust staging : string) (o : Options)
    (refreshed_trust manifest_path : string) (manifest : ReleaseManifest J) (asset : ReleaseAsset) (current next : SemVersion)
    : IO Printed :=
  '(extracted, (selected_bytes, selected_sha)) ← stage_release staging refreshed_trust manifest_path manifest asset (is_target state);
  old_link ← context "read active bin link" (fs_read_link (active_bin_link l));
  previous_trust ← fs_read trust;
  let destination := version_dir l next in
  let backup := join_path staging "replaced-version" in
  replaced ← publish_version manifest_path extracted destination backup (is_target state) (rm_version manifest) selected_bytes;
  let new_state := {|
    is_schema_version := INSTALL_STATE_SCHEMA_VERSION; is_active_version := semver_to_string next;
    is_previous_version := if bool_decide (next = current) then is_previous_version state else Some (semver_to_string current);
    is_channel := rm_channel manifest; is_target := is_target state; is_install_method := Upgrade;
    is_manifest_sha256 := selected_sha |} in
  switch l next new_state refreshed_trust old_link state_bytes previous_trust destination backup replaced;;
  emit o (report "upgrade" true (semver_to_string current) (semver_to_string next) (is_target state)
    ("upgraded Tysel from " ++ semver_to_string current ++ " to " ++ semver_to_string next)).

(** The version is already active: at most the trust policy changes. *)
Definition already_current (l : ManagedLayout) (state : InstallState) (trust : string) (o : Options) (refreshed_trust : string)
    (current next : SemVersion) : IO Printed :=
  refreshed ← fs_read refreshed_trust;
  installed ← fs_read trust;
  let trust_changed := negb (String.eqb refreshed installed) in
  if trust_changed && negb (o_check o) then
    confirm_trust_refresh o;;
    write_bytes_atomically (trust_file l) refreshed;;
    emit o (report "trust-refresh" true (semver_to_string current) (semver_to_string next) (is_target state)
      "refreshed the installed release trust policy")
  else
    emit o (report "check" false (semver_to_string current) (semver_to_string next) (is_target state)
      (if trust_changed then "Tysel is up to date; a trust-policy refresh is available" else "Tysel is already up to date")).

(** What [upgrade] selects: the refreshed policy, the manifest, its asset and the two versions *)
Record Selection := {
  sel_trust : string; sel_manifest : ReleaseManifest J; sel_manifest_path : string; sel_asset : ReleaseAsset;
  sel_current : SemVersion; sel_next : SemVersion }.

(** [upgrade]: whether the manifest may replace the active version *)
Definition check_manifest (state : InstallState) (o : Options) (selected : Channel) (trust : string)
    (manifest : ReleaseManifest J) (manifest_path : string) : IO Selection :=
  current ← lift (map_err (fun _ => Foreign "tysel_distribution") (active_semver state));
  next ← parse_semver "parse selected release version" (rm_version manifest);
  updater ← parse_semver "parse updater version" (updater_version w);
  minimum ← parse_semver "parse minimum updater version" (rm_minimum_updater_version manifest);
  require (negb (version_lt updater minimum)) ("selected release requires tysel " ++ semver_to_string minimum ++ " or newer");;
  asset ← some_or (List.find (fun a => bool_decide (ra_target a = is_target state)) (rm_assets manifest))
    (Bail ("selected release has no asset for " ++ canonical (is_target state)));
  lift (ensure_compatible (detected w) (ra_platform asset) (is_target state));;
  require (negb (version_lt next current
      && downgrade_requires_force (is_channel state) selected (match o_channel o with Some _ => true | None => false end) (o_force o)))
    ("downgrading from " ++ semver_to_string current ++ " to " ++ semver_to_string next
       ++ " requires --force or an explicit --channel switch");;
  mret {| sel_trust := trust; sel_manifest := manifest; sel_manifest_path := manifest_path; sel_asset := asset;
          sel_current := current; sel_next := next |}.

(** [upgrade], up to the point where it reports, asks or acts *)
Definition select_release (state : InstallState) (trust staging : string) (o : Options) : IO Selection :=
  match o_version o with
  | Some version => _ ← parse_semver "invalid --version semantic version" version; mret ()
  | None => mret ()
  end;;
  lift (client w);;
  refreshed_trust ← resolve_trust_policy trust staging;
  selected ← match o_channel o with Some c => lift (parse_channel c) | None => mret (is_channel state) end;
  '(manifest, manifest_path) ← resolve_manifest refreshed_trust staging (o_version o) selected;
  check_manifest state o selected refreshed_trust manifest manifest_path.

(** [upgrade] *)
Definition upgrade (l : ManagedLayout) (state : InstallState) (state_bytes trust staging : string) (o : Options) : IO Printed :=
  sel ← select_release state trust staging o;
  if bool_decide (sel_next sel = sel_current sel) && negb (o_force o)
  then already_current l state trust o (sel_trust sel) (sel_current sel) (sel_next sel)
  else if o_check o then
    emit o (report "check" false (semver_to_string (sel_current sel)) (semver_to_string (sel_next sel)) (is_target state)
      ("upgrade available: " ++ semver_to_string (sel_current sel) ++ " -> " ++ semver_to_string (sel_next sel)))
  else
    confirm o;;
    install_release l state state_bytes trust staging o (sel_trust sel) (sel_manifest_path sel) (sel_manifest sel) (sel_asset sel)
      (sel_current sel) (sel_next sel).

(** [rollback]: the retained version, confirmed and verified *)
Definition select_previous (l : ManagedLayout) (state : InstallState) (o : Options) : IO (string * (SemVersion * ReleaseManifest J)) :=
  previous ← some_or (is_previous_version state) (Bail "no retained previous version");
  previous_version ← parse_semver "parse previous version" previous;
  _ ← lift (map_err (fun _ => Foreign "tysel_distribution") (active_semver state));
  confirm o;;
  bytes ← fs_read (version_manifest l previous_version);
  previous_manifest ← lift (load_manifest bytes);
  verify_installation (identity w) (detected w) (version_manifest l previous_version) (version_dir l previous_version)
    (canonical (is_target state)) previous;;
  mret (previous, (previous_version, previous_manifest)).

(** [rollback]: the hash of the manifest is taken after the link was switched. *)
Definition rollback (l : ManagedLayout) (state : InstallState) (state_bytes : string) (o : Options) : IO Printed :=
  '(previous, (previous_version, previous_manifest)) ← select_previous l state o;
  old_link ← context "read active bin link" (fs_read_link (active_bin_link l));
  replace_link l previous_version;;
  manifest_sha256 ← hash_file (version_manifest l previous_version);
  let rolled_back := {|
    is_schema_version := INSTALL_STATE_SCHEMA_VERSION; is_active_version := previous;
    is_previous_version := Some (is_active_version state); is_channel := rm_channel previous_manifest;
    is_target := is_target state; is_install_method := Upgrade; is_manifest_sha256 := manifest_sha256 |} in
  r ← attempt (write_state l rolled_back;; post_switch_doctor l);
  match r with
  | Err e =>
      ignore (replace_link_target l old_link);;
      ignore (write_bytes_atomically (state_file l) state_bytes);;
      throw (Context "rollback activation failed; original release was restored" e)
  | Ok () =>
      emit o (report "rollback" true (is_active_version state) previous (is_target state) ("rolled back Tysel to " ++ previous))
  end.

(** [validate_active_install], [validate_trust] *)
Definition validate_active_install (l : ManagedLayout) (state : InstallState) : IO () :=
  require (bool_decide (is_target state = current_target w)) "managed state targets another platform";;
  active ← lift (map_err (fun _ => Foreign "tysel_distribution") (active_semver state));
  link ← fs_read_link (active_bin_link l);
  require (String.eqb link (active_bin_target active)) "managed state and active bin link disagree";;
  verify_installation (identity w) (detected w) (version_manifest l active) (version_dir l active)
    (canonical (is_target state)) (is_active_version state).
Definition validate_trust (path : string) : IO () :=
  bytes ← context "managed trust.json is missing" (fs_read path);
  require (len bytes <=? 1024 * 1024) "managed trust policy is oversized";;
  policy ← some_or (policy_read bytes) (Foreign "serde_json");
  lift (validate_trust_policy policy).

(** [Path::parent] of a canonical path *)
Definition parent (p : string) : option string :=
  match rsplit_once "/" p with
  | Some (EmptyString, EmptyString) => None
  | Some (EmptyString, _) => Some "/"%string
  | Some (dir, _) => Some dir
  | None => None
  end.
(** [managed_root] from the canonical path of the executable *)
Definition managed_root (executable : string) : result Failure string :=
  bin ← ok_or (parent executable) (Bail "running executable has no bin directory");
  version ← ok_or (parent bin) (Bail "running executable has no version directory");
  versions ← ok_or (parent version) (Bail "running executable has no versions directory");
  check (String.eqb (file_name bin) "bin" && starts_with "v" (file_name version) && String.eqb (file_name versions) "versions")
    "tysel upgrade only supports installations managed by install.sh";;
  ok_or (parent versions) (Bail "managed installation has no root").

(** The options [run] refuses *)
Definition check_options (o : Options) : result Failure () :=
  match o_channel o with Some c => _ ← parse_channel c; Ok () | None => Ok () end;;
  check (negb (o_rollback o && (o_check o || match o_version o with Some _ => true | None => false end
      || match o_channel o with Some _ => true | None => false end || o_force o)))
    "--rollback cannot be combined with --check, --version, --channel, or --force";;
  check (negb (o_json o && negb (o_check o) && negb (o_yes o))) "--json mutation requires --yes to avoid interactive prompting";;
  check (negb (o_check o && o_force o)) "--force has no effect with --check".

(** [run]: an empty staging directory *)
Definition prepare_staging (staging : string) : IO () :=
  stale ← path_exists staging;
  (if (stale : bool) then context "remove stale upgrade staging directory" (fs_remove_dir_all staging) else mret ());;
  context "create upgrade staging directory" (fs_create_dir_all staging).
(** [run], once the lock is held *)
Definition run_locked (l : ManagedLayout) (o : Options) : IO Printed :=
  state_bytes ← context "read managed state.json" (fs_read (state_file l));
  state ← lift (load_state state_bytes);
  validate_active_install l state;;
  if o_rollback o then rollback l state state_bytes o
  else
    validate_trust (trust_file l);;
    staging ← lift (map_err (fun _ => Foreign "tysel_distribution") (staging_dir l ("upgrade-" ++ dec_string (pid w))));
    prepare_staging staging;;
    r ← attempt (upgrade l state state_bytes (trust_file l) staging o);
    ignore (fs_remove_dir_all staging);;
    lift r.
(** [run]; [acquire] and [release] are the lock's. *)
Definition run (acquire : ManagedLayout -> IO ()) (release : ManagedLayout -> IO ()) (executable : result Failure string) (o : Options)
    : IO Printed :=
  lift (check_options o);;
  exe ← lift executable;
  r ← lift (managed_root exe);
  l ← lift (map_err (fun _ => Foreign "tysel_distribution") (layout_new r));
  acquire l;;
  result ← attempt (run_locked l o);
  ignore (release l);;
  lift result.

End Upgrade.
