(* ===== verification/UpgradeThms.v ===== *)
(** * The switch to another release

    The link, the state and the trust policy are each replaced by one rename, so
    whatever fails each is the old one or the new one, and a failed switch whose
    restoration can work puts all three back. *)

From Stdlib Require Import ZArith Lia Ascii String.
From stdpp Require Import base tactics gmap strings list.
From S2P Require Import Prelude Bytes DurableTypes Capability Distribution Tap FsCap Files Evidence Signing Platform Upgrade CapabilityThms FilesThms PathsThms SigningThms.
Open Scope Z_scope.

(** ** Atomic replacement *)

(** What a replacement of [p] through the temporary [n] may have done: either the new
    node is there and the temporary is gone, or [p] is as it was. *)
Record replaced_by (p n : string) (new : Node) (r : result Failure ()) (s s' : Fs) : Prop := {
  rb_ok : r = Ok () -> tree s' !! p = Some new /\ tree s' !! n = None;
  rb_err : r <> Ok () -> tree s' !! p = tree s !! p;
  rb_rest : forall q, q <> p -> q <> n -> tree s' !! q = tree s !! q;
}.

Lemma remove_file_run p s s' :
  fs_remove_file p s = (Ok (), s') -> tree s' = delete p (tree s).
Proof. intros H. apply operation_inv in H as [([] & _ & H)|(k & ? & _)]; [|done]. by repeat case_match; simplify_eq. Qed.

Lemma symlink_run target p s s' :
  fs_symlink target p s = (Ok (), s') -> tree s' = <[p := Link target]> (tree s).
Proof. intros H. apply operation_inv in H as [([] & _ & H)|(k & ? & _)]; [|done]. by repeat case_match; simplify_eq. Qed.

(** Nothing but the path [n] differs. *)
Definition only (n : string) (s s' : Fs) : Prop := forall q, q <> n -> tree s' !! q = tree s !! q.

Lemma only_trans n s1 s2 s3 : only n s1 s2 -> only n s2 s3 -> only n s1 s3.
Proof. intros H1 H2 q Hq. by rewrite H2, H1. Qed.

Lemma only_keeps {A} n (op : IO A) s r s' : keeps (fun q => q <> n) op -> op s = (r, s') -> only n s s'.
Proof. intros Hk H q Hq. specialize (Hk s q Hq). by rewrite H in Hk. Qed.

Lemma replaced_early p n new e s s' : p <> n -> only n s s' -> replaced_by p n new (Err e) s s'.
Proof. intros Hpn H. split; [done|auto|auto]. Qed.

(** A rename of a node that is no directory *)
Lemma rename_replaces p n new s s1 r s' :
  p <> n -> only n s s1 -> tree s1 !! n = Some new -> new <> Directory -> fs_rename n p s1 = (r, s') ->
  replaced_by p n new r s s'.
Proof.
  intros Hpn Hs Hn Hd H. destruct r as [[]|e].
  - apply rename_file_run in H as [Ht _]; [|congruence]. rewrite Hn in Ht. cbn in Ht. split; [intros _; rewrite Ht|done|].
    + by rewrite lookup_insert_eq, lookup_insert_ne, lookup_delete_eq.
    + intros q Hq Hq'. rewrite Ht, lookup_insert_ne, lookup_delete_ne by done. auto.
  - apply rename_err_run in H. apply replaced_early; [done|]. intros q Hq. rewrite H. auto.
Qed.

(** Runs a step of the hypothesis; what a step that keeps all but [n] leaves. *)
Ltac run_step H Hr :=
  rewrite bind_run in H;
  match type of H with
  | (match ?m with _ => _ end) = _ => destruct m as [[?|?] ?] eqn:Hr
  end.

Ltac units := repeat match goal with u : () |- _ => destruct u end.
Ltac only_by n Hr O :=
  match type of Hr with
  | ?op ?s = (_, ?s1) => assert (only n s s1) as O by (eapply only_keeps; [|exact Hr]; auto with files)
  end.

Section Switch.
Context {SV : Semver} {SD : SemverDisplay} {SO : SemverOrd} {J : Type} {RJ : ReleaseJson J} {SH : Sha256} {ED : Ed25519} {SJ : SigningJson}.
Context (w : World).

Lemma write_bytes_inv p bytes s r s' :
  p <> new_name w p -> write_bytes_atomically w p bytes s = (r, s') ->
  replaced_by p (new_name w p) (File bytes) r s s'.
Proof.
  intros Hpn. unfold write_bytes_atomically. set (n := new_name w p) in *. intros H.
  run_step H H1; only_by n H1 O1.
  2:{ injection H as <- <-. by apply replaced_early. }
  run_step H H2; only_by n H2 O2.
  2:{ injection H as <- <-. eauto using replaced_early, only_trans. }
  run_step H H3; only_by n H3 O3.
  2:{ injection H as <- <-. eauto using replaced_early, only_trans. }
  units. apply write_all_run in H2. apply sync_run in H3.
  refine (rename_replaces p n (File bytes) s _ r s' Hpn _ _ _ H); [by eauto using only_trans| |done].
  by rewrite H3, H2, lookup_insert_eq.
Qed.

Lemma replace_link_inv l target s r s' :
  replace_link_target w l target s = (r, s') ->
  replaced_by (active_bin_link l) (new_link w l) (Link target) r s s'.
Proof.
  unfold replace_link_target. set (n := new_link w l). set (p := active_bin_link l).
  assert (p <> n) as Hpn by (intros E%join_inj; done). intros H.
  run_step H H1; [|by rewrite attempt_run in H1].
  rewrite attempt_run in H1. injection H1 as <- <-.
  assert (only n s (fs_remove_file n s).2) as O1 by (intros q Hq; apply (keeps_remove_file (fun q => q <> n)); auto).
  run_step H H2.
  2:{ injection H as <- <-. assert (f = (fs_remove_file n s).2) as -> by (repeat case_match; by injection H2).
      by apply replaced_early. }
  assert (f = (fs_remove_file n s).2) as -> by (repeat case_match; by injection H2).
  run_step H H3; only_by n H3 O3.
  2:{ injection H as <- <-. eauto using replaced_early, only_trans. }
  units. apply symlink_run in H3.
  refine (rename_replaces p n (Link target) s _ r s' Hpn _ _ _ H); [by eauto using only_trans| |done].
  by rewrite H3, lookup_insert_eq.
Qed.

(** ** When nothing fails *)

Lemma write_bytes_works p bytes t :
  p <> new_name w p -> t !! new_name w p = None -> t !! p <> Some Directory ->
  exists t', write_bytes_atomically w p bytes (still t) = (Ok (), still t').
Proof.
  intros Hpn Hn Hp. unfold write_bytes_atomically, create_new, write_all, sync_all, fs_rename, still. set (n := new_name w p) in *.
  rewrite bind_run, operation_clean, Hn, bind_run, operation_clean, bind_run, operation_clean, operation_clean.
  unfold rename_act. rewrite lookup_insert_eq, !lookup_insert_ne by done. repeat case_match; simplify_eq; eauto.
Qed.

Lemma replace_link_works l target t :
  t !! new_link w l = None -> t !! active_bin_link l <> Some Directory ->
  exists t', replace_link_target w l target (still t) = (Ok (), still t').
Proof.
  intros Hn Hp. unfold replace_link_target, fs_remove_file, fs_symlink, fs_rename, still.
  assert (active_bin_link l <> new_link w l) as Hpn by (intros E%join_inj; done). set (n := new_link w l) in *.
  rewrite bind_run, attempt_run, operation_clean, Hn. cbn [fst snd].
  rewrite bind_run, ret_run, bind_run, operation_clean, Hn, operation_clean. unfold rename_act. rewrite lookup_insert_eq, lookup_insert_ne by done.
  repeat case_match; simplify_eq; eauto.
Qed.

Lemma clean_write_bytes p bytes : clean (write_bytes_atomically w p bytes).
Proof. unfold write_bytes_atomically, create_new, write_all, sync_all, fs_rename. eauto 10 with files. Qed.

Lemma clean_replace_link l target : clean (replace_link_target w l target).
Proof.
  apply clean_bind; [apply clean_attempt, clean_operation|]. intros r. apply clean_bind.
  - repeat case_match; auto with files.
  - intros _. apply clean_bind; [|intros _]; apply clean_operation.
Qed.

(** Putting the old node back, if it still is there or can be put there *)
Lemma put_back (op : IO ()) p n node t :
  clean op -> (forall r t', op (still t) = (r, still t') -> replaced_by p n node r (still t) (still t')) ->
  (t !! n = None -> t !! p <> Some Directory -> exists t', op (still t) = (Ok (), still t')) ->
  t !! p = Some node \/ t !! n = None /\ t !! p <> Some Directory ->
  exists t', ignore op (still t) = (Ok (), still t') /\ t' !! p = Some node /\ forall q, q <> p -> q <> n -> t' !! q = t !! q.
Proof.
  intros Hc Hi Hw Hor. destruct (Hc t) as (r & t' & H). exists t'. unfold ignore. rewrite H.
  pose proof (Hi _ _ H) as [Hok Herr Hrest]. split_and!; [done| |exact Hrest].
  destruct r as [[]|e]; [by apply Hok|]. cbn in Herr. rewrite Herr by done.
  destruct Hor as [?|[Hn Hp]]; [done|]. destruct (Hw Hn Hp) as [t2 H2]. congruence.
Qed.

Lemma put_back_file p bytes t :
  p <> new_name w p -> t !! p = Some (File bytes) \/ t !! new_name w p = None /\ t !! p <> Some Directory ->
  exists t', ignore (write_bytes_atomically w p bytes) (still t) = (Ok (), still t') /\ t' !! p = Some (File bytes)
    /\ forall q, q <> p -> q <> new_name w p -> t' !! q = t !! q.
Proof.
  intros Hpn. apply put_back; [apply clean_write_bytes|intros r t'; by apply write_bytes_inv|]. intros. by apply write_bytes_works.
Qed.

Lemma put_back_link l target t :
  t !! active_bin_link l = Some (Link target) \/ t !! new_link w l = None /\ t !! active_bin_link l <> Some Directory ->
  exists t', ignore (replace_link_target w l target) (still t) = (Ok (), still t') /\ t' !! active_bin_link l = Some (Link target)
    /\ forall q, q <> active_bin_link l -> q <> new_link w l -> t' !! q = t !! q.
Proof.
  apply put_back; [apply clean_replace_link|intros r t'; apply replace_link_inv|apply replace_link_works].
Qed.

(** ** The files of a managed installation *)

Context (l : ManagedLayout).

Lemma state_temp : new_name w (state_file l) = join_path (root l) (".state.json-new-" ++ dec_string (pid w)).
Proof. unfold new_name, state_file. by rewrite with_file_name_join, file_name_join. Qed.
Lemma trust_temp : new_name w (trust_file l) = join_path (root l) (".trust.json-new-" ++ dec_string (pid w)).
Proof. unfold new_name, trust_file. by rewrite with_file_name_join, file_name_join. Qed.

(** The link, the state, the trust policy, what they are replaced through, and the
    doctor's output: all in the root, all different. *)
Definition control_names : list string :=
  ["bin"; "state.json"; "trust.json"; ".bin-new-" ++ dec_string (pid w); ".state.json-new-" ++ dec_string (pid w);
   ".trust.json-new-" ++ dec_string (pid w); ".post-switch-doctor-" ++ dec_string (pid w)]%string.
Definition control (q : string) : Prop := exists a, a ∈ control_names /\ q = join_path (root l) a.

(** The doctor of a release writes its output and nothing else. *)
Definition doctor_confined : Prop := forall t q, q <> diagnostics_path w l -> (doctor w t).2 !! q = t !! q.

Ltac apart := rewrite ?state_temp, ?trust_temp;
  unfold active_bin_link, state_file, trust_file, new_link, diagnostics_path; intros ?%join_inj; discriminate.

Lemma keeps_doctor : doctor_confined -> keeps (fun q => q <> diagnostics_path w l) (post_switch_doctor w l).
Proof.
  intros Hd. unfold post_switch_doctor.
  assert (keeps (fun q => q <> diagnostics_path w l) (run_doctor w)) as Hrun.
  { intros s q Hq. unfold run_doctor. rewrite bind_run. unfold get_tree. specialize (Hd (tree s) q Hq).
    destruct (doctor w (tree s)) as [o t']. exact Hd. }
  apply keeps_bind; [auto with files|]. intros []. apply keeps_bind; [case_match; auto with files|]. intros [].
  apply keeps_bind; [done|]. intros o. apply keeps_bind; [auto with files|]. intros r.
  apply keeps_bind; [auto with files|]. intros []. destruct o; auto with files.
Qed.

(** The bytes [write_state] writes *)
Definition printed_state (st : InstallState) (b : string) : Prop :=
  state_validate st = Ok () /\ json_bytes (state_pretty st) = Ok b.

Lemma write_state_inv st s r s' :
  write_state w l st s = (r, s') ->
  (r <> Ok () /\ s' = s)
  \/ exists b, printed_state st b /\ replaced_by (state_file l) (new_name w (state_file l)) (File b) r s s'.
Proof.
  unfold write_state, printed_state. intros H. rewrite bind_run, lift_run in H.
  destruct (state_validate st) as [[]|e] eqn:Hv; cbn [map_err] in H; [|left; by injection H as <- <-].
  rewrite bind_run, lift_run in H. destruct (json_bytes (state_pretty st)) as [b|e] eqn:Hb; [|left; by injection H as <- <-].
  right. exists b. split; [done|]. eapply write_bytes_inv; [|done]. apart.
Qed.

Context (next : SemVersion) (st : InstallState) (rt refreshed : string).

(** How far a switch got *)
Inductive reached (s s' : Fs) : result Failure () -> Prop :=
| AtStart e : (forall q, q = active_bin_link l \/ q = state_file l \/ q = trust_file l -> tree s' !! q = tree s !! q) ->
    reached s s' (Err e)
| AtLink e : tree s' !! active_bin_link l = Some (Link (active_bin_target next)) -> tree s' !! new_link w l = None ->
    tree s' !! state_file l = tree s !! state_file l -> tree s' !! trust_file l = tree s !! trust_file l ->
    reached s s' (Err e)
| AtState e b : tree s' !! active_bin_link l = Some (Link (active_bin_target next)) -> tree s' !! new_link w l = None ->
    printed_state st b -> tree s' !! state_file l = Some (File b) -> tree s' !! new_name w (state_file l) = None ->
    tree s' !! trust_file l = tree s !! trust_file l -> reached s s' (Err e)
| AtTrust r b : tree s' !! active_bin_link l = Some (Link (active_bin_target next)) -> tree s' !! new_link w l = None ->
    printed_state st b -> tree s' !! state_file l = Some (File b) -> tree s' !! new_name w (state_file l) = None ->
    tree s' !! trust_file l = Some (File refreshed) -> tree s' !! new_name w (trust_file l) = None -> reached s s' r.

Lemma activate_reached s r s' :
  doctor_confined -> tree s !! rt = Some (File refreshed) -> ~ control rt ->
  activate w l next st rt s = (r, s') -> reached s s' r.
Proof.
  intros Hd Hrt Hout H. unfold activate in H.
  run_step H H1; apply replace_link_inv in H1 as [Hok1 Herr1 Hr1].
  2:{ injection H as <- <-. apply AtStart. intros q [->|[->| ->]]; [by apply Herr1|apply Hr1; apart..]. }
  units. destruct (Hok1 eq_refl) as [B1 N1]. clear Hok1 Herr1.
  run_step H H2; units; apply write_state_inv in H2 as [[? ->]|(b & Hb & [Hok2 Herr2 Hr2])]; try done.
  2:{ injection H as <- <-. apply AtLink; [done..| |]; apply Hr1; apart. }
  2:{ injection H as <- <-. apply AtLink; rewrite ?Herr2 by done; try (rewrite Hr2 by apart); try done; rewrite ?Hr1 by apart; done. }
  destruct (Hok2 eq_refl) as [B2 N2]. clear Hok2 Herr2.
  assert (forall q, q <> active_bin_link l -> q <> new_link w l -> q <> state_file l -> q <> new_name w (state_file l) ->
    tree f0 !! q = tree s !! q) as K by (intros; by rewrite Hr2, Hr1).
  assert (tree f0 !! rt = Some (File refreshed)) as Hrt'.
  { rewrite K, Hrt; [done|..]; intros ->; apply Hout; eexists; (split; [|done || by rewrite state_temp]); set_solver. }
  assert (tree f0 !! active_bin_link l = Some (Link (active_bin_target next)) /\ tree f0 !! new_link w l = None) as [B1' N1']
    by (split; by rewrite Hr2 by apart).
  run_step H H3.
  2:{ injection H as <- <-. rewrite bind_run in H3. destruct (fs_read rt f0) as [[x|x] f2] eqn:Hread.
      - apply write_bytes_inv in H3 as [_ Herr3 Hr3]; [|apart]. apply fs_read_run in Hread as [_ Hread]. rewrite Hread in *.
        eapply AtState; try done; rewrite ?Hr3 by apart; try done. rewrite Herr3 by done. apply K; apart.
      - injection H3 as <- <-. apply fs_read_err in Hread. eapply AtState; rewrite ?Hread; try done. apply K; apart. }
  units. rewrite bind_run in H3. destruct (fs_read rt f0) as [[x|x] f2] eqn:Hread; [|done].
  apply fs_read_run in Hread as [Hread Hsame]. unfold read_act in Hread. cbn [resolve_link MAX_LINKS] in Hread.
  rewrite Hrt' in Hread. injection Hread as <-. apply write_bytes_inv in H3 as [Hok3 _ Hr3]; [|apart].
  destruct (Hok3 eq_refl) as [B3 N3]. rewrite Hsame in Hr3.
  assert (forall q, q <> diagnostics_path w l -> tree s' !! q = tree f1 !! q) as Hdoc.
  { intros q Hq. pose proof (keeps_doctor Hd f1 q Hq) as Hk. by rewrite H in Hk. }
  eapply AtTrust; try done; rewrite Hdoc by apart; try done; rewrite Hr3 by apart; done.
Qed.

(** ** Restoration *)

Context (old_link state_bytes previous_trust destination backup : string) (replaced : bool).
Context (Hdest : entry_of (root l) destination = Some "versions"%string) (Hback : entry_of (root l) backup = Some ".staging"%string).

(** The version directory and the staging area hold none of the control files. *)
Lemma control_entry q : control q -> entry_of (root l) q <> Some "versions"%string /\ entry_of (root l) q <> Some ".staging"%string.
Proof.
  intros (a & Ha & ->). rewrite entry_name. unfold control_names in Ha.
  repeat (apply elem_of_cons in Ha as [->|Ha]; [split; discriminate|]). by apply not_elem_of_nil in Ha.
Qed.

Lemma keeps_version_restored : keeps control
  (if replaced then ignore (fs_remove_dir_all destination);; ignore (fs_rename backup destination) else mret ()).
Proof.
  assert (forall q, control q -> beneath destination q = None /\ beneath backup q = None) as Hq.
  { intros q [Hv Hs]%control_entry. split; eapply beneath_other; eauto. }
  destruct replaced; [|auto with files]. apply keeps_bind; [|intros []]; apply keeps_ignore.
  - apply keeps_remove_dir_all. intros q Hc. apply (Hq q Hc).
  - apply keeps_rename. intros q Hc. destruct (Hq q Hc). done.
Qed.

Lemma control_file a : a ∈ control_names -> control (join_path (root l) a).
Proof. by exists a. Qed.

Ltac is_control := rewrite ?state_temp, ?trust_temp; apply control_file; unfold control_names; set_solver.

(** A restoration that nothing disturbs puts back what was, or can be, replaced. *)
Lemma restore_works t :
  t !! active_bin_link l = Some (Link old_link) \/ t !! new_link w l = None /\ t !! active_bin_link l <> Some Directory ->
  t !! state_file l = Some (File state_bytes) \/ t !! new_name w (state_file l) = None /\ t !! state_file l <> Some Directory ->
  t !! trust_file l = Some (File previous_trust) \/ t !! new_name w (trust_file l) = None /\ t !! trust_file l <> Some Directory ->
  let t' := tree (restore w l old_link state_bytes previous_trust destination backup replaced (still t)).2 in
  t' !! active_bin_link l = Some (Link old_link) /\ t' !! state_file l = Some (File state_bytes)
  /\ t' !! trust_file l = Some (File previous_trust).
Proof.
  intros HB HS HT. destruct (put_back_link l old_link t HB) as (t1 & R1 & B1 & K1).
  destruct (put_back_file (state_file l) state_bytes t1) as (t2 & R2 & B2 & K2); [apart| |].
  { rewrite !K1 by apart. done. }
  destruct (put_back_file (trust_file l) previous_trust t2) as (t3 & R3 & B3 & K3); [apart| |].
  { rewrite !K2 by apart. rewrite !K1 by apart. done. }
  unfold restore. rewrite bind_run, R1, bind_run, R2, bind_run, R3. cbn zeta.
  rewrite !keeps_version_restored by is_control. cbn [tree still].
  split_and!; [|rewrite K3 by apart|]; [rewrite K3, K2 by apart|..]; done.
Qed.

(** Whatever fails, a restoration leaves each file as it was or puts the old one there. *)
Lemma ignore_replaced p n node (op : IO ()) s :
  (forall r s', op s = (r, s') -> replaced_by p n node r s s') ->
  (tree (ignore op s).2 !! p = Some node \/ tree (ignore op s).2 !! p = tree s !! p)
  /\ forall q, q <> p -> q <> n -> tree (ignore op s).2 !! q = tree s !! q.
Proof.
  intros H. unfold ignore. cbn [snd]. destruct (op s) as [r s'] eqn:E. destruct (H _ _ eq_refl) as [Hok Herr Hr].
  split; [|exact Hr]. destruct r as [[]|e]; [left; by apply Hok|right; by apply Herr].
Qed.

Lemma restore_whole s :
  let t' := tree (restore w l old_link state_bytes previous_trust destination backup replaced s).2 in
  (t' !! active_bin_link l = Some (Link old_link) \/ t' !! active_bin_link l = tree s !! active_bin_link l)
  /\ (t' !! state_file l = Some (File state_bytes) \/ t' !! state_file l = tree s !! state_file l)
  /\ (t' !! trust_file l = Some (File previous_trust) \/ t' !! trust_file l = tree s !! trust_file l).
Proof.
  unfold restore. rewrite bind_run.
  pose proof (ignore_replaced _ _ _ _ s (replace_link_inv l old_link s)) as [B1 K1].
  set (s1 := (ignore (replace_link_target w l old_link) s).2) in *.
  change (ignore (replace_link_target w l old_link) s) with (Ok (E:=Failure) (), s1). cbv beta iota. rewrite bind_run.
  pose proof (ignore_replaced _ _ _ _ s1 (fun r s' => write_bytes_inv (state_file l) state_bytes s1 r s' ltac:(apart))) as [B2 K2].
  set (s2 := (ignore (write_bytes_atomically w (state_file l) state_bytes) s1).2) in *.
  change (ignore (write_bytes_atomically w (state_file l) state_bytes) s1) with (Ok (E:=Failure) (), s2). cbv beta iota. rewrite bind_run.
  pose proof (ignore_replaced _ _ _ _ s2 (fun r s' => write_bytes_inv (trust_file l) previous_trust s2 r s' ltac:(apart))) as [B3 K3].
  set (s3 := (ignore (write_bytes_atomically w (trust_file l) previous_trust) s2).2) in *.
  change (ignore (write_bytes_atomically w (trust_file l) previous_trust) s2) with (Ok (E:=Failure) (), s3). cbv beta iota zeta.
  rewrite !keeps_version_restored by is_control.
  rewrite (K3 (active_bin_link l)), (K2 (active_bin_link l)), (K3 (state_file l)) by apart.
  rewrite (K1 (state_file l)) in B2 by apart. rewrite (K2 (trust_file l)), (K1 (trust_file l)) in B3 by apart. done.
Qed.

End Switch.

Section Outcome.
Context {SV : Semver} {SD : SemverDisplay} {SO : SemverOrd} {J : Type} {RJ : ReleaseJson J} {SH : Sha256} {ED : Ed25519} {SJ : SigningJson}.
Context (w : World) (l : ManagedLayout).

Lemma staging_entry transaction staging :
  staging_dir l transaction = Ok staging -> entry_of (root l) staging = Some ".staging"%string.
Proof. unfold staging_dir. destruct (_ || _); [done|]. intros [= <-]. by apply entry_join2. Qed.

Lemma staged_entry transaction staging name :
  staging_dir l transaction = Ok staging -> entry_of (root l) (join_path staging name) = Some ".staging"%string.
Proof. intros H. apply entry_joined; [done|]. by eapply staging_entry. Qed.

Lemma version_entry v : entry_of (root l) (version_dir l v) = Some "versions"%string.
Proof. by apply entry_join2. Qed.

Lemma staged_not_control q : entry_of (root l) q = Some ".staging"%string -> ~ control w l q.
Proof. intros Hq Hc. by apply control_entry in Hc as [_ ?]. Qed.

Context (next : SemVersion) (st : InstallState) (refreshed : string).

(** Where a switch stopped, each file can be put back ... *)
Lemma reached_restorable s s1 r old_link state_bytes previous_trust :
  reached w l next st refreshed s s1 r ->
  tree s !! active_bin_link l = Some (Link old_link) -> tree s !! state_file l = Some (File state_bytes) ->
  tree s !! trust_file l = Some (File previous_trust) ->
  let t := tree s1 in
  (t !! active_bin_link l = Some (Link old_link) \/ t !! new_link w l = None /\ t !! active_bin_link l <> Some Directory)
  /\ (t !! state_file l = Some (File state_bytes) \/ t !! new_name w (state_file l) = None /\ t !! state_file l <> Some Directory)
  /\ (t !! trust_file l = Some (File previous_trust) \/ t !! new_name w (trust_file l) = None /\ t !! trust_file l <> Some Directory).
Proof.
  intros H HB HS HT. cbn zeta. destruct H as [e H|e H1 H2 H3 H4|e b H1 H2 H3 H4 H5 H6|r b H1 H2 H3 H4 H5 H6 H7].
  - rewrite (H (active_bin_link l)), (H (state_file l)), (H (trust_file l)), HB, HS, HT by auto. auto.
  - rewrite H1, H3, H4. split_and!; first [by left|by right].
  - rewrite H1, H4, H6. split_and!; first [by left|by right].
  - rewrite H1, H4, H6. split_and!; first [by left|by right].
Qed.

(** ... and is whole. *)
Lemma reached_whole s s1 r :
  reached w l next st refreshed s s1 r ->
  (tree s1 !! active_bin_link l = tree s !! active_bin_link l
   \/ tree s1 !! active_bin_link l = Some (Link (active_bin_target next)))
  /\ (tree s1 !! state_file l = tree s !! state_file l
      \/ exists b, printed_state st b /\ tree s1 !! state_file l = Some (File b))
  /\ (tree s1 !! trust_file l = tree s !! trust_file l \/ tree s1 !! trust_file l = Some (File refreshed)).
Proof. intros []; split_and!; eauto. Qed.

End Outcome.

Section Switched.
Context {SV : Semver} {SD : SemverDisplay} {J : Type} {RJ : ReleaseJson J}.
Context (w : World) (l : ManagedLayout) (next : SemVersion) (st : InstallState) (refreshed old_link state_bytes previous_trust : string).
Context (transaction staging : string) (replaced : bool) (Hst : staging_dir l transaction = Ok staging) (Hd : doctor_confined w l).
Let rt := join_path staging "refreshed-trust.json".
Let run_switch := switch w l next st rt old_link state_bytes previous_trust (version_dir l next) (join_path staging "replaced-version") replaced.
Let run_restore := restore w l old_link state_bytes previous_trust (version_dir l next) (join_path staging "replaced-version") replaced.

(** A switch got all the way, or got somewhere and was restored from there. *)
Lemma switch_run s r s' :
  tree s !! rt = Some (File refreshed) -> run_switch s = (r, s') ->
  let s1 := (activate w l next st rt s).2 in
  (r = Ok () /\ reached w l next st refreshed s s' (Ok ()))
  \/ (r <> Ok () /\ s' = (run_restore s1).2 /\ exists e, reached w l next st refreshed s s1 (Err e)).
Proof.
  intros Hrt H. unfold run_switch, switch in H. rewrite bind_run, attempt_run in H.
  destruct (activate w l next st rt s) as [ra s1] eqn:Ha.
  apply activate_reached with (refreshed := refreshed) in Ha; [|done..|by eapply staged_not_control, staged_entry].
  cbn [fst snd] in *. destruct ra as [[]|e]; [left; by injection H as <- <-|right].
  rewrite bind_run in H. fold run_restore in H. destruct (run_restore s1) as [[[]|?] ?]; injection H as <- <-; eauto.
Qed.

(** Each of the three files is whole: as it was, the new one, or the one put back. *)
Lemma switch_whole s r s' :
  tree s !! rt = Some (File refreshed) -> run_switch s = (r, s') ->
  (tree s' !! active_bin_link l ∈ [tree s !! active_bin_link l; Some (Link (active_bin_target next)); Some (Link old_link)])
  /\ ((tree s' !! state_file l ∈ [tree s !! state_file l; Some (File state_bytes)])
      \/ exists b, printed_state st b /\ tree s' !! state_file l = Some (File b))
  /\ (tree s' !! trust_file l ∈ [tree s !! trust_file l; Some (File refreshed); Some (File previous_trust)]).
Proof.
  intros Hrt H. destruct (switch_run s r s' Hrt H) as [[-> Hr]|(Hr & -> & e & He)].
  - apply reached_whole in Hr as ([->| ->] & [->|(b & Hb & ->)] & [->| ->]); split_and!; try (left; set_solver); set_solver.
  - pose proof (restore_whole w l old_link state_bytes previous_trust (version_dir l next) (join_path staging "replaced-version") replaced
      (version_entry l next) (staged_entry l transaction staging "replaced-version" Hst) (activate w l next st rt s).2) as (WB & WS & WT).
    apply reached_whole in He as (RB & RS & RT). unfold run_restore. split_and!.
    + destruct WB as [->| ->]; [set_solver|]. destruct RB as [->| ->]; set_solver.
    + destruct WS as [->| ->]; [left; set_solver|]. destruct RS as [->|?]; [left; set_solver|by right].
    + destruct WT as [->| ->]; [set_solver|]. destruct RT as [->| ->]; set_solver.
Qed.

End Switched.

(** C6. The switch to a release is all or nothing, whatever fails on the way: when it
    succeeds the link, the state and the trust policy are the new ones; when it fails
    each of them is still whole, the old one or the new one; and when nothing
    disturbs the restoration all three are the old ones. *)
Theorem switch_all_or_nothing `{SV : Semver, SD : SemverDisplay, RJ : ReleaseJson J} (w : World) l next st refreshed
    old_link state_bytes previous_trust transaction staging replaced s r s' :
  let rt := join_path staging "refreshed-trust.json" in
  doctor_confined w l -> staging_dir l transaction = Ok staging ->
  tree s !! active_bin_link l = Some (Link old_link) -> tree s !! state_file l = Some (File state_bytes) ->
  tree s !! trust_file l = Some (File previous_trust) -> tree s !! rt = Some (File refreshed) ->
  switch w l next st rt old_link state_bytes previous_trust (version_dir l next) (join_path staging "replaced-version") replaced s
    = (r, s') ->
  (r = Ok () -> tree s' !! active_bin_link l = Some (Link (active_bin_target next))
     /\ (exists b, printed_state st b /\ tree s' !! state_file l = Some (File b))
     /\ tree s' !! trust_file l = Some (File refreshed))
  /\ (r <> Ok () -> faults (activate w l next st rt s).2 = [] ->
     forall q, q = active_bin_link l \/ q = state_file l \/ q = trust_file l -> tree s' !! q = tree s !! q)
  /\ (tree s' !! active_bin_link l = tree s !! active_bin_link l
      \/ tree s' !! active_bin_link l = Some (Link (active_bin_target next)))
  /\ (tree s' !! state_file l = tree s !! state_file l
      \/ exists b, printed_state st b /\ tree s' !! state_file l = Some (File b))
  /\ (tree s' !! trust_file l = tree s !! trust_file l \/ tree s' !! trust_file l = Some (File refreshed)).
Proof.
  intros rt. subst rt. intros Hd Hst HB HS HT Hrt H.
  pose proof (switch_whole _ _ _ _ _ _ _ _ _ _ _ Hst Hd _ _ _ Hrt H) as (WB & WS & WT).
  rewrite HB, HS, HT in *. split_and!.
  - intros ->. destruct (switch_run _ _ _ _ _ _ _ _ _ _ _ Hst Hd _ _ _ Hrt H) as [[_ Hr]|(Hr & _)]; [|done].
    inversion Hr; subst; eauto.
  - intros Hr Hf. destruct (switch_run _ _ _ _ _ _ _ _ _ _ _ Hst Hd _ _ _ Hrt H) as [[? _]|(_ & -> & e & He)]; [done|].
    revert Hf He. generalize (activate w l next st (join_path staging "refreshed-trust.json") s).2. intros s1 Hf He.
    assert (s1 = still (tree s1)) as -> by (destruct s1; cbn in *; by subst). cbn [tree still] in *.
    destruct (reached_restorable _ _ _ _ _ _ _ _ _ _ _ He HB HS HT) as (RB & RS & RT).
    destruct (restore_works w l old_link state_bytes previous_trust (version_dir l next) (join_path staging "replaced-version") replaced
      (version_entry l next) (staged_entry l transaction staging "replaced-version" Hst) (tree s1) RB RS RT) as (EB & ES & ET).
    intros q [->|[->| ->]]; congruence.
  - set_solver.
  - destruct WS as [WS|WS]; [left; set_solver|by right].
  - set_solver.
Qed.
