(* ===== verification/UpgradeRunThms.v ===== *)
(** * What an upgrade changes

    Everything before the switch happens in the staging area; the trust policy only
    ever moves to an authenticated successor. *)

From Stdlib Require Import ZArith Lia Ascii String.
From stdpp Require Import base tactics relations gmap strings list.
From S2P Require Import Prelude Bytes DurableTypes Capability Distribution Tap FsCap Files Evidence Signing Platform Upgrade CapabilityThms FilesThms PathsThms EvidenceThms SigningThms UpgradeThms.
Open Scope Z_scope.

Ltac keep_step :=
  first [ assumption | solve [auto 2 with files] | simple apply keeps_bind; [|intros ?] | simple apply keeps_context | simple apply keeps_attempt
        | simple apply keeps_ignore | match goal with |- keeps _ (match ?x with _ => _ end) => destruct x end ].
Ltac keep := repeat keep_step.

(** A run that succeeded passed its requirement. *)
Ltac pass_require H :=
  rewrite require_bind in H;
  match type of H with (if ?b then _ else _) = _ => let E := fresh "Hreq" in destruct b eqn:E; [|done] end.

(** ** Reading *)

Section Reading.
Context {SV : Semver} {SD : SemverDisplay} {SO : SemverOrd} {J : Type} {RJ : ReleaseJson J} {SH : Sha256} {ED : Ed25519} {SJ : SigningJson}.
Context (P : string -> Prop).

Lemma keeps_get_tree : keeps P get_tree.
Proof. by intros s q. Qed.
#[local] Hint Resolve keeps_get_tree : files.
Lemma keeps_signing_json {D} (from_slice : string -> option D) p : keeps P (read_signing_json from_slice p).
Proof. unfold read_signing_json, read_signing_document. keep. Qed.
#[local] Hint Resolve keeps_signing_json : files.
Lemma keeps_verify_metadata a b c now : keeps P (verify_release_metadata_signature a b c now).
Proof. unfold verify_release_metadata_signature, read_signing_document. keep. Qed.
Lemma keeps_verify_artifact a b c now : keeps P (verify_release_artifact_signature a b c now).
Proof. unfold verify_release_artifact_signature, read_bounded_artifact. keep. Qed.
Lemma keeps_hash p : keeps P (hash_file p).
Proof. unfold hash_file. keep. Qed.
#[local] Hint Resolve keeps_hash : files.

Lemma keeps_check_files r fs : keeps P (check_files r fs).
Proof. induction fs as [|f fs IH]; cbn [check_files]; unfold path_is_file; keep. Qed.
Lemma keeps_identities identity r bs : keeps P (query_identities identity r bs).
Proof. induction bs as [|b bs IH]; cbn [query_identities]; unfold read_build_info; keep. Qed.
#[local] Hint Resolve keeps_check_files keeps_identities : files.
Lemma keeps_verify_installation identity detected m r t v : keeps P (verify_installation identity detected m r t v).
Proof. unfold verify_installation. keep. Qed.

Lemma keeps_read_dir p : keeps P (fs_read_dir p).
Proof. apply keeps_operation; [|done]. intros t a t' q H _. by repeat case_match; simplify_eq. Qed.
#[local] Hint Resolve keeps_read_dir : files.
Lemma keeps_sum_sizes size total ps : (forall p, keeps P (size p)) -> keeps P (sum_sizes size total ps).
Proof. intros H. revert total. induction ps as [|p ps IH]; intros total; cbn [sum_sizes]; keep. Qed.
Lemma keeps_tree_size fuel p : keeps P (tree_size fuel p).
Proof. revert p. induction fuel as [|fuel IH]; intros p; cbn [tree_size]; keep. by apply keeps_sum_sizes. Qed.

End Reading.
#[export] Hint Resolve keeps_get_tree keeps_signing_json keeps_verify_metadata keeps_verify_artifact keeps_hash keeps_verify_installation
  keeps_tree_size : files.

(** ** Staging *)

Section Staging.
Context {SV : Semver} {SD : SemverDisplay} {SO : SemverOrd} {J : Type} {RJ : ReleaseJson J} {SH : Sha256} {ED : Ed25519} {SJ : SigningJson}.
Context (w : World).

(** [tar] extracts beneath its directory an archive whose members are safe names of
    files and directories. *)
Definition tar_confined : Prop := forall bytes dir t listing details members entries q,
  tar_list w bytes = Some (true, listing) -> from_utf8 listing = Some members -> Forall (fun m => safe_member m = true) (lines members) ->
  tar_details w bytes = Some (true, details) -> from_utf8 details = Some entries -> Forall (fun e => plain_entry e = true) (lines entries) ->
  beneath dir q = None -> (tar_extract w bytes dir t).2 !! q = t !! q.

(** An archive whose listing holds safe names, and whose details files and directories only *)
Definition accepted_archive (bytes : string) : Prop := exists listing details members entries,
  tar_list w bytes = Some (true, listing) /\ from_utf8 listing = Some members /\ Forall (fun m => safe_member m = true) (lines members)
  /\ tar_details w bytes = Some (true, details) /\ from_utf8 details = Some entries /\ Forall (fun e => plain_entry e = true) (lines entries).
(** Nothing but files and directories comes out of it. *)
Definition tar_plain : Prop := forall bytes dir t q target,
  accepted_archive bytes -> (tar_extract w bytes dir t).2 !! q = Some (Link target) -> t !! q = Some (Link target).

Lemma check_members_safe root_name ms : check_members root_name ms = Ok () -> Forall (fun m => safe_member m = true) ms.
Proof.
  induction ms as [|m ms IH]; cbn [check_members]; [constructor|].
  rewrite !then_ok, check_ok. intros (? & _ & ?). constructor; auto.
Qed.
Lemma check_details_plain es : check_details es = Ok () -> Forall (fun e => plain_entry e = true) es.
Proof.
  induction es as [|e es IH]; cbn [check_details]; [constructor|]. rewrite then_ok, check_ok. intros (? & ?). constructor; auto.
Qed.

Context (P : string -> Prop).

Lemma keeps_download d url dest limit : ~ P dest -> keeps P (download_to w d url dest limit).
Proof. intros H. unfold download_to. keep. Qed.
Lemma keeps_now d : keeps P (now_unix w d).
Proof. apply keeps_lift. Qed.
#[local] Hint Resolve keeps_now keeps_download : files.

Lemma keeps_resolve_trust current staging :
  ~ P (join_path staging "refreshed-trust.json") -> ~ P (join_path staging "refreshed-trust.json.sig.json") ->
  keeps P (resolve_trust_policy w current staging).
Proof. intros H1 H2. unfold resolve_trust_policy. keep. Qed.

Lemma keeps_resolve_manifest trust staging requested selected :
  (forall n, n ∈ ["channel-pointer.json"; "channel-pointer.json.sig.json"; "selected-release-manifest.json";
     "selected-release-manifest.json.sig.json"]%string -> ~ P (join_path staging n)) ->
  keeps P (resolve_manifest w trust staging requested selected).
Proof.
  intros H. assert (~ P (join_path staging "channel-pointer.json")) by (apply H; set_solver).
  assert (~ P (join_path staging "channel-pointer.json.sig.json")) by (apply H; set_solver).
  assert (~ P (join_path staging "selected-release-manifest.json")) by (apply H; set_solver).
  assert (~ P (join_path staging "selected-release-manifest.json.sig.json")) by (apply H; set_solver).
  unfold resolve_manifest, resolve_pointer, check_selection, ensure_channel, parse_semver. keep.
Qed.

Lemma keeps_confirm_with o a b : keeps P (confirm_with w o a b).
Proof. unfold confirm_with. keep. Qed.

End Staging.
#[export] Hint Resolve keeps_now keeps_download keeps_confirm_with : files.

(** ** Extraction *)

Section Extraction.

Lemma read_dir_run p s qs s' :
  fs_read_dir p s = (Ok qs, s') -> tree s' = tree s /\ forall q, q ∈ qs <-> child_of p q = true /\ is_Some (tree s !! q).
Proof.
  intros H. apply operation_inv in H as [(x & [= <-] & H)|(k & ? & _)]; [|done].
  destruct (tree s !! p) as [[| |]|]; simplify_eq. split; [done|]. intros q.
  rewrite list_elem_of_filter, list_elem_of_fmap. split.
  - intros (? & [x n] & -> & ?%elem_of_map_to_list). eauto.
  - intros (? & n & Hn). split; [done|]. exists (q, n). by rewrite elem_of_map_to_list.
Qed.

Lemma symlink_metadata_run p s m s' :
  fs_symlink_metadata p s = (Ok m, s') -> tree s' = tree s /\ exists n, tree s !! p = Some n /\ m = metadata_of n.
Proof.
  intros H. apply operation_inv in H as [(x & [= <-] & H)|(k & ? & _)]; [|done].
  destruct (tree s !! p) as [n|]; simplify_eq; eauto.
Qed.

(** A sum that was taken was taken of every entry. *)
Lemma sum_sizes_each size total ps s n s' :
  (forall p, keeps (fun _ => True) (size p)) -> sum_sizes size total ps s = (Ok n, s') ->
  forall q, q ∈ ps -> exists s1 k s2, tree s1 = tree s /\ size q s1 = (Ok k, s2).
Proof.
  intros Hk. revert total s. induction ps as [|p ps IH]; intros total s H q Hq; [by apply not_elem_of_nil in Hq|].
  cbn [sum_sizes] in H. run_step H H1; [|done]. pose proof (keeps_tree _ _ _ _ (Hk p) H1) as E.
  apply elem_of_cons in Hq as [->|Hq]; [eauto 10|]. run_step H H2; [|done].
  assert (tree f0 = tree f) as E2 by (unfold some_or in H2; rewrite lift_run in H2; by injection H2 as _ <-).
  destruct (IH _ _ H q Hq) as (s1 & k & s2 & E1 & Hs). exists s1, k, s2. split; [congruence|done].
Qed.

(** A measured tree holds no link among the entries of its top. *)
Lemma tree_size_no_link fuel p s n s' q target :
  tree_size fuel p s = (Ok n, s') -> child_of p q = true -> tree s !! p = Some Directory -> tree s !! q <> Some (Link target).
Proof.
  destruct fuel as [|fuel]; [done|]. intros H Hq Hp Hl. cbn [tree_size] in H. run_step H H1; [|done].
  apply symlink_metadata_run in H1 as [E1 (node & Hn & ->)]. rewrite Hp in Hn. injection Hn as <-. cbn [is_symlink metadata_of is_file is_dir] in H.
  rewrite bind_run, require_run in H. cbn [negb] in H. rewrite bind_run, require_run in H. cbv iota in H.
  run_step H H2; [|done]. apply read_dir_run in H2 as [E2 Hqs].
  destruct (sum_sizes_each _ _ _ _ _ _ (fun p => keeps_tree_size (fun _ => True) fuel p) H q) as (s1 & k & s2 & E3 & Hs).
  { apply Hqs. rewrite E1, Hl. eauto. }
  destruct fuel as [|fuel]; [done|]. cbn [tree_size] in Hs. run_step Hs H3; [|done].
  apply symlink_metadata_run in H3 as [_ (node & Hn & ->)]. rewrite E3, E2, E1, Hl in Hn. injection Hn as <-.
  by rewrite bind_run, require_run in Hs.
Qed.

Lemma longest_path_bound (t : Tree) q : is_Some (t !! q) -> (String.length q <= longest_path t)%nat.
Proof.
  intros [n Hn%elem_of_map_to_list]. unfold longest_path.
  assert (String.length q ∈ String.length <$> (map_to_list t).*1) as Hin.
  { apply list_elem_of_fmap_2. by apply (list_elem_of_fmap_2 fst _ (q, n)). }
  induction (String.length <$> (map_to_list t).*1) as [|x xs IH]; [by apply not_elem_of_nil in Hin|].
  apply elem_of_cons in Hin as [->|Hin]; cbn; [|apply IH in Hin]; lia.
Qed.

Lemma child_longer p q : child_of p q = true -> (String.length p < String.length q)%nat.
Proof.
  unfold child_of. destruct (beneath p q) as [[|c name]|] eqn:E; try done. intros _.
  apply beneath_some in E as [-> _]. rewrite append_length. cbn. lia.
Qed.

Lemma sum_sizes_err size total ps s e s' :
  (forall p, keeps (fun _ => True) (size p)) -> sum_sizes size total ps s = (Err e, s') ->
  e = Bail "extracted release size overflow" \/ exists q s1 s2, q ∈ ps /\ tree s1 = tree s /\ size q s1 = (Err e, s2).
Proof.
  intros Hk. revert total s. induction ps as [|p ps IH]; intros total s H; [done|].
  cbn [sum_sizes] in H. run_step H H1; pose proof (keeps_tree _ _ _ _ (Hk p) H1) as E.
  2:{ injection H as <- <-. right. exists p, s. eexists. split_and!; [by left|done|done]. }
  unfold some_or in H. run_step H H2; rewrite lift_run in H2.
  - injection H2 as _ <-. destruct (IH _ _ H) as [?|(q & s1 & s2 & Hq & E1 & Hs)]; [by left|right].
    exists q, s1, s2. split_and!; [by right|congruence|done].
  - injection H as <- <-. left. destruct (checked_add u64_max total a); by simplify_eq/=.
Qed.

Lemma tree_size_fuel fuel p s e s' :
  (1 <= fuel)%nat -> (longest_path (tree s) < fuel + String.length p)%nat -> tree_size fuel p s = (Err e, s') ->
  e <> Bail "out of fuel".
Proof.
  revert p s s'. induction fuel as [|fuel IH]; intros p s s' Hf Hl H; [lia|]. cbn [tree_size] in H.
  run_step H H1.
  2:{ injection H as <- <-. apply operation_inv in H1 as [(? & ? & _)|(k & [= ->] & _)]; done. }
  apply symlink_metadata_run in H1 as [E1 _]. rewrite bind_run, require_run in H.
  destruct (negb (is_symlink a)); [|by injection H as <- <-]. destruct (is_file a); [done|].
  rewrite bind_run, require_run in H. destruct (is_dir a); [|by injection H as <- <-]. run_step H H2.
  2:{ injection H as <- <-. apply operation_inv in H2 as [(? & ? & _)|(k & [= ->] & _)]; done. }
  apply read_dir_run in H2 as [E2 Hqs].
  apply sum_sizes_err in H as [->|(q & s1 & s2 & Hq & E3 & Hs)]; [done| |intros; apply keeps_tree_size].
  apply Hqs in Hq as [Hq%child_longer Hin]. rewrite E1 in Hin. apply longest_path_bound in Hin.
  eapply (IH q s1); [lia| |done]. rewrite E3, E2, E1. lia.
Qed.

(** The fuel [unpack] gives the walk is enough. *)
Lemma tree_size_total p s e s' : tree_size (S (longest_path (tree s))) p s = (Err e, s') -> e <> Bail "out of fuel".
Proof. apply tree_size_fuel; lia. Qed.

End Extraction.

Section Archive.
Context {SV : Semver} {SD : SemverDisplay} {SO : SemverOrd} {J : Type} {RJ : ReleaseJson J} {SH : Sha256} {ED : Ed25519} {SJ : SigningJson}.
Context (w : World) (Htar : tar_confined w).

Lemma canonical_ends_name t : exists d c, canonical t = (d ++ String c "")%string /\ Ascii.eqb c "/" = false.
Proof. destruct t; [exists "linux-x6"|exists "linux-arm6"|exists "darwin-x6"|exists "darwin-arm6"|exists "unsupporte"]; by eexists _. Qed.

(** What [tar] may be given: it stays beneath its directory. *)
Definition checked_archive (bytes : string) : Prop :=
  forall dir t q, beneath dir q = None -> (tar_extract w bytes dir t).2 !! q = t !! q.

Lemma extract_checks archive staging version target s r s' :
  extract_archive w archive staging version target s = (r, s') ->
  (s' = s /\ exists e, r = Err e)
  \/ exists bytes, accepted_archive w bytes /\ unpack w bytes staging ("tysel-" ++ version ++ "-" ++ canonical target) s = (r, s').
Proof.
  unfold extract_archive, run_tar. rewrite bind_run. unfold get_tree at 1.
  set (bytes := match read_act archive (tree s) with Ok (b, _) => b | Err _ => ""%string end). cbv zeta. intros H.
  rewrite bind_run, some_or_bind in H. destruct (tar_list w bytes) as [[[] listing]|] eqn:Hlist;
    rewrite ?require_bind in H; try (injection H as <- <-; by eauto). rewrite ret_run, some_or_bind in H.
  destruct (from_utf8 listing) as [members|] eqn:Hu; [|injection H as <- <-; by eauto]. rewrite lift_bind in H.
  destruct (check_members _ _) as [[]|] eqn:Hm; [|injection H as <- <-; by eauto]. apply check_members_safe in Hm.
  rewrite bind_run, some_or_bind in H. destruct (tar_details w bytes) as [[[] details]|] eqn:Hdet;
    rewrite ?require_bind in H; try (injection H as <- <-; by eauto). rewrite ret_run, some_or_bind in H.
  destruct (from_utf8 details) as [entries|] eqn:Hu2; [|injection H as <- <-; by eauto]. rewrite lift_bind in H.
  destruct (check_details _) as [[]|] eqn:He; [|injection H as <- <-; by eauto]. apply check_details_plain in He.
  right. exists bytes. split; [|done]. exists listing, details, members, entries. auto 10.
Qed.

Lemma accepted_checked bytes : accepted_archive w bytes -> checked_archive bytes.
Proof using Htar. intros (li & d & m & e & ? & ? & ? & ? & ? & ?) dir t q Hq. by eapply (Htar _ _ _ li d m e). Qed.

(** The extraction adds no link. *)
Lemma extract_no_link archive staging version target s r s' q x :
  tar_plain w -> extract_archive w archive staging version target s = (r, s') -> tree s' !! q = Some (Link x) -> tree s !! q = Some (Link x).
Proof.
  intros Hp [[-> _]|(bytes & Ha & H)]%extract_checks; [done|]. unfold unpack in H. set (dir := join_path staging "extract") in *.
  assert (forall q x, tree (fs_create_dir dir s).2 !! q = Some (Link x) -> tree s !! q = Some (Link x)) as K1.
  { intros q' x'. destruct (decide (q' = dir)) as [->|Hne].
    - destruct (fs_create_dir dir s) as [r1 s1] eqn:E. cbn [snd]. apply operation_inv in E as [(a & _ & E)|(k & _ & [->|[n ->]])]; [|done..].
      case_match; [done|]. injection E as _ <-. by rewrite lookup_insert_eq.
    - rewrite (keeps_create_dir (fun q => q <> dir)); [done|auto|done]. }
  run_step H H1; cbn [snd] in K1; [|injection H as <- <-; by apply K1].
  rewrite bind_run in H. unfold get_tree in H. specialize (Hp bytes dir (tree f) q x Ha).
  destruct (tar_extract w bytes dir (tree f)) as [status t']. cbn [snd] in Hp.
  rewrite bind_run in H. unfold set_tree, modify in H. cbv beta iota in H.
  assert (tree s' = t') as ->; [|auto].
  rewrite some_or_bind in H. destruct status as [[]|]; rewrite ?require_bind in H; try (by injection H as <- <-).
  run_step H H2; pose proof (keeps_tree _ _ _ _ (keeps_tree_size _ _ _) H2) as E2; cbn [tree] in E2; [|by injection H as <- <-].
  rewrite require_bind in H. destruct (a0 <=? MAX_EXTRACTED_BYTES); by injection H as <- <-.
Qed.

(** Only what is beneath [extract] changes, and the tree was measured. *)
Lemma unpack_run bytes staging root_name s r s' :
  checked_archive bytes -> unpack w bytes staging root_name s = (r, s') ->
  (forall q, beneath (join_path staging "extract") q = None -> tree s' !! q = tree s !! q)
  /\ forall extracted, r = Ok extracted -> extracted = join_path (join_path staging "extract") root_name
     /\ exists fuel n s1 s2, tree s1 = tree s' /\ tree_size fuel extracted s1 = (Ok n, s2).
Proof.
  intros Hc H. unfold unpack in H. set (dir := join_path staging "extract") in *. run_step H H1.
  all: assert (forall q, beneath dir q = None -> tree (fs_create_dir dir s).2 !! q = tree s !! q) as K1
    by (intros q Hq; apply (keeps_create_dir (fun q => beneath dir q = None)); [by rewrite beneath_self|done]).
  all: rewrite H1 in K1; cbn [snd] in K1.
  2:{ by injection H as <- <-. }
  rewrite bind_run in H. unfold get_tree in H. specialize (Hc dir (tree f)).
  destruct (tar_extract w bytes dir (tree f)) as [status t']. cbn [snd] in Hc.
  assert (forall q, beneath dir q = None -> t' !! q = tree s !! q) as K2 by (intros q Hq; by rewrite Hc, K1).
  rewrite bind_run in H. unfold set_tree, modify in H.
  rewrite some_or_bind in H. destruct status as [[]|]; rewrite ?require_bind in H; try (by injection H as <- <-).
  run_step H H2; pose proof (keeps_tree _ _ _ _ (keeps_tree_size _ _ _) H2) as E2; cbn [tree] in E2.
  2:{ injection H as <- <-. by rewrite E2. }
  rewrite require_bind in H. destruct (a0 <=? MAX_EXTRACTED_BYTES); injection H as <- <-; rewrite E2; [|done].
  split; [done|]. intros ? [= <-]. split; [done|]. eexists _, _, _, _. split; [|exact H2]. done.
Qed.

Lemma extract_run archive staging version target s r s' :
  extract_archive w archive staging version target s = (r, s') ->
  (forall q, beneath (join_path staging "extract") q = None -> tree s' !! q = tree s !! q)
  /\ forall extracted, r = Ok extracted ->
     extracted = join_path (join_path staging "extract") ("tysel-" ++ version ++ "-" ++ canonical target)
     /\ exists fuel n s1 s2, tree s1 = tree s' /\ tree_size fuel extracted s1 = (Ok n, s2).
Proof.
  intros [[-> [e ->]]|(bytes & Hc%accepted_checked & H)]%extract_checks; [split; [done|]; by intros|]. by eapply unpack_run.
Qed.

End Archive.

(** ** Up to the switch *)

Section Before.
Context {SV : Semver} {SD : SemverDisplay} {SO : SemverOrd} {J : Type} {RJ : ReleaseJson J} {SH : Sha256} {ED : Ed25519} {SJ : SigningJson}.
Context (w : World) (Htar : tar_confined w) (l : ManagedLayout) (transaction staging : string) (Hst : staging_dir l transaction = Ok staging).
Let rt := join_path staging "refreshed-trust.json".

(** What must not change before the switch: the control files and the policy it installs *)
Definition protected (q : string) : Prop := control w l q \/ q = rt.

(** Staging leaves alone all that is outside the staging area, and that policy. *)
Definition untouched (q : string) : Prop := entry_of (root l) q <> Some ".staging"%string \/ q = rt.

Lemma protected_untouched q : protected q -> untouched q.
Proof. intros [Hc| ->]; [left; by apply control_entry in Hc as [_ ?]|by right]. Qed.
Lemma not_untouched name : component name <> "refreshed-trust.json"%string -> ~ untouched (join_path staging name).
Proof.
  intros Hn [Hc|E].
  - apply Hc. by eapply staged_entry.
  - assert (entry_of staging (join_path staging name) = entry_of staging rt) as E2 by by rewrite E.
    unfold rt in E2. rewrite !entry_name in E2. by injection E2.
Qed.
Lemma untouched_outside name p q :
  name <> "refreshed-trust.json"%string -> entry_of staging p = Some name -> entry_of (root l) p = Some ".staging"%string ->
  untouched q -> beneath p q = None.
Proof.
  intros Hn Hp Hr [Hc| ->].
  - eapply beneath_other; [exact Hr|done].
  - eapply beneath_other; [exact Hp|]. unfold rt. rewrite entry_name. by intros [= ?].
Qed.

Lemma not_protected name : component name <> "refreshed-trust.json"%string -> ~ protected (join_path staging name).
Proof. intros Hn Hq%protected_untouched. by eapply not_untouched. Qed.

(** The protected files are outside any other entry of the staging area and outside the versions. *)
Lemma protected_outside name p q :
  name <> "refreshed-trust.json"%string -> entry_of staging p = Some name -> entry_of (root l) p = Some ".staging"%string ->
  protected q -> beneath p q = None.
Proof. intros Hn Hp Hr Hq%protected_untouched. by eapply untouched_outside. Qed.
Lemma protected_no_version v q : protected q -> beneath (version_dir l v) q = None.
Proof.
  intros Hq. eapply beneath_other; [apply version_entry|]. destruct Hq as [Hc| ->]; [by apply control_entry in Hc as [? _]|].
  unfold rt. by erewrite staged_entry.
Qed.

(** The names an archive is downloaded to *)
Lemma keeps_fetch_archive P trust (manifest : ReleaseManifest J) asset t :
  (forall name, ~ P (join_path staging ("tysel-" ++ name))) -> keeps P (fetch_archive w staging trust manifest asset t).
Proof.
  intros HP. unfold fetch_archive. rewrite with_suffix.
  set (name := ("tysel-" ++ rm_version manifest ++ "-" ++ canonical t ++ ".tar.gz")%string).
  assert (~ P (join_path staging name)) by apply HP.
  assert (~ P (join_path staging name ++ ".sig.json")%string).
  { rewrite join_prefix, append_assoc, <- join_prefix. apply HP. }
  keep.
Qed.

(** A copy onto a path that is no link changes that path and no other. *)
Lemma copy_keeps P a b s :
  ~ P b -> (in_file b (tree s) = false -> forall target, tree s !! b <> Some (Link target)) ->
  forall q, P q -> tree (fs_copy a b s).2 !! q = tree s !! q.
Proof.
  intros Hb Hl q Hq. assert (forall cut x t', copy_act cut a b (tree s) = Ok (x, t') -> t' !! q = tree s !! q) as Hact.
  { intros cut x t'. unfold copy_act. destruct (read_act a (tree s)) as [[bytes ?]|]; [|done]. change (mbind ?f (Ok ?y)) with (f y). cbv iota beta.
    destruct (in_file b (tree s)); [done|]. cbn [resolve_link MAX_LINKS].
    destruct (tree s !! b) as [[| |]|] eqn:E; try done; [|by destruct (Hl eq_refl target)|];
      intros [= _ <-]; by rewrite lookup_insert_ne by congruence. }
  destruct (fs_copy a b s) as [r s'] eqn:E. cbn [snd].
  apply operation_inv in E as [([] & _ & E)|(k & _ & [->|[n ->]])]; [by eapply Hact|done|].
  destruct (copy_act (str_take n) a b (tree s)) as [[x t']|] eqn:Ec; [by eapply Hact|done].
Qed.

Lemma extracted_child version target name :
  let extracted := join_path (join_path staging "extract") ("tysel-" ++ version ++ "-" ++ canonical target) in
  join_path extracted name = (extracted ++ String "/" name)%string.
Proof.
  cbv zeta. destruct (canonical_ends_name target) as (d & c & -> & Hc). rewrite (join_prefix (join_path staging "extract")).
  set (p := (_ ++ _)%string). assert (exists e, p = e ++ String c "")%string as [e ->].
  { unfold p. rewrite <- !append_assoc. by eexists. }
  unfold join_path. rewrite list_ascii_app, last_app. cbn [list_ascii_of_string last]. by rewrite Hc.
Qed.

Lemma measured_no_link fuel extracted name s n s' target :
  plain name = true -> tree_size fuel extracted s = (Ok n, s') -> in_file (extracted ++ String "/" name) (tree s) = false ->
  tree s !! (extracted ++ String "/" name)%string <> Some (Link target).
Proof.
  intros Hn H Hf. assert (child_of extracted (extracted ++ String "/" name) = true) as Hc.
  { unfold child_of, beneath. rewrite strip_prefix_app, Ascii.eqb_refl. apply andb_true_iff in Hn as [Hne Hn]. rewrite Hne. cbn.
    apply negb_true_iff. unfold str_contains_char. clear -Hn. induction name as [|c name IH]; [done|]. cbn [str_all str_any] in *.
    apply andb_true_iff in Hn as [Hc Hn]. apply negb_true_iff in Hc. by rewrite Ascii.eqb_sym, Hc, IH. }
  eapply tree_size_no_link; [done|done|]. unfold in_file in Hf.
  rewrite rsplit_once_app in Hf by by apply andb_true_iff in Hn as [_ ?].
  destruct fuel as [|fuel]; [done|]. cbn [tree_size] in H. run_step H H1; [|done].
  apply symlink_metadata_run in H1 as [_ (node & Hx & ->)]. rewrite Hx in *. rewrite require_bind in H. by destruct node.
Qed.

Lemma untouched_staged p name : entry_of staging p = Some name -> name <> "refreshed-trust.json"%string ->
  entry_of (root l) p = Some ".staging"%string -> ~ untouched p.
Proof. intros Hp Hn Hr Hq. eapply untouched_outside in Hq; [|done..]. by rewrite beneath_self in Hq. Qed.

(** The copy of the manifest into the measured release *)
Lemma manifest_copied a version target fuel s n s' s0 q :
  let extracted := join_path (join_path staging "extract") ("tysel-" ++ version ++ "-" ++ canonical target) in
  tree_size fuel extracted s = (Ok n, s') -> tree s = tree s0 -> untouched q ->
  tree (fs_copy a (join_path extracted "release-manifest.json") s0).2 !! q = tree s0 !! q.
Proof.
  intros extracted Hsize E Hq. apply (copy_keeps untouched); [| |done].
  - eapply untouched_staged; [by apply entry_joined, entry_join2|done|].
    apply entry_joined; [done|]. apply entry_joined; [done|]. by eapply staged_entry.
  - unfold extracted. rewrite extracted_child. fold extracted. rewrite <- E. intros Hf tgt. by eapply measured_no_link.
Qed.

Lemma stage_release_untouched trust manifest_path (manifest : ReleaseManifest J) asset t s r s' :
  stage_release w staging trust manifest_path manifest asset t s = (r, s') ->
  (forall q, untouched q -> tree s' !! q = tree s !! q)
  /\ forall extracted x, r = Ok (extracted, x) -> entry_of staging extracted = Some "extract"%string
     /\ entry_of (root l) extracted = Some ".staging"%string.
Proof.
  unfold stage_release. intros H. run_step H H1.
  all: assert (forall q, untouched q -> tree (fetch_archive w staging trust manifest asset t s).2 !! q = tree s !! q) as K1
    by (apply keeps_fetch_archive; intros; by apply not_untouched); rewrite H1 in K1; cbn [snd] in K1.
  2:{ by injection H as <- <-. }
  assert (entry_of (root l) (join_path staging "extract") = Some ".staging"%string) as Her by by eapply staged_entry.
  assert (forall q, untouched q -> beneath (join_path staging "extract") q = None) as Hout.
  { intros q Hq. eapply untouched_outside; [|by apply entry_join|done|done]. done. }
  run_step H H2; apply (extract_run w Htar) in H2 as [K2 Hex].
  2:{ injection H as <- <-. split; [|done]. intros q Hq. by rewrite K2, K1 by auto. }
  destruct (Hex _ eq_refl) as (-> & fuel & n & s1 & s2 & E1 & Hsize). clear Hex.
  run_step H H3; pose proof (keeps_tree _ _ _ _ (keeps_verify_installation _ _ _ _ _ _ _) H3) as E3.
  2:{ injection H as <- <-. split; [|done]. intros q Hq. by rewrite E3, K2, K1 by auto. }
  run_step H H4; [|injection H as <- <-; split; [|done]].
  all: match type of H4 with _ = (_, ?s4) => assert (forall q, untouched q -> tree s4 !! q = tree s !! q) as K4 end.
  1,3: intros q Hq; pose proof (manifest_copied manifest_path (rm_version manifest) t fuel s1 n s2 _ q Hsize (eq_trans E1 (eq_sym E3)) Hq) as Hc;
    rewrite H4 in Hc; cbn [snd] in Hc; by rewrite Hc, E3, K2, K1 by auto.
  2:{ done. }
  run_step H H5; pose proof (keeps_tree _ _ _ _ (keeps_fs_read _ _) H5) as E5.
  2:{ injection H as <- <-. split; [|done]. by rewrite E5. }
  run_step H H6; pose proof (keeps_tree _ _ _ _ (keeps_hash _ _) H6) as E6.
  2:{ injection H as <- <-. split; [|done]. by rewrite E6, E5. }
  injection H as <- <-. rewrite E6, E5. split; [done|]. intros ? ? [= <- _].
  split; [by apply entry_join2|]. by apply entry_joined.
Qed.

Lemma stage_release_run trust manifest_path (manifest : ReleaseManifest J) asset t s r s' :
  stage_release w staging trust manifest_path manifest asset t s = (r, s') ->
  (forall q, protected q -> tree s' !! q = tree s !! q)
  /\ forall extracted x, r = Ok (extracted, x) -> entry_of staging extracted = Some "extract"%string
     /\ entry_of (root l) extracted = Some ".staging"%string.
Proof. intros [K He]%stage_release_untouched. split; [|done]. intros q Hq. by apply K, protected_untouched. Qed.

Lemma keeps_publish manifest_path extracted next t version bytes :
  entry_of staging extracted = Some "extract"%string -> entry_of (root l) extracted = Some ".staging"%string ->
  keeps protected (publish_version w manifest_path extracted (version_dir l next) (join_path staging "replaced-version") t version bytes).
Proof.
  intros He Her. assert (forall q, protected q -> beneath extracted q = None) as Hx.
  { intros q Hq. by eapply (protected_outside "extract"). }
  assert (forall q, protected q -> beneath (join_path staging "replaced-version") q = None) as Hb.
  { intros q Hq. eapply protected_outside; [|by apply entry_join|by eapply staged_entry|done]. done. }
  assert (forall q, protected q -> beneath (version_dir l next) q = None) as Hv by (intros; by apply protected_no_version).
  assert (keeps protected (fs_rename extracted (version_dir l next))) by (apply keeps_rename; auto).
  assert (keeps protected (fs_rename (version_dir l next) (join_path staging "replaced-version"))) by (apply keeps_rename; auto).
  assert (keeps protected (fs_rename (join_path staging "replaced-version") (version_dir l next))) by (apply keeps_rename; auto).
  unfold publish_version, installed_manifest_matches. keep.
Qed.

End Before.

(** ** The trust policy *)

Section TrustPolicy.
Context {SH : Sha256} {ED : Ed25519} {SJ : SigningJson}.

(** [signature] is one of the document by a key the policy trusts at [now]. *)
Definition document_signed (p : TrustPolicy) (now : Z) (signature : ReleaseMetadataSignature) (d : string) : Prop := exists k,
  trusts p (mt_key_id signature) (mt_issued_at_unix signature) now k
  /\ bundle_hash d = mt_document_sha256 signature
  /\ verify_with k (mt_signature signature)
       (metadata_signature_message (mt_key_id signature) (mt_issued_at_unix signature) (mt_document_sha256 signature))
       "release metadata signature verification failed" = Ok ().
(** [signature] is one of the archive for the target by a key the policy trusts at [now]. *)
Definition archive_signed (p : TrustPolicy) (now : Z) (signature : ReleaseArtifactSignature) (target a : string) : Prop := exists k,
  trusts p (as_key_id signature) (as_issued_at_unix signature) now k
  /\ as_target signature = target /\ bundle_hash a = as_artifact_sha256 signature
  /\ verify_with k (as_signature signature)
       (artifact_signature_message (as_key_id signature) (as_issued_at_unix signature) (as_target signature) (as_artifact_sha256 signature))
       "release artifact signature verification failed" = Ok ().
(** A policy's trusted key signed the document. *)
Definition signed_document (p : TrustPolicy) (d : string) : Prop := exists signature now, document_signed p now signature d.
(** [b] holds a policy that succeeds the one of [cb] and is signed under it. *)
Definition succession (cb b : string) : Prop := exists p q,
  policy_read cb = Some p /\ policy_read b = Some q /\ succeeds p q /\ signed_document p b.

Lemma read_file_run p s b c s' : fs_read p s = (Ok c, s') -> tree s !! p = Some (File b) -> c = b /\ tree s' = tree s.
Proof.
  intros [H E]%fs_read_run Hp. split; [|done]. unfold read_act in H. cbn [resolve_link MAX_LINKS] in H. rewrite Hp in H. by injection H.
Qed.

Lemma read_document_run p s b c s' : read_signing_document p s = (Ok c, s') -> tree s !! p = Some (File b) -> c = b /\ tree s' = tree s.
Proof.
  unfold read_signing_document. intros H Hp. run_step H H1; [|done]. apply context_ok_run, metadata_run with (b := b) in H1 as [_ E1]; [|done].
  pass_require H. apply context_ok_run in H.
  destruct (read_file_run _ _ b _ _ H) as [-> E]; [by rewrite E1|]. by rewrite E, E1.
Qed.

Lemma read_json_run {D} (from_slice : string -> option D) p s b d s' :
  read_signing_json from_slice p s = (Ok d, s') -> tree s !! p = Some (File b) -> from_slice b = Some d /\ tree s' = tree s.
Proof.
  unfold read_signing_json. intros H Hp. run_step H H1; [|done]. apply read_document_run with (b := b) in H1 as [-> E]; [|done].
  unfold some_or in H. rewrite lift_run in H. destruct (from_slice b); [|done]. by injection H as <- <-.
Qed.

Lemma verify_metadata_run doc sig_path trust now s signature s' b pb :
  verify_release_metadata_signature doc sig_path trust now s = (Ok signature, s') ->
  tree s !! doc = Some (File b) -> tree s !! trust = Some (File pb) ->
  exists p, policy_read pb = Some p /\ document_signed p now signature b
    /\ forall sb, tree s !! sig_path = Some (File sb) -> metadata_sig_read sb = Some signature.
Proof.
  unfold verify_release_metadata_signature. intros H Hdoc Htrust. run_step H H1; [|done].
  pose proof (keeps_tree _ _ _ _ (keeps_signing_json _ _ _) H1) as E1.
  assert (forall sb, tree s !! sig_path = Some (File sb) -> metadata_sig_read sb = Some a) as Hsig
    by (intros sb Hsb; by apply read_json_run with (b := sb) in H1 as [? _]).
  pass_require H. pass_require H. pass_require H.
  run_step H H2; [|done]. apply read_document_run with (b := b) in H2 as [-> E2]; [|by rewrite E1].
  pass_require H. apply String.eqb_eq in Hreq2.
  run_step H H3; [|done]. apply read_json_run with (b := pb) in H3 as [Hp E3]; [|by rewrite E2, E1].
  rewrite lift_bind in H. destruct (trusted_release_key _ _ _ _) as [k|] eqn:Hk; [|done]. apply trusted_release_key_spec in Hk.
  rewrite lift_bind in H. destruct (verify_with _ _ _ _) as [[]|] eqn:Hv; [|done]. injection H as <- <-.
  eexists. split; [exact Hp|]. split; [by eexists|done].
Qed.

Lemma read_artifact_run p s b c s' : read_bounded_artifact p s = (Ok c, s') -> tree s !! p = Some (File b) -> c = b /\ tree s' = tree s.
Proof.
  unfold read_bounded_artifact. intros H Hp. run_step H H1; [|done]. apply context_ok_run, metadata_run with (b := b) in H1 as [_ E1]; [|done].
  do 3 pass_require H. apply context_ok_run in H. destruct (read_file_run _ _ b _ _ H) as [-> E]; [by rewrite E1|]. by rewrite E, E1.
Qed.

Lemma verify_artifact_run archive trust target now s signature s' b pb :
  verify_release_artifact_signature archive trust target now s = (Ok signature, s') ->
  tree s !! archive = Some (File b) -> tree s !! trust = Some (File pb) ->
  exists p, policy_read pb = Some p /\ archive_signed p now signature target b
    /\ forall sb, tree s !! (archive ++ ".sig.json")%string = Some (File sb) -> artifact_sig_read sb = Some signature.
Proof.
  unfold verify_release_artifact_signature. intros H Ha Htrust. rewrite lift_bind in H. destruct (validate_release_target target); [|done].
  run_step H H1; [|done]. pose proof (keeps_tree _ _ _ _ (keeps_signing_json _ _ _) H1) as E1.
  assert (forall sb, tree s !! (archive ++ ".sig.json")%string = Some (File sb) -> artifact_sig_read sb = Some a0) as Hsig
    by (intros sb Hsb; by apply read_json_run with (b := sb) in H1 as [? _]).
  do 2 pass_require H. rewrite lift_bind in H. destruct (validate_release_target _); [|done].
  rewrite require_bind in H. destruct (String.eqb (as_target a0) target) eqn:Ht; [|done]. apply String.eqb_eq in Ht. pass_require H.
  run_step H H2; [|done]. apply read_artifact_run with (b := b) in H2 as [-> E2]; [|by rewrite E1].
  rewrite require_bind in H. destruct (String.eqb (bundle_hash b) _) eqn:Hh; [|done]. apply String.eqb_eq in Hh.
  run_step H H3; [|done]. apply read_json_run with (b := pb) in H3 as [Hp E3]; [|by rewrite E2, E1].
  rewrite lift_bind in H. destruct (trusted_release_key _ _ _ _) as [k|] eqn:Hk; [|done]. apply trusted_release_key_spec in Hk.
  rewrite lift_bind in H. destruct (verify_with _ _ _ _) as [[]|] eqn:Hv; [|done]. injection H as <- <-.
  eexists. split; [exact Hp|]. split; [by exists k|done].
Qed.

End TrustPolicy.

Section Resolved.
Context {SH : Sha256} {ED : Ed25519} {SJ : SigningJson}.
Context (w : World).

Lemma download_run d url dest limit s s' :
  download_to w d url dest limit s = (Ok (), s') ->
  exists b, tree s' !! dest = Some (File b) /\ (exists announced, fetch w d url = Some (announced, b))
    /\ forall q, q <> dest -> tree s' !! q = tree s !! q.
Proof.
  unfold download_to. intros H. assert (only dest s s') as Ho.
  { eapply only_keeps; [|exact H]. apply keeps_download. auto. }
  rewrite some_or_bind in H. destruct (fetch w d url) as [[announced body]|]; [|done]. pass_require H.
  run_step H H1; [|done]. run_step H H2; [|done]. units. apply write_all_run in H2. rewrite require_bind in H. case_match eqn:Hlen; [|done].
  apply sync_run in H. exists body. split; [|by eauto]. rewrite H, H2, lookup_insert_eq. f_equal. f_equal. apply str_take_all.
  apply Z.leb_le in Hlen. unfold len in *. rewrite str_take_length in Hlen. lia.
Qed.

(** A resolved policy is the installed one or its authenticated successor. *)
Lemma resolve_trust_run current staging s rt s' cb :
  resolve_trust_policy w current staging s = (Ok rt, s') ->
  current <> join_path staging "refreshed-trust.json" -> current <> join_path staging "refreshed-trust.json.sig.json" ->
  tree s !! current = Some (File cb) ->
  rt = join_path staging "refreshed-trust.json"
  /\ exists b, tree s' !! rt = Some (File b) /\ (b = cb \/ succession cb b).
Proof.
  unfold resolve_trust_policy. intros H Hn1 Hn2 Hcur. set (r := join_path staging "refreshed-trust.json") in *.
  run_step H H1; [|done]. units. apply download_run in H1 as (b & B1 & _ & K1).
  run_step H H2; [|done]. units. apply download_run in H2 as (x & _ & _ & K2).
  assert (tree f0 !! r = Some (File b)) as Hr by (rewrite K2; [done|intros E%join_inj; done]).
  assert (tree f0 !! current = Some (File cb)) as Hc by by rewrite K2, K1. clear K1 K2 B1.
  unfold now_unix in H. rewrite lift_bind in H. destruct (clock w GetTrustSig) as [now|]; [|done].
  run_step H H3; [|done]. apply context_ok_run in H3. pose proof (keeps_tree _ _ _ _ (keeps_verify_metadata _ _ _ _ _) H3) as E3.
  apply verify_metadata_run with (b := b) (pb := cb) in H3 as (p & Hp & Hsigned & _); [|done..].
  run_step H H4; [|done]. apply context_ok_run in H4. pose proof (keeps_tree _ _ _ _ (keeps_verify_metadata _ _ _ _ _) H4) as E4.
  run_step H H5; [|done]. apply context_ok_run, read_file_run with (b := cb) in H5 as [-> E5]; [|by rewrite E4, E3].
  run_step H H6; [|done]. apply context_ok_run, read_file_run with (b := b) in H6 as [-> E6]; [|by rewrite E5, E4, E3].
  destruct (String.eqb b cb) eqn:Heq.
  - apply String.eqb_eq in Heq as ->. injection H as <- <-. split; [done|]. exists cb. split; [by rewrite E6, E5, E4, E3|by left].
  - rewrite bind_run, some_or_bind, Hp, some_or_bind in H. destruct (policy_read b) as [q|] eqn:Hq; [|done].
    rewrite lift_run in H. destruct (validate_trust_policy_transition p q) as [[]|] eqn:Ht; [|done]. injection H as <- <-.
    split; [done|]. exists b. split; [by rewrite E6, E5, E4, E3|right]. exists p, q. split_and!; [done..|by eexists _, _].
Qed.

End Resolved.
