(* ===== verification/UpgradeVersionThms.v ===== *)
(** * The version directory a failed switch puts back

    A damaged version directory is moved into the staging area before the verified
    one takes its place; a failed switch moves it back, entry by entry what it was. *)

From Stdlib Require Import ZArith Lia Ascii String.
From stdpp Require Import base tactics gmap strings list.
From S2P Require Import Prelude Bytes DurableTypes Capability Distribution Tap FsCap Files Evidence Signing Platform Upgrade CapabilityThms FilesThms PathsThms EvidenceThms SigningThms UpgradeThms UpgradeRunThms.
Open Scope Z_scope.

(** ** Moves of directories *)

Lemma rename_dir_run a b s s' :
  fs_rename a b s = (Ok (), s') -> tree s !! a = Some Directory -> tree s' = move_tree a b (tree s).
Proof.
  intros H Ha. apply operation_inv in H as [([] & _ & H)|(k & ? & _)]; [|done]. unfold rename_act in H. rewrite Ha in H.
  by repeat case_match; simplify_eq.
Qed.

Lemma rename_dir_still a b t :
  t !! a = Some Directory -> t !! b = None -> fs_rename a b (still t) = (Ok (), still (move_tree a b t)).
Proof. intros Ha Hb. unfold fs_rename, still. rewrite operation_clean. unfold rename_act. by rewrite Ha, Hb. Qed.

Lemma remove_dir_still p t :
  t !! p = Some Directory -> fs_remove_dir_all p (still t) = (Ok (), still (delete_all (entries_beneath p t) t)).
Proof. intros Hp. unfold fs_remove_dir_all, still. rewrite operation_clean. by rewrite Hp. Qed.

Section Version.
Context {SV : Semver} {SD : SemverDisplay} {J : Type} {RJ : ReleaseJson J} {SH : Sha256}.
Context (w : World) (l : ManagedLayout) (Hdoc : doctor_confined w l).
Context (transaction staging : string) (Hst : staging_dir l transaction = Ok staging).

(** ** What the switch leaves alone *)

Definition uncontrolled (q : string) : Prop := ~ control w l q.

Lemma keeps_replaced p n node (op : IO ()) :
  control w l p -> control w l n -> (forall s r s', op s = (r, s') -> replaced_by p n node r s s') -> keeps uncontrolled op.
Proof.
  intros Hp Hn H s q Hq. destruct (op s) as [r s'] eqn:E. apply H in E as [_ _ Hr]. cbn. apply Hr; intros ->; by apply Hq.
Qed.

Lemma named_control a : a ∈ control_names w -> control w l (join_path (root l) a).
Proof. by exists a. Qed.

Ltac is_control := rewrite ?state_temp, ?trust_temp; apply named_control; unfold control_names; set_solver.

Lemma keeps_link target : keeps uncontrolled (replace_link_target w l target).
Proof. eapply keeps_replaced; [| |intros s r s'; apply replace_link_inv]; is_control. Qed.
Lemma keeps_state_file bytes : keeps uncontrolled (write_bytes_atomically w (state_file l) bytes).
Proof.
  eapply keeps_replaced; [| |intros s r s'; apply write_bytes_inv; rewrite state_temp; intros E%join_inj; done]; is_control.
Qed.
Lemma keeps_trust_file bytes : keeps uncontrolled (write_bytes_atomically w (trust_file l) bytes).
Proof.
  eapply keeps_replaced; [| |intros s r s'; apply write_bytes_inv; rewrite trust_temp; intros E%join_inj; done]; is_control.
Qed.
Lemma keeps_doctor_run : keeps uncontrolled (post_switch_doctor w l).
Proof. intros s q Hq. apply keeps_doctor; [done|]. intros ->. apply Hq. is_control. Qed.

Lemma keeps_activate next st rt : keeps uncontrolled (activate w l next st rt).
Proof.
  pose proof keeps_link. pose proof keeps_state_file. pose proof keeps_trust_file. pose proof keeps_doctor_run.
  unfold activate, replace_link, write_state. keep.
Qed.

(** The three files are put back, without a fault, and nothing else is touched. *)
Lemma restore_files_still old_link sb pt destination backup (replaced : bool) t :
  exists t', restore w l old_link sb pt destination backup replaced (still t)
    = (if replaced then ignore (fs_remove_dir_all destination);; ignore (fs_rename backup destination) else mret ()) (still t')
    /\ forall q, uncontrolled q -> t' !! q = t !! q.
Proof.
  assert (forall (op : IO ()) t, clean op -> keeps uncontrolled op ->
    exists t', ignore op (still t) = (Ok (), still t') /\ forall q, uncontrolled q -> t' !! q = t !! q) as Hone.
  { intros op t0 Hc Hk. destruct (Hc t0) as (r & t' & E). exists t'. unfold ignore. rewrite E. split; [done|].
    intros q Hq. specialize (Hk (still t0) q Hq). by rewrite E in Hk. }
  destruct (Hone _ t (clean_replace_link w l old_link) (keeps_link old_link)) as (t1 & R1 & K1).
  destruct (Hone _ t1 (clean_write_bytes w (state_file l) sb) (keeps_state_file sb)) as (t2 & R2 & K2).
  destruct (Hone _ t2 (clean_write_bytes w (trust_file l) pt) (keeps_trust_file pt)) as (t3 & R3 & K3).
  exists t3. split; [|intros q Hq; by rewrite K3, K2, K1]. unfold restore. by rewrite bind_run, R1, bind_run, R2, bind_run, R3.
Qed.

(** ** The damaged version *)

Context (next : SemVersion) (extracted : string).
Context (Hex : entry_of staging extracted = Some "extract"%string) (Hexr : entry_of (root l) extracted = Some ".staging"%string).
Let destination := version_dir l next.
Let backup := join_path staging "replaced-version".

Lemma entry_below r p a rest : entry_of r p = Some a -> below rest -> entry_of r (p ++ rest) = Some a.
Proof. intros Hp Hr. eapply entry_deeper; [exact Hp|]. by rewrite beneath_below. Qed.

Lemma backup_entry : entry_of (root l) backup = Some ".staging"%string.
Proof. by eapply staged_entry. Qed.
Lemma backup_place : entry_of staging backup = Some "replaced-version"%string.
Proof. by apply entry_join. Qed.

(** The three places are apart. *)
Lemma apart_dest_backup rest : below rest -> beneath destination (backup ++ rest) = None.
Proof. intros Hr. eapply beneath_other; [apply version_entry|]. by rewrite (entry_below (root l) backup _ rest backup_entry Hr). Qed.
Lemma apart_backup_dest rest : below rest -> beneath backup (destination ++ rest) = None.
Proof. intros Hr. eapply beneath_other; [apply backup_entry|]. by rewrite (entry_below (root l) destination _ rest (version_entry l next) Hr). Qed.
Lemma apart_extracted_dest rest : below rest -> beneath extracted (destination ++ rest) = None.
Proof. intros Hr. eapply beneath_other; [exact Hexr|]. by rewrite (entry_below (root l) destination _ rest (version_entry l next) Hr). Qed.
Lemma apart_extracted_backup rest : below rest -> beneath extracted (backup ++ rest) = None.
Proof. intros Hr. eapply beneath_other; [exact Hex|]. by rewrite (entry_below staging backup _ rest backup_place Hr). Qed.
Lemma apart_dest_extracted : beneath destination extracted = None.
Proof. eapply beneath_other; [apply version_entry|]. by rewrite Hexr. Qed.
Lemma apart_backup_extracted : beneath backup extracted = None.
Proof. eapply beneath_other; [apply backup_place|]. by rewrite Hex. Qed.

(** A damaged version was moved aside, and the extracted one moved to its place. *)
Lemma publish_replaced mp t version bytes s s' :
  publish_version w mp extracted destination backup t version bytes s = (Ok true, s') -> tree s !! extracted = Some Directory ->
  tree s !! destination = Some Directory
  /\ tree s' = move_tree extracted destination (move_tree destination backup (tree s)).
Proof.
  unfold publish_version. intros H Hx. run_step H H1; [|done]. rewrite attempt_run in H1.
  destruct (fs_symlink_metadata destination s) as [[m|k] s1] eqn:Hm; injection H1 as <- <-.
  2:{ destruct k as [|[]| |]; try done. run_step H H2; done. }
  apply symlink_metadata_run in Hm as [E1 (n & Hn & ->)]. pass_require H.
  assert (n = Directory) as -> by by destruct n. split; [done|].
  run_step H H2; [|done]. pose proof (keeps_tree _ _ _ _ (keeps_attempt _ _ (keeps_verify_installation _ _ _ _ _ _ _)) H2) as E2.
  run_step H H3; [|done].
  assert (tree f0 = tree f) as E3.
  { match type of H3 with ?op _ = _ => assert (keeps (fun _ => True) op) as K by (unfold installed_manifest_matches; destruct (is_ok a); keep) end.
    by eapply keeps_tree. }
  destruct (negb a0); [|done]. run_step H H4; [|done]. units. apply context_ok_run, rename_dir_run in H4; [|by rewrite E3, E2, E1].
  run_step H H5; [|done]. rewrite attempt_run in H5. destruct (fs_rename extracted destination f1) as [[[]|k] s5] eqn:H6; injection H5 as <- <-.
  2:{ run_step H H7; done. }
  injection H as <-. rewrite E3, E2, E1 in H4. apply rename_dir_run in H6; [by rewrite H6, H4|].
  rewrite H4, move_tree_lookup; [done|apply apart_dest_extracted|apply apart_backup_extracted].
Qed.

(** The old directory is the backup, and there is a directory in its place. *)
Definition tree_aside (t0 t : Tree) : Prop :=
  (forall rest, below rest -> t !! (backup ++ rest)%string = t0 !! (destination ++ rest)%string) /\ t !! destination = Some Directory.

Lemma published_aside (t : Tree) :
  t !! extracted = Some Directory -> (forall rest, below rest -> t !! (backup ++ rest)%string = None) ->
  tree_aside t (move_tree extracted destination (move_tree destination backup t)).
Proof.
  intros Hx Hb. split.
  - intros rest Hr. rewrite move_tree_lookup; [|by apply apart_extracted_backup|by apply apart_dest_backup].
    rewrite move_tree_moved; [done|done|by apply apart_dest_backup|by apply Hb].
  - assert (below "") as He by by left.
    pose proof (move_tree_moved extracted destination (move_tree destination backup t) "" He) as M. rewrite !append_nil_r in M.
    rewrite M; [rewrite move_tree_lookup; [done|apply apart_dest_extracted|apply apart_backup_extracted]| |].
    + pose proof (apart_extracted_dest "" He) as Hn. by rewrite append_nil_r in Hn.
    + pose proof (apart_backup_dest "" He) as Hn. rewrite append_nil_r in Hn.
      by apply move_tree_gone; [rewrite beneath_self|].
Qed.

(** Once the damaged directory is aside and the new one in its place, the removal of the
    new one and the move back leave every entry as it was. *)
Lemma moved_back (t0 t : Tree) rest :
  below rest -> tree_aside t0 t -> t0 !! destination = Some Directory ->
  exists t', (ignore (fs_remove_dir_all destination);; ignore (fs_rename backup destination)) (still t) = (Ok (), still t')
    /\ t' !! (destination ++ rest)%string = t0 !! (destination ++ rest)%string.
Proof.
  intros Hr [Hb Hd] H0. set (t1 := delete_all (entries_beneath destination t) t).
  assert (forall r, below r -> t1 !! (backup ++ r)%string = t0 !! (destination ++ r)%string) as B1.
  { intros r Hr'. unfold t1. rewrite delete_all_lookup; [by apply Hb|]. intros Hq%entries_beneath_elem.
    rewrite (apart_dest_backup r Hr') in Hq. by destruct Hq. }
  assert (forall r, below r -> t1 !! (destination ++ r)%string = None) as D1.
  { intros r Hr'. apply entries_gone. by rewrite beneath_below. }
  assert (below "") as He by by left. pose proof (B1 _ He) as Bb. pose proof (D1 _ He) as Db. rewrite append_nil_r in Db. rewrite 2!append_nil_r in Bb.
  exists (move_tree backup destination t1). rewrite bind_run. unfold ignore. rewrite remove_dir_still by done. fold t1. cbn [snd].
  rewrite rename_dir_still; [|by rewrite Bb|done]. split; [done|].
  rewrite move_tree_moved; [by apply B1|done|by apply apart_backup_dest|by apply D1].
Qed.

Lemma uncontrolled_backup rest : below rest -> uncontrolled (backup ++ rest)%string.
Proof. intros Hr. apply (staged_not_control w l). by apply (entry_below (root l) backup _ rest backup_entry). Qed.
Lemma uncontrolled_destination : uncontrolled destination.
Proof. intros [Hv _]%control_entry. destruct Hv. apply version_entry. Qed.

(** The switch touches neither. *)
Lemma aside_kept t0 (t t' : Tree) : tree_aside t0 t -> (forall q, uncontrolled q -> t' !! q = t !! q) -> tree_aside t0 t'.
Proof.
  intros [Hb Hd] Hk. split; [|by rewrite Hk by apply uncontrolled_destination].
  intros rest Hr. rewrite Hk by by apply uncontrolled_backup. by apply Hb.
Qed.

Lemma switch_puts_back st rt old_link sb pt t0 s r s' :
  switch w l next st rt old_link sb pt destination backup true s = (r, s') -> r <> Ok () -> faults (activate w l next st rt s).2 = [] ->
  tree_aside t0 (tree s) -> t0 !! destination = Some Directory ->
  forall rest, below rest -> tree s' !! (destination ++ rest)%string = t0 !! (destination ++ rest)%string.
Proof.
  unfold switch. rewrite bind_run, attempt_run. cbn [fst snd]. intros H Hr Hf Ha H0 rest Hrest.
  pose proof (keeps_activate next st rt s) as K. destruct (activate w l next st rt s) as [[[]|e] [t1 fs]]; cbn in H, Hf, K; [by injection H as <- <-|]. subst fs.
  change {| tree := t1; faults := [] |} with (still t1) in H. rewrite bind_run in H.
  destruct (restore_files_still old_link sb pt destination backup true t1) as (t2 & R & K2). rewrite R in H.
  destruct (moved_back t0 t2 rest) as (t3 & R3 & E3); [done| |done|].
  { eapply aside_kept; [|exact K2]. by eapply aside_kept. }
  rewrite R3 in H. by injection H as <- <-.
Qed.

End Version.

(** C7. A damaged version directory survives a failed upgrade: when publishing the
    verified release had to move it aside and the switch then fails, at whatever step,
    every entry beneath the version directory is again what it was before publishing,
    provided nothing disturbs the restoration. *)
Theorem replaced_version_restored `{SV : Semver, SD : SemverDisplay, RJ : ReleaseJson J, SH : Sha256} (w : World) l next st
    transaction staging extracted mp t version bytes rt old_link sb pt s s1 r s' :
  let destination := version_dir l next in
  let backup := join_path staging "replaced-version" in
  doctor_confined w l -> staging_dir l transaction = Ok staging ->
  entry_of staging extracted = Some "extract"%string -> entry_of (root l) extracted = Some ".staging"%string ->
  tree s !! extracted = Some Directory -> entries_beneath backup (tree s) = [] ->
  publish_version w mp extracted destination backup t version bytes s = (Ok true, s1) ->
  switch w l next st rt old_link sb pt destination backup true s1 = (r, s') -> r <> Ok () ->
  faults (activate w l next st rt s1).2 = [] ->
  forall q, is_Some (beneath destination q) -> tree s' !! q = tree s !! q.
Proof.
  intros destination backup Hdoc Hst Hex Hexr Hx Hb Hp Hs Hr Hf q (rest & Hrest & ->)%beneath_rest.
  eapply publish_replaced in Hp as [Hd Ht]; [|done..]. eapply switch_puts_back; try done.
  rewrite Ht. eapply published_aside; try done. intros rest' Hrest'. eapply entries_none; [exact Hb|]. by rewrite beneath_below.
Qed.
