(* ===== verification/UpgradeInstallThms.v ===== *)
(** * What an upgrade installs

    The version directory an upgrade leaves holds the manifest that was selected and,
    with their hashes, the files it lists. *)

From Stdlib Require Import ZArith Lia Ascii String.
From stdpp Require Import base tactics relations gmap strings list.
From S2P Require Import Prelude Bytes DurableTypes Capability Distribution DistributionThms Tap FsCap Files Evidence Signing Platform Upgrade CapabilityThms FilesThms PathsThms EvidenceThms SigningThms UpgradeThms UpgradeRunThms UpgradeVersionThms.
Open Scope Z_scope.

(** ** Reading, copying, moving *)

Lemma read_plain p (t : Tree) c : read_act p t = Ok (c, t) -> (forall x, t !! p <> Some (Link x)) -> t !! p = Some (File c).
Proof.
  unfold read_act. cbn [resolve_link MAX_LINKS]. intros H Hl. destruct (t !! p) as [[|x|]|]; try done; [|by destruct (Hl x)].
  by injection H as ->.
Qed.

Lemma copy_run a b m s s' :
  fs_copy a b s = (Ok (), s') -> tree s !! a = Some (File m) -> (forall x, tree s !! b <> Some (Link x)) ->
  tree s' = <[b := File m]> (tree s) /\ in_file b (tree s) = false.
Proof.
  intros H Ha Hb. apply operation_inv in H as [([] & _ & H)|(k & ? & _)]; [|done]. unfold copy_act, read_act in H.
  cbn [resolve_link MAX_LINKS] in H. rewrite Ha in H. change (mbind ?f (Ok ?y)) with (f y) in H. cbv iota beta in H.
  destruct (in_file b (tree s)); [done|]. destruct (tree s !! b) as [[|x|]|]; try done; [|by destruct (Hb x)|]; by injection H as ->.
Qed.

Lemma move_tree_some a b (t : Tree) rest n :
  below rest -> t !! (a ++ rest)%string = Some n -> move_tree a b t !! (b ++ rest)%string = Some n.
Proof.
  intros Hr Hn. unfold move_tree. apply lookup_union_Some_l. by rewrite moved_lookup.
Qed.

Section Holds.
Context {SV : Semver} {SD : SemverDisplay} {J : Type} {RJ : ReleaseJson J} {SH : Sha256}.

(** The directory holds the manifest and the files of the asset. *)
Definition holds_file (t : Tree) (dir : string) (f : ExpectedFile) : Prop :=
  exists c, t !! (dir ++ "/" ++ ef_path f)%string = Some (File c) /\ hex_encode (sha256 c) = ef_sha256 f.
Definition holds_release (t : Tree) (dir m : string) (asset : ReleaseAsset) : Prop :=
  t !! (dir ++ "/release-manifest.json")%string = Some (File m) /\ Forall (holds_file t dir) (ra_files asset).

Lemma holds_moved (t t' : Tree) dir dir' m asset :
  (forall rest n, below rest -> t !! (dir ++ rest)%string = Some n -> t' !! (dir' ++ rest)%string = Some n) ->
  holds_release t dir m asset -> holds_release t' dir' m asset.
Proof.
  intros Hm [H1 H2]. split; [apply Hm; [right; by eexists|done]|].
  eapply list.Forall_impl; [exact H2|]. intros f (c & Hc & Hs). exists c. split; [|done]. apply Hm; [right; by eexists|done].
Qed.
Lemma holds_kept (t t' : Tree) dir m asset :
  (forall rest, below rest -> t' !! (dir ++ rest)%string = t !! (dir ++ rest)%string) ->
  holds_release t dir m asset -> holds_release t' dir m asset.
Proof. intros Hk. apply holds_moved. intros rest n Hr Hn. by rewrite Hk. Qed.

Lemma check_files_run root files s s' :
  check_files root files s = (Ok (), s') ->
  Forall (fun f => exists c, read_act (join_path root (ef_path f)) (tree s) = Ok (c, tree s) /\ hex_encode (sha256 c) = ef_sha256 f) files.
Proof.
  revert s. induction files as [|f files IH]; intros s H; [constructor|]. cbn [check_files] in H.
  run_step H H1; [|done]. assert (tree f0 = tree s) as E1 by (eapply keeps_tree; [|exact H1]; unfold path_is_file; keep). pass_require H.
  run_step H H2; [|done]. unfold hash_file in H2. run_step H2 H3; [|done]. apply fs_read_run in H3 as [Hc E3]. injection H2 as <- <-.
  pass_require H. apply IH in H. rewrite E1 in Hc, E3. rewrite E3 in H. constructor; [|done].
  eexists. split; [exact Hc|]. by apply String.eqb_eq.
Qed.

(** What a verification has compared *)
Lemma verify_installation_run identity detected mp root target version m manifest asset s s' :
  verify_installation identity detected mp root (canonical target) version s = (Ok (), s') ->
  tree s !! mp = Some (File m) -> load_manifest m = Ok manifest ->
  List.find (fun a => bool_decide (ra_target a = target)) (rm_assets manifest) = Some asset ->
  Forall (fun f => exists c, read_act (join_path root (ef_path f)) (tree s) = Ok (c, tree s) /\ hex_encode (sha256 c) = ef_sha256 f)
    (ra_files asset).
Proof.
  unfold verify_installation. intros H Hm Hl Hf. rewrite some_or_bind in H.
  destruct (from_canonical (canonical target)) as [target'|] eqn:Ht; [|done].
  assert (target' = target) as -> by (destruct target; cbn in Ht; congruence).
  run_step H H1; [|done]. apply context_ok_run, read_file_run with (b := m) in H1 as [-> E1]; [|done]. pass_require H.
  rewrite lift_bind, Hl in H. cbn [map_err] in H. pass_require H. rewrite some_or_bind, Hf, lift_bind in H.
  destruct (ensure_compatible _ _ _); [|done]. run_step H H2; [|done]. units. apply check_files_run in H2. by rewrite E1 in H2.
Qed.

(** No listed file is the manifest. *)
Lemma listed_not_manifest m manifest asset f :
  load_manifest m = Ok manifest -> asset ∈ rm_assets manifest -> f ∈ ra_files asset -> ef_path f <> "release-manifest.json"%string.
Proof.
  unfold load_manifest, from_bytes. intros Hl Ha Hf E. destruct (manifest_from_json _ m) as [d|] eqn:Hd; [|done]. injection Hl as ->.
  unfold manifest_from_json, from_json in Hd. apply result_bind_ok in Hd as (d' & _ & Hd). apply then_ok in Hd as [Hv [= ->]].
  destruct (manifest_validate manifest) as [[]|] eqn:Hok; [|done]. apply manifest_validate_spec, ro_assets in Hok.
  apply (proj1 (list.Forall_forall _ _) Hok) in Ha. pose proof (ao_paths _ _ Ha) as Hp.
  assert (ef_path f ∈ managed_paths) as Hin by (rewrite <- Hp; by apply list_elem_of_fmap_2). rewrite E in Hin.
  unfold managed_paths in Hin. vm_compute in Hin. set_solver.
Qed.

End Holds.

(** A version is printed without a slash. *)
Class SemverDisplayLaws (SD : SemverDisplay) : Prop := {
  display_plain : forall v, str_all (fun c => negb (Ascii.eqb c "/")) (semver_to_string v) = true }.

Section Installed.
Context {SV : Semver} {SD : SemverDisplay} {DL : SemverDisplayLaws SD} {SO : SemverOrd} {J : Type} {RJ : ReleaseJson J} {SH : Sha256} {ED : Ed25519} {SJ : SigningJson}.
Context (w : World) (l : ManagedLayout) (transaction staging : string) (Hst : staging_dir l transaction = Ok staging).
Let rt := join_path staging "refreshed-trust.json".
Let mp := join_path staging "selected-release-manifest.json".
Let extract := join_path staging "extract".

Lemma version_child v name : join_path (version_dir l v) name = (version_dir l v ++ "/" ++ name)%string.
Proof using DL.
  assert (plain ("v" ++ semver_to_string v) = true) as Hp by (unfold plain; cbn; apply display_plain).
  unfold version_dir. rewrite join_after by done. by rewrite (join_prefix _ ("v" ++ _)), !append_assoc.
Qed.

Lemma beneath_extract name q : component name <> "extract"%string -> q = join_path staging name -> beneath extract q = None.
Proof. intros Hn ->. eapply beneath_other; [by apply entry_join|]. rewrite entry_name. by intros [= ?]. Qed.

(** What is read or extracted into while a release is staged *)
Definition stage_input (q : string) : Prop := q = mp \/ is_Some (beneath extract q).

Lemma keeps_input_archive trust (manifest : ReleaseManifest J) asset t : keeps stage_input (fetch_archive w staging trust manifest asset t).
Proof.
  apply keeps_fetch_archive. intros name [E%join_inj|[x Hx]]; [done|].
  by rewrite (beneath_extract ("tysel-" ++ name)) in Hx.
Qed.

Lemma measured_directory fuel p s n s' name :
  str_all (fun x => negb (Ascii.eqb x "/")) name = true ->
  tree_size fuel p s = (Ok n, s') -> in_file (p ++ String "/" name) (tree s) = false -> tree s !! p = Some Directory.
Proof.
  intros Hn H Hf. unfold in_file in Hf. rewrite rsplit_once_app in Hf by done.
  destruct fuel as [|fuel]; [done|]. cbn [tree_size] in H. run_step H H1; [|done].
  apply symlink_metadata_run in H1 as [_ (node & Hx & ->)]. rewrite Hx in *. rewrite require_bind in H. by destruct node.
Qed.

Context (Htar : tar_confined w) (Hplain : tar_plain w).
Context (m : string) (manifest : ReleaseManifest J) (asset : ReleaseAsset) (target : Target).
Context (Hload : load_manifest m = Ok manifest).
Context (Hfind : List.find (fun a => bool_decide (ra_target a = target)) (rm_assets manifest) = Some asset).

Lemma asset_listed : asset ∈ rm_assets manifest.
Proof. apply list_elem_of_In. by eapply List.find_some. Qed.

(** The files a verification has read, where no links are *)
Lemma verified_holds identity detected mp' dir version s s' :
  verify_installation identity detected mp' dir (canonical target) version s = (Ok (), s') -> tree s !! mp' = Some (File m) ->
  (forall name, join_path dir name = dir ++ "/" ++ name)%string ->
  (forall q x, is_Some (beneath dir q) -> tree s !! q <> Some (Link x)) -> Forall (holds_file (tree s) dir) (ra_files asset).
Proof.
  intros H Hm Hjoin Hno. eapply verify_installation_run in H; [|done..]. eapply list.Forall_impl; [exact H|].
  intros f (c & Hc & Hs). exists c. split; [|done]. rewrite Hjoin in Hc. apply read_plain; [done|]. intros x.
  apply Hno. rewrite beneath_below; [done|right; by eexists].
Qed.

(** A staged release is the one the manifest describes. *)
Lemma stage_release_holds trust s extracted bytes sha s' :
  stage_release w staging trust mp manifest asset target s = (Ok (extracted, (bytes, sha)), s') -> tree s !! mp = Some (File m) ->
  (forall q x, is_Some (beneath extract q) -> tree s !! q <> Some (Link x)) ->
  bytes = m /\ holds_release (tree s') extracted m asset /\ tree s' !! extracted = Some Directory /\ tree s' !! mp = Some (File m).
Proof.
  unfold stage_release. intros H Hm Hno. run_step H H1; [|done].
  pose proof (keeps_input_archive trust manifest asset target s) as K1. rewrite H1 in K1. cbn [snd] in K1.
  run_step H H2; [|done]. pose proof (fun q x => extract_no_link _ _ _ _ _ _ _ _ q x Hplain H2) as N2.
  apply (extract_run w Htar) in H2 as [K2 Hex]. destruct (Hex _ eq_refl) as (-> & fuel & n & s1 & s2 & E1 & Hsize). clear Hex.
  set (dir := join_path (join_path staging "extract") _) in *.
  assert (forall name, join_path dir name = dir ++ "/" ++ name)%string as Hjoin by (intros name; apply extracted_child).
  assert (beneath extract mp = None) as Hmp by by apply (beneath_extract "selected-release-manifest.json").
  assert (forall q, is_Some (beneath dir q) -> is_Some (beneath extract q)) as Hin.
  { intros q (rest & _ & ->)%beneath_rest. unfold dir. rewrite join_after by done. fold extract.
    replace (join_path staging "" ++ "extract" ++ "/" ++ _)%string with (extract ++ "/" ++ ("tysel-" ++ rm_version manifest ++ "-" ++ canonical target))%string
      by (unfold extract; by rewrite (join_prefix staging "extract"), !append_assoc).
    rewrite append_assoc, beneath_below; [done|right; by eexists]. }
  assert (forall q x, is_Some (beneath dir q) -> tree f0 !! q <> Some (Link x)) as Hno2.
  { intros q x Hq%Hin Hl%N2. rewrite K1 in Hl by by right. by eapply Hno. }
  assert (tree f0 !! mp = Some (File m)) as Hm2 by (rewrite K2, K1 by (done || by left); done).
  run_step H H3; [|done]. pose proof (keeps_tree _ _ _ _ (keeps_verify_installation _ _ _ _ _ _ _) H3) as E3. units.
  pose proof (verified_holds _ _ _ _ _ _ _ H3 Hm2 Hjoin Hno2) as Hfiles.
  run_step H H4; [|done]. units. rewrite Hjoin in H4. apply copy_run with (m := m) in H4 as [E4 Hf4]; [|by rewrite E3|].
  2:{ intros x. rewrite E3. apply Hno2. rewrite beneath_below; [done|right; by eexists]. }
  rewrite E3 in E4, Hf4. set (copied := (dir ++ "/" ++ "release-manifest.json")%string) in *.
  assert (tree f2 !! mp = Some (File m)) as Hm4.
  { rewrite E4, lookup_insert_ne; [done|]. intros E. rewrite <- E in Hmp. assert (is_Some (beneath extract copied)) as [y Hy]; [|congruence].
    apply Hin. unfold copied. rewrite beneath_below; [done|right; by eexists]. }
  run_step H H5; [|done]. apply read_file_run with (b := m) in H5 as [-> E5]; [|done].
  run_step H H6; [|done]. pose proof (keeps_tree _ _ _ _ (keeps_hash _ _) H6) as E6. injection H as <- <- <- <-. rewrite E6, E5.
  split; [done|]. split; [split|split; [|done]]; rewrite E4.
  - apply lookup_insert_eq.
  - apply list.Forall_forall. intros x Hx. pose proof (listed_not_manifest _ _ _ _ Hload asset_listed Hx) as Hne.
    apply (proj1 (list.Forall_forall _ _) Hfiles) in Hx as (c & Hc & Hs). exists c. split; [|done].
    rewrite lookup_insert_ne; [done|]. unfold copied. intros E%append_cancel. by injection E as E.
  - rewrite lookup_insert_ne; [|unfold copied; intros E; rewrite <- (append_nil_r dir) in E at 2; by apply append_cancel in E].
    rewrite <- E1. eapply measured_directory; [|exact Hsize|by rewrite E1]. done.
Qed.

(** ** Its place *)

Context (next : SemVersion).
Let destination := version_dir l next.
Let backup := join_path staging "replaced-version".

(** A directory that stays is the release of the manifest. *)
Lemma reused_holds version s f a f0 a0 :
  attempt (verify_installation (identity w) (detected w) mp destination (canonical target) version) s = (Ok a, f) ->
  (if is_ok a then installed_manifest_matches destination m else mret false) f = (Ok a0, f0) -> a0 = true ->
  tree s !! mp = Some (File m) -> (forall q x, is_Some (beneath destination q) -> tree s !! q <> Some (Link x)) ->
  tree f0 = tree s /\ holds_release (tree s) destination m asset.
Proof using DL Hfind Hload.
  intros H1 H2 -> Hm Hno. rewrite attempt_run in H1.
  destruct (verify_installation _ _ _ _ _ _ s) as [rv sv] eqn:Hv; injection H1 as <- <-. destruct rv as [[]|e]; [|done]. cbn [is_ok] in H2.
  pose proof (keeps_tree _ _ _ _ (keeps_verify_installation _ _ _ _ _ _ _) Hv) as E1.
  unfold installed_manifest_matches in H2. rewrite bind_run, attempt_run in H2.
  destruct (fs_read (join_path destination "release-manifest.json") sv) as [[c|e] s2] eqn:Hr; [|done]. injection H2 as Hc <-.
  apply String.eqb_eq in Hc as ->. apply fs_read_run in Hr as [Hr E2]. rewrite E1 in Hr, E2. split; [done|].
  unfold destination in Hr. rewrite version_child in Hr. split.
  - apply read_plain; [done|]. intros x. apply Hno. rewrite beneath_below; [done|right; by eexists].
  - eapply verified_holds; [done..|intros; apply version_child|done].
Qed.

Lemma publish_holds extracted version s replaced s' :
  publish_version w mp extracted destination backup target version m s = (Ok replaced, s') ->
  entry_of staging extracted = Some "extract"%string -> entry_of (root l) extracted = Some ".staging"%string ->
  tree s !! mp = Some (File m) -> tree s !! extracted = Some Directory -> holds_release (tree s) extracted m asset ->
  (forall q x, is_Some (beneath destination q) -> tree s !! q <> Some (Link x)) -> holds_release (tree s') destination m asset.
Proof using DL Hfind Hload.
  intros H Hex Hexr Hm Hx Hh Hno. destruct replaced.
  - apply publish_replaced in H as [_ Ht]; [|done..]. rewrite Ht. eapply holds_moved; [intros; by apply move_tree_some|].
    eapply holds_kept; [|exact Hh]. intros rest Hr. apply move_tree_lookup.
    + eapply beneath_other; [apply version_entry|]. by rewrite (entry_below (root l) extracted _ rest Hexr Hr).
    + eapply beneath_other; [by apply entry_join|]. by rewrite (entry_below staging extracted _ rest Hex Hr).
  - unfold publish_version in H. run_step H H1; [|done]. rewrite attempt_run in H1.
    destruct (fs_symlink_metadata destination s) as [rm s1] eqn:Hmeta; injection H1 as <- <-.
    pose proof (keeps_tree _ _ _ _ (keeps_symlink_metadata _ _) Hmeta) as E1.
    destruct rm as [meta|[|[]| |]]; try done.
    + pass_require H. run_step H H2; [|done]. run_step H H3; [|done]. destruct a0 eqn:Ea0.
      * injection H as <-. rewrite <- E1 in Hm. destruct (reused_holds _ _ _ _ _ _ H2 H3 eq_refl Hm) as [-> ?]; [by rewrite E1|done].
      * cbn [negb] in H. run_step H H4; [|done]. run_step H H5; [|done]. units. destruct a2 as [[]|e]; [done|]. run_step H H6; done.
    + run_step H H2; [|done]. units. injection H as <-. apply context_ok_run, rename_dir_run in H2; [|by rewrite E1].
      rewrite H2, E1. eapply holds_moved; [|exact Hh]. intros; by apply move_tree_some.
Qed.

End Installed.
