(* ===== verification/UpgradeSafetyThms.v ===== *)
(** * Runs of the upgrade command

    Whatever fails during a run, and wherever it stops, the link, the state and the
    trust policy of the installation are whole; a check changes nothing; a key that
    was revoked is never trusted again. *)

From Stdlib Require Import ZArith Lia Ascii String.
From stdpp Require Import base tactics relations gmap strings list.
From S2P Require Import Prelude Bytes DurableTypes Capability Distribution Tap FsCap Files Evidence Signing Platform Upgrade CapabilityThms FilesThms PathsThms EvidenceThms SigningThms UpgradeThms UpgradeRunThms.
Open Scope Z_scope.

Section Runs.
Context {SV : Semver} {SD : SemverDisplay} {SO : SemverOrd} {J : Type} {RJ : ReleaseJson J} {SH : Sha256} {ED : Ed25519} {SJ : SigningJson}.
Context (w : World) (l : ManagedLayout).

(** The installation after a run, when its state was [sb] and its trust policy [cb]:
    each file is as it was or a whole new one. *)
Record whole (sb cb : string) (t t' : Tree) : Prop := {
  wh_link : t' !! active_bin_link l = t !! active_bin_link l
    \/ exists v, t' !! active_bin_link l = Some (Link (active_bin_target v));
  wh_state : t' !! state_file l = t !! state_file l \/ t' !! state_file l = Some (File sb)
    \/ exists st b, printed_state st b /\ t' !! state_file l = Some (File b);
  wh_trust : t' !! trust_file l = Some (File cb) \/ exists b, succession cb b /\ t' !! trust_file l = Some (File b);
}.

Lemma whole_same sb cb (t t' : Tree) :
  t !! trust_file l = Some (File cb) -> (forall q, control w l q -> t' !! q = t !! q) -> whole sb cb t t'.
Proof.
  intros Ht H. split; [left|left|left; rewrite <- Ht]; apply H; apply control_file; unfold control_names; set_solver.
Qed.

Lemma control_trust : control w l (trust_file l).
Proof. apply control_file. unfold control_names. set_solver. Qed.
Lemma control_link : control w l (active_bin_link l).
Proof. apply control_file. unfold control_names. set_solver. Qed.
Lemma control_state : control w l (state_file l).
Proof. apply control_file. unfold control_names. set_solver. Qed.

Lemma read_link_run p s target s' :
  fs_read_link p s = (Ok target, s') -> tree s !! p = Some (Link target) /\ tree s' = tree s.
Proof.
  intros H. apply operation_inv in H as [(x & [= <-] & H)|(k & ? & _)]; [|done].
  destruct (tree s !! p) as [[| |]|]; by simplify_eq.
Qed.

(** ** Selection *)

Lemma keeps_check_manifest P state o selected trust (manifest : ReleaseManifest J) mp :
  keeps P (check_manifest w state o selected trust manifest mp).
Proof. unfold check_manifest, parse_semver. keep. Qed.

Lemma keeps_select P staging state trust o :
  (forall name, name ∈ ["refreshed-trust.json"; "refreshed-trust.json.sig.json"; "channel-pointer.json"; "channel-pointer.json.sig.json";
     "selected-release-manifest.json"; "selected-release-manifest.json.sig.json"]%string -> ~ P (join_path staging name)) ->
  keeps P (select_release w state trust staging o).
Proof.
  intros HP. assert (forall current, keeps P (resolve_trust_policy w current staging)).
  { intros. apply keeps_resolve_trust; apply HP; set_solver. }
  assert (forall t requested selected, keeps P (resolve_manifest w t staging requested selected)).
  { intros. apply keeps_resolve_manifest. intros n Hn. apply HP. set_solver. }
  assert (forall selected t (m : ReleaseManifest J) mp, keeps P (check_manifest w state o selected t m mp)) by (intros; apply keeps_check_manifest).
  unfold select_release, parse_semver. keep.
Qed.

(** ** Rolling back *)

Context (Hdoc : doctor_confined w l).

Lemma keeps_select_previous P state o : keeps P (select_previous w l state o).
Proof. unfold select_previous, parse_semver, confirm. keep. Qed.

(** The state is written and the release examined *)
Lemma state_doctor_run st s r s1 :
  (write_state w l st;; post_switch_doctor w l) s = (r, s1) ->
  tree s1 !! active_bin_link l = tree s !! active_bin_link l /\ tree s1 !! trust_file l = tree s !! trust_file l
  /\ (tree s1 !! state_file l = tree s !! state_file l \/ exists b, printed_state st b /\ tree s1 !! state_file l = Some (File b)).
Proof.
  intros H1. run_step H1 H2; apply write_state_inv in H2 as [[? ->]|(b & Hb & [Hok Herr Hr])]; units; try done.
  - pose proof (keeps_doctor w l Hdoc f) as Kd. rewrite H1 in Kd. cbn [snd] in Kd. rewrite state_temp in Hr.
    rewrite !Kd by (intros E%join_inj; done). rewrite !Hr by (intros E%join_inj; done). destruct (Hok eq_refl) as [-> _]. eauto 10.
  - by injection H1 as <- <-; auto.
  - injection H1 as <- <-. rewrite state_temp in Hr. rewrite !Hr by (intros E%join_inj; done). rewrite Herr by done. auto.
Qed.

(** The link and the state are put back *)
Lemma undo_run old_link state_bytes (e : Failure) s r s' :
  (ignore (replace_link_target w l old_link);; ignore (write_bytes_atomically w (state_file l) state_bytes);; throw (A:=Printed) e) s = (r, s') ->
  (tree s' !! active_bin_link l ∈ [tree s !! active_bin_link l; Some (Link old_link)])
  /\ (tree s' !! state_file l ∈ [tree s !! state_file l; Some (File state_bytes)])
  /\ tree s' !! trust_file l = tree s !! trust_file l.
Proof.
  pose proof (ignore_replaced _ _ _ _ s (replace_link_inv w l old_link s)) as [B1 K1].
  rewrite bind_run. set (s1 := (ignore (replace_link_target w l old_link) s).2) in *.
  change (ignore (replace_link_target w l old_link) s) with (Ok (E:=Failure) (), s1). cbv beta iota.
  assert (state_file l <> new_name w (state_file l)) as Hn by (rewrite state_temp; intros E%join_inj; done).
  pose proof (ignore_replaced _ _ _ _ s1 (fun r s' => write_bytes_inv w (state_file l) state_bytes s1 r s' Hn)) as [B2 K2].
  rewrite state_temp in K2. set (s2 := (ignore (write_bytes_atomically w (state_file l) state_bytes) s1).2) in *.
  intros H. assert (s' = s2) as -> by by injection H.
  rewrite (K2 (active_bin_link l)), (K2 (trust_file l)), (K1 (trust_file l)) by (intros E%join_inj; done).
  rewrite (K1 (state_file l)) in B2 by (intros E%join_inj; done). split_and!; [set_solver|set_solver|done].
Qed.

Lemma rollback_whole state sb o s r s' cb :
  tree s !! trust_file l = Some (File cb) -> rollback w l state sb o s = (r, s') -> whole sb cb (tree s) (tree s').
Proof.
  intros Ht H. unfold rollback in H. run_step H H1; pose proof (keeps_tree _ _ _ _ (keeps_select_previous _ _ _) H1) as E1.
  2:{ injection H as <- <-. rewrite E1. by apply whole_same. }
  destruct a as [previous [pv pm]]. clear H1. rewrite <- E1. rewrite <- E1 in Ht.
  run_step H H2; pose proof (keeps_tree _ _ _ _ (keeps_context _ _ _ (keeps_read_link _ _)) H2) as E2.
  2:{ injection H as <- <-. rewrite E2. by apply whole_same. }
  apply context_ok_run, read_link_run in H2 as [Hlink _]. rewrite <- E2 in Hlink, Ht. rewrite <- E2. clear E1 E2.
  run_step H H3; apply replace_link_inv in H3 as [Hok Herr Hr]; units.
  2:{ injection H as <- <-. split; [left; by apply Herr|left; apply Hr; intros E%join_inj; done|].
      left. rewrite Hr by (intros E%join_inj; done). done. }
  destruct (Hok eq_refl) as [B3 _].
  assert (tree f1 !! state_file l = tree f0 !! state_file l) as S3 by (apply Hr; intros E%join_inj; done).
  assert (tree f1 !! trust_file l = Some (File cb)) as T3 by (rewrite Hr by (intros E%join_inj; done); done). clear Hok Herr Hr.
  run_step H H4; pose proof (keeps_tree _ _ _ _ (keeps_hash _ _) H4) as E4.
  2:{ injection H as <- <-. rewrite <- E4 in *. split; [eauto|by left|by left]. }
  rewrite <- E4 in B3, S3, T3. clear H4 E4. cbv zeta in H. rewrite bind_run, attempt_run in H.
  match type of H with context [(mbind ?k ?m) ?x] => destruct ((mbind k m) x) as [r1 s1] eqn:H5 end.
  apply state_doctor_run in H5 as (B5 & T5 & S5). cbn [fst snd] in H. destruct r1 as [[]|x].
  - injection H as <- <-. split; [rewrite B5, B3; eauto|rewrite <- S3; destruct S5 as [?|(b & ? & ?)]; eauto 6|left; congruence].
  - apply undo_run in H as (B6 & S6 & T6). split; [|rewrite <- S3|left; congruence].
    + rewrite B5, B3, <- Hlink in B6. set_solver.
    + apply elem_of_cons in S6 as [->|S6]; [|set_solver]. destruct S5 as [?|(b & ? & ?)]; eauto 6.
Qed.

(** ** Installing *)

Context (Htar : tar_confined w) (transaction staging : string) (Hst : staging_dir l transaction = Ok staging).
Let rt := join_path staging "refreshed-trust.json".

Lemma install_whole state sb o mp (manifest : ReleaseManifest J) asset current next s r s' cb refreshed :
  tree s !! rt = Some (File refreshed) -> tree s !! trust_file l = Some (File cb) -> refreshed = cb \/ succession cb refreshed ->
  install_release w l state sb (trust_file l) staging o rt mp manifest asset current next s = (r, s') ->
  whole sb cb (tree s) (tree s').
Proof.
  intros Hrt Ht Hsucc H. unfold install_release in H. run_step H H1; apply (stage_release_run w Htar l transaction staging Hst) in H1 as [K1 Hex].
  2:{ injection H as <- <-. apply whole_same; [done|]. intros q Hq. apply K1. by left. }
  destruct a as [extracted [bytes sha]]. destruct (Hex _ _ eq_refl) as [He Her]. cbv zeta in H.
  assert (forall q, control w l q -> tree f !! q = tree s !! q) as Kc by (intros q Hq; apply K1; by left).
  run_step H H2; pose proof (keeps_tree _ _ _ _ (keeps_context _ _ _ (keeps_read_link _ _)) H2) as E2.
  2:{ injection H as <- <-. apply whole_same; [done|]. by rewrite E2. }
  apply context_ok_run, read_link_run in H2 as [Hlink _].
  run_step H H3; pose proof (keeps_tree _ _ _ _ (keeps_fs_read _ _) H3) as E3.
  2:{ injection H as <- <-. apply whole_same; [done|]. by rewrite E3, E2. }
  apply read_file_run with (b := cb) in H3 as [-> _]; [|rewrite E2, Kc; [done|apply control_trust]].
  pose proof (keeps_publish w l transaction staging Hst mp extracted next (is_target state) (rm_version manifest) bytes He Her f1) as Kp.
  run_step H H4; cbn [snd] in Kp; rewrite E3, E2 in Kp.
  2:{ injection H as <- <-. apply whole_same; [done|]. intros q Hq. rewrite Kp by by left. by apply Kc. }
  assert (tree f2 !! rt = Some (File refreshed)) as Hrt2 by (rewrite Kp, K1; [done|by right..]).
  assert (forall q, control w l q -> tree f2 !! q = tree s !! q) as Kc2 by (intros q Hq; rewrite Kp by (by left); by apply Kc).
  rewrite bind_run in H. match type of H with (match ?sw with _ => _ end) = _ => destruct sw as [rs s3] eqn:H5 end.
  assert (s' = s3) as -> by (destruct rs; by injection H).
  apply (switch_whole w l _ _ _ _ _ _ transaction staging _ Hst Hdoc _ _ _ Hrt2) in H5 as (WB & WS & WT).
  rewrite Kc2 in WB by apply control_link. rewrite Kc2 in WS by apply control_state. rewrite Kc2, Ht in WT by apply control_trust.
  rewrite Kc in Hlink by apply control_link. rewrite Hlink in WB. split; [rewrite Hlink|..].
  - set_solver.
  - destruct WS as [WS|?]; [|by eauto]. set_solver.
  - destruct Hsucc as [->|?]; set_solver.
Qed.

Lemma keeps_select_control state trust o : keeps (control w l) (select_release w state trust staging o).
Proof using Hst.
  apply keeps_select. intros name _ Hc. eapply staged_not_control; [|exact Hc]. by eapply staged_entry.
Qed.

Lemma keeps_manifest_protected t requested selected : keeps (protected w l staging) (resolve_manifest w t staging requested selected).
Proof using Hst.
  apply keeps_resolve_manifest. intros n Hn. apply (not_protected w l transaction staging Hst).
  repeat (apply elem_of_cons in Hn as [->|Hn]; [done|]). by apply not_elem_of_nil in Hn.
Qed.

Lemma check_manifest_trust state o selected trust (manifest : ReleaseManifest J) mp s sel s' :
  check_manifest w state o selected trust manifest mp s = (Ok sel, s') -> sel_trust sel = trust.
Proof.
  unfold check_manifest, parse_semver. intros H. repeat (run_step H Hx; [clear Hx|done]). by injection H as <- <-.
Qed.

(** The selected policy is in the staging area, the installed one or its successor. *)
Lemma select_run state o s sel s' cb :
  select_release w state (trust_file l) staging o s = (Ok sel, s') -> tree s !! trust_file l = Some (File cb) ->
  sel_trust sel = rt /\ exists b, tree s' !! rt = Some (File b) /\ (b = cb \/ succession cb b)
    /\ exists s1 s2 selected m mp, tree s1 !! rt = Some (File b)
      /\ resolve_manifest w rt staging (o_version o) selected s1 = (Ok (m, mp), s2)
      /\ check_manifest w state o selected rt m mp s2 = (Ok sel, s').
Proof using Hst.
  intros H Ht. unfold select_release in H. run_step H H0; [|done].
  assert (f = s) as -> by (destruct (o_version o); [rewrite bind_run in H0; unfold parse_semver, some_or in H0; rewrite lift_run in H0;
    destruct (semver_parse _)|]; by injection H0).
  rewrite lift_bind in H. destruct (client w) as [[]|]; [|done]. run_step H H1; [|done].
  apply resolve_trust_run with (cb := cb) in H1 as (-> & b & Hb & Hs); [|..|done].
  2,3: intros E; eapply (staged_not_control w l (trust_file l)); [|apply control_trust]; rewrite E; by eapply staged_entry.
  fold rt in H, Hb. assert (keeps (protected w l staging) (selected ← match o_channel o with Some c => lift (parse_channel c) | None => mret (is_channel state) end;
    '(manifest, manifest_path) ← resolve_manifest w rt staging (o_version o) selected;
    check_manifest (J:=J) w state o selected rt manifest manifest_path)) as Hk.
  { pose proof keeps_manifest_protected. pose proof keeps_check_manifest. keep. }
  match type of H with _ ?s1 = _ => pose proof (Hk s1 rt (or_intror eq_refl)) as Hrt end. rewrite H, Hb in Hrt.
  run_step H H2; [|done]. assert (tree f0 = tree f) as E2 by (destruct (o_channel o); by injection H2 as _ <-). run_step H H3; [|done].
  match goal with x : ReleaseManifest J * string |- _ => destruct x as [m mp] end.
  split; [by eapply check_manifest_trust|]. exists b. split_and!; [done..|]. eexists _, _, _, m, mp. split_and!; [|exact H3|exact H]. by rewrite E2.
Qed.

(** ** The command *)

Lemma write_trust_whole sb cb b s r s' :
  tree s !! trust_file l = Some (File cb) -> b = cb \/ succession cb b -> write_bytes_atomically w (trust_file l) b s = (r, s') ->
  whole sb cb (tree s) (tree s').
Proof.
  intros Ht Hb H. pose proof (trust_temp w l) as Etemp.
  apply write_bytes_inv in H as [Hok Herr Hr]; [|rewrite Etemp; intros E%join_inj; done]. rewrite Etemp in Hr. split.
  - left. apply Hr; intros E%join_inj; done.
  - left. apply Hr; intros E%join_inj; done.
  - destruct r as [[]|e].
    + destruct (Hok eq_refl) as [-> _]. destruct Hb as [->|?]; eauto.
    + rewrite Herr by done. by left.
Qed.

Lemma whole_after sb cb t1 t2 t3 :
  (forall q, control w l q -> t2 !! q = t1 !! q) -> whole sb cb t2 t3 -> whole sb cb t1 t3.
Proof.
  intros K [HB HS HT]. rewrite (K _ control_link) in HB. rewrite (K _ control_state) in HS. by split.
Qed.

Lemma upgrade_whole state sb o s r s' cb :
  tree s !! trust_file l = Some (File cb) -> upgrade w l state sb (trust_file l) staging o s = (r, s') ->
  whole sb cb (tree s) (tree s').
Proof.
  intros Ht H. unfold upgrade in H. run_step H H1.
  all: match type of H1 with _ = (_, ?s1) => assert (forall q, control w l q -> tree s1 !! q = tree s !! q) as K1
    by (intros q Hq; pose proof (keeps_select_control state (trust_file l) o s q Hq) as K; by rewrite H1 in K) end.
  2:{ injection H as <- <-. by apply whole_same. }
  destruct (select_run _ _ _ _ _ _ H1 Ht) as (Esel & b & Hb & Hsucc & _). rewrite Esel in H.
  assert (tree f !! trust_file l = Some (File cb)) as Ht1 by (rewrite K1; [done|apply control_trust]).
  eapply whole_after; [exact K1|]. clear H1 K1. destruct (bool_decide _ && _).
  - unfold already_current in H. run_step H H2; pose proof (keeps_tree _ _ _ _ (keeps_fs_read _ _) H2) as E2.
    2:{ injection H as <- <-. rewrite E2. by apply whole_same. }
    apply read_file_run with (b := b) in H2 as [-> _]; [|done].
    run_step H H3; pose proof (keeps_tree _ _ _ _ (keeps_fs_read _ _) H3) as E3.
    2:{ injection H as <- <-. rewrite E3, E2. by apply whole_same. }
    assert (tree f1 = tree f) as E by by rewrite E3. clear E2 E3 H3. cbv zeta in H. rewrite <- E. rewrite <- E in Ht1.
    destruct (_ && _); [|injection H as <- <-; by apply whole_same].
    run_step H H4; pose proof (keeps_tree _ _ _ _ (keeps_confirm_with _ _ _ _ _) H4) as E4; rewrite <- E4; rewrite <- E4 in Ht1.
    2:{ injection H as <- <-. by apply whole_same. }
    run_step H H5; injection H as <- <-; by eapply write_trust_whole.
  - destruct (o_check o); [injection H as <- <-; by apply whole_same|].
    run_step H H4; pose proof (keeps_tree _ _ _ _ (keeps_confirm_with _ _ _ _ _) H4) as E4; rewrite <- E4; rewrite <- E4 in Ht1, Hb.
    2:{ injection H as <- <-. by apply whole_same. }
    by eapply install_whole.
Qed.

Lemma control_apart q : control w l q -> beneath staging q = None.
Proof using Hst. intros Hq. eapply beneath_other; [by eapply staging_entry|]. by apply control_entry in Hq as [_ ?]. Qed.

Lemma control_no_prefix q : control w l q -> q ∉ dir_prefixes "" staging.
Proof using Hst.
  intros (a & Ha & ->) [rest E]%dir_prefixes_prefix. change ("" ++ staging)%string with staging in E.
  assert (staging = join_path (join_path (root l) ".staging") transaction) as Es.
  { revert Hst. unfold staging_dir. destruct (_ || _); [done|]. by intros [= <-]. }
  rewrite Es, join_after, (join_prefix (root l) a), append_assoc in E by done. apply append_cancel in E. unfold control_names in Ha.
  repeat (apply elem_of_cons in Ha as [->|Ha]; [discriminate|]). by apply not_elem_of_nil in Ha.
Qed.

Lemma keeps_prepare : keeps (control w l) (prepare_staging staging).
Proof using Hst.
  pose proof (keeps_remove_dir_all (control w l) staging control_apart).
  pose proof (keeps_create_dir_all (control w l) staging control_no_prefix). unfold prepare_staging, path_exists. keep.
Qed.

End Runs.

Section Command.
Context {SV : Semver} {SD : SemverDisplay} {SO : SemverOrd} {J : Type} {RJ : ReleaseJson J} {SH : Sha256} {ED : Ed25519} {SJ : SigningJson}.
Context (w : World) (l : ManagedLayout).

Lemma keeps_validate_active P state : keeps P (validate_active_install w l state).
Proof. unfold validate_active_install. keep. Qed.
Lemma keeps_validate_trust P path : keeps P (validate_trust path).
Proof. unfold validate_trust. keep. Qed.

Lemma whole_before sb cb t1 t2 t3 :
  whole l sb cb t1 t2 -> (forall q, control w l q -> t3 !! q = t2 !! q) -> whole l sb cb t1 t3.
Proof.
  intros [HB HS HT] K. rewrite <- (K _ (control_link w l)) in HB. rewrite <- (K _ (control_state w l)) in HS.
  rewrite <- (K _ (control_trust w l)) in HT. by split.
Qed.

Lemma run_whole o s r s' sb cb :
  tar_confined w -> doctor_confined w l ->
  tree s !! state_file l = Some (File sb) -> tree s !! trust_file l = Some (File cb) -> run_locked w l o s = (r, s') ->
  whole l sb cb (tree s) (tree s').
Proof.
  intros Htar Hdoc Hs Ht H. unfold run_locked in H. run_step H H1.
  2:{ injection H as <- <-. rewrite context_run in H1. destruct (fs_read (state_file l) s) as [[?|?] ?] eqn:Hr; [done|].
      apply fs_read_err in Hr. injection H1 as _ <-. cbn [snd]. rewrite Hr. by apply (whole_same w). }
  apply context_ok_run, read_file_run with (b := sb) in H1 as [-> E1]; [|done]. rewrite <- E1 in *.
  rewrite lift_bind in H. destruct (load_state sb) as [state|]; [|injection H as <- <-; by apply (whole_same w)].
  run_step H H2; pose proof (keeps_tree _ _ _ _ (keeps_validate_active _ _) H2) as E2; rewrite <- E2 in *.
  2:{ injection H as <- <-. by apply (whole_same w). }
  destruct (o_rollback o); [by eapply rollback_whole|].
  run_step H H3; pose proof (keeps_tree _ _ _ _ (keeps_validate_trust _ _) H3) as E3; rewrite <- E3 in *.
  2:{ injection H as <- <-. by apply (whole_same w). }
  rewrite lift_bind in H. destruct (staging_dir l _) as [staging|] eqn:Hst; cbn [map_err] in H.
  2:{ injection H as <- <-. by apply (whole_same w). }
  pose proof (keeps_prepare w l _ _ Hst f1) as Kp. run_step H H4; cbn [snd] in Kp.
  2:{ injection H as <- <-. by apply (whole_same w). }
  rewrite bind_run, attempt_run in H. destruct (upgrade _ _ _ _ _ _ _ f2) as [r5 s5] eqn:H5. cbn [fst snd] in H.
  apply upgrade_whole with (cb := cb) (transaction := ("upgrade-" ++ dec_string (pid w))%string) in H5;
    [|done..|by rewrite (Kp _ (control_trust w l))].
  eapply whole_after in H5; [|exact Kp]. eapply whole_before; [exact H5|].
  assert (s' = (fs_remove_dir_all staging s5).2) as -> by by injection H.
  intros q Hq. apply (keeps_remove_dir_all (control w l)); [by eapply control_apart|done].
Qed.

End Command.

(** C4. Whatever fails during a run of the command, and wherever it stops: the link is
    the one before or names a version; the state is the one before or a validated
    one, complete; the trust policy is the one before or one that succeeds it,
    signed with a key the one before trusted. *)
Theorem managed_files_whole `{SV : Semver, SD : SemverDisplay, SO : SemverOrd, RJ : ReleaseJson J, SH : Sha256, ED : Ed25519,
    SJ : SigningJson} (w : World) l o s r s' sb cb :
  tar_confined w -> doctor_confined w l ->
  tree s !! state_file l = Some (File sb) -> tree s !! trust_file l = Some (File cb) -> run_locked w l o s = (r, s') ->
  (tree s' !! active_bin_link l = tree s !! active_bin_link l
   \/ exists v, tree s' !! active_bin_link l = Some (Link (active_bin_target v)))
  /\ (tree s' !! state_file l = Some (File sb) \/ exists st b, printed_state st b /\ tree s' !! state_file l = Some (File b))
  /\ (tree s' !! trust_file l = Some (File cb) \/ exists b, succession cb b /\ tree s' !! trust_file l = Some (File b)).
Proof.
  intros Htar Hdoc Hs Ht H. destruct (run_whole w l o s r s' sb cb Htar Hdoc Hs Ht H) as [HB HS HT]. rewrite Hs in HS. naive_solver.
Qed.

(** ** Checking *)

Section Checking.
Context {SV : Semver} {SD : SemverDisplay} {SO : SemverOrd} {J : Type} {RJ : ReleaseJson J} {SH : Sha256} {ED : Ed25519} {SJ : SigningJson}.
Context (w : World) (l : ManagedLayout) (transaction staging : string) (Hst : staging_dir l transaction = Ok staging).

Lemma staged_beneath name : is_Some (beneath staging (join_path staging name)).
Proof.
  revert Hst. unfold staging_dir. destruct (_ || _) eqn:E; [done|]. intros [= <-]. apply orb_false_iff in E as [Hne Hall].
  apply negb_false_iff in Hall. assert (plain transaction = true) as Hp.
  { unfold plain. rewrite Hne. eapply str_all_impl; [|exact Hall]. intros c Hc. apply negb_true_iff, Ascii.eqb_neq. by intros ->. }
  rewrite (join_after _ transaction) by done. rewrite (join_prefix _ transaction), <- append_assoc. unfold beneath. rewrite strip_prefix_app. by eexists.
Qed.

Lemma keeps_checked_upgrade state sb trust o :
  o_check o = true -> keeps (fun q => beneath staging q = None) (upgrade w l state sb trust staging o).
Proof.
  intros Hc. assert (keeps (fun q => beneath staging q = None) (select_release w state trust staging o)).
  { apply keeps_select. intros name _ E. destruct (staged_beneath name) as [x Hx]. congruence. }
  unfold upgrade, already_current, emit. rewrite Hc. apply keeps_bind; [done|]. intros sel. destruct (_ && _); [|auto with files].
  apply keeps_bind; [auto with files|]. intros a. apply keeps_bind; [auto with files|]. intros b. rewrite andb_false_r. auto with files.
Qed.

Lemma ensure_dirs_present ps (t t' : Tree) q n : ensure_dirs ps t = Ok t' -> t !! q = Some n -> t' !! q = Some n.
Proof.
  revert t. induction ps as [|p ps IH]; intros t; cbn [ensure_dirs]; [by intros [= <-]|].
  intros (t1 & H1 & H)%result_bind_ok Hq. apply (IH _ H). unfold ensure_dir in H1.
  repeat case_match; simplify_eq; try done. rewrite lookup_insert_ne; [done|congruence].
Qed.

Lemma create_dir_all_present p s q n : tree s !! q = Some n -> tree (fs_create_dir_all p s).2 !! q = Some n.
Proof.
  intros Hq. destruct (fs_create_dir_all p s) as [r s'] eqn:E. cbn [snd].
  apply operation_inv in E as [([] & _ & E)|(k & _ & [->|[m ->]])]; [|done|].
  - apply result_bind_ok in E as (t1 & H1 & [= <-]). by eapply ensure_dirs_present.
  - destruct (ensure_dirs _ (tree s)) eqn:H1; [by eapply ensure_dirs_present|done].
Qed.

Lemma prepare_present s q n :
  beneath staging q = None -> tree s !! q = Some n -> tree (prepare_staging staging s).2 !! q = Some n.
Proof.
  intros Hb Hq. unfold prepare_staging. set (P := fun q => beneath staging q = None).
  assert (keeps P (path_exists staging)) as K1 by (unfold path_exists; keep).
  assert (forall stale : bool, keeps P (if stale then context "remove stale upgrade staging directory" (fs_remove_dir_all staging) else mret ())) as K2.
  { intros [|]; [apply keeps_context, keeps_remove_dir_all|]; auto with files. }
  specialize (K1 s q Hb). rewrite bind_run. destruct (path_exists staging s) as [[stale|e] s1]; cbn [snd] in *; [|congruence].
  specialize (K2 stale s1 q Hb). rewrite bind_run.
  destruct ((if stale then context "remove stale upgrade staging directory" (fs_remove_dir_all staging) else mret ()) s1) as [[[]|e] s2];
    cbn [snd] in *; [|congruence].
  rewrite context_run. cbn [snd]. apply create_dir_all_present. congruence.
Qed.

End Checking.

(** C37. A check changes nothing: whatever fails, every file, link and directory outside
    the staging directory is after [upgrade --check] what it was before. *)
Theorem check_changes_nothing `{SV : Semver, SD : SemverDisplay, SO : SemverOrd, RJ : ReleaseJson J, SH : Sha256, ED : Ed25519,
    SJ : SigningJson} (w : World) l o s r s' staging q n :
  check_options o = Ok () -> o_check o = true -> staging_dir l ("upgrade-" ++ dec_string (pid w)) = Ok staging ->
  run_locked w l o s = (r, s') -> beneath staging q = None -> tree s !! q = Some n -> tree s' !! q = Some n.
Proof.
  intros Ho Hc Hst H Hb Hq. assert (o_rollback o = false) as Hroll.
  { unfold check_options in Ho. rewrite !then_ok, !check_ok, Hc in Ho. destruct (o_rollback o); naive_solver. }
  unfold run_locked in H. rewrite Hroll in H.
  run_step H H1; pose proof (keeps_tree _ _ _ _ (keeps_context _ _ _ (keeps_fs_read _ _)) H1) as E1; rewrite <- E1 in Hq.
  2:{ by injection H as <- <-. }
  rewrite lift_bind in H. destruct (load_state _) as [state|]; [|by injection H as <- <-].
  run_step H H2; pose proof (keeps_tree _ _ _ _ (keeps_validate_active _ _ _ _) H2) as E2; rewrite <- E2 in Hq.
  2:{ by injection H as <- <-. }
  run_step H H3; pose proof (keeps_tree _ _ _ _ (keeps_validate_trust _ _) H3) as E3; rewrite <- E3 in Hq.
  2:{ by injection H as <- <-. }
  rewrite Hst, lift_bind in H. cbn [map_err] in H. pose proof (prepare_present staging _ q n Hb Hq) as Hp.
  run_step H H4; cbn [snd] in Hp; [|by injection H as <- <-].
  rewrite bind_run, attempt_run in H. match type of H with context [upgrade ?a ?b ?c ?d ?e ?f ?g ?x] =>
    pose proof (keeps_checked_upgrade w l _ staging Hst c d e o Hc x q Hb) as Ku; destruct (upgrade a b c d e f g x) as [r5 s5] end.
  assert (s' = (fs_remove_dir_all staging s5).2) as -> by by injection H. cbn [snd] in Ku.
  rewrite (keeps_remove_dir_all (fun q => beneath staging q = None) staging) by auto. congruence.
Qed.

(** ** Sequences of runs *)

Section Sequences.
Context {SV : Semver} {SD : SemverDisplay} {SO : SemverOrd} {J : Type} {RJ : ReleaseJson J} {SH : Sha256} {ED : Ed25519} {SJ : SigningJson}.
Context (l : ManagedLayout).

(** One run of the command on some machine, with any options and any faults *)
Definition run_between (t t' : Tree) : Prop := exists w o fs r s',
  tar_confined w /\ doctor_confined w l /\ run_locked w l o {| tree := t; faults := fs |} = (r, s') /\ tree s' = t'.

(** The trust policy of an installation *)
Definition trusting (t : Tree) (p : TrustPolicy) : Prop :=
  (exists sb, t !! state_file l = Some (File sb)) /\ exists cb, t !! trust_file l = Some (File cb) /\ policy_read cb = Some p.

Lemma run_succeeds t t' p : run_between t t' -> trusting t p -> exists q, trusting t' q /\ rtc succeeds p q.
Proof.
  intros (w & o & fs & r & s' & Htar & Hdoc & H & <-) [[sb Hs] (cb & Ht & Hp)].
  destruct (run_whole w l o {| tree := t; faults := fs |} r s' sb cb Htar Hdoc Hs Ht H) as [_ HS HT]. cbn [tree] in HS. rewrite Hs in HS.
  assert (exists sb', tree s' !! state_file l = Some (File sb')) as Hs' by (destruct HS as [?|[?|(st & b & _ & ?)]]; eauto).
  destruct HT as [HT|(b & (p' & q & Hp' & Hq & Hsucc & _) & HT)].
  - exists p. split; [split; eauto|done].
  - assert (p' = p) as -> by congruence. exists q. split; [split; eauto|by apply rtc_once].
Qed.

Lemma runs_succeed t t' p : rtc run_between t t' -> trusting t p -> exists q, trusting t' q /\ rtc succeeds p q.
Proof.
  intros Hr. revert p. induction Hr as [t|t t1 t' H1 _ IH]; intros p Hp; [by exists p|].
  destruct (run_succeeds _ _ _ H1 Hp) as (q & Hq & Hpq). destruct (IH _ Hq) as (q' & Hq' & Hqq'). exists q'. split; [done|].
  by etrans.
Qed.

End Sequences.

(** C8. A key that an installation has seen revoked never counts for it again: after
    any sequence of upgrades, checks and rollbacks, on machines whose operations
    fail at any point, the installed policy descends from the old one and no
    signature of the key is accepted under it. *)
Theorem revoked_key_never_returns `{SV : Semver, SD : SemverDisplay, SO : SemverOrd, RJ : ReleaseJson J, SH : Sha256, ED : Ed25519,
    SJ : SigningJson} l t t' p id k :
  rtc (run_between l) t t' -> trusting l t p -> find_key id p = Some k -> tk_status k = Revoked ->
  exists q, trusting l t' q /\ rtc succeeds p q /\ forall issued now x, trusted_release_key q id issued now <> Ok x.
Proof.
  intros Hr Ht Hk Hrev. destruct (runs_succeed _ _ _ _ Hr Ht) as (q & Hq & Hpq). exists q. split_and!; [done..|].
  destruct (chain_revoked _ _ _ _ Hpq Hk Hrev) as (k' & Hk' & Hrev'). intros issued now x [_ _ _ Hx Hs _ _]%trusted_release_key_spec.
  congruence.
Qed.
