(* ===== verification/UpgradeAuthThms.v ===== *)
(** * What an upgrade activates

    The link only moves to a release whose manifest and archive the server offered and
    a key of the installed trust policy, or of its successor, signed; the directory it
    then names holds the files the manifest lists. *)

From Stdlib Require Import ZArith Lia Ascii String.
From stdpp Require Import base tactics relations gmap strings list.
From S2P Require Import Prelude Bytes DurableTypes Capability Distribution DistributionThms Tap FsCap Files Evidence Signing Platform Upgrade CapabilityThms FilesThms PathsThms EvidenceThms SigningThms UpgradeThms UpgradeRunThms UpgradeVersionThms UpgradeInstallThms UpgradeSafetyThms.
Open Scope Z_scope.

Section Authentic.
Context {SV : Semver} {SD : SemverDisplay} {SO : SemverOrd} {J : Type} {RJ : ReleaseJson J} {SH : Sha256} {ED : Ed25519} {SJ : SigningJson}.
Context (w : World) (l : ManagedLayout) (transaction staging : string) (Hst : staging_dir l transaction = Ok staging).
Let rt := join_path staging "refreshed-trust.json".

Let mp := join_path staging "selected-release-manifest.json".

(** The server answers a download of [url] with [bytes]. *)
Definition served (d : Download) (url bytes : string) : Prop := exists announced, fetch w d url = Some (announced, bytes).

(** The archive is the one the server offers for the asset, has the size and hash the
    asset lists, and the signature offered with it is by a key the policy trusts. *)
Definition authentic_archive (p : TrustPolicy) (t : Target) (asset : ReleaseAsset) (a : string) : Prop :=
  served GetArchive (ra_archive_url asset) a /\ hex_encode (sha256 a) = ra_sha256 asset /\ len a = ra_byte_size asset
  /\ exists text signature now, served GetArchiveSig (ms_url (ra_signature asset)) text /\ artifact_sig_read text = Some signature
     /\ clock w GetArchiveSig = Ok now /\ archive_signed p now signature (canonical t) a.
(** The manifest is one the server offers, and so is the signature of it by a key the policy trusts. *)
Definition authentic_manifest (p : TrustPolicy) (m : string) : Prop :=
  (exists url, served GetManifest url m)
  /\ exists url text signature now, served GetManifestSig url text /\ metadata_sig_read text = Some signature
     /\ clock w GetManifestSig = Ok now /\ document_signed p now signature m.

(** The archive that is extracted is authentic. *)
Lemma fetch_archive_run (manifest : ReleaseManifest J) asset t s archive s' pb :
  fetch_archive w staging rt manifest asset t s = (Ok archive, s') -> tree s !! rt = Some (File pb) ->
  exists p a, policy_read pb = Some p /\ authentic_archive p t asset a.
Proof.
  unfold fetch_archive. rewrite with_suffix. set (name := ("tysel-" ++ rm_version manifest ++ "-" ++ canonical t ++ ".tar.gz")%string).
  set (path := join_path staging name). intros H Hrt. rewrite require_bind in H. destruct (ra_byte_size asset <=? MAX_ARCHIVE_BYTES); [|done].
  run_step H H1; [|done]. units. apply download_run in H1 as (a & Ha & Hserved & K1).
  assert (path <> rt) as Hne by (intros E%join_inj; done).
  assert (tree f !! rt = Some (File pb)) as Hrt1 by by rewrite K1 by done.
  run_step H H2; [|done]. apply metadata_run with (b := a) in H2 as [-> E2]; [|done].
  rewrite require_bind in H. destruct (_ =? _) eqn:Hlen in H; [|done]. apply Z.eqb_eq in Hlen.
  run_step H H3; [|done]. unfold hash_file in H3. run_step H3 H4; [|done]. apply read_file_run with (b := a) in H4 as [-> E4]; [|by rewrite E2].
  injection H3 as <- <-. rewrite require_bind in H. destruct (String.eqb _ (ra_sha256 asset)) eqn:Hsha; [|done]. apply String.eqb_eq in Hsha.
  run_step H H5; [|done]. units. apply download_run in H5 as (x & Hx & Hxs & K5).
  assert (path <> (path ++ ".sig.json")%string) as Hne2 by (intros E; rewrite <- (append_nil_r path) in E at 1; by apply append_cancel in E).
  assert (rt <> (path ++ ".sig.json")%string) as Hne3.
  { unfold path. rewrite join_prefix, append_assoc, <- join_prefix. intros E%join_inj. done. }
  unfold now_unix in H. rewrite lift_bind in H. destruct (clock w GetArchiveSig) as [now|] eqn:Hnow; [|done].
  run_step H H6; [|done].
  match type of H6 with _ ?x = _ => assert (tree x !! path = Some (File a)) as Ha2 by by rewrite K5, E4, E2 by done end.
  apply verify_artifact_run with (b := a) (pb := pb) in H6 as (p & Hp & Hs & Hsig); [|done|by rewrite K5, E4, E2 by done].
  exists p, a. split; [done|]. do 3 (split; [done|]). eexists x, _, now. split_and!; [done|by apply Hsig|done|done].
Qed.

(** The selected manifest is signed. *)
Lemma resolve_manifest_run requested selected s (manifest : ReleaseManifest J) path s' pb :
  resolve_manifest w rt staging requested selected s = (Ok (manifest, path), s') -> tree s !! rt = Some (File pb) ->
  exists p m, policy_read pb = Some p /\ authentic_manifest p m /\ load_manifest m = Ok manifest
    /\ path = mp /\ tree s' !! mp = Some (File m).
Proof.
  unfold resolve_manifest. intros H Hrt. run_step H H1; [|done]. destruct a as [contract url].
  assert (tree f !! rt = Some (File pb)) as Hrt1.
  { match type of H1 with ?op s = _ => assert (keeps (protected w l staging) op) as K end.
    { destruct requested; unfold parse_semver; [keep|]. apply keeps_bind; [|auto with files].
      assert (forall n, component n <> "refreshed-trust.json"%string -> ~ protected w l staging (join_path staging n)) as Hn
        by (intros; by apply (not_protected w l transaction staging Hst)).
      assert (~ protected w l staging (join_path staging "channel-pointer.json")) by by apply Hn.
      assert (~ protected w l staging (join_path staging "channel-pointer.json.sig.json")) by by apply Hn.
      unfold resolve_pointer, ensure_channel. keep. }
    specialize (K s rt (or_intror eq_refl)). by rewrite H1, Hrt in K. }
  clear H1 Hrt. cbv zeta in H. run_step H H2; [|done]. units. apply download_run in H2 as (m & Hm & Hms & K2).
  run_step H H3; [|done]. units. apply download_run in H3 as (x & Hx & Hxs & K3).
  assert (tree f1 !! mp = Some (File m)) as Hm1 by (rewrite K3; [done|by intros E%join_inj]).
  assert (tree f1 !! rt = Some (File pb)) as Hrt2 by (rewrite K3, K2; [done|by intros E%join_inj..]).
  run_step H H4; [|done]. assert (tree f2 = tree f1) as E4.
  { match type of H4 with ?op f1 = _ => assert (keeps (fun _ => True) op) as K by (destruct contract; keep) end. by eapply keeps_tree. }
  unfold now_unix in H. rewrite lift_bind in H. destruct (clock w GetManifestSig) as [now|] eqn:Hnow; [|done].
  run_step H H5; [|done]. pose proof (keeps_tree _ _ _ _ (keeps_verify_metadata _ _ _ _ _) H5) as E5.
  apply verify_metadata_run with (b := m) (pb := pb) in H5 as (p & Hp & Hs & Hsig); [|by rewrite E4..].
  run_step H H6; [|done]. apply read_file_run with (b := m) in H6 as [-> E6]; [|by rewrite E5, E4].
  rewrite lift_bind in H. destruct (load_manifest m) as [manifest'|] eqn:Hload; [|done]. run_step H H7; [|done].
  assert (tree f5 = tree f4) as E7 by (eapply keeps_tree; [|exact H7]; unfold check_selection, ensure_channel; keep).
  injection H as <- <- <-. exists p, m. split_and!; [done| |done|done|by rewrite E7, E6, E5, E4].
  split; [by eexists|]. eexists _, x, _, now. split_and!; [done|apply Hsig; by rewrite E4|done|done].
Qed.

(** ** Selection and installation *)

Lemma check_manifest_run state o selected trust (manifest : ReleaseManifest J) path s sel s' :
  check_manifest w state o selected trust manifest path s = (Ok sel, s') ->
  sel_manifest sel = manifest /\ sel_manifest_path sel = path /\ semver_parse (rm_version manifest) = Some (sel_next sel)
  /\ List.find (fun a => bool_decide (ra_target a = is_target state)) (rm_assets manifest) = Some (sel_asset sel) /\ tree s' = tree s.
Proof.
  intros H. pose proof (keeps_tree _ _ _ _ (keeps_check_manifest _ _ _ _ _ _ _ _) H) as E.
  unfold check_manifest, parse_semver in H. run_step H Hx; [clear Hx|done].
  rewrite some_or_bind in H. destruct (semver_parse (rm_version manifest)) as [next|]; [|done]. do 3 (run_step H Hx; [clear Hx|done]).
  rewrite some_or_bind in H. destruct (List.find _ _) as [asset|]; [|done]. do 2 (run_step H Hx; [clear Hx|done]).
  by injection H as <- <-.
Qed.

(** The release a selection names, under the policy [pb] *)
Record selected_release (pb : string) (target : Target) (sel : Selection) (m : string) : Prop := {
  sr_policy : exists p, policy_read pb = Some p /\ authentic_manifest p m;
  sr_manifest : load_manifest m = Ok (sel_manifest sel);
  sr_version : semver_parse (rm_version (sel_manifest sel)) = Some (sel_next sel);
  sr_asset : List.find (fun a => bool_decide (ra_target a = target)) (rm_assets (sel_manifest sel)) = Some (sel_asset sel) }.

Lemma select_signed state o s sel s' cb :
  select_release w state (trust_file l) staging o s = (Ok sel, s') -> tree s !! trust_file l = Some (File cb) ->
  sel_trust sel = rt /\ sel_manifest_path sel = mp /\ exists b m, tree s' !! rt = Some (File b) /\ tree s' !! mp = Some (File m)
    /\ (b = cb \/ succession cb b) /\ selected_release b (is_target state) sel m.
Proof.
  intros H Ht. destruct (select_run w l transaction staging Hst _ _ _ _ _ _ H Ht)
    as (Hsel & b & Hb & Hsucc & s1 & s2 & selected & manifest & path & Hb1 & Hm & Hc). split; [done|].
  apply check_manifest_run in Hc as (<- & <- & Hv & Hf & E).
  destruct (resolve_manifest_run _ _ _ _ _ _ _ Hm Hb1) as (p & m & Hp & Ha & Hload & -> & Hmp). split; [done|].
  exists b, m. split_and!; [done|by rewrite E|done|]. split; [by eexists|done..].
Qed.

Context {DL : SemverDisplayLaws SD} (Htar : tar_confined w) (Hplain : tar_plain w) (Hdoc : doctor_confined w l).

(** The tree has no link where versions are kept or releases are extracted. *)
Definition no_links (t : Tree) : Prop := forall q x,
  entry_of (root l) q = Some "versions"%string \/ is_Some (beneath (join_path staging "extract") q) -> t !! q <> Some (Link x).

Lemma version_path v rest : below rest -> entry_of (root l) (version_dir l v ++ rest) = Some "versions"%string.
Proof. intros Hr. apply entry_below; [apply version_entry|done]. Qed.
Lemma beneath_version v q : is_Some (beneath (version_dir l v) q) -> entry_of (root l) q = Some "versions"%string.
Proof. intros Hq. eapply entry_deeper; [apply version_entry|done]. Qed.

(** The switch of an installation: the link is the old one or names the version; one
    that succeeds leaves the policy, and the version directory as it was. *)
Lemma switch_moves next st pb old_link sb pt replaced o rep s r s' :
  tree s !! rt = Some (File pb) -> tree s !! active_bin_link l = Some (Link old_link) ->
  (switch w l next st rt old_link sb pt (version_dir l next) (join_path staging "replaced-version") replaced;; emit o rep) s = (r, s') ->
  (tree s' !! active_bin_link l = Some (Link old_link) \/ tree s' !! active_bin_link l = Some (Link (active_bin_target next)))
  /\ (is_ok r = true -> tree s' !! trust_file l = Some (File pb)
      /\ forall rest, below rest -> tree s' !! (version_dir l next ++ rest)%string = tree s !! (version_dir l next ++ rest)%string).
Proof.
  intros Hrt Hlink H. rewrite bind_run in H. destruct (switch _ _ _ _ _ _ _ _ _ _ _ s) as [rs s3] eqn:Hs.
  assert (s' = s3 /\ is_ok r = is_ok rs) as [-> ->] by (destruct rs; by injection H as <- <-).
  pose proof (switch_whole w l _ _ _ _ _ _ transaction staging _ Hst Hdoc _ _ _ Hrt Hs) as (WB & _). rewrite Hlink in WB.
  split; [set_solver|]. intros Hok. destruct rs as [[]|]; [|done].
  pose proof (switch_run w l _ _ _ _ _ _ transaction staging _ Hst Hdoc _ _ _ Hrt Hs) as [[_ Hr]|(? & _)]; [|done].
  split; [by inversion Hr|]. intros rest Hrest. unfold switch in Hs. rewrite bind_run, attempt_run in Hs.
  assert (keeps (uncontrolled w l) (activate w l next st rt)) as Ka by (eapply keeps_activate; eauto).
  specialize (Ka s (version_dir l next ++ rest)%string).
  destruct (activate w l next st rt s) as [[[]|] s4]; cbn in Hs, Ka.
  - injection Hs as <-. apply Ka. intros [Hv _]%control_entry. by rewrite version_path in Hv.
  - rewrite bind_run in Hs. by destruct (restore _ _ _ _ _ _ _ _ s4) as [[]].
Qed.

(** An installation moves the link only after the archive is authenticated, and only to
    the version of the manifest; one that succeeds leaves the release there. *)
Lemma install_signed state sb o sel s r s' pb cb m :
  tree s !! rt = Some (File pb) -> tree s !! trust_file l = Some (File cb) -> tree s !! mp = Some (File m) -> no_links (tree s) ->
  selected_release pb (is_target state) sel m ->
  install_release w l state sb (trust_file l) staging o rt mp (sel_manifest sel) (sel_asset sel) (sel_current sel) (sel_next sel) s = (r, s') ->
  (tree s' !! active_bin_link l = tree s !! active_bin_link l
   \/ tree s' !! active_bin_link l = Some (Link (active_bin_target (sel_next sel)))
      /\ exists p a, policy_read pb = Some p /\ authentic_archive p (is_target state) (sel_asset sel) a)
  /\ (is_ok r = true -> holds_release (tree s') (version_dir l (sel_next sel)) m (sel_asset sel)
      /\ tree s' !! trust_file l = Some (File pb)).
Proof.
  intros Hrt Ht Hm Hno [_ Hload _ Hfind] H. unfold install_release in H. run_step H H1.
  all: pose proof (stage_release_untouched w Htar l transaction staging Hst _ _ _ _ _ _ _ _ H1) as [K1 Hex].
  2:{ injection H as <- <-. split; [left; apply K1, (protected_untouched w); left; apply control_link|done]. }
  destruct a as [extracted [bytes sha]]. destruct (Hex _ _ eq_refl) as [He Her]. cbv zeta in H.
  assert (exists p a, policy_read pb = Some p /\ authentic_archive p (is_target state) (sel_asset sel) a) as Harchive.
  { pose proof H1 as H2. unfold stage_release in H2. run_step H2 H3; [|done]. by eapply fetch_archive_run. }
  destruct (stage_release_holds w staging Htar Hplain m (sel_manifest sel) (sel_asset sel) (is_target state) Hload Hfind _ _ _ _ _ _ H1 Hm)
    as (-> & Hholds & Hdir & Hm1); [intros q x Hq; apply Hno; by right|]. clear H1.
  assert (forall q, control w l q -> tree f !! q = tree s !! q) as Kc by (intros q Hq; apply K1, (protected_untouched w); by left).
  run_step H H2; pose proof (keeps_tree _ _ _ _ (keeps_context _ _ _ (keeps_read_link _ _)) H2) as E2.
  2:{ injection H as <- <-. rewrite E2. split; [left; apply Kc, control_link|done]. }
  apply context_ok_run, read_link_run in H2 as [Hlink _]. rewrite Kc in Hlink by apply control_link.
  run_step H H3; pose proof (keeps_tree _ _ _ _ (keeps_fs_read _ _) H3) as E3.
  2:{ injection H as <- <-. rewrite E3, E2. split; [left; apply Kc, control_link|done]. }
  pose proof (keeps_publish w l transaction staging Hst mp extracted (sel_next sel) (is_target state) (rm_version (sel_manifest sel)) m He Her f1) as Kp.
  run_step H H4; cbn [snd] in Kp; rewrite E3, E2 in Kp.
  2:{ injection H as <- <-. rewrite Kp by (left; apply control_link). split; [left; apply Kc, control_link|done]. }
  apply (publish_holds w l staging m (sel_manifest sel) (sel_asset sel) (is_target state) Hload Hfind (sel_next sel)) in H4;
    [|done|done|by rewrite E3, E2..|].
  2:{ intros q x Hq%beneath_version. rewrite E3, E2, K1; [apply Hno; by left|left; by rewrite Hq]. }
  assert (tree f2 !! rt = Some (File pb)) as Hrt2 by (rewrite Kp, K1; [done|by right..]).
  assert (tree f2 !! active_bin_link l = Some (Link a)) as Hl2 by (rewrite Kp, Kc, Hlink; [done|apply control_link|left; apply control_link]).
  destruct (switch_moves _ _ _ _ _ _ _ _ _ _ _ _ Hrt2 Hl2 H) as [HB Hok]. rewrite Hlink. split; [destruct HB; auto|].
  intros [Htrust Hkept]%Hok. split; [by eapply holds_kept|done].
Qed.

Lemma select_no_links state trust o s :
  no_links (tree s) -> no_links (tree (select_release w state trust staging o s).2).
Proof.
  intros Hno q x Hq. rewrite (keeps_select w (fun q => entry_of (root l) q = Some "versions"%string
    \/ is_Some (beneath (join_path staging "extract") q))); [by apply Hno| |done].
  intros name Hn [Hv|[y Hy]].
  - by erewrite staged_entry in Hv.
  - rewrite (beneath_extract staging name) in Hy; [done| |done].
    repeat (apply elem_of_cons in Hn as [->|Hn]; [done|]). by apply not_elem_of_nil in Hn.
Qed.

(** When the version is already active the link stays. *)
Lemma keeps_already_current state o current next :
  keeps (fun q => q = active_bin_link l) (already_current w l state (trust_file l) o rt current next).
Proof.
  assert (forall x, keeps (fun q => q = active_bin_link l) (write_bytes_atomically w (trust_file l) x)) as Kw.
  { intros x. unfold write_bytes_atomically. rewrite trust_temp.
    assert (join_path (root l) (".trust.json-new-" ++ dec_string (pid w)) <> active_bin_link l) by (intros E%join_inj; done).
    assert (keeps (fun q => q = active_bin_link l) (fs_rename (join_path (root l) (".trust.json-new-" ++ dec_string (pid w))) (trust_file l))).
    { apply keeps_rename. intros q ->. split; eapply (beneath_other (root l)); try apply entry_name; unfold active_bin_link; rewrite entry_name; discriminate. }
    keep. }
  unfold already_current, confirm_trust_refresh, emit. keep.
Qed.

Lemma upgrade_signed state sb o s r s' cb :
  tree s !! trust_file l = Some (File cb) -> no_links (tree s) -> upgrade w l state sb (trust_file l) staging o s = (r, s') ->
  tree s' !! active_bin_link l <> tree s !! active_bin_link l ->
  exists b m sel p a, (b = cb \/ succession cb b) /\ selected_release b (is_target state) sel m
    /\ policy_read b = Some p /\ authentic_archive p (is_target state) (sel_asset sel) a
    /\ tree s' !! active_bin_link l = Some (Link (active_bin_target (sel_next sel)))
    /\ (is_ok r = true -> holds_release (tree s') (version_dir l (sel_next sel)) m (sel_asset sel)
        /\ tree s' !! trust_file l = Some (File b)).
Proof.
  intros Ht Hno H Hmoved. unfold upgrade in H.
  pose proof (keeps_select_control w l transaction staging Hst state (trust_file l) o s) as K1.
  pose proof (select_no_links state (trust_file l) o s Hno) as Hno1. run_step H H1; cbn [snd] in K1, Hno1.
  2:{ injection H as <- <-. by destruct Hmoved; apply K1, control_link. }
  destruct (select_signed _ _ _ _ _ _ H1 Ht) as (Esel & Epath & b & m & Hb & Hm & Hsucc & Hsel). rewrite Esel, Epath in H.
  rewrite <- (K1 _ (control_link w l)) in Hmoved. rewrite <- (K1 _ (control_trust w l)) in Ht. clear H1 K1.
  destruct (bool_decide _ && _).
  { pose proof (keeps_already_current state o (sel_current a) (sel_next a) f _ eq_refl) as K. by rewrite H in K. }
  destruct (o_check o); [by injection H as <- <-|].
  run_step H H4; pose proof (keeps_tree _ _ _ _ (keeps_confirm_with _ _ _ _ _) H4) as E4; rewrite <- E4 in *.
  2:{ injection H as <- <-. done. }
  destruct (install_signed _ _ _ _ _ _ _ _ _ _ Hb Ht Hm Hno1 Hsel H) as [[?|(Hlink & p & x & Hp & Ha)] Hok]; [done|].
  exists b, m, a, p, x. auto 10.
Qed.

End Authentic.

(** ** The staging area *)

Lemma remove_dir_all_some p s q n : tree (fs_remove_dir_all p s).2 !! q = Some n -> tree s !! q = Some n.
Proof.
  assert (forall ps (t : Tree), delete_all ps t !! q = Some n -> t !! q = Some n) as Hd.
  { intros ps t. induction ps as [|x ps IH]; cbn [delete_all foldr]; [done|]. intros [_ H]%lookup_delete_Some. by apply IH. }
  destruct (fs_remove_dir_all p s) as [r s'] eqn:E. cbn [snd].
  apply operation_inv in E as [([] & _ & E)|(k & _ & [->|[m ->]])]; [|done|].
  - destruct (tree s !! p) as [[| |]|]; try done; injection E as <-; [by intros [_ ?]%lookup_delete_Some|apply Hd].
  - destruct (tree s !! p) as [[| |]|]; try done. apply Hd.
Qed.

Lemma ensure_dirs_link ps (t t' : Tree) q x : ensure_dirs ps t = Ok t' -> t' !! q = Some (Link x) -> t !! q = Some (Link x).
Proof.
  revert t. induction ps as [|p ps IH]; intros t; cbn [ensure_dirs]; [by intros [= <-]|].
  intros (t1 & H1 & H)%result_bind_ok Hq. apply (IH _ H) in Hq. unfold ensure_dir in H1.
  repeat case_match; simplify_eq; try done. by apply lookup_insert_Some in Hq as [[_ ?]|[_ ?]].
Qed.

Lemma prepare_link staging s q x : tree (prepare_staging staging s).2 !! q = Some (Link x) -> tree s !! q = Some (Link x).
Proof.
  unfold prepare_staging. rewrite bind_run.
  assert (tree (path_exists staging s).2 = tree s) as E1.
  { destruct (path_exists staging s) as [r s1] eqn:H. eapply keeps_tree; [|exact H]. unfold path_exists. keep. }
  destruct (path_exists staging s) as [[stale|e] s1]; cbn [snd] in E1; rewrite <- E1; [|done]. rewrite bind_run.
  set (op := if stale then _ else _). assert (forall n, tree (op s1).2 !! q = Some n -> tree s1 !! q = Some n) as H2.
  { intros n. unfold op. destruct stale; [|done]. rewrite context_run. apply remove_dir_all_some. }
  destruct (op s1) as [[[]|e] s2]; cbn [snd] in H2; [|by apply H2]. intros H. apply H2. revert H. rewrite context_run. cbn [snd].
  destruct (fs_create_dir_all staging s2) as [r s3] eqn:E. cbn [snd].
  apply operation_inv in E as [([] & _ & E)|(k & _ & [->|[m ->]])]; [|done|].
  - apply result_bind_ok in E as (t1 & H1 & [= <-]). by eapply ensure_dirs_link.
  - destruct (ensure_dirs _ (tree s2)) eqn:H1; [by eapply ensure_dirs_link|done].
Qed.

(** C2. When a run of the upgrade moves the link, whatever failed on the way, the
    installed trust policy, or one that succeeds it and is signed under it, trusts the
    keys of two signatures the server offered: one of a release manifest it offered, and
    one of the archive for this platform it offered, whose size and hash the manifest
    lists; and the link names the version of that manifest. When the run also reports
    success, the directory of this version holds the manifest and, with the hashes it
    lists, the files of the asset, and the policy is installed. No links are where
    versions are kept or releases staged, and [tar] and the doctor are confined. *)
Theorem upgrade_authenticated `{SV : Semver, SD : SemverDisplay, !SemverDisplayLaws SD, SO : SemverOrd, RJ : ReleaseJson J, SH : Sha256,
    ED : Ed25519, SJ : SigningJson} (w : World) l o s r s' cb :
  tar_confined w -> tar_plain w -> doctor_confined w l -> o_rollback o = false -> tree s !! trust_file l = Some (File cb) ->
  (forall q x, tree s !! q = Some (Link x) -> entry_of (root l) q <> Some "versions"%string /\ entry_of (root l) q <> Some ".staging"%string) ->
  run_locked w l o s = (r, s') -> tree s' !! active_bin_link l <> tree s !! active_bin_link l ->
  exists b p m (manifest : ReleaseManifest J) asset a next, (b = cb \/ succession cb b) /\ policy_read b = Some p
    /\ authentic_manifest w p m /\ load_manifest m = Ok manifest /\ semver_parse (rm_version manifest) = Some next
    /\ (asset ∈ rm_assets manifest) /\ ra_target asset = current_target w /\ authentic_archive w p (current_target w) asset a
    /\ tree s' !! active_bin_link l = Some (Link (active_bin_target next))
    /\ (is_ok r = true -> holds_release (tree s') (version_dir l next) m asset /\ tree s' !! trust_file l = Some (File b)).
Proof.
  intros Htar Hplain Hdoc Hroll Ht Hlinks H Hmoved. unfold run_locked in H. rewrite Hroll in H.
  run_step H H1; pose proof (keeps_tree _ _ _ _ (keeps_context _ _ _ (keeps_fs_read _ _)) H1) as E1; rewrite <- E1 in Ht, Hmoved, Hlinks.
  2:{ by injection H as <- <-. }
  rewrite lift_bind in H. destruct (load_state _) as [state|]; [|by injection H as <- <-].
  run_step H H2; pose proof (keeps_tree _ _ _ _ (keeps_validate_active _ _ _ _) H2) as E2; rewrite <- E2 in Ht, Hmoved, Hlinks.
  2:{ by injection H as <- <-. }
  assert (is_target state = current_target w) as Htarget.
  { unfold validate_active_install in H2. rewrite require_bind in H2. destruct (bool_decide _) eqn:Hb; [|done]. by apply bool_decide_eq_true in Hb. }
  run_step H H3; pose proof (keeps_tree _ _ _ _ (keeps_validate_trust _ _) H3) as E3; rewrite <- E3 in Ht, Hmoved, Hlinks.
  2:{ by injection H as <- <-. }
  rewrite lift_bind in H. destruct (staging_dir l _) as [staging|] eqn:Hst; cbn [map_err] in H; [|by injection H as <- <-].
  pose proof (keeps_prepare w l _ _ Hst f1) as Kp. pose proof (prepare_link staging f1) as Lp. run_step H H4; cbn [snd] in Kp, Lp.
  2:{ injection H as <- <-. destruct Hmoved. apply Kp, control_link. }
  assert (no_links l staging (tree f2)) as Hno.
  { intros q x Hq Hl%Lp. apply Hlinks in Hl as [Hv Hs]. destruct Hq as [Hq|Hq]; [done|]. apply Hs.
    eapply entry_deeper; [|exact Hq]. by eapply staged_entry. }
  rewrite bind_run, attempt_run in H. destruct (upgrade _ _ _ _ _ _ _ f2) as [r5 s5] eqn:H5. cbn [fst snd] in H.
  assert (s' = (fs_remove_dir_all staging s5).2 /\ r = r5) as [-> ->] by by injection H.
  pose proof (keeps_remove_dir_all (control w l) staging (control_apart w l _ _ Hst) s5) as Kr.
  rewrite (Kr _ (control_link w l)), <- (Kp _ (control_link w l)) in Hmoved. rewrite <- (Kp _ (control_trust w l)) in Ht.
  destruct (upgrade_signed w l _ _ Hst Htar Hplain Hdoc _ _ _ _ _ _ _ Ht Hno H5 Hmoved)
    as (b & m & sel & p & x & Hsucc & [(p' & Hp' & Hm) Hload Hv Hf] & Hp & Ha & Hlink & Hok).
  assert (p' = p) as -> by congruence. apply List.find_some in Hf as [Hin Hat]. apply bool_decide_eq_true in Hat. rewrite Htarget in *.
  exists b, p, m, (sel_manifest sel), (sel_asset sel), x, (sel_next sel). rewrite (Kr _ (control_link w l)), (Kr _ (control_trust w l)).
  split_and!; [done..|by apply list_elem_of_In|done|done|done|]. intros [Hh Htr]%Hok. split; [|done].
  eapply holds_kept; [|exact Hh]. intros rest Hrest.
  apply (keeps_remove_dir_all (fun q => beneath staging q = None)); [done|].
  eapply beneath_other; [by eapply staging_entry|]. by rewrite version_path.
Qed.
