(* ===== verification/UpgradeSample.v ===== *)
(** * A managed installation, its server and its programs

    Concrete parameters for the upgrade command: an installation of version 1.0.0, a
    server that offers 2.0.0 with a refreshed trust policy, and runs of it. *)

From Stdlib Require Import ZArith Lia Ascii String.
From stdpp Require Import base tactics relations gmap strings list.
From S2P Require Import Prelude Bytes DurableTypes Capability Distribution DistributionThms Tap FsCap Files FilesThms PathsThms Evidence Signing SigningThms Platform Upgrade UpgradeThms UpgradeRunThms UpgradeVersionThms UpgradeInstallThms UpgradeSafetyThms UpgradeAuthThms.
Open Scope Z_scope.

(** ** Libraries *)

#[global] Existing Instance prefix_sha.
#[global] Existing Instance sample_ed25519.

Definition version_of (major : Z) : SemVersion := {| sv_major := major; sv_minor := 0; sv_patch := 0; sv_pre := ""; sv_build := "" |}.
#[global] Instance two_semver : Semver := {| semver_parse s :=
  if String.eqb s "1.0.0" then Some (version_of 1) else if String.eqb s "2.0.0" then Some (version_of 2) else None |}.
#[global] Instance two_display : SemverDisplay := {| semver_to_string v := if sv_major v =? 1 then "1.0.0"%string else "2.0.0"%string |}.
#[global] Instance two_display_laws : SemverDisplayLaws two_display.
Proof. constructor. intros v. cbn [semver_to_string two_display]. by destruct (sv_major v =? 1). Qed.
#[global] Instance two_ord : SemverOrd := {| semver_compare a b := Z.compare (sv_major a) (sv_major b) |}.

Definition seed : string := sample_public "k".
Definition installed_policy : TrustPolicy := sample_policy 1000 [sample_key "a" Revoked None; sample_key "k" Active None].
Definition refreshed_policy : TrustPolicy := sample_policy 1100 [sample_key "a" Revoked None; sample_key "k" Active None].
(** The signature of a document is its text after a mark. *)
#[global] Instance marked_json : SigningJson := {|
  evidence_sig_read _ := None; evidence_sig_pretty _ := None; metadata_sig_pretty _ := None; artifact_sig_pretty _ := None;
  metadata_sig_read s := document ← strip_prefix "signed " s; Some (metadata_signature seed 1200 (bundle_hash document));
  artifact_sig_read s := document ← strip_prefix "signed " s; Some (artifact_signature seed 1200 "linux-x64" (bundle_hash document));
  policy_read s := if String.eqb s "policy 1" then Some installed_policy
    else if String.eqb s "policy 2" then Some refreshed_policy else None |}.

(** ** Releases *)

Definition binaries : list string := ["tysel"; "tysel-service"; "tysel-worker"]%string.
Definition info (version binary : string) : BuildInfo := build_info_current LinuxX64 (Some hex40) (Some version) binary version.
Definition release (version : string) : ReleaseManifest () :=
  {| rm_schema_version := 1; rm_version := version; rm_source_commit := hex40; rm_published_at := "2026-01-01T00:00:00Z";
     rm_channel := Stable; rm_minimum_updater_version := "1.0.0";
     rm_compatibility := {| minimum_tap_version := 1; maximum_tap_version := 1;
       capability_abi_version := "1.0.0"; types_version := "1.0.0" |};
     rm_required_features := [BuildInfoV1; Ed25519Manifest]; rm_optional_features := ∅;
     rm_assets := [{| ra_target := LinuxX64; ra_archive_url := "https://e.org/a"; ra_byte_size := 7;
       ra_sha256 := hex_encode (sha256 "archive");
       ra_signature := {| ms_algorithm := Distribution.Ed25519; ms_url := "https://e.org/s"; ms_key_id := hex64 |};
       ra_files := (fun b => {| ef_path := "bin/" ++ b; ef_sha256 := hex_encode (sha256 (version ++ b)) |}%string) <$> binaries;
       ra_build_info := info version <$> binaries;
       ra_platform := {| minimum_glibc := Some "2.31"%string; minimum_kernel := Some "5.13"%string; minimum_macos := None |} |}] |}.
Definition install_state (active : string) (previous : option string) : InstallState :=
  {| is_schema_version := 1; is_active_version := active; is_previous_version := previous; is_channel := Stable; is_target := LinuxX64;
     is_install_method := Installer; is_manifest_sha256 := hex64 |}.
#[global] Instance named_json : ReleaseJson () := {|
  manifest_read s := version ← strip_prefix "manifest " s; Some (release version);
  pointer_read _ := None;
  state_read s := if String.eqb s "state 1" then Some (install_state "1.0.0" None)
    else if String.eqb s ("state 2.0.0" ++ newline) then Some (install_state "2.0.0" (Some "1.0.0"%string)) else None;
  state_pretty st := Some ("state " ++ is_active_version st)%string;
  build_info_read s := '(version, binary) ← split_once " " s; Some (info version binary) |}.

(** ** The machine *)

(** A binary holds its version and its name. *)
Definition answer_identity (t : Tree) (p : string) : ChildOutcome :=
  match t !! p with
  | Some (File b) => Exited true (str_take 5 b ++ " " ++ str_drop 5 b)
  | _ => NotStarted
  end.
Definition put_binaries (dir version : string) (t : Tree) : Tree :=
  foldr (fun b => <[(dir ++ "/bin/" ++ b)%string := File (version ++ b)]>) t binaries.
Definition unpacked (dir : string) (t : Tree) : Tree :=
  let top := (dir ++ "/tysel-2.0.0-linux-x64")%string in
  <[top := Directory]> (<[(top ++ "/bin")%string := Directory]> (put_binaries top "2.0.0" t)).
Definition body (d : Download) : string :=
  match d with
  | GetTrust => "policy 2" | GetTrustSig => "signed policy 2" | GetPointer | GetPointerSig => ""
  | GetManifest => "manifest 2.0.0" | GetManifestSig => "signed manifest 2.0.0"
  | GetArchive => "archive" | GetArchiveSig => "signed archive"
  end.
Definition machine (healthy : bool) : World := {|
  fetch d _ := Some (None, body d); clock _ := Ok 1300; client := Ok ();
  tar_list _ := Some (true, "tysel-2.0.0-linux-x64/bin/tysel")%string; tar_details _ := Some (true, "-rwxr-xr-x tysel")%string;
  tar_extract _ dir t := (Some true, unpacked dir t);
  identity := answer_identity; detected := {| glibc := Ok "2.35"; kernel := Ok "6.1"; macos := Ok "" |}%string;
  doctor t := (Exited healthy "", t); terminal := false; answer := Ok ""%string;
  pid := 7; updater_version := "1.0.0"; download_base := None; current_target := LinuxX64 |}.

Definition layout : ManagedLayout := {| root := "/t" |}.
Definition managed : Tree :=
  <["/t"%string := Directory]> (<["/t/bin"%string := Link "versions/v1.0.0/bin"]> (<["/t/state.json"%string := File "state 1"]>
    (<["/t/trust.json"%string := File "policy 1"]> (<["/t/versions"%string := Directory]> (<["/t/versions/v1.0.0"%string := Directory]>
    (<["/t/versions/v1.0.0/release-manifest.json"%string := File "manifest 1.0.0"]>
      (put_binaries "/t/versions/v1.0.0" "1.0.0" ∅))))))).
Definition options (check rollback : bool) : Options :=
  {| o_check := check; o_version := if rollback then None else Some "2.0.0"%string; o_channel := None; o_yes := true; o_force := false;
     o_rollback := rollback; o_json := false |}.
Definition command (healthy check rollback : bool) (s : Fs) : result Failure Printed * Fs :=
  run_locked (machine healthy) layout (options check rollback) s.
Definition seen (s : Fs) : list (option Node) := (fun p => tree s !! p) <$> ["/t/bin"; "/t/state.json"; "/t/trust.json"]%string.


(** ** What is asked of the machine *)

Lemma beneath_slash dir x : beneath dir (dir ++ String "/" x) = Some (String "/" x).
Proof. unfold beneath. by rewrite strip_prefix_app. Qed.

Lemma machine_tar healthy : tar_confined (machine healthy).
Proof.
  intros bytes dir t listing details members entries q _ _ _ _ _ _ Hq. cbn [tar_extract machine snd]. unfold unpacked, put_binaries, binaries.
  assert (forall x, q <> (dir ++ String "/" x)%string) as Hne.
  { intros x ->. by rewrite beneath_slash in Hq. }
  cbn [foldr]. rewrite !append_assoc. cbn [append]. rewrite !lookup_insert_ne by (symmetry; apply Hne). done.
Qed.

Lemma machine_plain healthy : tar_plain (machine healthy).
Proof.
  intros bytes dir t q target _. cbn [tar_extract machine snd]. unfold unpacked, put_binaries, binaries. cbn [foldr].
  repeat (intros [[_ ?]|[_ H]]%lookup_insert_Some; [done|]; revert H). done.
Qed.

(** The only link of the installation is the one to the active version. *)
Lemma managed_links q x : managed !! q = Some (Link x) -> q = "/t/bin"%string.
Proof.
  unfold managed, put_binaries, binaries. cbn [foldr].
  repeat (intros [[<- ?]|[_ H]]%lookup_insert_Some; [done|]; revert H). by rewrite lookup_empty.
Qed.

Lemma machine_doctor healthy : doctor_confined (machine healthy) layout.
Proof. by intros t q _. Qed.

(** ** Runs *)

(** The release is installed; an unhealthy one is not; a check only looks. *)
Example sample_upgrades :
  (command true false false (still managed)).1 = Ok (PrintedLine "upgraded Tysel from 1.0.0 to 2.0.0")
  /\ seen (command true false false (still managed)).2
     = [Some (Link "versions/v2.0.0/bin"); Some (File ("state 2.0.0" ++ newline)); Some (File "policy 2")]
  /\ (command false false false (still managed)).1
     = Err (Context "upgrade activation failed; previous release was restored" (Bail "post-switch doctor failed"))
  /\ seen (command false false false (still managed)).2 = seen (still managed)
  /\ (command true true false (still managed)).1 = Ok (PrintedLine "upgrade available: 1.0.0 -> 2.0.0").
Proof. vm_compute. auto 10. Qed.

(** The installation at the switch *)
Definition staged : Fs := {|
  tree := <["/t/.staging/upgrade-7/refreshed-trust.json"%string := File "policy 2"]> managed;
  faults := [Works; Works; Works; Works; Works; Fails false] |}.
Definition next_state : InstallState := install_state "2.0.0" (Some "1.0.0"%string).
Definition sample_switch : result Failure () * Fs :=
  switch (machine true) layout (version_of 2) next_state "/t/.staging/upgrade-7/refreshed-trust.json" "versions/v1.0.0/bin" "state 1" "policy 1"
    (version_dir layout (version_of 2)) "/t/.staging/upgrade-7/replaced-version" false staged.

Lemma switch_all_or_nothing_witness :
  sample_switch.1 <> Ok () /\ forall q, q = active_bin_link layout \/ q = state_file layout \/ q = trust_file layout ->
    tree sample_switch.2 !! q = tree staged !! q.
Proof.
  split; [vm_compute; discriminate|].
  apply (switch_all_or_nothing (machine true) layout (version_of 2) next_state "policy 2" "versions/v1.0.0/bin" "state 1" "policy 1"
    "upgrade-7" "/t/.staging/upgrade-7" false staged sample_switch.1 sample_switch.2).
  - apply machine_doctor.
  - vm_compute. reflexivity.
  - vm_compute. reflexivity.
  - vm_compute. reflexivity.
  - vm_compute. reflexivity.
  - vm_compute. reflexivity.
  - unfold sample_switch. apply surjective_pairing.
  - vm_compute. discriminate.
  - vm_compute. reflexivity.
Defined.

(** A damaged 2.0.0, and the extracted one that is to replace it *)
Definition extracted_release : string := "/t/.staging/upgrade-7/extract/tysel-2.0.0-linux-x64".
Definition damaged : Fs := still (<["/t/versions/v2.0.0"%string := Directory]> (<["/t/versions/v2.0.0/notes"%string := File "kept"]>
  (unpacked "/t/.staging/upgrade-7/extract" (tree staged)))).
Definition repaired : result Failure bool * Fs :=
  publish_version (machine false) "/t/.staging/upgrade-7/release-manifest.json" extracted_release (version_dir layout (version_of 2))
    "/t/.staging/upgrade-7/replaced-version" LinuxX64 "2.0.0" "manifest 2.0.0" damaged.
Definition unhealthy_switch : result Failure () * Fs :=
  switch (machine false) layout (version_of 2) next_state "/t/.staging/upgrade-7/refreshed-trust.json" "versions/v1.0.0/bin" "state 1" "policy 1"
    (version_dir layout (version_of 2)) "/t/.staging/upgrade-7/replaced-version" true repaired.2.

Lemma replaced_version_restored_witness :
  tree repaired.2 !! "/t/versions/v2.0.0/notes"%string = None /\ tree unhealthy_switch.2 !! "/t/versions/v2.0.0/notes"%string = Some (File "kept").
Proof.
  split; [vm_compute; reflexivity|].
  change (Some (File "kept")) with (tree damaged !! "/t/versions/v2.0.0/notes"%string).
  apply (replaced_version_restored (machine false) layout (version_of 2) next_state "upgrade-7" "/t/.staging/upgrade-7" extracted_release
    "/t/.staging/upgrade-7/release-manifest.json" LinuxX64 "2.0.0" "manifest 2.0.0" "/t/.staging/upgrade-7/refreshed-trust.json"
    "versions/v1.0.0/bin" "state 1" "policy 1" damaged repaired.2 unhealthy_switch.1 unhealthy_switch.2).
  - apply machine_doctor.
  - vm_compute. reflexivity.
  - vm_compute. reflexivity.
  - vm_compute. reflexivity.
  - vm_compute. reflexivity.
  - vm_compute. reflexivity.
  - vm_compute. reflexivity.
  - unfold unhealthy_switch. apply surjective_pairing.
  - vm_compute. discriminate.
  - vm_compute. reflexivity.
  - vm_compute. eauto.
Defined.

Lemma check_changes_nothing_witness :
  tree (command true true false (still managed)).2 !! trust_file layout = Some (File "policy 1").
Proof.
  apply (check_changes_nothing (machine true) layout (options true false) (still managed) (command true true false (still managed)).1
    (command true true false (still managed)).2 "/t/.staging/upgrade-7").
  - vm_compute. reflexivity.
  - vm_compute. reflexivity.
  - vm_compute. reflexivity.
  - unfold command. apply surjective_pairing.
  - vm_compute. reflexivity.
  - vm_compute. reflexivity.
Defined.

Lemma managed_files_whole_witness :
  exists b, succession "policy 1" b /\ tree (command true false false (still managed)).2 !! trust_file layout = Some (File b).
Proof.
  destruct (managed_files_whole (machine true) layout (options false false) (still managed) (command true false false (still managed)).1
    (command true false false (still managed)).2 "state 1" "policy 1") as (_ & _ & [H|H]).
  - apply machine_tar.
  - apply machine_doctor.
  - vm_compute. reflexivity.
  - vm_compute. reflexivity.
  - unfold command. apply surjective_pairing.
  - exfalso. revert H. vm_compute. discriminate.
  - exact H.
Defined.

Lemma revoked_key_never_returns_witness :
  exists q, trusting layout (tree (command true false false (still managed)).2) q
    /\ forall issued now x, trusted_release_key q (bundle_hash (sample_public "a")) issued now <> Ok x.
Proof.
  destruct (revoked_key_never_returns layout managed (tree (command true false false (still managed)).2) installed_policy
    (bundle_hash (sample_public "a")) (sample_key "a" Revoked None)) as (q & Hq & _ & H).
  - apply rtc_once. exists (machine true), (options false false), [], (command true false false (still managed)).1,
      (command true false false (still managed)).2.
    split; [apply machine_tar|]. split; [apply machine_doctor|]. split; [|reflexivity]. unfold command. apply surjective_pairing.
  - split; [exists "state 1"%string|exists "policy 1"%string; split]; vm_compute; reflexivity.
  - vm_compute. reflexivity.
  - reflexivity.
  - exists q. split; [exact Hq|exact H].
Defined.

Lemma upgrade_authenticated_witness :
  let s' := (command true false false (still managed)).2 in
  exists b p m (manifest : ReleaseManifest ()) asset a next, (b = "policy 1" \/ succession "policy 1" b)%string /\ policy_read b = Some p
    /\ authentic_manifest (machine true) p m /\ load_manifest m = Ok manifest /\ semver_parse (rm_version manifest) = Some next
    /\ authentic_archive (machine true) p LinuxX64 asset a /\ tree s' !! active_bin_link layout = Some (Link (active_bin_target next))
    /\ holds_release (tree s') (version_dir layout next) m asset.
Proof.
  destruct (upgrade_authenticated (machine true) layout (options false false) (still managed) (command true false false (still managed)).1
    (command true false false (still managed)).2 "policy 1") as (b & p & m & manifest & asset & a & next & H1 & H2 & H3 & H4 & H5 & _ & _ & H6 & H7 & H8).
  - apply machine_tar.
  - apply machine_plain.
  - apply machine_doctor.
  - reflexivity.
  - vm_compute. reflexivity.
  - intros q x ->%managed_links. split; vm_compute; discriminate.
  - unfold command. apply surjective_pairing.
  - vm_compute. discriminate.
  - assert (is_ok (command true false false (still managed)).1 = true) as Hok by (vm_compute; reflexivity). destruct (H8 Hok) as [H9 _].
    exists b, p, m, manifest, asset, a, next. exact (conj H1 (conj H2 (conj H3 (conj H4 (conj H5 (conj H6 (conj H7 H9))))))).
Defined.

(** ** A rollback that is not undone *)

(** The installation after the upgrade, where the twenty-second operation fails: the
    hash of the manifest, right after the link was switched *)
Definition after_upgrade : Tree := tree (command true false false (still managed)).2.
Definition failing_hash : Fs := {| tree := after_upgrade; faults := replicate 21 Works ++ [Fails false] |}.

(** C38. A rollback whose hash of the manifest fails, right after it has switched the
    link, reports the failure and restores nothing: the link names the old version
    and the state the new one, and from then on every run is refused, though every
    operation works. *)
Theorem rollback_left_switched :
  let s' := (command true false true failing_hash).2 in
  (command true false true failing_hash).1 = Err (Io OtherIo)
  /\ tree s' !! active_bin_link layout = Some (Link (active_bin_target (version_of 1)))
  /\ tree s' !! state_file layout = after_upgrade !! state_file layout
  /\ load_state ("state 2.0.0" ++ newline) = Ok next_state
  /\ forall healthy check back, (command healthy check back (still (tree s'))).1 = Err (Bail "managed state and active bin link disagree").
Proof.
  cbv zeta. split_and!; [vm_compute; reflexivity..|]. intros [] [] []; vm_compute; reflexivity.
Qed.
