(* ===== verification/UpgradeLock.v ===== *)
(** * The lock of managed operations ([UpgradeLock] of [crates/tysel-cli/src/upgrade.rs])

    Processes that acquire the lock, hold it, drop it or die, one operation of one of
    them at a time. A process is where it is in [acquire]; the schedule says which
    operation fails and when the five seconds are over. *)

From Stdlib Require Import ZArith Lia Ascii String.
From stdpp Require Import base tactics gmap strings list.
From S2P Require Import Prelude Bytes Distribution FsCap Files.
Open Scope Z_scope.

(** ** Stale locks *)

Definition i32_max : Z := 2147483647.
(** [str::parse::<i32>] *)
Definition parse_i32 (s : string) : option Z :=
  match s with
  | String "-" (String "+" _) => None
  | String "-" s' => n ← from_str_radix 10 (i32_max + 1) s'; Some (- n)
  | _ => from_str_radix 10 i32_max s
  end.
(** The process a lock names, as [stale_lock] reads it *)
Definition named_pid (n : option Node) : option Z :=
  match n with Some (File b) => s ← from_utf8 b; parse_i32 (trim s) | _ => None end.
(** What [acquire] writes into its candidate *)
Definition lock_text (pid : Z) : string := dec_string pid ++ newline.

(** ** Processes *)

(** Where a process is: with the candidate it made, from [Writing] on *)
Inductive Phase :=
| Starting (now : Z)
| Writing (candidate : string)
| Linking (candidate : string)
| Unlinking (candidate : string)
| Reading (candidate : string)
| Probing (candidate : string) (pid : Z)
| Removing (candidate : string)
| Holding
| Finished.

(** The directory of the lock, the processes [kill] finds, and the ones in [acquire] *)
Record System := { dir : Tree; alive : gset Z; procs : gmap Z Phase }.

(** Whether the operation fails, and whether the time is over *)
Record Choice := { fault : bool; elapsed : bool }.

Section Lock.
Context (l : ManagedLayout).

Definition candidate_path (pid now : Z) : string :=
  with_file_name (upgrade_lock l) (".upgrade-lock-" ++ dec_string pid ++ "-" ++ dec_string now).

(** One operation of [UpgradeLock::acquire], of [stale_lock] or of the drop *)
Definition advance (pid : Z) (c : Choice) (running : gset Z) (phase : Phase) (t : Tree) : option (Phase * Tree) :=
  let path := upgrade_lock l in
  match phase with
  | Starting now =>
      let candidate := candidate_path pid now in
      if fault c then Some (Finished, t)
      else match t !! candidate with
           | Some _ => Some (Finished, t)
           | None => Some (Writing candidate, <[candidate := File ""]> t)
           end
  | Writing candidate =>
      if fault c then Some (Finished, t) else Some (Linking candidate, <[candidate := File (lock_text pid)]> t)
  | Linking candidate =>
      if fault c then Some (Finished, delete candidate t)
      else match t !! candidate, t !! path with
           | None, _ => Some (Finished, t)
           | Some n, None => Some (Unlinking candidate, <[path := n]> t)
           | Some _, Some _ => if elapsed c then Some (Finished, delete candidate t) else Some (Reading candidate, t)
           end
  | Unlinking candidate =>
      if fault c then Some (Finished, t)
      else match t !! candidate with
           | Some _ => Some (Holding, delete candidate t)
           | None => Some (Finished, t)
           end
  | Reading candidate =>
      if fault c then Some (Linking candidate, t)
      else match named_pid (t !! path) with
           | Some q => Some (Probing candidate q, t)
           | None => Some (Linking candidate, t)
           end
  | Probing candidate q => Some (if bool_decide (q ∈ running) then Linking candidate else Removing candidate, t)
  | Removing candidate => Some (Linking candidate, if fault c then t else delete path t)
  | Holding => Some (Finished, if fault c then t else delete path t)
  | Finished => None
  end.

(** A process starts, does one operation, or ends, wherever it is *)
Inductive Label := Spawn (pid now : Z) | Run (pid : Z) (c : Choice) | Exit (pid : Z).

Definition lock_step (a : Label) (s : System) : option System :=
  match a with
  | Spawn p now =>
      if bool_decide (p ∈ alive s) || negb (in_range 1 i32_max p) then None
      else Some {| dir := dir s; alive := {[p]} ∪ alive s; procs := <[p := Starting now]> (procs s) |}
  | Run p c =>
      phase ← procs s !! p;
      '(phase', t') ← advance p c (alive s) phase (dir s);
      Some {| dir := t'; alive := alive s; procs := <[p := phase']> (procs s) |}
  | Exit p =>
      if bool_decide (p ∈ alive s)
      then Some {| dir := dir s; alive := alive s ∖ {[p]}; procs := delete p (procs s) |}
      else None
  end.
Fixpoint lock_run (tr : list Label) (s : System) : option System :=
  match tr with [] => Some s | a :: tr' => s' ← lock_step a s; lock_run tr' s' end.

End Lock.
