(* ===== verification/UpgradeLockThms.v ===== *)
(** * Who holds the lock

    One process at a time, as long as no process ends while the lock names it or
    while another is about to probe it; a process that ends in between, even after it
    has dropped the lock, lets two hold it. A stale lock is taken over. *)

From Stdlib Require Import ZArith Lia Ascii String.
From stdpp Require Import base tactics gmap strings list.
From S2P Require Import Prelude Bytes Capability CapabilityThms Distribution FsCap Files FilesThms PathsThms SigningThms UpgradeLock.
Open Scope Z_scope.

(** ** The text of a lock *)

Lemma digit_code c : is_ascii_digit c = true -> 48 <= byte_code c <= 57.
Proof. unfold is_ascii_digit. by intros ?%in_range_spec. Qed.

Lemma ws_low a x y : 48 <= a <= 57 ->
  ascii_ws a = false /\ ws2 a x = false /\ ws2 x a = false /\ ws3 a x y = false /\ ws3 y x a = false.
Proof.
  intros Ha. split_and!; apply not_true_is_false; intros E; unfold ascii_ws, ws2, ws3 in E;
    rewrite ?orb_true_iff, ?andb_true_iff, ?orb_true_iff, ?Z.eqb_eq, ?in_range_spec in E; lia.
Qed.

Lemma digit_no_ws c s : is_ascii_digit c = true -> ws_prefix (String c s) = 0%nat /\ ws_suffix (String c s) = 0%nat.
Proof.
  intros Hc%digit_code. pose proof (ws_low (byte_code c)) as H. cbn [ws_prefix ws_suffix].
  rewrite (proj1 (H 0 0 Hc)). destruct s as [|x s]; [done|].
  destruct (H (byte_code x) 0 Hc) as (_ & -> & -> & _). destruct s as [|y s]; [done|].
  destruct (H (byte_code x) (byte_code y) Hc) as (_ & _ & _ & -> & ->). done.
Qed.

Lemma trim_digits d c :
  (forall s, ws_suffix (String c s) = 1%nat) -> str_all is_ascii_digit d = true -> d <> ""%string -> trim (d ++ String c "") = d.
Proof.
  intros Hc Hd Hne. unfold trim. assert (trim_start (d ++ String c "") = d ++ String c "")%string as ->.
  { unfold trim_start. destruct d as [|x d]; [done|]. cbn [str_all] in Hd. apply andb_true_iff in Hd as [Hx _]. rewrite append_cons.
    cbn [String.length strip_ws]. by rewrite (proj1 (digit_no_ws x _ Hx)). }
  unfold trim_end. rewrite str_rev_append, append_length. cbn [String.length].
  replace (String.length d + 1)%nat with (S (String.length d)) by lia.
  change (str_rev (String c "")) with (String c ""). rewrite append_cons. change ("" ++ str_rev d)%string with (str_rev d).
  cbn [strip_ws]. rewrite Hc. cbn [str_drop]. transitivity (str_rev (str_rev d)); [|apply str_rev_involutive]. f_equal.
  assert (str_all is_ascii_digit (str_rev d) = true) as Hr.
  { clear Hne. induction d as [|x d IH]; [done|]. cbn [str_all] in Hd. apply andb_true_iff in Hd as [Hx Hd].
    rewrite str_rev_cons, str_all_append, IH by done. cbn. by rewrite Hx. }
  destruct (String.length d) as [|k]; [done|]. destruct (str_rev d) as [|x r]; [done|]. cbn [str_all] in Hr.
  apply andb_true_iff in Hr as [Hx _]. cbn [strip_ws]. by rewrite (proj2 (digit_no_ws x _ Hx)).
Qed.

Lemma dec_string_parse hi z : 0 <= z <= hi -> hi <= u64_max -> from_str_radix 10 hi (dec_string z) = Some z.
Proof.
  intros Hz Hh. assert (z < 10 ^ Z.of_nat (digits_needed 10 39 z)) as Hb.
  { apply digits_needed_bound. split; [lia|]. unfold u64_max in Hh. change (10 ^ Z.of_nat 39) with (10 ^ 39). lia. }
  pose proof (parse_format_fixed 10 hi (digits_needed 10 39 z) 0 z "" ltac:(lia) ltac:(lia) ltac:(lia) ltac:(lia)) as H.
  rewrite append_nil_r in H. unfold dec_string. pose proof (dec_string_digits z ltac:(lia)) as Hd. unfold dec_string in Hd.
  unfold from_str_radix. destruct (format_fixed 10 (digits_needed 10 39 z) z) as [|c s] eqn:E.
  - assert (digits_needed 10 39 z <> 0)%nat as Hn by (cbn [digits_needed]; by destruct (z <? 10)).
    apply (f_equal String.length) in E. rewrite format_fixed_length in E. done.
  - destruct (Ascii.eqb c "+") eqn:Ec; [|exact H]. apply Ascii.eqb_eq in Ec as ->. done.
Qed.

(** Reading what [acquire] wrote gives the process. *)
Lemma named_lock_text p : in_range 1 i32_max p = true -> named_pid (Some (File (lock_text p))) = Some p.
Proof.
  intros Hp%in_range_spec. unfold named_pid, lock_text, newline. pose proof (dec_string_digits p ltac:(lia)) as Hd.
  rewrite utf8_ascii.
  2:{ rewrite str_all_append. cbn. rewrite andb_true_r. eapply str_all_impl; [|exact Hd]. intros c ?%digit_code. lia. }
  change (mbind ?f (Some ?x)) with (f x). cbv beta.
  pose proof (dec_string_parse i32_max p ltac:(lia) ltac:(unfold i32_max, u64_max; lia)) as Hparse.
  rewrite trim_digits; [|done..|by intros E; rewrite E in Hparse].
  unfold parse_i32. destruct (dec_string p) as [|c s] eqn:E; [done|]. cbn [str_all] in Hd. apply andb_true_iff in Hd as [Hc _].
  destruct c as [[] [] [] [] [] [] [] []]; done.
Qed.

Lemma lock_text_inj p q : in_range 1 i32_max p = true -> in_range 1 i32_max q = true -> lock_text p = lock_text q -> p = q.
Proof. intros Hp%named_lock_text Hq%named_lock_text E. congruence. Qed.

(** ** The invariant *)

Definition candidate_of (ph : Phase) : option string :=
  match ph with
  | Writing c | Linking c | Unlinking c | Reading c | Probing c _ | Removing c => Some c
  | Starting _ | Holding | Finished => None
  end.
Definition owns (ph : Phase) : bool := match ph with Unlinking _ | Holding => true | _ => false end.

Section Exclusion.
Context (l : ManagedLayout).

(** What holds of a process where it is: its candidate names it, the process it
    probes runs, the lock it made names it; and none is about to remove a lock. *)
Definition phase_ok (t : Tree) (running : gset Z) (p : Z) (ph : Phase) : Prop :=
  match ph with
  | Starting _ | Finished => True
  | Writing c => is_Some (t !! c)
  | Linking c | Reading c => t !! c = Some (File (lock_text p))
  | Probing c q => t !! c = Some (File (lock_text p)) /\ q ∈ running
  | Unlinking c => t !! c = Some (File (lock_text p)) /\ t !! upgrade_lock l = Some (File (lock_text p))
  | Holding => t !! upgrade_lock l = Some (File (lock_text p))
  | Removing _ => False
  end.
Definition lock_ok (t : Tree) (running : gset Z) : Prop :=
  forall n, t !! upgrade_lock l = Some n -> exists q, n = File (lock_text q) /\ q ∈ running /\ in_range 1 i32_max q = true.

Record lock_inv (s : System) : Prop := {
  li_lock : lock_ok (dir s) (alive s);
  li_running : forall p ph, procs s !! p = Some ph -> p ∈ alive s /\ in_range 1 i32_max p = true;
  li_phase : forall p ph, procs s !! p = Some ph -> phase_ok (dir s) (alive s) p ph;
  li_apart : forall p ph c, procs s !! p = Some ph -> candidate_of ph = Some c -> c <> upgrade_lock l;
  li_distinct : forall p q ph ph' c, procs s !! p = Some ph -> procs s !! q = Some ph' ->
    candidate_of ph = Some c -> candidate_of ph' = Some c -> p = q;
}.

Lemma candidate_apart p now : candidate_path l p now <> upgrade_lock l.
Proof. unfold candidate_path, upgrade_lock. rewrite with_file_name_join by done. by intros E%join_inj. Qed.

Lemma phase_candidate t running p ph c : phase_ok t running p ph -> candidate_of ph = Some c -> is_Some (t !! c).
Proof. destruct ph; cbn; try done; intros H [= <-]; [done|..]; first [by rewrite H|by rewrite (proj1 H)]. Qed.

(** What another process does not touch keeps a phase. *)
Lemma phase_frame t t' running p ph :
  phase_ok t running p ph -> (forall c, candidate_of ph = Some c -> t' !! c = t !! c) ->
  (owns ph = true -> t' !! upgrade_lock l = t !! upgrade_lock l) -> phase_ok t' running p ph.
Proof. destruct ph; cbn; intros H Hc Ho; rewrite ?Hc, ?Ho by done; done. Qed.

Record advanced (running : gset Z) (p : Z) (ph ph' : Phase) (t t' : Tree) : Prop := {
  ad_phase : phase_ok t' running p ph';
  ad_lock : lock_ok t' running;
  ad_others : forall c, is_Some (t !! c) -> c <> upgrade_lock l -> candidate_of ph <> Some c -> t' !! c = t !! c;
  ad_path : t' !! upgrade_lock l = t !! upgrade_lock l \/ t !! upgrade_lock l = None \/ ph = Holding;
  ad_candidate : forall c, candidate_of ph' = Some c -> candidate_of ph = Some c \/ t !! c = None /\ c <> upgrade_lock l;
}.

(** Steps that change nothing, a candidate, or the lock *)
Lemma advanced_same running p ph ph' t :
  phase_ok t running p ph' -> lock_ok t running -> (forall c, candidate_of ph' = Some c -> candidate_of ph = Some c) ->
  advanced running p ph ph' t t.
Proof. intros Hp Hl Hc. split; auto. Qed.

Lemma advanced_candidate running p ph ph' t t' c :
  candidate_of ph = Some c \/ t !! c = None -> c <> upgrade_lock l -> (forall q, q <> c -> t' !! q = t !! q) ->
  phase_ok t' running p ph' -> lock_ok t running -> (forall c', candidate_of ph' = Some c' -> c' = c) ->
  advanced running p ph ph' t t'.
Proof.
  intros Hc Hne Ht Hp Hl Hc'. split.
  - done.
  - unfold lock_ok. by rewrite Ht by congruence.
  - intros c0 Hs Hn0 Hcand. apply Ht. intros ->. destruct Hc as [?|E]; [done|]. rewrite E in Hs. by destruct Hs.
  - left. apply Ht. congruence.
  - intros c0 ->%Hc'. naive_solver.
Qed.

Lemma linking_ok p c running x ph' t t' :
  in_range 1 i32_max p = true -> p ∈ running -> lock_ok t running -> phase_ok t running p (Linking x) -> x <> upgrade_lock l ->
  advance l p c running (Linking x) t = Some (ph', t') -> advanced running p (Linking x) ph' t t'.
Proof.
  cbn [advance phase_ok]. intros Hp Hr Hl Hph Hne H.
  assert (advanced running p (Linking x) Finished t (delete x t)) as Hdel.
  { eapply (advanced_candidate _ _ _ _ _ _ x); [by left|done| |done..]. intros q Hq. by rewrite lookup_delete_ne. }
  destruct (fault c); [by injection H as <- <-|]. rewrite Hph in H. destruct (t !! upgrade_lock l) as [n|] eqn:E.
  - destruct (elapsed c); injection H as <- <-; [done|]. by apply advanced_same.
  - injection H as <- <-. split; cbn [phase_ok candidate_of].
    + by rewrite lookup_insert_eq, lookup_insert_ne by congruence.
    + intros n. rewrite lookup_insert_eq. intros [= <-]. eauto.
    + intros c0 _ Hn _. by rewrite lookup_insert_ne by congruence.
    + by right; left.
    + by left.
Qed.

Lemma advance_ok p c running ph ph' t t' :
  in_range 1 i32_max p = true -> p ∈ running -> lock_ok t running -> phase_ok t running p ph ->
  (forall x, candidate_of ph = Some x -> x <> upgrade_lock l) ->
  advance l p c running ph t = Some (ph', t') -> advanced running p ph ph' t t'.
Proof.
  intros Hp Hr Hl Hph Hne H. pose proof (candidate_apart p) as Hcand. destruct ph as [now|x|x|x|x|x q|x| |]; cbn [advance] in H.
  - destruct (fault c); [injection H as <- <-; by apply advanced_same|].
    destruct (t !! candidate_path l p now) eqn:E; injection H as <- <-; [by apply advanced_same|].
    eapply advanced_candidate; [by right|done| |cbn; rewrite lookup_insert_eq; eauto|done|by intros ? [= <-]].
    intros q Hq. by rewrite lookup_insert_ne.
  - specialize (Hne x eq_refl). destruct (fault c); injection H as <- <-; [by apply advanced_same|].
    eapply (advanced_candidate _ _ _ _ _ _ x); [by left|done| |cbn; by rewrite lookup_insert_eq|done|by intros ? [= <-]].
    intros q Hq. by rewrite lookup_insert_ne.
  - eapply linking_ok; eauto.
  - specialize (Hne x eq_refl). cbn [phase_ok] in Hph. destruct Hph as [Hx Hlk].
    destruct (fault c); [injection H as <- <-; by apply advanced_same|]. rewrite Hx in H. injection H as <- <-.
    eapply (advanced_candidate _ _ _ _ _ _ x); [by left|done| |cbn; by rewrite lookup_delete_ne|done..].
    intros q Hq. by rewrite lookup_delete_ne.
  - destruct (fault c); [injection H as <- <-; by apply advanced_same|].
    destruct (t !! upgrade_lock l) as [n|] eqn:E; [|injection H as <- <-; by apply advanced_same].
    destruct (Hl n E) as (q & -> & Hq & Hrange). rewrite named_lock_text in H by done. injection H as <- <-. by apply advanced_same.
  - destruct Hph as [Hx Hq]. rewrite bool_decide_eq_true_2 in H by done. injection H as <- <-. by apply advanced_same.
  - done.
  - cbn [phase_ok] in Hph. destruct (fault c); injection H as <- <-; [by apply advanced_same|]. split; cbn [phase_ok candidate_of].
    + done.
    + intros n. by rewrite lookup_delete_eq.
    + intros c0 _ Hn _. by rewrite lookup_delete_ne by congruence.
    + by right; right.
    + done.
  - done.
Qed.

Lemma run_inv s p c s' : lock_inv s -> lock_step l (Run p c) s = Some s' -> lock_inv s'.
Proof.
  intros [IL IR IP IA ID] H. cbn [lock_step] in H. apply bind_Some in H as (ph & Hp & H).
  apply bind_Some in H as ([ph' t'] & Ha & [= <-]). destruct (IR _ _ Hp) as [Hr Hrange].
  apply advance_ok in Ha as [AP AL AO APa AC]; [|by eauto..].
  assert (forall q phq, q <> p -> procs s !! q = Some phq -> phase_ok t' (alive s) q phq) as Hothers.
  { intros q phq Hqp Hq. eapply phase_frame; [by apply IP| |].
    - intros x Hx. apply AO; [by eapply phase_candidate; [apply IP|]|by eapply IA|]. intros Hx'. destruct Hqp. by eapply ID.
    - intros Ho. assert (dir s !! upgrade_lock l = Some (File (lock_text q))) as Hlk.
      { pose proof (IP _ _ Hq) as Hpq. destruct phq; try done. by destruct Hpq. }
      destruct APa as [?|[?| ->]]; [done|congruence|]. destruct Hqp.
      pose proof (IP _ _ Hp) as Hh. cbn [phase_ok] in Hh. rewrite Hh in Hlk. injection Hlk as Hlk.
      symmetry. apply lock_text_inj; [done|by apply (IR _ _ Hq)|done]. }
  split; cbn [dir alive procs].
  - done.
  - intros q phq [[<- _]|[_ Hq]]%lookup_insert_Some; [done|by eapply IR].
  - intros q phq [[<- <-]|[Hn Hq]]%lookup_insert_Some; [done|by apply Hothers].
  - intros q phq x [[<- <-]|[_ Hq]]%lookup_insert_Some Hx; [|by eapply IA]. apply AC in Hx as [Hx|[_ ?]]; [by eapply IA|done].
  - assert (forall q phq x, q <> p -> procs s !! q = Some phq -> candidate_of phq = Some x -> candidate_of ph' <> Some x) as Hfresh.
    { intros q phq x Hqp Hq Hx Hx'. apply AC in Hx' as [Hx'|[Hx' _]]; [destruct Hqp; by eapply ID|].
      destruct (phase_candidate _ _ _ _ _ (IP _ _ Hq) Hx). congruence. }
    intros a b pha phb x [[<- <-]|[Hna Ha]]%lookup_insert_Some [[<- <-]|[Hnb Hb]]%lookup_insert_Some Hxa Hxb; [done|..].
    + by destruct (Hfresh b phb x).
    + by destruct (Hfresh a pha x).
    + by eapply ID.
Qed.

Lemma spawn_inv s p now s' : lock_inv s -> lock_step l (Spawn p now) s = Some s' -> lock_inv s'.
Proof.
  intros [IL IR IP IA ID] H. cbn [lock_step] in H. destruct (bool_decide (p ∈ alive s)) eqn:Hp; [done|].
  destruct (in_range 1 i32_max p) eqn:Hrange; [|done]. injection H as <-. split; cbn [dir alive procs].
  - intros n Hn. destruct (IL n Hn) as (q & -> & Hq & ?). exists q. split_and!; [done|set_solver|done].
  - intros q phq [[<- _]|[_ Hq]]%lookup_insert_Some; [set_solver|]. destruct (IR _ _ Hq). set_solver.
  - intros q phq [[<- <-]|[_ Hq]]%lookup_insert_Some; [done|]. pose proof (IP _ _ Hq) as Hph. destruct phq; try done.
    destruct Hph. split; [done|set_solver].
  - intros q phq x [[<- <-]|[_ Hq]]%lookup_insert_Some Hx; [done|by eapply IA].
  - intros a b pha phb x [[<- <-]|[Hna Ha]]%lookup_insert_Some [[<- <-]|[Hnb Hb]]%lookup_insert_Some Hxa Hxb; try done. by eapply ID.
Qed.

(** A process ends quietly when the lock does not name it and none is about to probe it. *)
Definition probes (p : Z) (ph : Phase) : bool := match ph with Probing _ q => bool_decide (q = p) | _ => false end.
Definition quiet (a : Label) (s : System) : bool :=
  match a with
  | Exit p => negb (bool_decide (dir s !! upgrade_lock l = Some (File (lock_text p))))
      && forallb (fun '(_, ph) => negb (probes p ph)) (map_to_list (procs s))
  | _ => true
  end.
Fixpoint quiet_run (tr : list Label) (s : System) : bool :=
  match tr with
  | [] => true
  | a :: tr' => quiet a s && match lock_step l a s with Some s' => quiet_run tr' s' | None => true end
  end.

Lemma exit_inv s p s' : lock_inv s -> quiet (Exit p) s = true -> lock_step l (Exit p) s = Some s' -> lock_inv s'.
Proof.
  intros [IL IR IP IA ID] Hq H. cbn [lock_step quiet] in *. destruct (bool_decide (p ∈ alive s)); [|done]. injection H as <-.
  apply andb_true_iff in Hq as [Hnamed Hprobe]. apply negb_true_iff, bool_decide_eq_false in Hnamed. rewrite forallb_forall in Hprobe.
  split; cbn [dir alive procs].
  - intros n Hn. destruct (IL n Hn) as (q & -> & Hq & ?). exists q. split_and!; [done| |done].
    assert (q <> p) by congruence. set_solver.
  - intros q phq [Hne Hq]%lookup_delete_Some. destruct (IR _ _ Hq). set_solver.
  - intros q phq [Hne Hq]%lookup_delete_Some. pose proof (IP _ _ Hq) as Hph. destruct phq as [| | | | |c r| | |]; try done.
    destruct Hph as [? Hr]. split; [done|].
    assert (negb (probes p (Probing c r)) = true) as Hpr.
    { apply (Hprobe (q, Probing c r)), list_elem_of_In, elem_of_map_to_list. done. }
    cbn in Hpr. apply negb_true_iff, bool_decide_eq_false in Hpr. set_solver.
  - intros q phq x [_ Hq]%lookup_delete_Some. by eapply IA.
  - intros a b pha phb x [_ Ha]%lookup_delete_Some [_ Hb]%lookup_delete_Some. by eapply ID.
Qed.

Lemma quiet_run_inv tr s s' : lock_inv s -> quiet_run tr s = true -> lock_run l tr s = Some s' -> lock_inv s'.
Proof.
  revert s. induction tr as [|a tr IH]; intros s Hs Hq H; cbn [lock_run quiet_run] in *; [by injection H as <-|].
  apply andb_true_iff in Hq as [Ha Hq]. apply bind_Some in H as (s1 & H1 & H). rewrite H1 in Hq. eapply IH; [|done|done].
  destruct a; [by eapply spawn_inv|by eapply run_inv|by eapply exit_inv].
Qed.

End Exclusion.

(** No process, and no lock *)
Definition idle (t : Tree) : System := {| dir := t; alive := ∅; procs := ∅ |}.

(** C39. The lock excludes: however the operations of any number of processes
    interleave and whichever of them fail, two processes never hold it at once, as
    long as no process ends while the lock names it or another is about to probe it. *)
Theorem lock_exclusive l t tr s p q :
  t !! upgrade_lock l = None -> quiet_run l tr (idle t) = true -> lock_run l tr (idle t) = Some s ->
  procs s !! p = Some Holding -> procs s !! q = Some Holding -> p = q.
Proof.
  intros Ht Hq H Hp Hq'. assert (lock_inv l (idle t)) as Hi.
  { split; cbn [dir alive procs idle]; [intros n; congruence|..]; intros;
    match goal with E : ∅ !! _ = Some _ |- _ => by rewrite lookup_empty in E end. }
  destruct (quiet_run_inv l _ _ _ Hi Hq H) as [_ IR IP _ _].
  pose proof (IP _ _ Hp) as Ep. pose proof (IP _ _ Hq') as Eq. cbn [phase_ok] in *. rewrite Ep in Eq. injection Eq as Eq.
  apply lock_text_inj; [by apply (IR _ _ Hp)|by apply (IR _ _ Hq')|done].
Qed.

Definition works : Choice := {| fault := false; elapsed := false |}.
Definition steps (n : nat) (p : Z) : list Label := replicate n (Run p works).
Definition home : ManagedLayout := {| root := "/t" |}.
(** One takes the lock, another waits for it, the first drops it and ends, the other takes it. *)
Definition handover : list Label :=
  Spawn 1 50 :: steps 4 1 ++ Spawn 2 51 :: steps 5 2 ++ steps 1 1 ++ steps 2 2 ++ [Exit 1].

Definition handed_over : System := default (idle ∅) (lock_run home handover (idle ∅)).

Lemma lock_exclusive_witness :
  procs handed_over !! 2 = Some Holding /\ forall q, procs handed_over !! q = Some Holding -> 2 = q.
Proof.
  split; [vm_compute; reflexivity|]. intros q.
  apply (lock_exclusive home ∅ handover handed_over).
  - vm_compute. reflexivity.
  - vm_compute. reflexivity.
  - vm_compute. reflexivity.
  - vm_compute. reflexivity.
Defined.

(** Three processes: the second reads that the first holds the lock, the first drops
    it and ends, the third takes it, and the second, finding the first gone, removes
    the lock of the third and takes it too. *)
Definition race : list Label :=
  Spawn 1 50 :: steps 4 1 ++ Spawn 2 51 :: steps 4 2 ++ steps 1 1 ++ Exit 1 :: Spawn 3 52 :: steps 4 3 ++ steps 4 2.

(** C40. Two processes can hold the lock at once although nothing fails and no process
    ends before it has dropped it: between the reading of the lock and the removal
    of a stale one the lock may have become another's. *)
Theorem lock_race :
  exists s, lock_run home race (idle ∅) = Some s
    /\ procs s !! 2 = Some Holding /\ procs s !! 3 = Some Holding /\ procs s !! 1 = None /\ quiet_run home race (idle ∅) = false.
Proof. eexists. split; [vm_compute; reflexivity|]. vm_compute. auto. Qed.

(** ** Runs of one process *)

Lemma run_advance l p c tr t running others ph ph' t' :
  advance l p c running ph t = Some (ph', t') ->
  lock_run l (Run p c :: tr) {| dir := t; alive := running; procs := <[p := ph]> others |}
  = lock_run l tr {| dir := t'; alive := running; procs := <[p := ph']> others |}.
Proof. intros H. cbn [lock_run lock_step procs dir alive]. rewrite lookup_insert_eq. cbn. rewrite H. cbn. by rewrite insert_insert_eq. Qed.

Lemma run_spawn l p now tr t running others :
  p ∉ running -> in_range 1 i32_max p = true ->
  lock_run l (Spawn p now :: tr) {| dir := t; alive := running; procs := others |}
  = lock_run l tr {| dir := t; alive := {[p]} ∪ running; procs := <[p := Starting now]> others |}.
Proof. intros Hp Hr. cbn [lock_run lock_step alive dir procs]. by rewrite bool_decide_eq_false_2, Hr by done. Qed.

(** A lock left behind is taken over: when it names a process that is gone, a
    process that runs alone and whose operations work holds it after nine steps,
    and has left no candidate. *)
Theorem stale_lock_taken_over l t running others p q now :
  t !! upgrade_lock l = Some (File (lock_text q)) -> in_range 1 i32_max q = true -> q <> p -> q ∉ running ->
  in_range 1 i32_max p = true -> p ∉ running -> t !! candidate_path l p now = None ->
  exists s, lock_run l (Spawn p now :: steps 8 p) {| dir := t; alive := running; procs := others |} = Some s
    /\ procs s !! p = Some Holding /\ dir s !! upgrade_lock l = Some (File (lock_text p)) /\ dir s !! candidate_path l p now = None.
Proof.
  intros Hlk Hq Hqp Hgone Hp Hnew Hcand. pose proof (candidate_apart l p now) as Hne. set (c := candidate_path l p now) in *.
  rewrite run_spawn by done. cbn [steps replicate].
  erewrite run_advance by (cbn [advance works fault]; fold c; by rewrite Hcand).
  erewrite run_advance by reflexivity.
  erewrite run_advance by (cbn [advance works fault elapsed]; rewrite insert_insert_eq, lookup_insert_eq, lookup_insert_ne, Hlk by done; reflexivity).
  erewrite run_advance by (cbn [advance works fault]; rewrite lookup_insert_ne, Hlk, named_lock_text by done; reflexivity).
  erewrite run_advance by (cbn [advance]; rewrite bool_decide_eq_false_2 by set_solver; reflexivity).
  erewrite run_advance by reflexivity.
  erewrite run_advance by (cbn [advance works fault]; rewrite lookup_delete_eq, lookup_delete_ne, lookup_insert_eq by done; reflexivity).
  erewrite run_advance by (cbn [advance works fault]; rewrite lookup_insert_ne, lookup_delete_ne, lookup_insert_eq by done; reflexivity).
  eexists. split; [reflexivity|]. cbn [procs dir].
  by rewrite lookup_insert_eq, lookup_delete_eq, lookup_delete_ne, lookup_insert_eq by done.
Qed.

Lemma stale_lock_taken_over_witness :
  exists s, lock_run home (Spawn 8 60 :: steps 8 8)
      {| dir := <["/t/upgrade.lock"%string := File (lock_text 7)]> ∅; alive := {[5]}; procs := ∅ |} = Some s
    /\ procs s !! 8 = Some Holding.
Proof.
  destruct (stale_lock_taken_over home (<["/t/upgrade.lock"%string := File (lock_text 7)]> ∅) {[5]} ∅ 8 7 60) as (s & H & Hh & _).
  - vm_compute. reflexivity.
  - reflexivity.
  - discriminate.
  - set_solver.
  - reflexivity.
  - set_solver.
  - vm_compute. reflexivity.
  - exists s. split; [exact H|exact Hh].
Defined.
